(* ===== verification/_CoqProject ===== *)
-Q . S2P
Prelude.v
Endian.v
ByteArray.v
ByteArrayFacts.v
ByteArrayCodec.v
ByteArrayCodecFacts.v
ByteArrayIov.v
ByteArrayProps.v
Hash.v
HashProps.v
Util.v
UtilProps.v
UtilSys.v
Locks.v
Thread.v
ThreadProps.v
OrdSet.v
Timer.v
TimerProps.v
FDManager.v
FDManagerProps.v
Coroutine.v
CoroutineProps.v
Scheduler.v
SchedulerProps.v
IOManager.v
IOManagerProps.v
Hook.v
HookProps.v
HookCalls.v
EventLoop.v
EventLoopProps.v
OrdMap.v
LogFormatter.v
LogFormatterProps.v
Log.v
LogProps.v
Config.v
ConfigProps.v
Http.v
HttpProps.v
Address.v
AddressProps.v
Uri.v
Ragel.v
UriParser.v
UriParserProps.v
Socket.v
SocketProps.v
TcpServer.v
TcpServerProps.v
Servlet.v
ServletProps.v
Stream.v
StreamProps.v
Zlib.v
ZlibProps.v
HttpParser.v
HttpGrammar.v
HttpSession.v
HttpSessionProps.v
HttpGrammarProps.v
HttpStages.v
HttpRoundtrip.v
HttpConnection.v
HttpConnectionProps.v
HttpResponseStages.v
HttpResponseRoundtrip.v
HttpChunks.v
HttpExchange.v
HttpPool.v
HttpPoolProps.v
WebSocket.v
WebSocketProps.v
WsServer.v
WsServerProps.v
