(* ===== verification/Prelude.v ===== *)
(** * Tiger: a verification development for the tiger network library

    Tiger is a C++ library of coroutines, a scheduler on worker threads, an IO manager on
    epoll with timers, system calls that yield instead of blocking, sockets and streams, and
    HTTP and WebSocket servers and clients on top of them, with logging and configuration
    beside.  This library models the code under [src/src] as executable definitions, one file
    per component, and proves what makes the components correct; where the code does not do
    what it means to, the behaviour it has is proved.

    ** How the code is modelled

    A function is a Rocq function on the values of its arguments; a method is a function on
    the state of its object ([meth], this file), so that what a call changed before it threw
    stays visible.  An outcome ([res]) is a value, an exception or a kind of undefined
    behaviour: null dereference, access outside a buffer, use after free, a value that was
    never written, a lock released by another thread, signed overflow, shift out of range, a
    failed assertion, a loop that does not end.  A theorem that a call returns therefore also
    says that it is free of these.  Integers are [Z] with their wrap-around written where the
    code has it ([wrap], [to_signed]); bytes are lists of [Z]; shared objects live in a store
    by address.  Threads and coroutines are programs with a program counter, and the step
    relations are the sets of interleavings.

    Code outside the repository is a parameter (digests, [fnmatch], [getaddrinfo], the clock,
    [strftime], [rand]) or an interface with the laws that its documentation gives; each
    interface has an instance, which the witnesses use: the kernel's epoll set
    ([IOManager.Epoll]) and the task queue ([IOManager.TaskQueue], which the scheduler
    implements), the socket calls ([Socket.Net], with what they do to descriptors
    and endpoints in [NetLaws] and [BindLaws] of [SocketProps]; [Socket.Ssl]), a connection
    that transfers in pieces ([Stream.Conn]), zlib ([Zlib.Zlib], [ZlibLaws]), YAML trees and
    basic types ([Config.Yaml], [BasicTypes], [LexicalLaws]), the state machines of the HTTP parsers ([HttpParser.RequestMachine],
    [ResponseMachine], which [HttpGrammar] implements), what a scoped lock needs of a lock
    ([Locks.Lock], [LockLaws]), and the handlers of WebSocket messages ([WsServer.WSUser]).

    A loop whose bound is not structural takes fuel and is undefined ([Diverges]) without it.
    The fuel is the number of bytes that are left wherever a round consumes one (varints,
    Base64, URL coding, parameters, patterns, exact transfers); for frames, rounds of a server
    and calls of the kernel it is a parameter, and the theorems say how much is enough.

    ** Files

    - [Prelude]: outcomes, machine integers, byte lists and their lemmas, tactics, hints.
    - [Endian] ([endian.h]): byte swapping and object representations, on both byte orders.
    - [ByteArray], [ByteArrayCodec] ([bytearray.h], [bytearray.cc]): the chain of blocks with
      its cursor, and the typed fields on it.  [ByteArrayFacts] has the invariant [wf] and
      the flat buffer that the chain refines, [ByteArrayCodecFacts] the codecs as a class
      ([Codec]), [ByteArrayIov] the scatter/gather buffers, [ByteArrayProps] the theorems.
    - [Hash], [HashProps] ([hash.cc]): Base64 and the digests around OpenSSL's.
    - [Util], [UtilProps], [UtilSys] ([util.cc]): names, URL coding, trimming; clocks,
      formatting, wide strings and files.
    - [Locks] ([mutex.h], [mutex.cc]): semaphores, locks, and scoped locks of many threads.
    - [Thread], [ThreadProps] ([thread.h], [thread.cc]): the start of a thread, [join], the
      destructor, names and ids, condition variables.
    - [OrdSet], [OrdMap]: [std::set] and [std::map] on a comparator ([StrictTotal]).
    - [Timer], [TimerProps] ([timer.h], [timer.cc]): timers in an ordered set of shared
      objects.
    - [FDManager], [FDManagerProps] ([fdmanager.h], [fdmanager.cc]): the table of descriptors.
    - [Coroutine], [CoroutineProps] ([coroutine.h], [coroutine.cc]): one thread and its
      coroutines as a machine in which a context is the code still to be executed.
    - [Scheduler], [SchedulerProps] ([scheduler.h], [scheduler.cc]): the task queue with
      workers and callers; the step relation [sstep] is the set of interleavings.
    - [IOManager], [IOManagerProps] ([iomanager.h], [iomanager.cc]): the event contexts.
    - [EventLoop], [EventLoopProps] ([iomanager.cc]): rounds of [idle] with the timers, the
      pipe of [tickle], the constructor and the destructor.
    - [Hook], [HookProps], [HookCalls] ([hook.h], [hook.cc]): the system calls that wait in
      the IO manager, with everything else that may happen while they wait as a relation.
    - [LogFormatter], [LogFormatterProps], [Log], [LogProps] ([log.h], [log.cc]): patterns,
      appenders, loggers and their manager.
    - [Config], [ConfigProps] ([config.h], [config.cc]): typed variables by name, conversions
      and loading.
    - [Address], [AddressProps] ([address.h], [address.cc]): IPv4, IPv6 and Unix addresses.
    - [Socket], [SocketProps] ([socket.h], [socket.cc]): sockets and TLS sockets with the
      descriptors they own.
    - [TcpServer], [TcpServerProps] ([servers/tcp_server.h], [tcp_server.cc]).
    - [Stream], [StreamProps] ([streams/stream.cc], [socket_stream.cc]): exact transfers over
      a connection, into plain buffers and byte arrays.
    - [Zlib], [ZlibProps] ([streams/zlib_stream.h], [zlib_stream.cc]): compressed streams.
    - [Http], [HttpProps] ([servers/http/http.h], [http.cc]): methods, statuses, requests and
      responses (Modules [HTTPRequest], [HTTPResponse]) with their case-insensitive maps.
    - [Uri] ([uri.h]), [Ragel], [UriParser], [UriParserProps] ([uri.rl]): URIs, and their
      parser as the grammar of the source, run by a machine of partial derivatives.
    - [HttpParser] ([servers/http/http_parser.h], [http_parser.cc], the code around the
      machines in [http_request_parser.rl] and [http_response_parser.rl]) and [HttpGrammar],
      the grammars of these two files with their actions, run by the machine of [Ragel].
      [HttpGrammarProps], [HttpStages] and [HttpResponseStages] follow the machines from place
      to place; [HttpRoundtrip] and [HttpResponseRoundtrip] show that what is printed and
      received is the same message, [HttpChunks] that a response in chunks is received with
      the data of its chunks, and [HttpExchange] composes requests and responses with the
      client and the server.
    - [HttpSession], [HttpSessionProps] ([servers/http/http_session.cc], [http_server.cc]),
      [HttpConnection], [HttpConnectionProps], [HttpPool], [HttpPoolProps]
      ([http_connection.h], [http_connection.cc]): the server's side, the client's side, and
      the pool of the client's connections.
    - [Servlet], [ServletProps] ([servers/http/http_servlet.h], [http_servlet.cc]): the
      tables of servlets.
    - [WebSocket], [WebSocketProps] ([servers/http/ws_session.cc], [ws_connection.cc]): frames
      and messages of both ends, and the handshake; [WsServer], [WsServerProps]
      ([ws_servlet.cc], [ws_server.cc], [ws_connection.cc]): servlets, server and client.

    ** What the theorems show

    Refinement: the byte array implements a flat buffer with a position, errors included,
    also through the buffers of [readv] and [writev] and through a stream; the event contexts
    are the set of waiters of the kernel's registrations, and every waiter removed is
    scheduled.  Invariants over all executions and interleavings: an accepted task is queued,
    held, dispatched once, or dropped at the test of its coroutine's state, where the
    coroutine runs or has ended; the current coroutine of a thread and no
    other runs; scoped locks exclude each other, unless a thread locks again what it has
    locked for writing; a thread begins its callback once and is done when it was joined;
    every descriptor is in one place or lost by an [accept] that the table refuses, and every
    connection of a pool is in one place; timers stay ordered and their handles valid.
    Round trips: fields of all kinds, Base64, URL coding, log patterns, configuration as text
    where YAML needs no quotes, URIs, HTTP requests and responses, compressed streams, WebSocket messages in fragments.
    Functional behaviour: what a waiting system call returns and leaves behind, when a round
    of the event loop ends its wait and what it runs, which events reach which appender, what client and server get of
    an HTTP exchange, which responses in chunks arrive, and that binding gives every address a
    listening socket or fails as a whole.
    Ends: waiting calls time out, constructors of threads return, patterns are parsed.
    Defects, as theorems about the code as it is: a lost wake-up of the scheduler, a reader
    that a hang-up does not wake, timers whose reset keeps the deadline, lengths in the wrong
    byte order, a header that comes in two reads, a URI with an empty port, a name set in a
    thread whose object is gone; the others are lemmas and examples beside the definitions.

    ** What is not modelled

    Macros, [singleton.h] and the constants.  Log lines that the components write are left
    out, and so are the spin locks of the objects: where a method holds one it is one step.
    Allocation succeeds, except where a codec of the byte array has it as a parameter.  Bit
    fields are laid out as on a little-endian host.  Of the platform the kernel, pthread,
    OpenSSL, zlib and the YAML library appear as interfaces with the behaviour that is
    documented of them. *)

From stdpp Require Import base list numbers strings.
From Stdlib Require Import Lia ZArith.

#[global] Open Scope Z_scope.

Declare Scope tiger_scope.
Delimit Scope tiger_scope with tiger.
#[global] Open Scope tiger_scope.

(** ** Outcomes of C++ code

    A C++ call either returns, throws an exception of the standard library, or
    runs into undefined behaviour.  The last is kept as a value, so that a
    theorem that an operation returns also says that it is memory safe. *)

Inductive exn :=
| out_of_range
| logic_error
| invalid_argument
| bad_alloc
| runtime_error.

Inductive ub :=
| NullDeref
| DivByZero
| BufferOverflow
| SignedOverflow
| ShiftRange
| AssertFail
| UseAfterFree
| Uninitialized
| NotHeld
| Diverges.

Inductive res (A : Type) :=
| Ret (a : A)
| Throw (e : exn)
| Undef (u : ub).
Arguments Ret {A} a.
Arguments Throw {A} e.
Arguments Undef {A} u.

Definition res_bind {A B} (m : res A) (k : A -> res B) : res B :=
  match m with
  | Ret a => k a
  | Throw e => Throw e
  | Undef u => Undef u
  end.

Notation "'let?' x ':=' m 'in' k" := (res_bind m (fun x => k))
  (at level 10, x pattern, m at level 100, k at level 200)
  : tiger_scope.

(** A method of an object: it may change the object before it throws. *)
Definition meth (S A : Type) := S -> res A * S.

Definition ret {S A} (a : A) : meth S A := fun s => (Ret a, s).

Definition bind {S A B} (m : meth S A) (k : A -> meth S B) : meth S B :=
  fun s =>
    match m s with
    | (Ret a, s') => k a s'
    | (Throw e, s') => (Throw e, s')
    | (Undef u, s') => (Undef u, s')
    end.

Definition gets {S A} (f : S -> A) : meth S A := fun s => (Ret (f s), s).

Notation "'let!' x ':=' m 'in' k" := (bind m (fun x => k))
  (at level 10, x pattern, m at level 100, k at level 200)
  : tiger_scope.

Lemma bind_ret {S A B} (m : meth S A) (k : A -> meth S B) s a s' :
  m s = (Ret a, s') -> bind m k s = k a s'.
Proof. unfold bind. by intros ->. Qed.

Lemma bind_throw {S A B} (m : meth S A) (k : A -> meth S B) s e s' :
  m s = (Throw e, s') -> bind m k s = (Throw e, s').
Proof. unfold bind. by intros ->. Qed.

(** ** Machine integers

    A [w]-bit unsigned integer is a [Z] in [0, 2^w); arithmetic that can leave
    the range is wrapped where the code performs it. *)

Definition wrap (w z : Z) : Z := z mod 2 ^ w.

Definition to_signed (w z : Z) : Z :=
  let u := wrap w z in if u <? 2 ^ (w - 1) then u else u - 2 ^ w.

Definition fits (w z : Z) : Prop := 0 <= z < 2 ^ w.
Definition sfits (w z : Z) : Prop := - 2 ^ (w - 1) <= z < 2 ^ (w - 1).

Lemma wrap_fits w z : 0 <= w -> fits w (wrap w z).
Proof. intros. apply Z.mod_pos_bound. lia. Qed.

Lemma wrap_small w z : fits w z -> wrap w z = z.
Proof. apply Z.mod_small. Qed.

Lemma to_signed_wrap w z : 1 <= w -> sfits w z -> to_signed w (wrap w z) = z.
Proof.
  unfold sfits, to_signed, wrap. intros Hw Hz.
  assert (2 ^ w = 2 * 2 ^ (w - 1)) as Hp.
  { rewrite <- Z.pow_succ_r by lia. f_equal. lia. }
  rewrite Z.mod_mod by lia.
  destruct (Z.ltb_spec (z mod 2 ^ w) (2 ^ (w - 1))) as [Hlt|Hge].
  - destruct (Z.le_gt_cases 0 z); [apply Z.mod_small; lia|].
    rewrite <- (Z.mod_unique_pos z (2 ^ w) (-1) (z + 2 ^ w)) in Hlt; lia.
  - destruct (Z.le_gt_cases 0 z); [rewrite Z.mod_small in Hge; lia|].
    rewrite <- (Z.mod_unique_pos z (2 ^ w) (-1) (z + 2 ^ w)); lia.
Qed.

Lemma wrap_to_signed w z : 0 <= w -> wrap w (to_signed w z) = wrap w z.
Proof.
  intros Hw. unfold to_signed. pose proof (wrap_fits w z Hw) as Hf.
  destruct (wrap w z <? 2 ^ (w - 1)); [by apply wrap_small|].
  unfold wrap at 1. replace (wrap w z - 2 ^ w) with (wrap w z + (-1) * 2 ^ w) by lia.
  pose proof (Z.pow_pos_nonneg 2 w). rewrite Z.mod_add by lia. by apply Z.mod_small.
Qed.

Lemma to_signed_congr w a b : wrap w a = wrap w b -> to_signed w a = to_signed w b.
Proof. unfold to_signed. by intros ->. Qed.

(** Bit fields that do not overlap add up. *)
Lemma lor_low_high k a b : 0 <= k -> 0 <= a < 2 ^ k -> Z.lor a (Z.shiftl b k) = a + b * 2 ^ k.
Proof.
  intros Hk Ha.
  assert (Z.land a (Z.shiftl b k) = 0) as Hz.
  { apply Z.bits_inj'. intros i Hi. rewrite Z.land_spec, Z.bits_0.
    destruct (Z.lt_ge_cases i k).
    - by rewrite Z.shiftl_spec_low, andb_false_r by lia.
    - rewrite <- (Z.mod_small a (2 ^ k)) by done.
      by rewrite Z.mod_pow2_bits_high by lia. }
  rewrite <- Z.lxor_lor by done. rewrite <- Z.add_nocarry_lxor by done.
  by rewrite Z.shiftl_mul_pow2 by lia.
Qed.

Lemma land_low k a : 0 <= k -> Z.land a (Z.ones k) = a mod 2 ^ k.
Proof. apply Z.land_ones. Qed.

Lemma shiftr_div k a : 0 <= k -> Z.shiftr a k = a / 2 ^ k.
Proof. apply Z.shiftr_div_pow2. Qed.

(** ** Bytes *)

Abbreviation bytes := (list Z).

Definition is_byte (b : Z) : Prop := 0 <= b < 256.

Definition zlen {A} (l : list A) : Z := Z.of_nat (length l).
Definition ztake {A} (n : Z) (l : list A) : list A := take (Z.to_nat n) l.
Definition zdrop {A} (n : Z) (l : list A) : list A := drop (Z.to_nat n) l.
Definition zrepeat {A} (n : Z) (a : A) : list A := replicate (Z.to_nat n) a.

(** The [n] cells from offset [i], and the array with [b] copied to offset [i]
    ([memcpy (p + i, b, zlen b)]). *)
Definition slice {A} (i n : Z) (l : list A) : list A := ztake n (zdrop i l).
Definition splice {A} (i : Z) (b l : list A) : list A :=
  ztake i l ++ b ++ zdrop (i + zlen b) l.

(** The byte of the little-endian representation, lowest first. *)
Fixpoint le_bytes (n : nat) (v : Z) : bytes :=
  match n with
  | O => []
  | S n' => v mod 256 :: le_bytes n' (v / 256)
  end.

Fixpoint le_val (bs : bytes) : Z :=
  match bs with
  | [] => 0
  | b :: bs' => b + 256 * le_val bs'
  end.

Definition be_bytes (n : nat) (v : Z) : bytes := reverse (le_bytes n v).
Definition be_val (bs : bytes) : Z := le_val (reverse bs).

(** String literals as byte lists. *)
Fixpoint str (s : string) : bytes :=
  match s with
  | EmptyString => []
  | String c s' => Z.of_N (Ascii.N_of_ascii c) :: str s'
  end.

(** [os << n] for an unsigned number of at most 64 bits, and for a signed one. *)
Fixpoint dec_loop (fuel : nat) (n : Z) (acc : bytes) : bytes :=
  match fuel with
  | O => acc
  | S fuel' =>
      let acc := (48 + n mod 10) :: acc in
      if n <? 10 then acc else dec_loop fuel' (n / 10) acc
  end.

Definition dec (n : Z) : bytes := dec_loop 20 n [].
Definition sdec (n : Z) : bytes := if n <? 0 then 45 :: dec (- n) else dec n.

(** ** Lemmas on byte lists *)

Lemma zlen_nonneg {A} (l : list A) : 0 <= zlen l.
Proof. unfold zlen. lia. Qed.

Lemma zlen_app {A} (l k : list A) : zlen (l ++ k) = zlen l + zlen k.
Proof. unfold zlen. rewrite length_app. lia. Qed.

Lemma zlen_nil {A} : zlen (@nil A) = 0.
Proof. done. Qed.

Lemma zlen_cons {A} (a : A) l : zlen (a :: l) = 1 + zlen l.
Proof. unfold zlen. simpl. lia. Qed.

Lemma zlen_ztake {A} n (l : list A) : 0 <= n <= zlen l -> zlen (ztake n l) = n.
Proof. unfold zlen, ztake. rewrite length_take. lia. Qed.

Lemma zlen_zdrop {A} n (l : list A) : 0 <= n <= zlen l -> zlen (zdrop n l) = zlen l - n.
Proof. unfold zlen, zdrop. rewrite length_drop. lia. Qed.

Lemma zlen_zrepeat {A} n (a : A) : 0 <= n -> zlen (zrepeat n a) = n.
Proof. unfold zlen, zrepeat. rewrite length_replicate. lia. Qed.

Lemma zlen_zero {A} (l : list A) : zlen l = 0 -> l = [].
Proof. destruct l; [done|]. rewrite zlen_cons. pose proof (zlen_nonneg l). lia. Qed.

Lemma ztake_zdrop {A} n (l : list A) : ztake n l ++ zdrop n l = l.
Proof. apply take_drop. Qed.

Lemma ztake_all {A} n (l : list A) : zlen l <= n -> ztake n l = l.
Proof. unfold zlen, ztake. intros. apply take_ge. lia. Qed.

Lemma zdrop_all {A} n (l : list A) : zlen l <= n -> zdrop n l = [].
Proof. unfold zlen, zdrop. intros. apply drop_ge. lia. Qed.

Lemma zdrop_0 {A} (l : list A) : zdrop 0 l = l.
Proof. done. Qed.

Lemma ztake_0 {A} (l : list A) : ztake 0 l = [].
Proof. done. Qed.

Lemma zdrop_zdrop {A} i j (l : list A) :
  0 <= i -> 0 <= j -> zdrop i (zdrop j l) = zdrop (j + i) l.
Proof. unfold zdrop. intros. rewrite drop_drop. f_equal. lia. Qed.

Lemma ztake_app_l {A} n (l k : list A) : n <= zlen l -> ztake n (l ++ k) = ztake n l.
Proof. unfold zlen, ztake. intros. apply take_app_le. lia. Qed.

Lemma ztake_app_r {A} n (l k : list A) :
  zlen l <= n -> ztake n (l ++ k) = l ++ ztake (n - zlen l) k.
Proof.
  unfold zlen, ztake. intros.
  rewrite take_app_ge by lia. do 2 f_equal. lia.
Qed.

Lemma zdrop_app_l {A} n (l k : list A) : n <= zlen l -> zdrop n (l ++ k) = zdrop n l ++ k.
Proof. unfold zlen, zdrop. intros. apply drop_app_le. lia. Qed.

Lemma zdrop_app_r {A} n (l k : list A) :
  zlen l <= n -> zdrop n (l ++ k) = zdrop (n - zlen l) k.
Proof.
  unfold zlen, zdrop. intros.
  rewrite drop_app_ge by lia. f_equal. lia.
Qed.

Lemma ztake_ztake {A} i j (l : list A) : 0 <= i <= j -> ztake i (ztake j l) = ztake i l.
Proof. unfold ztake. intros. rewrite take_take. f_equal. lia. Qed.

Lemma ztake_plus {A} i j (l : list A) :
  0 <= i -> 0 <= j -> ztake (i + j) l = ztake i l ++ ztake j (zdrop i l).
Proof.
  intros. rewrite <- (ztake_zdrop i l) at 1.
  unfold ztake, zdrop.
  rewrite Z2Nat.inj_add by lia.
  destruct (decide (Z.to_nat i <= length l)%nat).
  - rewrite take_app_ge by (rewrite length_take; lia).
    rewrite length_take. do 2 f_equal. lia.
  - rewrite (drop_ge l) by lia. rewrite !take_nil, !app_nil_r.
    apply take_ge. rewrite length_take. lia.
Qed.

Create HintDb tiger discriminated.
Create Rewrite HintDb zlist.

#[export] Hint Rewrite @zlen_app @zlen_cons @zdrop_0 @ztake_0 : zlist.
#[export] Hint Rewrite @zlen_ztake @zlen_zdrop @zlen_zrepeat using lia : zlist.

Ltac zlen_nil :=
  repeat match goal with
  | |- context [@zlen ?A []] => change (@zlen A []) with 0
  | H : context [@zlen ?A []] |- _ => change (@zlen A []) with 0 in H
  end.
Ltac zlist := zlen_nil; autorewrite with zlist in *; zlen_nil.
(** Arithmetic about lengths: normalise the lengths, add their sign, decide. *)
Ltac zlen_lia :=
  repeat match goal with
  | |- context [zlen ?l] => lazymatch goal with
      | _ : 0 <= zlen l |- _ => fail
      | _ => pose proof (zlen_nonneg l) end
  | _ : context [zlen ?l] |- _ => lazymatch goal with
      | _ : 0 <= zlen l |- _ => fail
      | _ => pose proof (zlen_nonneg l) end
  end; zlist; lia.

Lemma zlen_slice {A} i n (l : list A) :
  0 <= i -> 0 <= n -> i + n <= zlen l -> zlen (slice i n l) = n.
Proof. intros. unfold slice. rewrite zlen_ztake; [done|]. rewrite zlen_zdrop; lia. Qed.

Lemma zlen_splice {A} i (b l : list A) :
  0 <= i -> i + zlen b <= zlen l -> zlen (splice i b l) = zlen l.
Proof. intros. pose proof (zlen_nonneg b). unfold splice. zlist. lia. Qed.

(** Copying out what was copied in. *)
Lemma slice_splice {A} i (b l : list A) :
  0 <= i <= zlen l -> slice i (zlen b) (splice i b l) = b.
Proof.
  intros. unfold slice, splice.
  rewrite zdrop_app_r by (rewrite zlen_ztake; lia).
  rewrite zlen_ztake by lia. rewrite Z.sub_diag, zdrop_0.
  rewrite ztake_app_l by lia. apply ztake_all. lia.
Qed.

Lemma slice_split {A} i n m (l : list A) :
  0 <= i -> 0 <= n -> 0 <= m ->
  slice i (n + m) l = slice i n l ++ slice (i + n) m l.
Proof. intros. unfold slice. by rewrite ztake_plus, zdrop_zdrop by lia. Qed.

Lemma slice_app_l {A} i n (l k : list A) :
  0 <= i -> 0 <= n -> i + n <= zlen l -> slice i n (l ++ k) = slice i n l.
Proof.
  intros. unfold slice. rewrite zdrop_app_l by lia.
  apply ztake_app_l. rewrite zlen_zdrop; lia.
Qed.

Lemma slice_app_r {A} i n (l k : list A) :
  zlen l <= i -> slice i n (l ++ k) = slice (i - zlen l) n k.
Proof. intros. unfold slice. by rewrite zdrop_app_r by lia. Qed.

(** A copy that crosses from the block [l] into the blocks [k] after it. *)
Lemma splice_app {A} i (b1 b2 l k : list A) :
  0 <= i -> i + zlen b1 = zlen l ->
  splice i (b1 ++ b2) (l ++ k) = splice i b1 l ++ splice 0 b2 k.
Proof.
  intros Hi Hl. pose proof (zlen_nonneg b1). unfold splice.
  rewrite zlen_app, ztake_0, app_nil_l.
  rewrite ztake_app_l by lia.
  rewrite (zdrop_all (i + zlen b1) l) by lia.
  rewrite zdrop_app_r by (pose proof (zlen_nonneg b2); lia).
  replace (i + (zlen b1 + zlen b2) - zlen l) with (0 + zlen b2) by lia.
  by rewrite app_nil_r, <- !app_assoc.
Qed.

Lemma splice_app_l {A} i (b l k : list A) :
  0 <= i -> i + zlen b <= zlen l -> splice i b (l ++ k) = splice i b l ++ k.
Proof.
  intros. pose proof (zlen_nonneg b). unfold splice.
  rewrite ztake_app_l, zdrop_app_l by lia. by rewrite <- !app_assoc.
Qed.

Lemma splice_app_r {A} i (b l k : list A) :
  zlen l <= i -> splice i b (l ++ k) = l ++ splice (i - zlen l) b k.
Proof.
  intros. pose proof (zlen_nonneg b). unfold splice.
  rewrite ztake_app_r, zdrop_app_r by lia. rewrite <- !app_assoc.
  do 4 f_equal. lia.
Qed.

Lemma zdrop_ztake {A} i n (l : list A) :
  0 <= i -> zdrop i (ztake n l) = ztake (n - i) (zdrop i l).
Proof.
  intros. unfold zdrop, ztake. rewrite take_drop_commute.
  destruct (decide (i <= n)).
  - do 2 f_equal. lia.
  - rewrite !drop_ge; [done|rewrite length_take; lia..].
Qed.

(** A copy into the first [n] cells that may run past them. *)
Lemma ztake_splice {A} i n (b l : list A) :
  0 <= i <= n -> n <= zlen l -> i + zlen b <= zlen l ->
  ztake (Z.max n (i + zlen b)) (splice i b l) = splice i b (ztake n l).
Proof.
  intros. pose proof (zlen_nonneg b). unfold splice.
  rewrite ztake_app_r, zlen_ztake by (rewrite ?zlen_ztake; lia).
  rewrite ztake_app_r by lia. rewrite ztake_ztake by lia.
  rewrite zdrop_ztake by lia. do 2 f_equal.
  destruct (Z.max_spec n (i + zlen b)) as [[? ->]|[? ->]]; [|f_equal; lia].
  rewrite (Z.add_simpl_l i), Z.sub_diag, ztake_0.
  unfold ztake. by replace (Z.to_nat (n - (i + zlen b))) with 0%nat by lia.
Qed.

Lemma slice_ztake {A} i n m (l : list A) :
  0 <= i -> 0 <= n -> i + n <= m -> slice i n (ztake m l) = slice i n l.
Proof. intros. unfold slice. rewrite zdrop_ztake, ztake_ztake by lia. done. Qed.

(** The number a decimal text stands for; a rendered number is read back. *)
Definition undec (s : bytes) : Z := fold_left (fun a c => 10 * a + (c - 48)) s 0.

Lemma dec_loop_spec fuel : forall n acc, (0 < fuel)%nat -> 0 <= n < 10 ^ Z.of_nat fuel ->
  exists ds, dec_loop fuel n acc = ds ++ acc /\ ds <> [] /\ undec ds = n /\
    Forall (fun c => 48 <= c <= 57) ds.
Proof.
  induction fuel as [|fuel IH]; intros n acc Hf Hn; [lia|]. cbn [dec_loop].
  assert (48 <= 48 + n mod 10 <= 57) as Hd by (pose proof (Z.mod_pos_bound n 10); lia).
  destruct (Z.ltb_spec n 10).
  - exists [48 + n mod 10]. split; [done|]. split; [done|]. split; [|constructor; [exact Hd|constructor]].
    unfold undec. cbn. rewrite Z.mod_small by lia. lia.
  - rewrite Nat2Z.inj_succ, Z.pow_succ_r in Hn by lia.
    destruct (IH (n / 10) (48 + n mod 10 :: acc)) as (ds & -> & Hne & Hv & Hall).
    + destruct fuel; [cbn in Hn; lia|lia].
    + Z.to_euclidean_division_equations; lia.
    + exists (ds ++ [48 + n mod 10]). rewrite <- app_assoc. split; [done|].
      split; [by destruct ds|]. split; [|apply Forall_app; split; [done|constructor; [exact Hd|constructor]]].
      unfold undec in *. rewrite fold_left_app, Hv. cbn. pose proof (Z.div_mod n 10). lia.
Qed.

Lemma undec_dec n : 0 <= n < 10 ^ 20 -> undec (dec n) = n.
Proof.
  intros. destruct (dec_loop_spec 20 n [] ltac:(lia)) as (ds & Hds & _ & Hv & _); [done|].
  unfold dec. by rewrite Hds, app_nil_r.
Qed.

(** ** Lemmas on the byte representations *)

Lemma length_le_bytes n v : length (le_bytes n v) = n.
Proof. revert v. induction n; intros; simpl; [done|]. by rewrite IHn. Qed.

Lemma zlen_le_bytes n v : zlen (le_bytes n v) = Z.of_nat n.
Proof. unfold zlen. by rewrite length_le_bytes. Qed.

Lemma le_bytes_ok n v : Forall is_byte (le_bytes n v).
Proof.
  revert v. induction n; intros; simpl; constructor; [|done].
  unfold is_byte. apply Z.mod_pos_bound. lia.
Qed.

Lemma le_val_bound bs : Forall is_byte bs -> 0 <= le_val bs < 2 ^ (8 * zlen bs).
Proof.
  induction 1 as [|b bs Hb _ IH]; [done|].
  cbn [le_val]. rewrite zlen_cons, Z.mul_add_distr_l, Z.pow_add_r by (pose proof (zlen_nonneg bs); lia).
  change (2 ^ (8 * 1)) with 256. unfold is_byte in Hb. nia.
Qed.

(** Storing a value and loading it again keeps it modulo the width. *)
Lemma le_val_le_bytes n v : le_val (le_bytes n v) = wrap (8 * Z.of_nat n) v.
Proof.
  unfold wrap. revert v. induction n as [|n IH]; intros v; [simpl; by rewrite Z.mod_1_r|].
  cbn [le_bytes le_val]. rewrite IH.
  replace (8 * Z.of_nat (S n)) with (8 + 8 * Z.of_nat n) by lia.
  rewrite Z.pow_add_r by lia. change (2 ^ 8) with 256.
  pose proof (Z.pow_pos_nonneg 2 (8 * Z.of_nat n)).
  rewrite Z.rem_mul_r by lia. done.
Qed.

Lemma le_bytes_le_val bs : Forall is_byte bs -> le_bytes (length bs) (le_val bs) = bs.
Proof.
  induction 1 as [|b bs Hb _ IH]; [done|].
  cbn [length le_bytes le_val]. unfold is_byte in Hb.
  rewrite (Z.mul_comm 256), Z.mod_add, Z.div_add, Z.mod_small, Z.div_small by lia.
  by rewrite Z.add_0_l, IH.
Qed.

Lemma le_bytes_wrap n v : le_bytes n (wrap (8 * Z.of_nat n) v) = le_bytes n v.
Proof.
  rewrite <- le_val_le_bytes. rewrite <- (length_le_bytes n v) at 1.
  apply le_bytes_le_val, le_bytes_ok.
Qed.

Lemma zlen_be_bytes n v : zlen (be_bytes n v) = Z.of_nat n.
Proof. unfold be_bytes, zlen. by rewrite length_reverse, length_le_bytes. Qed.

Lemma be_bytes_ok n v : Forall is_byte (be_bytes n v).
Proof. unfold be_bytes. apply Forall_reverse, le_bytes_ok. Qed.

Lemma be_val_be_bytes n v : be_val (be_bytes n v) = wrap (8 * Z.of_nat n) v.
Proof. unfold be_val, be_bytes. by rewrite reverse_involutive, le_val_le_bytes. Qed.

#[export] Hint Resolve le_bytes_ok be_bytes_ok zlen_nonneg : tiger.
#[export] Hint Rewrite zlen_le_bytes zlen_be_bytes : zlist.
