(* ===== verification/Endian.v ===== *)
(** * Byte order ([src/endian.h])

    The byte-swapping templates and the object representation of integers they
    are used with.  The host's byte order is a parameter ([host], the value of
    [__TIGER_BYTE_ORDER]): everything here and in the files that use it holds on
    little- and on big-endian hosts. *)

From stdpp Require Import base list numbers.
From Stdlib Require Import Lia ZArith.
From S2P Require Import Prelude.

(** [__TIGER_LITTLE_ENDIAN] and [__TIGER_BIG_ENDIAN]. *)
Inductive endian := LITTLE_ENDIAN | BIG_ENDIAN.

#[export] Instance endian_eq_dec : EqDecision endian.
Proof. solve_decision. Defined.

(** [bswap_16/32/64] of <byteswap.h>: the bytes of an [n]-byte unsigned integer
    in reverse order. *)
Definition bswap (n : nat) (v : Z) : Z := le_val (reverse (le_bytes n v)).

(** [byteswap<T>] at an unsigned and at a signed type of [n] bytes. *)
Definition byteswap (n : nat) (v : Z) : Z := bswap n v.
Definition byteswap_signed (n : nat) (v : Z) : Z :=
  to_signed (8 * Z.of_nat n) (bswap n (wrap (8 * Z.of_nat n) v)).

Definition bswap_on_little_endian (host : endian) (n : nat) (v : Z) : Z :=
  match host with
  | BIG_ENDIAN => v
  | LITTLE_ENDIAN => byteswap n v
  end.

Definition bswap_on_big_endian (host : endian) (n : nat) (v : Z) : Z :=
  match host with
  | BIG_ENDIAN => byteswap n v
  | LITTLE_ENDIAN => v
  end.

(** The object representation of an [n]-byte integer on the host, and back:
    what [memcpy] from and to an integer object copies. *)
Definition mem_of (host : endian) (n : nat) (v : Z) : bytes :=
  match host with
  | LITTLE_ENDIAN => le_bytes n v
  | BIG_ENDIAN => be_bytes n v
  end.

Definition of_mem (host : endian) (bs : bytes) : Z :=
  match host with
  | LITTLE_ENDIAN => le_val bs
  | BIG_ENDIAN => be_val bs
  end.

Section representation.
Context (host : endian) (n : nat).

Lemma zlen_mem_of v : zlen (mem_of host n v) = Z.of_nat n.
Proof. destruct host; simpl; by zlist. Qed.

Lemma mem_of_ok v : Forall is_byte (mem_of host n v).
Proof. destruct host; simpl; eauto with tiger. Qed.

Lemma of_mem_mem_of v : of_mem host (mem_of host n v) = wrap (8 * Z.of_nat n) v.
Proof. destruct host; simpl; [apply le_val_le_bytes|apply be_val_be_bytes]. Qed.

Lemma mem_of_wrap v : mem_of host n (wrap (8 * Z.of_nat n) v) = mem_of host n v.
Proof. destruct host; simpl; unfold be_bytes; by rewrite le_bytes_wrap. Qed.

Lemma le_bytes_bswap v : le_bytes n (bswap n v) = be_bytes n v.
Proof.
  unfold bswap, be_bytes.
  rewrite <- (length_le_bytes n v) at 1. rewrite <- length_reverse.
  apply le_bytes_le_val, Forall_reverse, le_bytes_ok.
Qed.

Lemma be_bytes_bswap v : be_bytes n (bswap n v) = le_bytes n v.
Proof. unfold be_bytes at 1. rewrite le_bytes_bswap. apply reverse_involutive. Qed.

Lemma bswap_fits v : fits (8 * Z.of_nat n) (bswap n v).
Proof.
  unfold fits, bswap. pose proof (be_bytes_ok n v) as H.
  apply le_val_bound in H. rewrite zlen_be_bytes in H. exact H.
Qed.

Lemma bswap_bswap v : bswap n (bswap n v) = wrap (8 * Z.of_nat n) v.
Proof.
  unfold bswap at 1. rewrite le_bytes_bswap. unfold be_bytes.
  by rewrite reverse_involutive, le_val_le_bytes.
Qed.

(** Swapping and then storing is storing in the other order. *)
Lemma mem_of_bswap v :
  mem_of host n (bswap n v) =
  mem_of (match host with LITTLE_ENDIAN => BIG_ENDIAN | BIG_ENDIAN => LITTLE_ENDIAN end) n v.
Proof. destruct host; simpl; [apply le_bytes_bswap|apply be_bytes_bswap]. Qed.

End representation.

#[export] Hint Rewrite zlen_mem_of : zlist.
#[export] Hint Resolve mem_of_ok bswap_fits : tiger.

(** [byteswap] is its own inverse at every width, for unsigned and for signed
    operands, and its unsigned result stays in the width. *)
Theorem byteswap_involutive (n : nat) :
  (forall v, fits (8 * Z.of_nat n) v -> byteswap n (byteswap n v) = v) /\
  (forall v, (0 < n)%nat -> sfits (8 * Z.of_nat n) v ->
     byteswap_signed n (byteswap_signed n v) = v) /\
  (forall v, fits (8 * Z.of_nat n) (byteswap n v)).
Proof.
  unfold byteswap. split; [|split]; [intros v Hv|intros v Hn Hv|eauto with tiger].
  - by rewrite bswap_bswap, wrap_small.
  - unfold byteswap_signed.
    set (w := 8 * Z.of_nat n) in *. assert (1 <= w) by lia.
    set (u := bswap n (wrap w v)).
    assert (wrap w (to_signed w u) = u) as ->.
    { pose proof (bswap_fits n (wrap w v)) as Hu. fold u w in Hu.
      unfold to_signed. rewrite (wrap_small w u) by done.
      destruct (u <? 2 ^ (w - 1)); [by apply wrap_small|].
      unfold wrap, fits in *. replace (u - 2 ^ w) with (u + (-1) * 2 ^ w) by lia.
      rewrite Z.mod_add by lia. by apply Z.mod_small. }
    unfold u. rewrite bswap_bswap. fold w.
    rewrite (wrap_small w (wrap w v)) by (apply wrap_fits; lia).
    by apply to_signed_wrap.
Qed.

Lemma byteswap_involutive_witness :
  byteswap 4 (byteswap 4 305419896) = 305419896 /\
  byteswap_signed 2 (byteswap_signed 2 (-2)) = -2.
Proof.
  split; [apply (proj1 (byteswap_involutive 4))|apply (proj1 (proj2 (byteswap_involutive 2)))];
    vm_compute; try split; (reflexivity || discriminate || lia).
Defined.

(** [bswap_on_little_endian] converts between host and network byte order: on
    either host the stored result is the big-endian representation, and
    [bswap_on_big_endian] gives the little-endian one. *)
Theorem bswap_network_order (host : endian) (n : nat) (v : Z) :
  mem_of host n (bswap_on_little_endian host n v) = be_bytes n v /\
  mem_of host n (bswap_on_big_endian host n v) = le_bytes n v.
Proof.
  destruct host; simpl; unfold byteswap; split;
    auto using le_bytes_bswap, be_bytes_bswap.
Qed.
