(* ===== verification/ByteArray.v ===== *)
(** * The byte array: data and operations ([src/bytearray.h], [src/bytearray.cc])

    A [ByteArray] is a chain of heap blocks of [m_base_size] bytes with a cursor.
    The chain from [m_root] is the list [m_nodes]; the pointer [m_cur] into it is
    an index, and following [next] from the last node gives the null pointer,
    whose use is [Undef NullDeref].  Cells of a fresh block are
    [indeterminate] until something is copied into them.

    Every [size_t] is kept in [0, 2^64) and subtraction wraps as in the code.
    The loops run along the chain, so they are structural and need no fuel. *)

From stdpp Require Import base list numbers.
From Stdlib Require Import Lia ZArith.
From S2P Require Import Prelude Endian.

(** The content of memory that [new char[n]] leaves unset: no byte value. *)
Definition indeterminate : Z := -1.

(** [ByteArray::Node]; [next] is the position in the chain. *)
Record Node := MkNode { n_ptr : bytes; n_size : Z }.

Definition new_Node (s : Z) : Node := MkNode (zrepeat s indeterminate) s.

Record ByteArray := MkByteArray {
  m_base_size : Z;
  m_position : Z;
  m_capacity : Z;
  m_size : Z;
  m_endian : endian;
  m_nodes : list Node;
  m_cur : nat
}.

Abbreviation ba_meth := (meth ByteArray).

(** The constructor [ByteArray(base_size)]: note the capacity 0 although the
    root block exists. *)
Definition new_ByteArray (base_size : Z) : ByteArray :=
  MkByteArray base_size 0 0 0 BIG_ENDIAN [new_Node base_size] 0.

(** [size_t] arithmetic. *)
Definition sz_sub (a b : Z) : Z := wrap 64 (a - b).
Definition sz_mod (a b : Z) : res Z := if b =? 0 then Undef DivByZero else Ret (a mod b).

Definition get_base_size (ba : ByteArray) : Z := m_base_size ba.
Definition get_position (ba : ByteArray) : Z := m_position ba.
Definition get_enable_read_size (ba : ByteArray) : Z := sz_sub (m_size ba) (m_position ba).
Definition get_size (ba : ByteArray) : Z := m_size ba.
Definition get_capacity (ba : ByteArray) : Z := m_capacity ba.
Definition get_free_capacity (ba : ByteArray) : Z := sz_sub (m_capacity ba) (m_position ba).

(** [ceil(1.0 * size / base)]; exact for sizes below 2^53. *)
Definition ceil_div (a b : Z) : Z := (a + b - 1) / b.

(** The second loop of [add_free_capacity_to]: append [cnt] blocks at the end of
    the chain; returns the chain, the capacity and the final [cnt]. *)
Fixpoint grow_loop (base : Z) (cnt : nat) (nodes : list Node) (cap : Z) : list Node * Z * Z :=
  match cnt with
  | O => (nodes, cap, 0)
  | S cnt' => grow_loop base cnt' (nodes ++ [new_Node base]) (wrap 64 (cap + base))
  end.

Definition add_free_capacity_to (size : Z) (ba : ByteArray) : res ByteArray :=
  let free_cap := get_free_capacity ba in
  if size <? free_cap then Ret ba
  else
    let size := size - free_cap in
    if m_base_size ba =? 0 then Undef DivByZero
    else
      let cnt := ceil_div size (m_base_size ba) + 1 in
      let '(nodes, cap, cnt) :=
        grow_loop (m_base_size ba) (Z.to_nat cnt) (m_nodes ba) (m_capacity ba) in
      let cur := if (free_cap =? 0) && (0 <? cnt) then S (m_cur ba) else m_cur ba in
      Ret (MkByteArray (m_base_size ba) (m_position ba) cap (m_size ba) (m_endian ba) nodes cur).

(** [memcpy] into and out of a node. *)
Definition node_put (nd : Node) (off : Z) (b : bytes) : Node :=
  MkNode (splice off b (n_ptr nd)) (n_size nd).
Definition node_get (nd : Node) (off n : Z) : bytes := slice off n (n_ptr nd).

(** The loop of [write]: [rest] is the chain from [m_cur], [buf] what is left to
    copy.  Returns the chain with the copied bytes and how far [m_cur] moved. *)
Fixpoint write_loop (rest : list Node) (npos ncap : Z) (buf : bytes) : res (list Node * nat) :=
  let size := zlen buf in
  if size =? 0 then Ret (rest, 0%nat)
  else
    match rest with
    | [] => Undef NullDeref
    | nd :: next =>
        if size <=? ncap then
          let nd' := node_put nd npos buf in
          let adv :=
            match next with
            | [] => 0%nat
            | _ :: _ => if n_size nd =? npos + size then 1%nat else 0%nat
            end in
          Ret (nd' :: next, adv)
        else
          let nd' := node_put nd npos (ztake ncap buf) in
          match next with
          | [] => Undef NullDeref
          | nd2 :: _ =>
              let? (next', adv) := write_loop next 0 (n_size nd2) (zdrop ncap buf) in
              Ret (nd' :: next', S adv)
          end
    end.

(** [write] after the capacity was ensured: the copy from the cursor on and the
    update of position and size. *)
Definition write_at_cursor (buf : bytes) : ba_meth unit := fun ba =>
  match
    (let? npos := sz_mod (m_position ba) (m_base_size ba) in
     match drop (m_cur ba) (m_nodes ba) with
     | [] => Undef NullDeref
     | nd :: _ =>
         write_loop (drop (m_cur ba) (m_nodes ba)) npos (sz_sub (n_size nd) npos) buf
     end)
  with
  | Undef u => (Undef u, ba)
  | Throw e => (Throw e, ba)
  | Ret (rest, adv) =>
      let pos := wrap 64 (m_position ba + zlen buf) in
      (Ret tt,
       MkByteArray (m_base_size ba) pos (m_capacity ba)
         (if m_size ba <? pos then pos else m_size ba) (m_endian ba)
         (take (m_cur ba) (m_nodes ba) ++ rest) (m_cur ba + adv)%nat)
  end.

(** [ByteArray::write(buf, size)]. *)
Definition write (buf : bytes) : ba_meth unit := fun ba =>
  if zlen buf =? 0 then (Ret tt, ba)
  else
    match add_free_capacity_to (zlen buf) ba with
    | Undef u => (Undef u, ba)
    | Throw e => (Throw e, ba)
    | Ret ba => write_at_cursor buf ba
    end.

(** The loop of both [read]s: the copied bytes and how far the cursor moved. *)
Fixpoint read_loop (rest : list Node) (npos ncap size : Z) : res (bytes * nat) :=
  if size =? 0 then Ret ([], 0%nat)
  else
    match rest with
    | [] => Undef NullDeref
    | nd :: next =>
        if size <=? ncap then
          let adv :=
            match next with
            | [] => 0%nat
            | _ :: _ => if n_size nd =? npos + size then 1%nat else 0%nat
            end in
          Ret (node_get nd npos size, adv)
        else
          match next with
          | [] => Undef NullDeref
          | nd2 :: _ =>
              let? (b, adv) := read_loop next 0 (n_size nd2) (size - ncap) in
              Ret (node_get nd npos ncap ++ b, S adv)
          end
    end.

(** [read(buf, size)]: the bytes read, or the exception before any change. *)
Definition read (size : Z) : ba_meth bytes := fun ba =>
  if get_enable_read_size ba <? size then (Throw out_of_range, ba)
  else
    match
      (let? npos := sz_mod (m_position ba) (m_base_size ba) in
       match drop (m_cur ba) (m_nodes ba) with
       | [] => Undef NullDeref
       | nd :: _ => read_loop (drop (m_cur ba) (m_nodes ba)) npos (sz_sub (n_size nd) npos) size
       end)
    with
    | Undef u => (Undef u, ba)
    | Throw e => (Throw e, ba)
    | Ret (b, adv) =>
        (Ret b,
         MkByteArray (m_base_size ba) (wrap 64 (m_position ba + size)) (m_capacity ba)
           (m_size ba) (m_endian ba) (m_nodes ba) (m_cur ba + adv)%nat)
    end.

(** [while (position >= cur->size) { position -= cur->size; cur = cur->next; }]:
    the chain from the node found and the offset in it. *)
Fixpoint seek (rest : list Node) (position : Z) : res (list Node * Z) :=
  match rest with
  | [] => Undef NullDeref
  | nd :: next =>
      if n_size nd <=? position then seek next (position - n_size nd)
      else Ret (rest, position)
  end.

(** [read(buf, size, position) const]. *)
Definition read_at (size position : Z) (ba : ByteArray) : res bytes :=
  if sz_sub (m_size ba) position <? size then Throw out_of_range
  else
    let? npos := sz_mod position (m_base_size ba) in
    let? (rest, _) := seek (m_nodes ba) position in
    match rest with
    | [] => Undef NullDeref
    | nd :: _ =>
        let? (b, _) := read_loop rest npos (sz_sub (n_size nd) npos) size in
        Ret b
    end.

(** [clear]: the blocks after the root are freed. *)
Definition clear : ba_meth unit := fun ba =>
  (Ret tt,
   MkByteArray (m_base_size ba) 0 (m_base_size ba) 0 (m_endian ba) (take 1 (m_nodes ba)) 0).

(** The search of [set_position]: [while (v > m_cur->size)] and the final step. *)
Fixpoint set_position_seek (rest : list Node) (v : Z) : res nat :=
  match rest with
  | [] => Undef NullDeref
  | nd :: next =>
      if n_size nd <? v then
        let? i := set_position_seek next (v - n_size nd) in Ret (S i)
      else
        match next with
        | [] => Ret 0%nat
        | _ :: _ => if v =? n_size nd then Ret 1%nat else Ret 0%nat
        end
  end.

Definition set_position (v : Z) : ba_meth unit := fun ba =>
  if m_capacity ba <? v then (Throw out_of_range, ba)
  else
    match set_position_seek (m_nodes ba) v with
    | Undef u => (Undef u, ba)
    | Throw e => (Throw e, ba)
    | Ret cur =>
        (Ret tt,
         MkByteArray (m_base_size ba) v (m_capacity ba)
           (if m_size ba <? v then v else m_size ba) (m_endian ba) (m_nodes ba) cur)
    end.

Definition is_little_endian (ba : ByteArray) : bool :=
  match m_endian ba with LITTLE_ENDIAN => true | BIG_ENDIAN => false end.

Definition set_little_endian (v : bool) : ba_meth unit := fun ba =>
  (Ret tt,
   MkByteArray (m_base_size ba) (m_position ba) (m_capacity ba) (m_size ba)
     (if v then LITTLE_ENDIAN else BIG_ENDIAN) (m_nodes ba) (m_cur ba)).

(** [to_string]: the unread bytes, the cursor unchanged. *)
Definition to_string (ba : ByteArray) : res bytes :=
  let n := get_enable_read_size ba in
  if n =? 0 then Ret [] else read_at n (m_position ba) ba.

(** [setw(2) << setfill('0') << hex] of a byte. *)
Definition hex_digit (d : Z) : Z := if d <? 10 then 48 + d else 87 + d.
Definition hex_byte (b : Z) : bytes := [hex_digit (b / 16); hex_digit (b mod 16)].

Fixpoint hex_loop (i : Z) (s : bytes) : bytes :=
  match s with
  | [] => []
  | b :: s' =>
      (if (0 <? i) && (i mod 32 =? 0) then [10] else []) ++ hex_byte b ++ [32] ++ hex_loop (i + 1) s'
  end.

Definition to_hex_string (ba : ByteArray) : res bytes :=
  let? s := to_string ba in Ret (hex_loop 0 s).

(** An [iovec] that points into the chain: node, offset, length. *)
Record iovec := MkIovec { iov_node : nat; iov_off : Z; iov_len : Z }.

(** The loop of the three [get_enable_*_buffers]. *)
Fixpoint iov_loop (rest : list Node) (i : nat) (npos ncap len : Z) : res (list iovec) :=
  if len =? 0 then Ret []
  else
    match rest with
    | [] => Undef NullDeref
    | nd :: next =>
        if len <=? ncap then Ret [MkIovec i npos len]
        else
          match next with
          | [] => Undef NullDeref
          | nd2 :: _ =>
              let? v := iov_loop next (S i) 0 (n_size nd2) (len - ncap) in
              Ret (MkIovec i npos ncap :: v)
          end
    end.

Definition iovs_from_cursor (len : Z) (ba : ByteArray) : res (list iovec) :=
  let? npos := sz_mod (m_position ba) (m_base_size ba) in
  match drop (m_cur ba) (m_nodes ba) with
  | [] => Undef NullDeref
  | nd :: _ => iov_loop (drop (m_cur ba) (m_nodes ba)) (m_cur ba) npos (sz_sub (n_size nd) npos) len
  end.

(** [get_enable_read_buffers(buffers, len)]: the buffers appended and the size. *)
Definition get_enable_read_buffers (len : Z) (ba : ByteArray) : res (list iovec * Z) :=
  let len := if get_enable_read_size ba <? len then get_enable_read_size ba else len in
  if len =? 0 then Ret ([], 0)
  else let? v := iovs_from_cursor len ba in Ret (v, len).

(** [get_enable_read_buffers(buffers, len, position)]. *)
Definition get_enable_read_buffers_at (len position : Z) (ba : ByteArray) : res (list iovec * Z) :=
  if m_size ba <=? position then Ret ([], 0)
  else
    let len := if m_size ba - position <? len then m_size ba - position else len in
    if len =? 0 then Ret ([], 0)
    else
      let? (rest, off) := seek (m_nodes ba) position in
      match rest with
      | [] => Undef NullDeref
      | nd :: _ =>
          let? v := iov_loop rest (length (m_nodes ba) - length rest) off (n_size nd - off) len in
          Ret (v, len)
      end.

(** [get_enable_write_buffers(buffers, len)]. *)
Definition get_enable_write_buffers (len : Z) : ba_meth (list iovec * Z) := fun ba =>
  if len =? 0 then (Ret ([], 0), ba)
  else
    match add_free_capacity_to len ba with
    | Undef u => (Undef u, ba)
    | Throw e => (Throw e, ba)
    | Ret ba =>
        match iovs_from_cursor len ba with
        | Undef u => (Undef u, ba)
        | Throw e => (Throw e, ba)
        | Ret v => (Ret (v, len), ba)
        end
    end.

(** [write_to_file]: [opened] is whether the stream opened; the content of the
    file afterwards, or [None] when the open failed and [false] is returned. *)
Definition write_to_file (opened : bool) (ba : ByteArray) : res (option bytes) :=
  if negb opened then Ret None
  else
    let size := get_enable_read_size ba in
    let? npos := sz_mod (m_position ba) (m_base_size ba) in
    match drop (m_cur ba) (m_nodes ba) with
    | [] => Undef NullDeref
    | nd :: _ =>
        let? (b, _) := read_loop (drop (m_cur ba) (m_nodes ba)) npos (sz_sub (n_size nd) npos) size in
        Ret (Some b)
    end.

(** The loop of [read_from_file]: [ifs.read] fills the buffer with up to
    [m_base_size] bytes and sets eof when it got fewer.  [fuel] counts reads; a
    file of [n] bytes takes [n / m_base_size + 1]. *)
Fixpoint read_file_loop (fuel : nat) (content : bytes) : ba_meth unit := fun ba =>
  match fuel with
  | O => (Undef Diverges, ba)
  | S fuel' =>
      let chunk := ztake (m_base_size ba) content in
      let eof := zlen chunk <? m_base_size ba in
      bind (write chunk)
        (fun _ => if eof then ret tt
                  else read_file_loop fuel' (zdrop (m_base_size ba) content)) ba
  end.

(** [read_from_file]: [file] is the content, [None] when the open fails. *)
Definition read_from_file (file : option bytes) : ba_meth bool :=
  match file with
  | None => ret false
  | Some content =>
      let! _ := read_file_loop (S (length content)) content in ret true
  end.
