(* ===== verification/ByteArrayFacts.v ===== *)
(** * The byte array: invariant and refinement

    The chain of blocks with its cursor implements a flat buffer: a byte list
    [data] with a position.  [wf] is the invariant of the concrete
    representation, [abs] the abstraction function, and the [a_*] operations are
    the abstract specification that [write], [read], [set_position] and [clear]
    refine. *)

From stdpp Require Import base list numbers.
From Stdlib Require Import Lia ZArith.
From S2P Require Import Prelude Endian ByteArray.

(** ** The abstract buffer *)

Record flatbuf := MkFlat { f_data : bytes; f_pos : Z; f_endian : endian }.

Definition a_write (b : bytes) (f : flatbuf) : flatbuf :=
  MkFlat (splice (f_pos f) b (f_data f)) (f_pos f + zlen b) (f_endian f).

Definition a_read (n : Z) (f : flatbuf) : res bytes * flatbuf :=
  if zlen (f_data f) - f_pos f <? n then (Throw out_of_range, f)
  else (Ret (slice (f_pos f) n (f_data f)), MkFlat (f_data f) (f_pos f + n) (f_endian f)).

Definition a_clear (f : flatbuf) : flatbuf := MkFlat [] 0 (f_endian f).

(** ** The invariant *)

Definition node_ok (base : Z) (nd : Node) : Prop :=
  n_size nd = base /\ zlen (n_ptr nd) = base.

Definition blocks (base : Z) (l : list Node) : Prop := Forall (node_ok base) l.

Definition cells (l : list Node) : bytes := concat (map n_ptr l).

Definition storage (ba : ByteArray) : Z := m_base_size ba * zlen (m_nodes ba).
Definition flat (ba : ByteArray) : bytes := cells (m_nodes ba).
Definition data (ba : ByteArray) : bytes := ztake (m_size ba) (flat ba).
Definition abs (ba : ByteArray) : flatbuf := MkFlat (data ba) (m_position ba) (m_endian ba).

Record wf (ba : ByteArray) : Prop := {
  wf_base : 0 < m_base_size ba;
  wf_nodes : blocks (m_base_size ba) (m_nodes ba);
  wf_pos : 0 <= m_position ba <= m_size ba;
  wf_size : m_size ba <= m_capacity ba;
  wf_cap : m_capacity ba <= storage ba;
  wf_room : m_size ba < storage ba;
  wf_cur : Z.of_nat (m_cur ba) = m_position ba / m_base_size ba;
  wf_64 : storage ba < 2 ^ 64
}.

(** Room in the address space for [n] more bytes. *)
Definition room (n : Z) (ba : ByteArray) : Prop :=
  storage ba + n + 2 * m_base_size ba < 2 ^ 64.

(** ** Chains of blocks *)

Section chain.
Context (base : Z) (Hbase : 0 < base).

Lemma cells_cons nd l : cells (nd :: l) = n_ptr nd ++ cells l.
Proof. done. Qed.

Lemma cells_app l k : cells (l ++ k) = cells l ++ cells k.
Proof. unfold cells. by rewrite map_app, concat_app. Qed.

Lemma zlen_cells l : blocks base l -> zlen (cells l) = base * zlen l.
Proof.
  induction 1 as [|nd l [_ Hl] _ IH]; [by rewrite Z.mul_0_r|].
  rewrite cells_cons, zlen_app, zlen_cons, IH, Hl. lia.
Qed.

Lemma new_Node_ok : node_ok base (new_Node base).
Proof. split; [done|]. simpl. rewrite zlen_zrepeat; lia. Qed.

Lemma node_put_ok nd off b :
  node_ok base nd -> 0 <= off -> off + zlen b <= base -> node_ok base (node_put nd off b).
Proof. intros [Hs Hl] ??. split; [done|]. simpl. rewrite zlen_splice; lia. Qed.

Lemma grow_loop_eq n nodes cap :
  0 <= cap -> cap + Z.of_nat n * base < 2 ^ 64 ->
  grow_loop base n nodes cap =
  (nodes ++ replicate n (new_Node base), cap + Z.of_nat n * base, 0).
Proof.
  revert nodes cap. induction n as [|n IH]; intros nodes cap Hc Hn.
  - simpl. rewrite app_nil_r. do 2 f_equal. lia.
  - cbn [grow_loop replicate].
    rewrite wrap_small by (split; lia).
    rewrite IH by lia. rewrite <- app_assoc. do 2 f_equal. lia.
Qed.

(** How far a cursor at offset [npos] of the first block moves. *)
Lemma div_step npos n :
  0 <= npos < base -> base - npos < n -> (npos + n) / base = 1 + (n - (base - npos)) / base.
Proof.
  intros. replace (npos + n) with (n - (base - npos) + 1 * base) by lia.
  rewrite Z.div_add by lia. lia.
Qed.

Lemma write_loop_spec rest : forall npos buf,
  blocks base rest -> 0 <= npos < base -> npos + zlen buf < base * zlen rest ->
  exists rest', write_loop rest npos (base - npos) buf =
      Ret (rest', Z.to_nat ((npos + zlen buf) / base)) /\
    blocks base rest' /\ length rest' = length rest /\
    cells rest' = splice npos buf (cells rest).
Proof.
  induction rest as [|nd next IH]; intros npos buf Hb Hnpos Hlen.
  { rewrite zlen_nil in Hlen. pose proof (zlen_nonneg buf). lia. }
  inversion Hb as [|?? Hnd Hnext]; subst. pose proof Hnd as [Hsz Hl].
  cbn [write_loop]. pose proof (zlen_nonneg buf).
  destruct (Z.eqb_spec (zlen buf) 0) as [Hz|Hz].
  { apply zlen_zero in Hz as ->. rewrite zlen_nil, Z.add_0_r, Z.div_small by lia.
    exists (nd :: next). repeat split; try done.
    unfold splice. rewrite zlen_nil, Z.add_0_r, app_nil_l. by rewrite ztake_zdrop. }
  destruct (Z.leb_spec (zlen buf) (base - npos)) as [Hle|Hgt].
  - exists (node_put nd npos buf :: next). rewrite zlen_cons in Hlen. repeat split.
    + f_equal. f_equal. rewrite Hsz. destruct next as [|nd2 next'].
      * rewrite zlen_nil in Hlen. rewrite Z.div_small by lia. done.
      * destruct (Z.eqb_spec base (npos + zlen buf)) as [<-|].
        { rewrite Z.div_same by lia. done. }
        rewrite Z.div_small by lia. done.
    + constructor; [|done]. apply node_put_ok; [done|lia|lia].
    + rewrite !cells_cons. simpl. rewrite splice_app_l by lia. done.
  - rewrite zlen_cons in Hlen. destruct next as [|nd2 next'].
    { rewrite zlen_nil in Hlen. lia. }
    assert (n_size nd2 = base) as -> by (by inversion Hnext as [|?? [? ?] ?]).
    edestruct (IH 0 (zdrop (base - npos) buf)) as (rest' & Hw & Hb' & Hl' & Hc');
      [done|lia|rewrite zlen_zdrop by lia; lia|].
    rewrite Z.sub_0_r, zlen_zdrop in Hw by lia. rewrite Hw. cbn [res_bind].
    exists (node_put nd npos (ztake (base - npos) buf) :: rest'). repeat split.
    + f_equal. f_equal. rewrite (div_step npos (zlen buf)) by lia.
      rewrite Z2Nat.inj_add by (try apply Z.div_pos; lia). done.
    + constructor; [|exact Hb']. apply node_put_ok; [done|lia|rewrite zlen_ztake; lia].
    + cbn [length] in *. lia.
    + rewrite !cells_cons. rewrite Hc'. cbn [node_put n_ptr].
      rewrite <- (ztake_zdrop (base - npos) buf) at 3.
      rewrite splice_app; [done|lia|rewrite zlen_ztake; lia].
Qed.

Lemma read_loop_spec rest : forall npos n,
  blocks base rest -> 0 <= npos < base -> 0 <= n -> npos + n < base * zlen rest ->
  read_loop rest npos (base - npos) n =
  Ret (slice npos n (cells rest), Z.to_nat ((npos + n) / base)).
Proof.
  induction rest as [|nd next IH]; intros npos n Hb Hnpos Hn Hlen.
  { rewrite zlen_nil in Hlen. lia. }
  inversion Hb as [|?? Hnd Hnext]; subst. pose proof Hnd as [Hsz Hl].
  cbn [read_loop].
  destruct (Z.eqb_spec n 0) as [->|Hz].
  { rewrite Z.add_0_r, Z.div_small by lia. done. }
  rewrite zlen_cons in Hlen. rewrite cells_cons.
  destruct (Z.leb_spec n (base - npos)) as [Hle|Hgt].
  - f_equal. f_equal.
    + unfold node_get. by rewrite slice_app_l by lia.
    + rewrite Hsz. destruct next as [|nd2 next'].
      * rewrite zlen_nil in Hlen. rewrite Z.div_small by lia. done.
      * destruct (Z.eqb_spec base (npos + n)) as [<-|].
        { rewrite Z.div_same by lia. done. }
        rewrite Z.div_small by lia. done.
  - destruct next as [|nd2 next']; [rewrite zlen_nil in Hlen; lia|].
    assert (n_size nd2 = base) as -> by (by inversion Hnext as [|?? [? ?] ?]).
    specialize (IH 0 (n - (base - npos)) Hnext ltac:(lia) ltac:(lia) ltac:(lia)).
    rewrite Z.sub_0_r in IH. rewrite IH. cbn [res_bind].
    f_equal. f_equal.
    + unfold node_get. replace n with ((base - npos) + (n - (base - npos))) at 2 by lia.
      rewrite (slice_split npos) by lia.
      rewrite (slice_app_l npos) by lia.
      rewrite (slice_app_r (npos + _)) by lia. do 2 f_equal; lia.
    + rewrite (div_step npos n) by lia.
      rewrite Z2Nat.inj_add by (try apply Z.div_pos; lia). done.
Qed.

Lemma seek_spec rest : forall p,
  blocks base rest -> 0 <= p < base * zlen rest ->
  seek rest p = Ret (drop (Z.to_nat (p / base)) rest, p mod base).
Proof.
  induction rest as [|nd next IH]; intros p Hb Hp.
  { change (zlen []) with 0 in Hp. lia. }
  inversion Hb as [|?? Hnd Hnext]; subst. pose proof Hnd as [Hsz Hl]. cbn [seek]. rewrite Hsz.
  assert (zlen (nd :: next) = 1 + zlen next) as Hc by apply zlen_cons.
  rewrite Hc in Hp. destruct (Z.leb_spec base p).
  - rewrite IH by (done || lia). f_equal. f_equal.
    + replace p with (p - base + 1 * base) at 2 by lia.
      rewrite Z.div_add by lia. rewrite Z.add_comm, Z2Nat.inj_add by (try apply Z.div_pos; lia).
      done.
    + replace p with (p - base + 1 * base) at 2 by lia. by rewrite Z.mod_add by lia.
  - rewrite Z.div_small, Z.mod_small by lia. done.
Qed.

Lemma set_position_seek_spec rest : forall v,
  blocks base rest -> 0 <= v < base * zlen rest ->
  set_position_seek rest v = Ret (Z.to_nat (v / base)).
Proof.
  induction rest as [|nd next IH]; intros v Hb Hv.
  { change (zlen []) with 0 in Hv. lia. }
  inversion Hb as [|?? Hnd Hnext]; subst. pose proof Hnd as [Hsz Hl]. cbn [set_position_seek]. rewrite Hsz.
  assert (zlen (nd :: next) = 1 + zlen next) as Hc by apply zlen_cons.
  rewrite Hc in Hv. destruct (Z.ltb_spec base v).
  - rewrite IH by (done || lia). simpl. f_equal.
    replace v with (v - base + 1 * base) at 2 by lia.
    rewrite Z.div_add by lia. rewrite Z.add_comm, Z2Nat.inj_add by (try apply Z.div_pos; lia).
    done.
  - destruct next as [|nd2 next'].
    + unfold zlen in Hv; simpl in Hv. rewrite Z.div_small by lia. done.
    + destruct (Z.eqb_spec v base) as [->|].
      * by rewrite Z.div_same by lia.
      * by rewrite Z.div_small by lia.
Qed.

(** The chain from the block that holds position [p]. *)
Lemma blocks_drop k l : blocks base l -> blocks base (drop k l).
Proof. apply Forall_drop. Qed.

Lemma cells_drop l k : blocks base l ->
  cells (drop k l) = zdrop (base * Z.of_nat k) (cells l).
Proof.
  intros Hb. revert k. induction Hb as [|nd l [_ Hl] Hb IH]; intros k.
  - rewrite drop_nil. unfold zdrop, cells. simpl. by rewrite drop_nil.
  - destruct k as [|k].
    + rewrite Z.mul_0_r. done.
    + simpl drop. rewrite IH, cells_cons.
      rewrite zdrop_app_r by lia. f_equal. lia.
Qed.

Lemma cells_take l k : blocks base l ->
  cells (take k l) = ztake (base * Z.of_nat k) (cells l).
Proof.
  intros Hb. revert k. induction Hb as [|nd l [_ Hl] Hb IH]; intros k.
  - rewrite take_nil. unfold ztake, cells. simpl. by rewrite take_nil.
  - destruct k as [|k].
    + rewrite Z.mul_0_r. done.
    + simpl take. rewrite !cells_cons, IH.
      rewrite ztake_app_r by lia. do 2 f_equal. lia.
Qed.

End chain.

#[local] Hint Resolve blocks_drop : tiger.

(** ** Growing the chain *)

(** The array after [k] blocks were appended to the chain. *)
Definition grown (k : nat) (ba : ByteArray) : ByteArray :=
  MkByteArray (m_base_size ba) (m_position ba)
    (m_capacity ba + Z.of_nat k * m_base_size ba) (m_size ba) (m_endian ba)
    (m_nodes ba ++ replicate k (new_Node (m_base_size ba))) (m_cur ba).

Lemma storage_grown k ba : storage (grown k ba) = storage ba + Z.of_nat k * m_base_size ba.
Proof. unfold storage. simpl. rewrite zlen_app. unfold zlen at 2. rewrite length_replicate. lia. Qed.

Lemma zlen_flat ba : wf ba -> zlen (flat ba) = storage ba.
Proof. intros Hwf. apply zlen_cells, wf_nodes, Hwf. Qed.

Lemma zlen_data ba : wf ba -> zlen (data ba) = m_size ba.
Proof.
  intros Hwf. unfold data. rewrite zlen_ztake; [done|]. rewrite zlen_flat by done.
  destruct Hwf. lia.
Qed.

Lemma wf_grown k ba :
  wf ba -> storage ba + Z.of_nat k * m_base_size ba < 2 ^ 64 -> wf (grown k ba).
Proof.
  intros Hwf Hk. pose proof (storage_grown k ba). destruct Hwf.
  assert (0 <= Z.of_nat k * m_base_size ba) by lia.
  split; simpl; try lia.
  apply Forall_app; split; [done|]. apply Forall_replicate, new_Node_ok. lia.
Qed.

Lemma data_grown k ba : wf ba -> data (grown k ba) = data ba.
Proof.
  intros Hwf. unfold data, flat. simpl. rewrite cells_app, ztake_app_l; [done|].
  fold (flat ba). rewrite zlen_flat by done. destruct Hwf. lia.
Qed.

Lemma sz_sub_eq a b : 0 <= b <= a -> a < 2 ^ 64 -> sz_sub a b = a - b.
Proof. intros. unfold sz_sub. apply wrap_small. split; lia. Qed.

Lemma add_free_capacity_ok n ba :
  wf ba -> 0 <= n -> room n ba ->
  exists k, add_free_capacity_to n ba = Ret (grown k ba) /\ wf (grown k ba) /\
    m_position ba + n < m_capacity (grown k ba) /\
    storage (grown k ba) <= storage ba + n + 2 * m_base_size ba.
Proof.
  intros Hwf Hn Hroom. pose proof (wf_grown) as Hgr. pose proof Hwf as [].
  unfold add_free_capacity_to, get_free_capacity, room in *.
  rewrite sz_sub_eq by lia.
  destruct (Z.ltb_spec n (m_capacity ba - m_position ba)).
  - exists 0%nat.
    assert (grown 0 ba = ba) as ->.
    { destruct ba. unfold grown. simpl. rewrite app_nil_r. f_equal. lia. }
    split; [done|split; [done|lia]].
  - destruct (Z.eqb_spec (m_base_size ba) 0); [lia|].
    set (d := n - (m_capacity ba - m_position ba)) in *.
    set (c := ceil_div d (m_base_size ba)).
    assert (d <= c * m_base_size ba < d + m_base_size ba) as Hc.
    { unfold c, ceil_div. pose proof (Z_div_mod_eq_full (d + m_base_size ba - 1) (m_base_size ba)).
      pose proof (Z.mod_pos_bound (d + m_base_size ba - 1) (m_base_size ba)). lia. }
    assert (0 <= c) by (apply Z.div_pos; lia).
    assert (Z.of_nat (Z.to_nat (c + 1)) = c + 1) as Hk by lia.
    rewrite grow_loop_eq by (rewrite ?Hk; lia).
    exists (Z.to_nat (c + 1)). unfold grown. simpl m_capacity. rewrite !Hk.
    rewrite andb_false_r. split; [done|].
    pose proof (storage_grown (Z.to_nat (c + 1)) ba) as Hs. unfold grown in Hs. rewrite !Hk in Hs.
    split; [|split; lia].
    specialize (Hgr (Z.to_nat (c + 1)) ba Hwf). unfold grown in Hgr. rewrite !Hk in Hgr.
    apply Hgr. lia.
Qed.

(** ** The cursor *)

Section cursor.
Context (ba : ByteArray) (Hwf : wf ba).

Lemma sz_mod_pos : sz_mod (m_position ba) (m_base_size ba) = Ret (m_position ba mod m_base_size ba).
Proof. destruct Hwf. unfold sz_mod. destruct (Z.eqb_spec (m_base_size ba) 0); [lia|done]. Qed.

Lemma cursor_split :
  m_base_size ba * Z.of_nat (m_cur ba) + m_position ba mod m_base_size ba = m_position ba.
Proof.
  destruct Hwf. rewrite wf_cur0.
  pose proof (Z_div_mod_eq_full (m_position ba) (m_base_size ba)). lia.
Qed.

Lemma cursor_off : 0 <= m_position ba mod m_base_size ba < m_base_size ba.
Proof. destruct Hwf. apply Z.mod_pos_bound. lia. Qed.

Lemma cursor_lt : Z.of_nat (m_cur ba) < zlen (m_nodes ba).
Proof.
  pose proof cursor_split. pose proof cursor_off.
  destruct Hwf. unfold storage in *. nia.
Qed.

Lemma base_le_storage : m_base_size ba <= storage ba.
Proof.
  pose proof cursor_lt. destruct Hwf. unfold storage in *.
  rewrite <- (Z.mul_1_r (m_base_size ba)) at 1. apply Z.mul_le_mono_nonneg_l; lia.
Qed.

Lemma zlen_from_cursor :
  zlen (drop (m_cur ba) (m_nodes ba)) = zlen (m_nodes ba) - Z.of_nat (m_cur ba).
Proof. pose proof cursor_lt. unfold zlen in *. rewrite length_drop. lia. Qed.

(** The node under the cursor exists and has the block size. *)
Lemma cursor_node : exists nd next,
  drop (m_cur ba) (m_nodes ba) = nd :: next /\ n_size nd = m_base_size ba.
Proof.
  pose proof zlen_from_cursor as Hl. pose proof cursor_lt.
  destruct (drop (m_cur ba) (m_nodes ba)) as [|nd next] eqn:Hd;
    [rewrite zlen_nil in Hl; lia|].
  exists nd, next. split; [done|].
  pose proof (blocks_drop (m_base_size ba) (m_cur ba) _ (wf_nodes _ Hwf)) as Hb.
  rewrite Hd in Hb. by inversion Hb as [|?? [? ?] ?].
Qed.

Lemma from_cursor_storage n :
  m_position ba + n < storage ba ->
  m_position ba mod m_base_size ba + n < m_base_size ba * zlen (drop (m_cur ba) (m_nodes ba)).
Proof.
  intros Hn. rewrite zlen_from_cursor. pose proof cursor_split.
  unfold storage in *. lia.
Qed.

Lemma from_cursor_cells :
  cells (drop (m_cur ba) (m_nodes ba)) = zdrop (m_base_size ba * Z.of_nat (m_cur ba)) (flat ba).
Proof. apply cells_drop; [apply Hwf|apply wf_nodes, Hwf]. Qed.

Lemma cursor_advance n :
  0 <= n ->
  Z.of_nat (m_cur ba + Z.to_nat ((m_position ba mod m_base_size ba + n) / m_base_size ba))
  = (m_position ba + n) / m_base_size ba.
Proof.
  intros Hn. pose proof cursor_split as Hs. pose proof cursor_off. destruct Hwf.
  rewrite Nat2Z.inj_add, Z2Nat.id by (apply Z.div_pos; lia).
  rewrite <- Hs at 2.
  replace (m_base_size ba * Z.of_nat (m_cur ba) + m_position ba mod m_base_size ba + n)
    with (m_position ba mod m_base_size ba + n + Z.of_nat (m_cur ba) * m_base_size ba) by lia.
  rewrite Z.div_add by lia. lia.
Qed.

End cursor.

(** ** The operations refine the flat buffer *)

Lemma flat_write ba rest buf :
  wf ba -> m_position ba + zlen buf < storage ba ->
  cells rest = splice (m_position ba mod m_base_size ba) buf
                 (cells (drop (m_cur ba) (m_nodes ba))) ->
  cells (take (m_cur ba) (m_nodes ba) ++ rest) = splice (m_position ba) buf (flat ba).
Proof.
  intros Hwf Hlen Hrest.
  assert (zlen (cells (take (m_cur ba) (m_nodes ba))) = m_base_size ba * Z.of_nat (m_cur ba)) as Hp.
  { pose proof (cursor_lt ba Hwf). rewrite (zlen_cells (m_base_size ba)) by (apply Forall_take, Hwf).
    unfold zlen in *. rewrite length_take. lia. }
  rewrite cells_app, Hrest. unfold flat.
  rewrite <- (take_drop (m_cur ba) (m_nodes ba)) at 3. rewrite cells_app.
  pose proof (cursor_split ba Hwf). pose proof (cursor_off ba Hwf).
  rewrite splice_app_r by lia. rewrite Hp. do 2 f_equal. lia.
Qed.

Lemma write_at_cursor_ok buf ba :
  wf ba -> m_position ba + zlen buf < m_capacity ba ->
  exists ba', write_at_cursor buf ba = (Ret tt, ba') /\ wf ba' /\
    abs ba' = a_write buf (abs ba) /\
    m_base_size ba' = m_base_size ba /\ storage ba' = storage ba.
Proof.
  intros Hwf Hcap. unfold write_at_cursor. pose proof (zlen_nonneg buf).
  rewrite sz_mod_pos by done. cbn [res_bind].
  destruct (cursor_node _ Hwf) as (nd & next & Hd & Hsz). rewrite Hd, Hsz. rewrite <- Hd.
  pose proof (cursor_off _ Hwf) as Hoff. pose proof (base_le_storage _ Hwf).
  pose proof Hwf as [].
  assert (m_position ba + zlen buf < storage ba) as Hlt by lia.
  rewrite sz_sub_eq by lia.
  destruct (write_loop_spec _ wf_base0 _ _ buf
    (blocks_drop _ (m_cur ba) _ wf_nodes0) Hoff (from_cursor_storage _ Hwf _ Hlt))
    as (rest & -> & Hb & Hl & Hc).
  rewrite wrap_small by (split; lia).
  pose proof (flat_write _ _ _ Hwf Hlt Hc) as Hflat.
  set (pos' := m_position ba + zlen buf) in *.
  assert ((if m_size ba <? pos' then pos' else m_size ba) = Z.max (m_size ba) pos') as ->
    by (destruct (Z.ltb_spec (m_size ba) pos'); lia).
  assert (zlen (take (m_cur ba) (m_nodes ba) ++ rest) = zlen (m_nodes ba)) as Hlen.
  { transitivity (zlen (take (m_cur ba) (m_nodes ba) ++ drop (m_cur ba) (m_nodes ba)));
      [|by rewrite take_drop].
    unfold zlen. by rewrite !length_app, Hl. }
  eexists. split; [reflexivity|].
  split; [|split; [|split; [done|unfold storage; simpl; by rewrite Hlen]]].
  - split; simpl; unfold storage; simpl; rewrite ?Hlen; fold (storage ba); try (done || lia).
    + apply Forall_app; split; [by apply Forall_take|done].
    + apply cursor_advance; [done|lia].
  - unfold abs, a_write, data. cbn [flat m_nodes m_size f_data f_pos m_position m_endian f_endian].
    unfold flat at 1. simpl m_nodes. f_equal. rewrite Hflat. unfold pos'.
    by rewrite (ztake_splice (m_position ba)) by (rewrite ?zlen_flat by done; lia).
Qed.

Lemma write_ok buf ba :
  wf ba -> room (zlen buf) ba ->
  exists ba', write buf ba = (Ret tt, ba') /\ wf ba' /\ abs ba' = a_write buf (abs ba) /\
    m_base_size ba' = m_base_size ba /\
    storage ba' <= storage ba + zlen buf + 2 * m_base_size ba.
Proof.
  intros Hwf Hroom. unfold write. pose proof (zlen_nonneg buf).
  destruct (Z.eqb_spec (zlen buf) 0) as [Hz|Hz].
  { apply zlen_zero in Hz as ->. exists ba. split; [done|]. split; [done|].
    split; [|pose proof (wf_base ba Hwf); split; [done|rewrite zlen_nil; lia]].
    unfold abs, a_write, splice. simpl. rewrite zlen_nil, !Z.add_0_r. by rewrite ztake_zdrop. }
  destruct (add_free_capacity_ok (zlen buf) ba Hwf) as (k & -> & Hg & Hcap & Hst); [lia|done|].
  destruct (write_at_cursor_ok buf _ Hg) as (ba' & -> & Hwf' & Habs & Hbase & Hs); [done|].
  exists ba'. split; [done|]. split; [done|]. rewrite Habs, Hbase, Hs.
  split; [|split; [done|lia]].
  unfold abs. by rewrite data_grown.
Qed.

Lemma read_ok n ba :
  wf ba -> 0 <= n ->
  exists r ba', read n ba = (r, ba') /\ wf ba' /\ (r, abs ba') = a_read n (abs ba) /\
    m_base_size ba' = m_base_size ba /\ storage ba' = storage ba.
Proof.
  intros Hwf Hn. unfold read, a_read, get_enable_read_size. simpl f_data. simpl f_pos.
  rewrite zlen_data by done. pose proof Hwf as [].
  rewrite sz_sub_eq by lia.
  destruct (Z.ltb_spec (m_size ba - m_position ba) n).
  { eexists _, _. repeat split; try done; lia. }
  rewrite sz_mod_pos by done. cbn [res_bind].
  destruct (cursor_node _ Hwf) as (nd & next & Hd & Hsz). rewrite Hd, Hsz. rewrite <- Hd.
  pose proof (cursor_off _ Hwf) as Hoff. pose proof (base_le_storage _ Hwf).
  assert (m_position ba + n < storage ba) as Hlt by lia.
  rewrite sz_sub_eq by lia.
  rewrite (read_loop_spec (m_base_size ba)) by eauto using from_cursor_storage with tiger.
  rewrite wrap_small by (split; lia).
  eexists _, _. split; [reflexivity|]. split; [|split; [|split; done]].
  - split; simpl; try (done || lia). apply cursor_advance; [done|lia].
  - unfold abs. simpl. f_equal. f_equal. unfold data. simpl.
    rewrite slice_ztake by lia. rewrite from_cursor_cells by done.
    unfold slice. pose proof (cursor_split _ Hwf).
    rewrite zdrop_zdrop by lia. do 2 f_equal. lia.
Qed.

Lemma set_position_throws v ba :
  m_capacity ba < v -> set_position v ba = (Throw out_of_range, ba).
Proof. intros. unfold set_position. by destruct (Z.ltb_spec (m_capacity ba) v); [|lia]. Qed.

Lemma set_position_ok v ba :
  wf ba -> 0 <= v <= m_capacity ba -> v < storage ba ->
  exists ba', set_position v ba = (Ret tt, ba') /\ wf ba' /\
    m_position ba' = v /\ m_size ba' = Z.max (m_size ba) v /\ flat ba' = flat ba /\
    m_endian ba' = m_endian ba /\
    m_base_size ba' = m_base_size ba /\ storage ba' = storage ba.
Proof.
  intros Hwf Hv Hlt. unfold set_position. pose proof Hwf as [].
  destruct (Z.ltb_spec (m_capacity ba) v); [lia|].
  rewrite (set_position_seek_spec (m_base_size ba)) by (done || unfold storage in *; lia).
  assert ((if m_size ba <? v then v else m_size ba) = Z.max (m_size ba) v) as ->
    by (destruct (Z.ltb_spec (m_size ba) v); lia).
  eexists. split; [reflexivity|]. split; [|done].
  split; simpl; try (done || lia); unfold storage in *; simpl; try lia.
  rewrite Z2Nat.id; [done|]. apply Z.div_pos; lia.
Qed.

(** Moving inside the data changes the position only. *)
Lemma set_position_abs v ba :
  wf ba -> 0 <= v <= m_size ba ->
  exists ba', set_position v ba = (Ret tt, ba') /\ wf ba' /\
    abs ba' = MkFlat (data ba) v (m_endian ba) /\
    m_base_size ba' = m_base_size ba /\ storage ba' = storage ba.
Proof.
  intros Hwf Hv. pose proof Hwf as [].
  destruct (set_position_ok v ba) as (ba' & ? & ? & Hp & Hs & Hf & He & ? & ?); [done|lia..|].
  exists ba'. split; [done|]. split; [done|]. split; [|done].
  unfold abs, data. rewrite Hp, Hs, Hf, He, Z.max_l by lia. done.
Qed.

Lemma clear_ok ba :
  wf ba -> exists ba', clear ba = (Ret tt, ba') /\ wf ba' /\ abs ba' = a_clear (abs ba) /\
    m_base_size ba' = m_base_size ba /\ storage ba' = m_base_size ba.
Proof.
  intros Hwf. unfold clear. eexists. split; [reflexivity|].
  pose proof (cursor_lt ba Hwf) as Hc. pose proof (base_le_storage _ Hwf). destruct Hwf.
  assert (zlen (take 1 (m_nodes ba)) = 1) as Hl.
  { unfold zlen in *. rewrite length_take. lia. }
  split; [|split; [done|unfold storage; simpl; rewrite Hl; lia]].
  split; simpl; unfold storage in *; simpl; rewrite ?Hl; try lia.
  - by apply Forall_take.
  - by rewrite Z.div_0_l by lia.
Qed.

(** The array with the cursor moved to [p]: what the operations that take a
    position find by walking the chain from the root. *)
Definition moved (p : Z) (ba : ByteArray) : ByteArray :=
  MkByteArray (m_base_size ba) p (m_capacity ba) (m_size ba) (m_endian ba) (m_nodes ba)
    (Z.to_nat (p / m_base_size ba)).

Lemma wf_moved p ba : wf ba -> 0 <= p <= m_size ba -> wf (moved p ba).
Proof.
  intros [] Hp. split; simpl; unfold storage in *; simpl; try (done || lia).
  rewrite Z2Nat.id; [done|]. apply Z.div_pos; lia.
Qed.

Lemma seek_moved p ba :
  wf ba -> 0 <= p <= m_size ba ->
  seek (m_nodes ba) p = Ret (drop (m_cur (moved p ba)) (m_nodes ba), p mod m_base_size ba).
Proof. intros [] Hp. apply seek_spec; [lia|done|unfold storage in *; lia]. Qed.

Lemma read_at_ok n p ba :
  wf ba -> 0 <= n -> 0 <= p <= m_size ba ->
  read_at n p ba =
  if m_size ba - p <? n then Throw out_of_range else Ret (slice p n (data ba)).
Proof.
  intros Hwf Hn Hp. unfold read_at. pose proof (base_le_storage _ Hwf).
  pose proof (wf_moved p ba Hwf Hp) as Hm. pose proof Hwf as [].
  rewrite sz_sub_eq by lia.
  destruct (Z.ltb_spec (m_size ba - p) n); [done|].
  pose proof (sz_mod_pos _ Hm) as Hsz. simpl in Hsz. rewrite Hsz. cbn [res_bind].
  rewrite seek_moved by done. cbn [res_bind].
  destruct (cursor_node _ Hm) as (nd & next & Hd & Hnd). simpl m_nodes in Hd. simpl m_base_size in Hnd.
  rewrite Hd, Hnd, <- Hd.
  pose proof (cursor_off _ Hm) as Hoff. simpl m_position in Hoff. simpl m_base_size in Hoff.
  rewrite sz_sub_eq by lia.
  rewrite (read_loop_spec (m_base_size ba));
    [|lia|by apply Forall_drop|lia|lia|apply (from_cursor_storage _ Hm n); simpl; unfold storage in *; simpl; lia].
  cbn [res_bind]. f_equal. pose proof (from_cursor_cells _ Hm) as Hc. simpl m_nodes in Hc.
  rewrite Hc. unfold data. rewrite slice_ztake by lia. unfold slice.
  pose proof (cursor_split _ Hm) as Hs. simpl m_base_size in *. simpl m_position in Hs.
  rewrite zdrop_zdrop by lia. change (flat (moved p ba)) with (flat ba). do 2 f_equal. lia.
Qed.

Lemma to_string_ok ba : wf ba -> to_string ba = Ret (zdrop (m_position ba) (data ba)).
Proof.
  intros Hwf. unfold to_string, get_enable_read_size.
  pose proof (zlen_data _ Hwf) as Hl. pose proof Hwf as [].
  rewrite sz_sub_eq by lia.
  destruct (Z.eqb_spec (m_size ba - m_position ba) 0).
  { by rewrite zdrop_all by lia. }
  rewrite read_at_ok by (done || lia).
  destruct (Z.ltb_spec (m_size ba - m_position ba) (m_size ba - m_position ba)); [lia|].
  unfold slice. by rewrite ztake_all by (rewrite zlen_zdrop; lia).
Qed.

Lemma new_ByteArray_wf base : 0 < base < 2 ^ 64 -> wf (new_ByteArray base).
Proof.
  intros. unfold new_ByteArray.
  split; unfold storage; cbn [m_base_size m_nodes m_position m_size m_capacity m_cur];
    rewrite ?zlen_cons; zlen_nil; try lia.
  - constructor; [|done]. apply new_Node_ok. lia.
  - by rewrite Z.div_0_l by lia.
Qed.
