(* ===== verification/ByteArrayCodec.v ===== *)
(** * The byte array: the typed reads and writes ([src/bytearray.cc])

    Fixed-width integers in the array's byte order, zigzag and base-128 varints,
    length-prefixed strings.  Signed values are [Z] in their two's complement
    range, a [float] or [double] is its bit pattern, a [std::string] its bytes. *)

From stdpp Require Import base list numbers.
From Stdlib Require Import Lia ZArith.
From S2P Require Import Prelude Endian ByteArray.

(** ** Zigzag

    [-v] overflows for the least value of the signed type: undefined behaviour. *)

Definition Encode_Zigzag (w : Z) (v : Z) : res Z :=
  if v <? 0 then
    if v =? - 2 ^ (w - 1) then Undef SignedOverflow
    else Ret (wrap w (wrap w (Z.shiftl (- v) 1) - 1))
  else Ret (wrap w (Z.shiftl v 1)).

Definition Decode_Zigzag (w : Z) (v : Z) : Z :=
  to_signed w (Z.lxor (Z.shiftr v 1) (wrap w (- Z.land v 1))).

Definition Encode_Zigzag32 : Z -> res Z := Encode_Zigzag 32.
Definition Encode_Zigzag64 : Z -> res Z := Encode_Zigzag 64.
Definition Decode_Zigzag32 : Z -> Z := Decode_Zigzag 32.
Definition Decode_Zigzag64 : Z -> Z := Decode_Zigzag 64.

(** The loop that fills [tmp]; [slots] is what is left of the array, so that a
    store past its end is an overflow. *)
Fixpoint varint_loop (slots : nat) (v : Z) : res bytes :=
  match slots with
  | O => Undef BufferOverflow
  | S slots' =>
      if 128 <=? v then
        let? tl := varint_loop slots' (Z.shiftr v 7) in
        Ret (Z.lor (Z.land v 127) 128 :: tl)
      else Ret [v]
  end.

(** Lift a pure computation into a method. *)
Definition lift {A} (r : res A) : ba_meth A := fun ba => (r, ba).

Definition read_fixed_uint8_raw (host : endian) : ba_meth Z :=
  let! b := read 1 in ret (of_mem host b).

(** [for (uint8_t i = 0; i < w; i += 7)]: at most [w / 7 + 1] rounds. *)
Fixpoint read_varint_loop (rd : ba_meth Z) (w : Z) (fuel : nat) (i v : Z) : ba_meth Z :=
  match fuel with
  | O => fun ba => (Undef Diverges, ba)
  | S fuel' =>
      if i <? w then
        let! b := rd in
        if b <? 128 then ret (Z.lor v (wrap w (Z.shiftl b i)))
        else read_varint_loop rd w fuel' (i + 7)
               (Z.lor v (wrap w (Z.shiftl (Z.land b 127) i)))
      else ret v
  end.

Section Codec.
Context (host : endian).
(** Whether [std::string::resize] can allocate that many bytes. *)
Context (alloc_ok : Z -> bool).

(** ** Writing *)

Definition write_fixed_int8 (v : Z) : ba_meth unit := write (mem_of host 1 v).
Definition write_fixed_uint8 (v : Z) : ba_meth unit := write (mem_of host 1 v).

Definition write_fixed_int (n : nat) (v : Z) : ba_meth unit :=
  let! e := gets m_endian in
  let v := if decide (e = host) then v else byteswap_signed n v in
  write (mem_of host n v).

Definition write_fixed_uint (n : nat) (v : Z) : ba_meth unit :=
  let! e := gets m_endian in
  let v := if decide (e = host) then v else byteswap n v in
  write (mem_of host n v).

Definition write_fixed_int16 : Z -> ba_meth unit := write_fixed_int 2.
Definition write_fixed_uint16 : Z -> ba_meth unit := write_fixed_uint 2.
Definition write_fixed_int32 : Z -> ba_meth unit := write_fixed_int 4.
Definition write_fixed_uint32 : Z -> ba_meth unit := write_fixed_uint 4.
Definition write_fixed_int64 : Z -> ba_meth unit := write_fixed_int 8.
Definition write_fixed_uint64 : Z -> ba_meth unit := write_fixed_uint 8.

Definition write_uint32 (v : Z) : ba_meth unit :=
  let! tmp := lift (varint_loop 5 v) in write tmp.
Definition write_int32 (v : Z) : ba_meth unit :=
  let! z := lift (Encode_Zigzag32 v) in write_uint32 z.
Definition write_uint64 (v : Z) : ba_meth unit :=
  let! tmp := lift (varint_loop 10 v) in write tmp.
Definition write_int64 (v : Z) : ba_meth unit :=
  let! z := lift (Encode_Zigzag64 v) in write_uint64 z.

Definition write_float (v : Z) : ba_meth unit := write_fixed_uint32 v.
Definition write_double (v : Z) : ba_meth unit := write_fixed_uint64 v.

Definition write_fixed_str16 (v : bytes) : ba_meth unit :=
  let! _ := write_fixed_uint16 (wrap 16 (zlen v)) in write v.
Definition write_fixed_str32 (v : bytes) : ba_meth unit :=
  let! _ := write_fixed_uint32 (wrap 32 (zlen v)) in write v.
Definition write_fixed_str64 (v : bytes) : ba_meth unit :=
  let! _ := write_fixed_uint64 (wrap 64 (zlen v)) in write v.
Definition write_str (v : bytes) : ba_meth unit :=
  let! _ := write_uint64 (wrap 64 (zlen v)) in write v.
Definition write_str_without_len (v : bytes) : ba_meth unit := write v.

(** ** Reading *)

Definition read_fixed_int8 : ba_meth Z :=
  let! b := read 1 in ret (to_signed 8 (of_mem host b)).
Definition read_fixed_uint8 : ba_meth Z := read_fixed_uint8_raw host.

Definition read_fixed_int (n : nat) : ba_meth Z :=
  let! b := read (Z.of_nat n) in
  let v := to_signed (8 * Z.of_nat n) (of_mem host b) in
  let! e := gets m_endian in
  ret (if decide (e = host) then v else byteswap_signed n v).

Definition read_fixed_uint (n : nat) : ba_meth Z :=
  let! b := read (Z.of_nat n) in
  let v := of_mem host b in
  let! e := gets m_endian in
  ret (if decide (e = host) then v else byteswap n v).

Definition read_fixed_int16 : ba_meth Z := read_fixed_int 2.
Definition read_fixed_uint16 : ba_meth Z := read_fixed_uint 2.
Definition read_fixed_int32 : ba_meth Z := read_fixed_int 4.
Definition read_fixed_uint32 : ba_meth Z := read_fixed_uint 4.
Definition read_fixed_int64 : ba_meth Z := read_fixed_int 8.
Definition read_fixed_uint64 : ba_meth Z := read_fixed_uint 8.

Definition read_uint32 : ba_meth Z := read_varint_loop read_fixed_uint8 32 6 0 0.
Definition read_int32 : ba_meth Z := let! v := read_uint32 in ret (Decode_Zigzag32 v).
(** The 64-bit loop reads with [read_fixed_int8] into a [uint8_t]. *)
Definition read_uint64 : ba_meth Z :=
  read_varint_loop (let! b := read_fixed_int8 in ret (wrap 8 b)) 64 11 0 0.
Definition read_int64 : ba_meth Z := let! v := read_uint64 in ret (Decode_Zigzag64 v).

Definition read_float : ba_meth Z := read_fixed_uint32.
Definition read_double : ba_meth Z := read_fixed_uint64.

(** [buff.resize(len); read(&buff[0], len)]. *)
Definition read_string_of (len : Z) : ba_meth bytes :=
  if alloc_ok len then read len else fun ba => (Throw bad_alloc, ba).

Definition read_fixed_str16 : ba_meth bytes := let! len := read_fixed_uint16 in read_string_of len.
Definition read_fixed_str32 : ba_meth bytes := let! len := read_fixed_uint32 in read_string_of len.
Definition read_fixed_str64 : ba_meth bytes := let! len := read_fixed_uint64 in read_string_of len.
Definition read_str : ba_meth bytes := let! len := read_uint64 in read_string_of len.

End Codec.
