(* ===== verification/ByteArrayCodecFacts.v ===== *)
(** * The byte array: round trips of the typed reads and writes

    [emits] and [yields] say what a writer appends and what a reader takes from
    the flat view of the array; they compose, and the class [Codec] pairs a writer
    with a reader that agree on an encoding. *)

From stdpp Require Import base list numbers.
From Stdlib Require Import Lia ZArith.
From S2P Require Import Prelude Endian ByteArray ByteArrayFacts ByteArrayCodec.

(** ** Zigzag and varints on integers *)

Definition zigzag (v : Z) : Z := if v <? 0 then - 2 * v - 1 else 2 * v.

Lemma pow2_half w : 1 <= w -> 2 ^ w = 2 * 2 ^ (w - 1).
Proof. intros. rewrite <- Z.pow_succ_r by lia. f_equal. lia. Qed.

Lemma Encode_Zigzag_eq w v :
  1 < w -> - 2 ^ (w - 1) < v < 2 ^ (w - 1) -> Encode_Zigzag w v = Ret (zigzag v).
Proof.
  intros Hw Hv. pose proof (pow2_half w ltac:(lia)).
  unfold Encode_Zigzag, zigzag. destruct (Z.ltb_spec v 0).
  - destruct (Z.eqb_spec v (- 2 ^ (w - 1))); [lia|].
    rewrite Z.shiftl_mul_pow2 by lia. change (2 ^ 1) with 2.
    rewrite (wrap_small w (- v * 2)) by (split; lia).
    rewrite wrap_small by (split; lia). f_equal. lia.
  - rewrite Z.shiftl_mul_pow2 by lia. change (2 ^ 1) with 2.
    rewrite wrap_small by (split; lia). f_equal. lia.
Qed.

Lemma zigzag_fits w v : 1 < w -> - 2 ^ (w - 1) < v < 2 ^ (w - 1) -> fits w (zigzag v).
Proof.
  intros Hw Hv. pose proof (pow2_half w ltac:(lia)).
  unfold zigzag, fits. destruct (Z.ltb_spec v 0); lia.
Qed.

Lemma lxor_mask w a : 0 <= w -> fits w a -> Z.lxor a (wrap w (-1)) = 2 ^ w - 1 - a.
Proof.
  intros Hw Ha. unfold wrap.
  assert ((-1) mod 2 ^ w = Z.ones w) as ->.
  { rewrite Z.ones_equiv. symmetry.
    pose proof (Z.pow_pos_nonneg 2 w). apply (Z.mod_unique_pos _ _ (-1)); lia. }
  replace (2 ^ w - 1 - a) with (Z.ones w - a) by (rewrite Z.ones_equiv; lia).
  rewrite (Z.sub_nocarry_ldiff (Z.ones w) a).
  - apply Z.bits_inj'. intros k Hk.
    rewrite Z.lxor_spec, Z.ldiff_spec.
    destruct (Z.lt_ge_cases k w).
    + rewrite Z.ones_spec_low by lia. by destruct (Z.testbit a k).
    + rewrite Z.ones_spec_high by lia.
      rewrite <- (Z.mod_small a (2 ^ w)) by done. by rewrite Z.mod_pow2_bits_high by lia.
  - apply Z.bits_inj'. intros k Hk. rewrite Z.ldiff_spec, Z.bits_0.
    destruct (Z.lt_ge_cases k w).
    + rewrite Z.ones_spec_low by lia. by rewrite andb_false_r.
    + rewrite <- (Z.mod_small a (2 ^ w)) by done. by rewrite Z.mod_pow2_bits_high by lia.
Qed.

Lemma Decode_Zigzag_eq w v :
  1 < w -> - 2 ^ (w - 1) <= v < 2 ^ (w - 1) -> Decode_Zigzag w (zigzag v) = v.
Proof.
  intros Hw Hv. pose proof (pow2_half w ltac:(lia)).
  unfold Decode_Zigzag. rewrite Z.shiftr_div_pow2 by lia. change (2 ^ 1) with 2.
  change (Z.land (zigzag v) 1) with (Z.land (zigzag v) (Z.ones 1)).
  rewrite Z.land_ones by lia. change (2 ^ 1) with 2.
  unfold zigzag. destruct (Z.ltb_spec v 0).
  - replace (-2 * v - 1) with (1 + (- v - 1) * 2) by lia.
    rewrite Z.div_add, Z.mod_add by lia. change (1 / 2) with 0. change (1 mod 2) with 1.
    rewrite lxor_mask by (try split; lia).
    replace (2 ^ w - 1 - (0 + (- v - 1))) with (v + 1 * 2 ^ w) by lia.
    rewrite <- (to_signed_wrap w v) at 2 by (try split; lia).
    unfold to_signed, wrap. rewrite Z.mod_add, Z.mod_mod by lia. done.
  - replace (2 * v) with (0 + v * 2) by lia.
    rewrite Z.div_add, Z.mod_add by lia. change (0 / 2) with 0. change (0 mod 2) with 0.
    change (- 0) with 0. unfold wrap. rewrite Z.mod_0_l by lia. rewrite Z.lxor_0_r.
    unfold to_signed, wrap. rewrite Z.mod_small by lia.
    destruct (Z.ltb_spec (0 + v) (2 ^ (w - 1))); lia.
Qed.

(** The varint of [v]: seven bits per byte, low first, the top bit marking that
    more follow. *)
Lemma varint_loop_ok slots v :
  0 <= v < 2 ^ (7 * Z.of_nat slots) -> (0 < slots)%nat ->
  exists bs, varint_loop slots v = Ret bs /\ (1 <= length bs <= slots)%nat /\ Forall is_byte bs.
Proof.
  revert v. induction slots as [|n IH]; intros v Hv Hs; [lia|].
  cbn [varint_loop]. destruct (Z.leb_spec 128 v).
  - assert (2 ^ (7 * Z.of_nat (S n)) = 128 * 2 ^ (7 * Z.of_nat n)) as Hp.
    { replace (7 * Z.of_nat (S n)) with (7 + 7 * Z.of_nat n) by lia. by rewrite Z.pow_add_r by lia. }
    rewrite Z.shiftr_div_pow2 by lia. change (2 ^ 7) with 128.
    assert (v / 128 < 2 ^ (7 * Z.of_nat n)) by (apply Z.div_lt_upper_bound; lia).
    assert (1 <= v / 128) by (apply Z.div_le_lower_bound; lia).
    destruct n as [|n]; [simpl in *; lia|].
    destruct (IH (v / 128)) as (bs & -> & Hl & Hb); [lia|lia|].
    eexists. split; [reflexivity|]. split; [simpl; lia|].
    constructor; [|done]. change 127 with (Z.ones 7). rewrite Z.land_ones by lia.
    change (2 ^ 7) with 128. unfold is_byte.
    pose proof (Z.mod_pos_bound v 128 ltac:(lia)).
    pose proof (lor_low_high 7 (v mod 128) 1) as Hor. change (Z.shiftl 1 7) with 128 in Hor.
    change (2 ^ 7) with 128 in Hor. rewrite Hor by lia. lia.
  - exists [v]. split; [done|]. split; [simpl; lia|]. constructor; [|done]. unfold is_byte. lia.
Qed.

(** ** What writers append and readers take *)

Section stream.
Context (e : endian).

(** [m] is a writer of the bytes [enc] that calls [write] at most [k] times. *)
Definition emits (k : Z) (m : ba_meth unit) (enc : bytes) : Prop :=
  forall ba, wf ba -> m_endian ba = e ->
    storage ba + zlen enc + 2 * k * m_base_size ba < 2 ^ 64 ->
    exists ba', m ba = (Ret tt, ba') /\ wf ba' /\ abs ba' = a_write enc (abs ba) /\
      m_base_size ba' = m_base_size ba /\
      storage ba' <= storage ba + zlen enc + 2 * k * m_base_size ba.

(** [m] is a reader that takes the bytes [enc] at the position and returns [a]. *)
Definition yields {A} (m : ba_meth A) (enc : bytes) (a : A) : Prop :=
  forall ba rest, wf ba -> m_endian ba = e -> zdrop (m_position ba) (data ba) = enc ++ rest ->
    exists ba', m ba = (Ret a, ba') /\ wf ba' /\
      abs ba' = MkFlat (data ba) (m_position ba + zlen enc) e.

Lemma emits_write b : emits 1 (write b) b.
Proof.
  intros ba Hwf He Hroom.
  destruct (write_ok b ba) as (ba' & ? & ? & ? & ? & ?); [done|unfold room; lia|].
  exists ba'. repeat (split; [done|]). lia.
Qed.

Lemma a_write_app b1 b2 f :
  0 <= f_pos f <= zlen (f_data f) -> a_write b2 (a_write b1 f) = a_write (b1 ++ b2) f.
Proof.
  intros Hf. unfold a_write. simpl. pose proof (zlen_nonneg b1). f_equal; [|zlist; lia].
  unfold splice at 1 3. rewrite zlen_app.
  set (p := f_pos f) in *. set (d := f_data f) in *.
  unfold splice. rewrite (ztake_app_r (p + zlen b1)) by (rewrite zlen_ztake; lia).
  rewrite zlen_ztake by lia. replace (p + zlen b1 - p) with (zlen b1) by lia.
  rewrite ztake_app_l, (ztake_all (zlen b1)) by lia.
  rewrite <- !app_assoc. do 3 f_equal. pose proof (zlen_nonneg b2).
  rewrite zdrop_app_r by (rewrite zlen_ztake; lia). rewrite zlen_ztake by lia.
  rewrite zdrop_app_r by lia. rewrite zdrop_zdrop by lia. f_equal. lia.
Qed.

Lemma abs_pos ba : wf ba -> 0 <= f_pos (abs ba) <= zlen (f_data (abs ba)).
Proof. intros Hwf. simpl. rewrite zlen_data by done. apply Hwf. Qed.

Lemma emits_seq k1 k2 m1 m2 b1 b2 :
  0 <= k1 -> 0 <= k2 -> emits k1 m1 b1 -> emits k2 m2 b2 ->
  emits (k1 + k2) (let! _ := m1 in m2) (b1 ++ b2).
Proof.
  intros Hk1 Hk2 H1 H2 ba Hwf He Hroom. pose proof (wf_base ba Hwf).
  pose proof (zlen_nonneg b2). rewrite zlen_app in *.
  destruct (H1 ba Hwf He) as (ba1 & Hm1 & Hwf1 & Ha1 & Hb1 & Hs1); [nia|].
  destruct (H2 ba1 Hwf1) as (ba2 & Hm2 & Hwf2 & Ha2 & Hb2 & Hs2).
  { apply (f_equal f_endian) in Ha1. simpl in Ha1. congruence. }
  { rewrite Hb1. nia. }
  exists ba2. rewrite (bind_ret _ _ _ _ _ Hm1). split; [done|]. split; [done|].
  rewrite Ha2, Ha1, a_write_app by by apply abs_pos.
  split; [done|]. split; [congruence|]. rewrite Hb1 in Hs2. nia.
Qed.

Lemma yields_read b : yields (read (zlen b)) b b.
Proof.
  intros ba rest Hwf He Hd. pose proof (zlen_nonneg b).
  destruct (read_ok (zlen b) ba Hwf) as (r & ba' & Hr & Hwf' & Ha & _); [lia|].
  unfold a_read in Ha. simpl in Ha. pose proof (wf_pos ba Hwf).
  pose proof (zlen_data ba Hwf) as Hl.
  assert (zlen (zdrop (m_position ba) (data ba)) = m_size ba - m_position ba) as Hz
    by (rewrite zlen_zdrop; lia).
  rewrite Hd, zlen_app in Hz. pose proof (zlen_nonneg rest).
  destruct (Z.ltb_spec (zlen (data ba) - m_position ba) (zlen b)); [lia|].
  unfold slice in Ha. rewrite Hd, ztake_app_l, ztake_all in Ha by lia.
  injection Ha as -> Ha1 Ha2 Ha3. exists ba'. split; [done|]. split; [done|].
  unfold abs. congruence.
Qed.

Lemma yields_bind {A B} (m : ba_meth A) (k : A -> ba_meth B) b1 b2 a c :
  yields m b1 a -> yields (k a) b2 c -> yields (bind m k) (b1 ++ b2) c.
Proof.
  intros H1 H2 ba rest Hwf He Hd. rewrite <- app_assoc in Hd.
  destruct (H1 ba _ Hwf He Hd) as (ba1 & Hm1 & Hwf1 & Ha1).
  unfold abs in Ha1. injection Ha1 as Hd1 Hp1 He1.
  destruct (H2 ba1 rest Hwf1 He1) as (ba2 & Hm2 & Hwf2 & Ha2).
  { rewrite Hd1, Hp1. pose proof (wf_pos ba Hwf). pose proof (zlen_nonneg b1).
    rewrite <- zdrop_zdrop by lia. rewrite Hd, zdrop_app_r, Z.sub_diag by lia. done. }
  exists ba2. rewrite (bind_ret _ _ _ _ _ Hm1). split; [done|]. split; [done|].
  rewrite Ha2, Hd1, Hp1, zlen_app. f_equal. lia.
Qed.

Lemma yields_ret {A} (a : A) : yields (ret a) [] a.
Proof.
  intros ba rest Hwf He _. exists ba. split; [done|]. split; [done|].
  unfold abs. rewrite He. zlen_nil. by rewrite Z.add_0_r.
Qed.

Lemma yields_bind_ret {A B} (m : ba_meth A) (f : A -> B) b a :
  yields m b a -> yields (let! x := m in ret (f x)) b (f a).
Proof.
  intros H. rewrite <- (app_nil_r b). eapply yields_bind; [done|]. apply yields_ret.
Qed.

Lemma yields_gets {A} (k : endian -> ba_meth A) b a :
  yields (k e) b a -> yields (let! x := gets m_endian in k x) b a.
Proof.
  intros H ba rest Hwf He Hd. unfold bind, gets. rewrite He. by apply (H ba rest).
Qed.

Lemma emits_gets k (f : endian -> ba_meth unit) b :
  emits k (f e) b -> emits k (let! x := gets m_endian in f x) b.
Proof. intros H ba Hwf He Hr. unfold bind, gets. rewrite He. by apply H. Qed.

Lemma emits_lift {A} k (r : res A) (a : A) (f : A -> ba_meth unit) b :
  r = Ret a -> emits k (f a) b -> emits k (let! x := lift r in f x) b.
Proof. intros -> H ba Hwf He Hr. by apply H. Qed.

End stream.

(** ** Fixed-width integers *)

Section fixed.
Context (host e : endian) (n : nat).
Let w := 8 * Z.of_nat n.

Lemma emits_fixed_uint v : emits e 1 (write_fixed_uint host n v) (mem_of e n v).
Proof.
  apply emits_gets. destruct (decide (e = host)) as [->|Hne]; [apply emits_write|].
  assert (mem_of e n v = mem_of host n (byteswap n v)) as ->.
  { unfold byteswap. rewrite mem_of_bswap. by destruct e, host. }
  apply emits_write.
Qed.

Lemma bswap_wrap v : bswap n (wrap w v) = bswap n v.
Proof. unfold bswap. subst w. by rewrite le_bytes_wrap. Qed.

Lemma byteswap_signed_mem h v : mem_of h n (byteswap_signed n v) = mem_of h n (bswap n v).
Proof.
  unfold byteswap_signed. fold w. rewrite bswap_wrap.
  rewrite <- (mem_of_wrap h n (to_signed _ _)). fold w.
  rewrite wrap_to_signed by (unfold w; lia). apply mem_of_wrap.
Qed.

Lemma emits_fixed_int v : emits e 1 (write_fixed_int host n v) (mem_of e n v).
Proof.
  apply emits_gets. destruct (decide (e = host)) as [->|Hne]; [apply emits_write|].
  assert (mem_of e n v = mem_of host n (byteswap_signed n v)) as ->.
  { rewrite byteswap_signed_mem, mem_of_bswap. by destruct e, host. }
  apply emits_write.
Qed.

Lemma of_mem_other v : e <> host -> of_mem host (mem_of e n v) = bswap n v.
Proof. unfold bswap. by destruct e, host. Qed.

Lemma yields_fixed_uint v :
  fits w v -> yields e (read_fixed_uint host n) (mem_of e n v) v.
Proof.
  intros Hv. unfold read_fixed_uint. rewrite <- (zlen_mem_of e n v).
  rewrite <- (app_nil_r (mem_of e n v)) at 2.
  eapply yields_bind; [apply yields_read|]. apply yields_gets.
  match goal with |- yields _ (ret ?x) _ _ => assert (x = v) as ->; [|apply yields_ret] end.
  destruct (decide (e = host)) as [->|Hne].
  - by rewrite of_mem_mem_of, wrap_small.
  - rewrite of_mem_other by done. unfold byteswap. by rewrite bswap_bswap, wrap_small.
Qed.

Lemma yields_fixed_int v :
  (0 < n)%nat -> sfits w v -> yields e (read_fixed_int host n) (mem_of e n v) v.
Proof.
  intros Hn Hv. unfold read_fixed_int. rewrite <- (zlen_mem_of e n v).
  rewrite <- (app_nil_r (mem_of e n v)) at 2.
  eapply yields_bind; [apply yields_read|]. apply yields_gets. rewrite zlen_mem_of. fold w.
  match goal with |- yields _ (ret ?x) _ _ => assert (x = v) as ->; [|apply yields_ret] end.
  destruct (decide (e = host)) as [->|Hne].
  - rewrite of_mem_mem_of. apply to_signed_wrap; [unfold w; lia|done].
  - rewrite of_mem_other by done. unfold byteswap_signed. fold w.
    rewrite wrap_to_signed, bswap_wrap, bswap_bswap by (unfold w; lia).
    fold w. apply to_signed_wrap; [unfold w; lia|done].
Qed.

End fixed.

Lemma mem_of_byte h1 h2 v : mem_of h1 1 v = mem_of h2 1 v.
Proof. by destruct h1, h2. Qed.

Lemma yields_uint8 host e v : fits 8 v -> yields e (read_fixed_uint8 host) (mem_of e 1 v) v.
Proof.
  intros Hv. rewrite (mem_of_byte e host).
  pose proof (yields_bind_ret e _ (of_mem host) _ _ (yields_read e (mem_of host 1 v))) as H.
  by rewrite zlen_mem_of, of_mem_mem_of, wrap_small in H.
Qed.

Lemma yields_int8 host e v : sfits 8 v -> yields e (read_fixed_int8 host) (mem_of e 1 v) v.
Proof.
  intros Hv. rewrite (mem_of_byte e host).
  pose proof (yields_bind_ret e _ (fun b => to_signed 8 (of_mem host b)) _ _
    (yields_read e (mem_of host 1 v))) as H.
  by rewrite zlen_mem_of, of_mem_mem_of, to_signed_wrap in H.
Qed.

(** ** Varints *)

Section varint.
Context (e : endian) (w : Z) (rd : ba_meth Z) (Hrd : forall b, is_byte b -> yields e rd [b] b).

Lemma varint_step_byte v :
  0 <= v -> Z.lor (Z.land v 127) 128 = v mod 128 + 128 /\
  Z.land (v mod 128 + 128) 127 = v mod 128.
Proof.
  intros Hv. change 127 with (Z.ones 7). rewrite !Z.land_ones by lia. change (2 ^ 7) with 128.
  pose proof (Z.mod_pos_bound v 128 ltac:(lia)). split.
  - pose proof (lor_low_high 7 (v mod 128) 1) as Hor. change (Z.shiftl 1 7) with 128 in Hor.
    change (2 ^ 7) with 128 in Hor. rewrite Hor by lia. lia.
  - replace (v mod 128 + 128) with (v mod 128 + 1 * 128) by lia.
    rewrite Z.mod_add, Z.mod_small by lia. done.
Qed.

Lemma yields_varint slots : forall v i acc bs fuel,
  varint_loop slots v = Ret bs -> 0 <= v -> 0 <= i < w -> v * 2 ^ i < 2 ^ w ->
  0 <= acc < 2 ^ i -> (length bs <= fuel)%nat ->
  yields e (read_varint_loop rd w fuel i acc) bs (acc + v * 2 ^ i).
Proof using Hrd.
  induction slots as [|slots IH]; intros v i acc bs fuel Hbs Hv Hi Hw Hacc Hfuel; [done|].
  cbn [varint_loop] in Hbs. pose proof (Z.pow_pos_nonneg 2 i ltac:(lia) ltac:(lia)).
  assert (forall d, 0 <= d <= v ->
    Z.lor acc (wrap w (Z.shiftl d i)) = acc + d * 2 ^ i) as Hor.
  { intros d Hd. rewrite wrap_small by (rewrite Z.shiftl_mul_pow2 by lia; split; nia).
    apply lor_low_high; lia. }
  destruct (Z.leb_spec 128 v).
  - destruct (varint_loop slots (Z.shiftr v 7)) as [tl| |] eqn:Htl; [|done..].
    cbn [res_bind] in Hbs. injection Hbs as <-.
    destruct fuel as [|fuel]; [simpl in Hfuel; lia|]. cbn [read_varint_loop].
    destruct (Z.ltb_spec i w); [|lia].
    destruct (varint_step_byte v Hv) as [-> Hland].
    pose proof (Z.mod_pos_bound v 128 ltac:(lia)). pose proof (Z.mod_le v 128 ltac:(lia) ltac:(lia)).
    change (?x :: tl) with ([x] ++ tl).
    eapply yields_bind; [apply Hrd; unfold is_byte; lia|].
    destruct (Z.ltb_spec (v mod 128 + 128) 128); [lia|].
    rewrite Hland, Hor by lia. rewrite Z.shiftr_div_pow2 in Htl by lia. change (2 ^ 7) with 128 in Htl.
    pose proof (Z_div_mod_eq_full v 128). assert (1 <= v / 128) by (apply Z.div_le_lower_bound; lia).
    assert (2 ^ (i + 7) = 2 ^ i * 128) as Hp by (by rewrite Z.pow_add_r by lia).
    replace (acc + v * 2 ^ i) with (acc + v mod 128 * 2 ^ i + v / 128 * 2 ^ (i + 7)) by nia.
    apply IH; [done|lia| |nia|nia|simpl in Hfuel; lia].
    split; [lia|]. apply (Z.pow_lt_mono_r_iff 2); nia.
  - injection Hbs as <-. destruct fuel as [|fuel]; [simpl in Hfuel; lia|].
    cbn [read_varint_loop]. destruct (Z.ltb_spec i w); [|lia].
    rewrite <- (app_nil_r [v]). eapply yields_bind; [apply Hrd; unfold is_byte; lia|].
    destruct (Z.ltb_spec v 128); [|lia]. rewrite Hor by lia. apply yields_ret.
Qed.

End varint.

Lemma varint_fits slots w v :
  w <= 7 * Z.of_nat slots -> fits w v -> 0 <= v < 2 ^ (7 * Z.of_nat slots).
Proof.
  intros Hs [H1 H2]. split; [done|].
  eapply Z.lt_le_trans; [done|]. apply Z.pow_le_mono_r; lia.
Qed.

(** A writer that sends the varint of [v] from a [slots]-byte array. *)
Lemma emits_varint e slots w v :
  w <= 7 * Z.of_nat slots -> (0 < slots)%nat -> fits w v ->
  exists bs, varint_loop slots v = Ret bs /\ (length bs <= slots)%nat /\
    emits e 1 (let! tmp := lift (varint_loop slots v) in write tmp) bs.
Proof.
  intros Hw Hs Hv.
  destruct (varint_loop_ok slots v (varint_fits _ _ _ Hw Hv) Hs) as (bs & Hbs & Hl & _).
  exists bs. split; [done|]. split; [lia|]. eapply emits_lift; [done|]. apply emits_write.
Qed.

(** ** The interface: a writer and a reader that agree

    What a client of the typed operations relies on: [wr a] appends the encoding
    of [a], ten bytes and what the value itself holds at most, in at most two
    [write]s, and [rd] takes exactly that encoding back. *)
Class Codec {A} (wr : A -> ba_meth unit) (rd : ba_meth A) (dom : A -> Prop) (size : A -> Z) := {
  codec_ok : forall e a, dom a ->
    exists enc, zlen enc <= 10 + size a /\ emits e 2 (wr a) enc /\ yields e rd enc a
}.

(** The payload of an integer: none beside the ten bytes. *)
Definition no_payload (v : Z) : Z := 0.

Section instances.
Context (host : endian) (alloc_ok : Z -> bool).

Lemma emits_weaken e m enc : emits e 1 m enc -> emits e 2 m enc.
Proof.
  intros H ba Hwf He Hr. pose proof (wf_base ba Hwf).
  destruct (H ba Hwf He ltac:(lia)) as (ba' & ? & ? & ? & ? & ?).
  exists ba'. repeat (split; [done|]). lia.
Qed.

#[export] Instance codec_uint8 : Codec (write_fixed_uint8 host) (read_fixed_uint8 host) (fits 8) no_payload.
Proof.
  split. intros e v Hv. exists (mem_of e 1 v).
  split; [unfold no_payload; zlist; lia|]. split; [|by apply yields_uint8].
  unfold write_fixed_uint8. rewrite (mem_of_byte host e). apply emits_weaken, emits_write.
Qed.

#[export] Instance codec_int8 : Codec (write_fixed_int8 host) (read_fixed_int8 host) (sfits 8) no_payload.
Proof.
  split. intros e v Hv. exists (mem_of e 1 v).
  split; [unfold no_payload; zlist; lia|]. split; [|by apply yields_int8].
  unfold write_fixed_int8. rewrite (mem_of_byte host e). apply emits_weaken, emits_write.
Qed.

Lemma codec_fixed_uint n : (n <= 8)%nat ->
  Codec (write_fixed_uint host n) (read_fixed_uint host n) (fits (8 * Z.of_nat n)) no_payload.
Proof.
  intros Hn. split. intros e v Hv. exists (mem_of e n v).
  split; [unfold no_payload; zlist; lia|].
  split; [apply emits_weaken, emits_fixed_uint|by apply yields_fixed_uint].
Qed.

Lemma codec_fixed_int n : (0 < n <= 8)%nat ->
  Codec (write_fixed_int host n) (read_fixed_int host n) (sfits (8 * Z.of_nat n)) no_payload.
Proof.
  intros Hn. split. intros e v Hv. exists (mem_of e n v).
  split; [unfold no_payload; zlist; lia|].
  split; [apply emits_weaken, emits_fixed_int|apply yields_fixed_int; [lia|done]].
Qed.

#[export] Instance codec_uint16 :
  Codec (write_fixed_uint16 host) (read_fixed_uint16 host) (fits 16) no_payload.
Proof. apply (codec_fixed_uint 2). lia. Qed.
#[export] Instance codec_fixed_uint32 :
  Codec (write_fixed_uint32 host) (read_fixed_uint32 host) (fits 32) no_payload.
Proof. apply (codec_fixed_uint 4). lia. Qed.
#[export] Instance codec_fixed_uint64 :
  Codec (write_fixed_uint64 host) (read_fixed_uint64 host) (fits 64) no_payload.
Proof. apply (codec_fixed_uint 8). lia. Qed.
#[export] Instance codec_int16 :
  Codec (write_fixed_int16 host) (read_fixed_int16 host) (sfits 16) no_payload.
Proof. apply (codec_fixed_int 2). lia. Qed.
#[export] Instance codec_fixed_int32 :
  Codec (write_fixed_int32 host) (read_fixed_int32 host) (sfits 32) no_payload.
Proof. apply (codec_fixed_int 4). lia. Qed.
#[export] Instance codec_fixed_int64 :
  Codec (write_fixed_int64 host) (read_fixed_int64 host) (sfits 64) no_payload.
Proof. apply (codec_fixed_int 8). lia. Qed.
#[export] Instance codec_float :
  Codec (write_float host) (read_float host) (fits 32) no_payload.
Proof. apply codec_fixed_uint32. Qed.
#[export] Instance codec_double :
  Codec (write_double host) (read_double host) (fits 64) no_payload.
Proof. apply codec_fixed_uint64. Qed.

Lemma yields_byte e b : is_byte b -> yields e (read_fixed_uint8 host) [b] b.
Proof.
  intros Hb. assert (mem_of e 1 b = [b]) as <-; [|by apply yields_uint8].
  unfold is_byte in Hb. destruct e; simpl; unfold be_bytes; simpl; by rewrite Z.mod_small.
Qed.

Lemma yields_byte_signed e b :
  is_byte b -> yields e (let! b := read_fixed_int8 host in ret (wrap 8 b)) [b] b.
Proof.
  intros Hb. assert (sfits 8 (to_signed 8 b)) as Hs.
  { unfold is_byte in Hb. unfold to_signed, sfits. rewrite wrap_small by done.
    change (2 ^ (8 - 1)) with 128. change (2 ^ 8) with 256. destruct (Z.ltb_spec b 128); lia. }
  assert (mem_of e 1 (to_signed 8 b) = [b]) as <-.
  { rewrite <- mem_of_wrap. change (8 * Z.of_nat 1) with 8. rewrite wrap_to_signed by lia.
    rewrite wrap_small by done. unfold is_byte in Hb.
    destruct e; simpl; unfold be_bytes; simpl; by rewrite Z.mod_small. }
  pose proof (yields_bind_ret e _ (wrap 8) _ _ (yields_int8 host e _ Hs)) as H.
  by rewrite wrap_to_signed, (wrap_small 8 b) in H by (done || lia).
Qed.

#[export] Instance codec_uint32 : Codec write_uint32 (read_uint32 host) (fits 32) no_payload.
Proof.
  split. intros e v Hv.
  destruct (emits_varint e 5 32 v) as (bs & Hbs & Hl & He); [lia|lia|done|].
  exists bs. split; [unfold zlen, no_payload; lia|].
  split; [by apply emits_weaken|]. unfold fits in Hv.
  pose proof (yields_varint e 32 _ (yields_byte e) 5 v 0 0 bs 6 Hbs) as Hy.
  rewrite Z.mul_1_r in Hy. apply Hy; lia.
Qed.

#[export] Instance codec_uint64 : Codec write_uint64 (read_uint64 host) (fits 64) no_payload.
Proof.
  split. intros e v Hv.
  destruct (emits_varint e 10 64 v) as (bs & Hbs & Hl & He); [lia|lia|done|].
  exists bs. split; [unfold zlen, no_payload; lia|].
  split; [by apply emits_weaken|]. unfold fits in Hv.
  pose proof (yields_varint e 64 _ (yields_byte_signed e) 10 v 0 0 bs 11 Hbs) as Hy.
  rewrite Z.mul_1_r in Hy. apply Hy; lia.
Qed.

(** A signed varint is the unsigned one of its zigzag value. *)
Lemma codec_zigzag w wr rd : 1 < w ->
  Codec wr rd (fits w) no_payload ->
  Codec (fun v => let! z := lift (Encode_Zigzag w v) in wr z)
    (let! v := rd in ret (Decode_Zigzag w v)) (fun v => - 2 ^ (w - 1) < v < 2 ^ (w - 1)) no_payload.
Proof.
  intros Hw [Hc]. split. intros e v Hv.
  destruct (Hc e (zigzag v) (zigzag_fits w v Hw Hv)) as (enc & Hl & He & Hy).
  exists enc. split; [done|]. split.
  - eapply emits_lift; [by apply Encode_Zigzag_eq|done].
  - rewrite <- (Decode_Zigzag_eq w v) by lia. by apply (yields_bind_ret e rd (Decode_Zigzag w)).
Qed.

#[export] Instance codec_int32 :
  Codec write_int32 (read_int32 host) (fun v => - 2 ^ 31 < v < 2 ^ 31) no_payload.
Proof. apply (codec_zigzag 32); [lia|apply codec_uint32]. Qed.

#[export] Instance codec_int64 :
  Codec write_int64 (read_int64 host) (fun v => - 2 ^ 63 < v < 2 ^ 63) no_payload.
Proof. apply (codec_zigzag 64); [lia|apply codec_uint64]. Qed.

(** A length-prefixed string: its length in [w] bits, then its bytes. *)
Lemma yields_string e rd w encl s :
  fits w (zlen s) -> alloc_ok (zlen s) = true ->
  yields e rd encl (wrap w (zlen s)) ->
  yields e (let! len := rd in read_string_of alloc_ok len) (encl ++ s) s.
Proof.
  intros Hf Hok Hy. eapply yields_bind; [done|]. rewrite wrap_small by done.
  unfold read_string_of. rewrite Hok. apply yields_read.
Qed.

Definition str_dom (w : Z) (s : bytes) : Prop := fits w (zlen s) /\ alloc_ok (zlen s) = true.

Lemma codec_fixed_str n : (n <= 8)%nat ->
  Codec (fun v => let! _ := write_fixed_uint host n (wrap (8 * Z.of_nat n) (zlen v)) in write v)
    (let! len := read_fixed_uint host n in read_string_of alloc_ok len)
    (str_dom (8 * Z.of_nat n)) zlen.
Proof.
  intros Hn. split. intros e s [Hf Hok]. exists (mem_of e n (wrap (8 * Z.of_nat n) (zlen s)) ++ s).
  split; [zlist; lia|]. split.
  - apply (emits_seq e 1 1); [lia..|apply emits_fixed_uint|apply emits_write].
  - apply yields_string with (w := 8 * Z.of_nat n); [done..|].
    apply yields_fixed_uint, wrap_fits. lia.
Qed.

#[export] Instance codec_str16 :
  Codec (write_fixed_str16 host) (read_fixed_str16 host alloc_ok) (str_dom 16) zlen.
Proof. apply (codec_fixed_str 2). lia. Qed.
#[export] Instance codec_str32 :
  Codec (write_fixed_str32 host) (read_fixed_str32 host alloc_ok) (str_dom 32) zlen.
Proof. apply (codec_fixed_str 4). lia. Qed.
#[export] Instance codec_str64 :
  Codec (write_fixed_str64 host) (read_fixed_str64 host alloc_ok) (str_dom 64) zlen.
Proof. apply (codec_fixed_str 8). lia. Qed.

#[export] Instance codec_str : Codec write_str (read_str host alloc_ok) (str_dom 64) zlen.
Proof.
  split. intros e s [Hf Hok].
  destruct (emits_varint e 10 64 (wrap 64 (zlen s))) as (bs & Hbs & Hl & He);
    [lia|lia|by apply wrap_fits|].
  exists (bs ++ s). split; [rewrite zlen_app; unfold zlen; lia|]. split.
  - apply (emits_seq e 1 1); [lia..|exact He|apply emits_write].
  - apply yields_string with (w := 64); [done..|].
    pose proof (wrap_fits 64 (zlen s) ltac:(lia)) as [].
    pose proof (yields_varint e 64 _ (yields_byte_signed e) 10 _ 0 0 bs 11 Hbs) as Hy.
    rewrite Z.mul_1_r in Hy. apply Hy; lia.
Qed.

End instances.
