(* ===== verification/ByteArrayIov.v ===== *)
(** * The byte array: scatter/gather buffers

    What the kernel does with the [iovec]s that [get_enable_read_buffers] and
    [get_enable_write_buffers] hand out ([sendmsg] gathers, [recvmsg] scatters), and
    that the buffers are exactly the readable, respectively writable, cells from the
    cursor on. *)

From stdpp Require Import base list numbers.
From Stdlib Require Import Lia ZArith.
From S2P Require Import Prelude Endian ByteArray ByteArrayFacts.

Definition iov_get (nodes : list Node) (v : iovec) : bytes :=
  match nodes !! iov_node v with
  | Some nd => node_get nd (iov_off v) (iov_len v)
  | None => []
  end.

Definition gather (nodes : list Node) (vs : list iovec) : bytes := concat (map (iov_get nodes) vs).

(** [recvmsg]: the received bytes fill the buffers in order. *)
Fixpoint scatter (nodes : list Node) (vs : list iovec) (b : bytes) : list Node :=
  match vs with
  | [] => nodes
  | v :: vs' =>
      scatter (alter (fun nd => node_put nd (iov_off v) (ztake (iov_len v) b)) (iov_node v) nodes)
        vs' (zdrop (iov_len v) b)
  end.

Definition total_len (vs : list iovec) : Z := foldr (fun v n => iov_len v + n) 0 vs.

Section iov.
Context (base : Z) (Hbase : 0 < base).

Lemma scatter_nil nodes vs : scatter nodes vs [] = nodes.
Proof.
  revert nodes. induction vs as [|v vs IH]; intros nodes; [done|].
  cbn [scatter]. assert (ztake (iov_len v) (@nil Z) = []) as -> by apply take_nil.
  assert (zdrop (iov_len v) (@nil Z) = []) as -> by apply drop_nil.
  rewrite IH. apply list_eq. intros i. rewrite list_lookup_alter.
  case_decide; [|done]. subst. destruct (nodes !! _) as [[p s]|]; [|done].
  simpl. unfold node_put, splice. simpl. zlen_nil. rewrite Z.add_0_r.
  by rewrite ztake_zdrop.
Qed.

Lemma iov_loop_spec rest : forall i npos len,
  blocks base rest -> 0 <= npos < base -> 0 <= len -> npos + len < base * zlen rest ->
  exists vs, iov_loop rest i npos (base - npos) len = Ret vs /\ total_len vs = len /\
    forall pre, length pre = i ->
      gather (pre ++ rest) vs = slice npos len (cells rest) /\
      forall b, zlen b <= len ->
        exists rest', scatter (pre ++ rest) vs b = pre ++ rest' /\ blocks base rest' /\
          length rest' = length rest /\ cells rest' = splice npos b (cells rest).
Proof.
  induction rest as [|nd next IH]; intros i npos len Hb Hnpos Hlen Hroom.
  { change (zlen []) with 0 in Hroom. lia. }
  inversion Hb as [|?? Hnd Hnext]; subst. pose proof Hnd as [Hsz Hl].
  assert (forall pre : list Node, length pre = i -> (pre ++ nd :: next) !! i = Some nd) as Hnth.
  { intros pre <-. by apply list_lookup_middle. }
  assert (forall (pre : list Node) f, length pre = i ->
    alter f i (pre ++ nd :: next) = pre ++ f nd :: next) as Halt.
  { intros pre f <-. rewrite alter_app_r_alt by lia. by rewrite Nat.sub_diag. }
  cbn [iov_loop]. destruct (Z.eqb_spec len 0) as [->|Hz].
  { exists []. split; [done|]. split; [done|]. intros pre Hp. split; [done|].
    intros b Hb0. pose proof (zlen_nonneg b). assert (b = []) as -> by (apply zlen_zero; lia).
    exists (nd :: next). rewrite scatter_nil. repeat split; [done|].
    unfold splice. zlen_nil. by rewrite Z.add_0_r, app_nil_l, ztake_zdrop. }
  rewrite zlen_cons in Hroom. rewrite cells_cons.
  destruct (Z.leb_spec len (base - npos)) as [Hle|Hgt].
  - eexists. split; [done|]. split; [simpl; lia|]. intros pre Hp. split.
    + unfold gather, iov_get. simpl. rewrite Hnth, app_nil_r by done.
      unfold node_get. by rewrite slice_app_l by lia.
    + intros b Hbl. cbn [scatter iov_node iov_off iov_len].
      rewrite Halt by done. rewrite (ztake_all len) by done.
      eexists. split; [done|]. split; [|split; [done|]].
      * constructor; [|done]. apply node_put_ok; [done|lia|lia].
      * rewrite cells_cons. simpl. rewrite splice_app_l by lia. done.
  - destruct next as [|nd2 next'].
    { change (zlen []) with 0 in Hroom. lia. }
    assert (n_size nd2 = base) as -> by (by inversion Hnext as [|?? [? ?] ?]).
    destruct (IH (S i) 0 (len - (base - npos)) Hnext) as (vs & Hvs & Htot & Hpre); [lia..|].
    rewrite Z.sub_0_r in Hvs. rewrite Hvs. cbn [res_bind].
    eexists. split; [done|]. split; [simpl; lia|]. intros pre Hp.
    split.
    + destruct (Hpre (pre ++ [nd]) ltac:(rewrite length_app; simpl; lia)) as [Hg _].
      rewrite <- app_assoc in Hg. unfold gather in *. cbn [map concat app] in *. rewrite Hg.
      unfold iov_get. simpl. rewrite Hnth by done. unfold node_get.
      replace len with ((base - npos) + (len - (base - npos))) at 2 by lia.
      rewrite (slice_split npos) by lia. rewrite (slice_app_l npos) by lia.
      rewrite (slice_app_r (npos + _)) by lia. do 2 f_equal; lia.
    + intros b Hbl. cbn [scatter iov_node iov_off iov_len]. rewrite Halt by done.
      destruct (Hpre (pre ++ [node_put nd npos (ztake (base - npos) b)])
        ltac:(rewrite length_app; simpl; lia)) as [_ Hs].
      destruct (Z.le_gt_cases (zlen b) (base - npos)) as [Hshort|Hlong].
      * rewrite ztake_all, zdrop_all by lia. rewrite scatter_nil.
        eexists. split; [done|]. split; [|split; [done|]].
        { constructor; [|done]. apply node_put_ok; [done|lia|lia]. }
        rewrite cells_cons. simpl. rewrite splice_app_l by lia. done.
      * destruct (Hs (zdrop (base - npos) b)) as (rest' & Hsc & Hb' & Hl' & Hc').
        { rewrite zlen_zdrop by lia. lia. }
        rewrite <- app_assoc in Hsc. simpl in Hsc. rewrite Hsc.
        exists (node_put nd npos (ztake (base - npos) b) :: rest').
        split; [by rewrite <- app_assoc|]. split; [|split; [simpl in *; lia|]].
        { constructor; [|done]. apply node_put_ok; [done|lia|rewrite zlen_ztake; lia]. }
        rewrite !cells_cons, Hc'. simpl n_ptr.
        rewrite <- (ztake_zdrop (base - npos) b) at 3.
        rewrite splice_app; [done|lia|rewrite zlen_ztake; lia].
Qed.

End iov.

(** The buffers from the cursor: gathering them reads the cells from the position,
    scattering into them copies to the position. *)
Lemma iovs_from_cursor_ok len ba :
  wf ba -> 0 <= len -> m_position ba + len < storage ba ->
  exists vs, iovs_from_cursor len ba = Ret vs /\ total_len vs = len /\
    gather (m_nodes ba) vs = slice (m_position ba) len (flat ba) /\
    forall b, zlen b <= len ->
      blocks (m_base_size ba) (scatter (m_nodes ba) vs b) /\
      length (scatter (m_nodes ba) vs b) = length (m_nodes ba) /\
      cells (scatter (m_nodes ba) vs b) = splice (m_position ba) b (flat ba).
Proof.
  intros Hwf Hlen Hroom. unfold iovs_from_cursor. rewrite sz_mod_pos by done. cbn [res_bind].
  destruct (cursor_node _ Hwf) as (nd & next & Hd & Hsz). rewrite Hd, Hsz. rewrite <- Hd.
  pose proof (cursor_off _ Hwf) as Hoff. pose proof (base_le_storage _ Hwf). pose proof Hwf as [].
  rewrite sz_sub_eq by lia.
  destruct (iov_loop_spec (m_base_size ba) ltac:(lia) (drop (m_cur ba) (m_nodes ba)) (m_cur ba)
    (m_position ba mod m_base_size ba) len) as (vs & -> & Htot & Hpre);
    [by apply Forall_drop|done|done|by apply from_cursor_storage|].
  exists vs. split; [done|]. split; [done|].
  pose proof (cursor_lt ba Hwf) as Hcl.
  destruct (Hpre (take (m_cur ba) (m_nodes ba))) as [Hg Hs].
  { rewrite length_take. unfold zlen in Hcl. lia. }
  rewrite take_drop in Hg, Hs. pose proof (cursor_split _ Hwf). split.
  - rewrite Hg, from_cursor_cells by done. unfold slice. rewrite zdrop_zdrop by lia.
    do 2 f_equal. lia.
  - intros b Hb. destruct (Hs b Hb) as (rest' & -> & Hb' & Hl' & Hc').
    split; [apply Forall_app; split; [by apply Forall_take|done]|].
    split; [|apply flat_write; [done|lia|done]].
    rewrite length_app, Hl', <- length_app, take_drop. done.
Qed.

(** The buffers found from a position are those of the moved cursor. *)
Lemma iovs_at_ok len p ba :
  wf ba -> 0 <= len -> 0 <= p < m_size ba -> p + len <= m_size ba ->
  exists vs, iovs_from_cursor len (moved p ba) = Ret vs /\
    (let? (rest, off) := seek (m_nodes ba) p in
     match rest with
     | [] => Undef NullDeref
     | nd :: _ => iov_loop rest (length (m_nodes ba) - length rest) off (n_size nd - off) len
     end) = Ret vs /\
    gather (m_nodes ba) vs = slice p len (data ba).
Proof.
  intros Hwf Hlen Hp Hend. pose proof (wf_moved p ba Hwf ltac:(lia)) as Hm.
  pose proof Hwf as []. pose proof (base_le_storage _ Hwf).
  destruct (iovs_from_cursor_ok len _ Hm) as (vs & Hvs & _ & Hg & _);
    [lia|unfold storage in *; simpl; lia|].
  exists vs. split; [done|]. split.
  - rewrite seek_moved by (done || lia). cbn [res_bind].
    unfold iovs_from_cursor in Hvs. rewrite sz_mod_pos in Hvs by done. cbn [res_bind] in Hvs.
    pose proof (cursor_off _ Hm) as Hoff. pose proof (cursor_lt _ Hm) as Hlt.
    destruct (cursor_node _ Hm) as (nd & next & Hd & Hnd). rewrite Hd in Hvs.
    change (m_nodes (moved p ba)) with (m_nodes ba) in *.
    change (m_base_size (moved p ba)) with (m_base_size ba) in *.
    change (m_position (moved p ba)) with p in *.
    rewrite <- Hd, Hnd in Hvs. rewrite sz_sub_eq in Hvs by lia. rewrite <- Hvs.
    rewrite Hd, Hnd, <- Hd. f_equal. rewrite length_drop. unfold zlen in Hlt. lia.
  - change (m_nodes (moved p ba)) with (m_nodes ba) in Hg. rewrite Hg. unfold data.
    by rewrite slice_ztake by lia.
Qed.

(** The array whose blocks were filled through the buffers. *)
Definition with_nodes (ba : ByteArray) (nodes : list Node) : ByteArray :=
  MkByteArray (m_base_size ba) (m_position ba) (m_capacity ba) (m_size ba) (m_endian ba)
    nodes (m_cur ba).

Lemma storage_with_nodes ba nodes :
  length nodes = length (m_nodes ba) -> storage (with_nodes ba nodes) = storage ba.
Proof. intros Hl. unfold storage, zlen. simpl. by rewrite Hl. Qed.

Lemma wf_with_nodes ba nodes :
  wf ba -> blocks (m_base_size ba) nodes -> length nodes = length (m_nodes ba) ->
  wf (with_nodes ba nodes).
Proof.
  intros [] Hb Hl. assert (zlen nodes = zlen (m_nodes ba)) as Hz by (unfold zlen; by rewrite Hl).
  split; unfold storage in *; simpl; rewrite ?Hz; done.
Qed.

(** No growth when the room is there already. *)
Lemma add_free_capacity_none n ba :
  wf ba -> 0 <= n -> m_position ba + n < m_capacity ba -> add_free_capacity_to n ba = Ret (grown 0 ba).
Proof.
  intros Hwf Hn Hc. pose proof Hwf as []. unfold add_free_capacity_to, get_free_capacity.
  rewrite sz_sub_eq by lia. destruct (Z.ltb_spec n (m_capacity ba - m_position ba)); [|lia].
  destruct ba. unfold grown. simpl. rewrite app_nil_r. do 2 f_equal. lia.
Qed.

Lemma set_position_capacity v ba ba' :
  set_position v ba = (Ret tt, ba') -> m_capacity ba' = m_capacity ba.
Proof.
  unfold set_position. destruct (m_capacity ba <? v); [done|].
  destruct (set_position_seek _ _); try done. by intros [= <-].
Qed.

(** Receiving through the write buffers is a [write]; the capacity that was made stays. *)
Lemma receive_ok len b ba :
  wf ba -> 0 < len -> room len ba \/ m_position ba + len < m_capacity ba -> zlen b <= len ->
  exists vs ba1 ba2,
    get_enable_write_buffers len ba = (Ret (vs, len), ba1) /\ total_len vs = len /\
    set_position (m_position ba1 + zlen b) (with_nodes ba1 (scatter (m_nodes ba1) vs b))
      = (Ret tt, ba2) /\
    wf ba2 /\ abs ba2 = a_write b (abs ba) /\ m_position ba1 = m_position ba /\
    m_position ba + len < m_capacity ba2.
Proof.
  intros Hwf Hlen Hroom Hb. unfold get_enable_write_buffers. pose proof (zlen_nonneg b).
  destruct (Z.eqb_spec len 0); [lia|].
  assert (exists k, add_free_capacity_to len ba = Ret (grown k ba) /\ wf (grown k ba) /\
    m_position ba + len < m_capacity (grown k ba)) as (k & -> & Hg & Hcap).
  { destruct Hroom as [Hroom|Hc].
    - destruct (add_free_capacity_ok len ba Hwf) as (k & H1 & H2 & H3 & _); [lia|done|]. by exists k.
    - exists 0%nat. rewrite add_free_capacity_none by (done || lia). split; [done|].
      assert (grown 0 ba = ba) as -> by (destruct ba; unfold grown; simpl; rewrite app_nil_r; f_equal; lia).
      done. }
  assert (m_position (grown k ba) = m_position ba) as Hpos by done.
  pose proof Hg as []. destruct (iovs_from_cursor_ok len (grown k ba) Hg) as (vs & -> & Ht & _ & Hs);
    [lia..|].
  destruct (Hs b Hb) as (Hbl & Hl & Hc). exists vs, (grown k ba).
  pose proof (wf_with_nodes _ _ Hg Hbl Hl) as Hwf'.
  set (ba1 := with_nodes (grown k ba) (scatter (m_nodes (grown k ba)) vs b)) in *.
  destruct (set_position_ok (m_position (grown k ba) + zlen b) ba1 Hwf')
    as (ba2 & Hset & Hwf2 & Hp & Hsz & Hf & He & _).
  { change (m_capacity ba1) with (m_capacity (grown k ba)). lia. }
  { unfold ba1. rewrite storage_with_nodes by done. lia. }
  exists ba2. split; [done|]. split; [done|]. split; [done|]. split; [done|].
  split; [|split; [done|rewrite (set_position_capacity _ _ _ Hset); done]].
  unfold abs, a_write. simpl f_data. simpl f_pos. simpl f_endian.
  rewrite Hp, He. f_equal. unfold data. rewrite Hsz, Hf.
  change (flat ba1) with (cells (scatter (m_nodes (grown k ba)) vs b)).
  change (m_size ba1) with (m_size (grown k ba)). rewrite Hc, Hpos.
  rewrite ztake_splice by (rewrite ?zlen_flat by done; lia).
  f_equal. by apply (data_grown k ba).
Qed.

(** The read buffers hold the unread data. *)
Lemma send_ok len ba : wf ba -> 0 <= len ->
  exists vs n, get_enable_read_buffers len ba = Ret (vs, n) /\
    n = Z.min len (m_size ba - m_position ba) /\
    gather (m_nodes ba) vs = slice (m_position ba) n (data ba) /\ total_len vs = n.
Proof.
  intros Hwf Hl1. pose proof Hwf as [].
  unfold get_enable_read_buffers, get_enable_read_size. rewrite sz_sub_eq by lia.
  set (n := if m_size ba - m_position ba <? len then m_size ba - m_position ba else len).
  assert (n = Z.min len (m_size ba - m_position ba)) as Hn
    by (unfold n; destruct (Z.ltb_spec (m_size ba - m_position ba) len); lia).
  destruct (Z.eqb_spec n 0) as [Hz|Hz].
  { exists [], 0. split; [done|]. split; [lia|done]. }
  destruct (iovs_from_cursor_ok n ba Hwf) as (vs & -> & Ht & Hg & _); [lia..|].
  exists vs, n. split; [done|]. split; [done|]. split; [|done]. rewrite Hg. unfold data.
  by rewrite slice_ztake by lia.
Qed.
