(* ===== verification/ByteArrayProps.v ===== *)
(** * The byte array: the theorems

    Refinement of the flat buffer by the operations, safety of every sequence of
    calls, round trips of the typed operations, of the files and of the
    scatter/gather buffers, and the corner in which the cursor is wrong. *)

From stdpp Require Import base list numbers strings.
From Stdlib Require Import Lia ZArith.
From S2P Require Import Prelude Endian ByteArray ByteArrayFacts.
From S2P Require Import ByteArrayCodec ByteArrayCodecFacts ByteArrayIov.

(** Hypotheses of a witness: the definitions evaluate. *)
Ltac by_compute := vm_compute; repeat split; (reflexivity || discriminate || congruence).

Lemma fresh_wf : wf (new_ByteArray 4).
Proof. apply new_ByteArray_wf. lia. Defined.

(** C20: [write] refines the flat buffer: on every well-formed array with room in the
    address space it returns (no exception, no stray pointer), keeps the invariant,
    and copies the bytes at the position of the logical data, across as many blocks
    as needed, growing the data when it runs past its end. *)
Theorem write_refines (buf : bytes) (ba : ByteArray) :
  wf ba -> room (zlen buf) ba ->
  exists ba', write buf ba = (Ret tt, ba') /\ wf ba' /\ abs ba' = a_write buf (abs ba).
Proof.
  intros Hwf Hroom. destruct (write_ok buf ba Hwf Hroom) as (ba' & ? & ? & ? & _). eauto.
Qed.

Lemma write_refines_witness :
  exists ba', write (str "hello, tiger") (new_ByteArray 4) = (Ret tt, ba') /\ wf ba' /\
    abs ba' = a_write (str "hello, tiger") (abs (new_ByteArray 4)).
Proof. apply write_refines; [exact fresh_wf|by_compute]. Defined.

(** C21: [read] refines the flat buffer: it throws [out_of_range] exactly when fewer
    bytes than asked for are readable, leaving the array unchanged, and otherwise
    returns the bytes at the position and moves past them. *)
Theorem read_refines (n : Z) (ba : ByteArray) :
  wf ba -> 0 <= n ->
  exists r ba', read n ba = (r, ba') /\ wf ba' /\ (r, abs ba') = a_read n (abs ba) /\
    (m_size ba - m_position ba < n -> r = Throw out_of_range /\ ba' = ba).
Proof.
  intros Hwf Hn. destruct (read_ok n ba Hwf Hn) as (r & ba' & Hr & ? & ? & _).
  exists r, ba'. split; [done|]. split; [done|]. split; [done|]. intros Hlt.
  unfold read, get_enable_read_size in Hr. pose proof Hwf as [].
  rewrite sz_sub_eq in Hr by lia.
  destruct (Z.ltb_spec (m_size ba - m_position ba) n); [|lia]. by injection Hr as <- <-.
Qed.

Lemma read_refines_witness :
  exists r ba', read 1 (new_ByteArray 4) = (r, ba') /\ wf ba' /\
    (r, abs ba') = a_read 1 (abs (new_ByteArray 4)) /\
    (0 - 0 < 1 -> r = Throw out_of_range /\ ba' = new_ByteArray 4).
Proof. apply (read_refines 1 (new_ByteArray 4)); [exact fresh_wf|lia]. Defined.

(** ** Sequences of calls *)

Inductive ba_op :=
| OWrite (b : bytes)
| ORead (n : Z)
| OSetPosition (v : Z)
| OSetLittleEndian (v : bool).

Definition run_op (o : ba_op) : ba_meth unit :=
  match o with
  | OWrite b => write b
  | ORead n => let! _ := read n in ret tt
  | OSetPosition v => set_position v
  | OSetLittleEndian v => set_little_endian v
  end.

(** The caller goes on after an exception. *)
Fixpoint run_ops (os : list ba_op) (ba : ByteArray) : list (res unit) * ByteArray :=
  match os with
  | [] => ([], ba)
  | o :: os' =>
      let '(r, ba1) := run_op o ba in
      let '(rs, ba2) := run_ops os' ba1 in (r :: rs, ba2)
  end.

Definition op_arg_ok (o : ba_op) : Prop :=
  match o with
  | ORead n => fits 64 n
  | OSetPosition v => fits 64 v
  | _ => True
  end.

Definition op_cost (base : Z) (o : ba_op) : Z :=
  match o with OWrite b => zlen b + 2 * base | _ => 0 end.

Definition ops_cost (base : Z) (os : list ba_op) : Z := foldr (fun o n => op_cost base o + n) 0 os.

(** As long as [clear] is not called one block is never counted in the capacity. *)
Definition spare (ba : ByteArray) : Prop := m_capacity ba + m_base_size ba <= storage ba.

Definition harmless (r : res unit) : Prop := r = Ret tt \/ r = Throw out_of_range.

Lemma write_spare buf ba ba' :
  wf ba -> room (zlen buf) ba -> spare ba -> write buf ba = (Ret tt, ba') -> spare ba'.
Proof.
  intros Hwf Hroom Hsp. unfold write. pose proof (zlen_nonneg buf).
  destruct (Z.eqb_spec (zlen buf) 0); [by intros [= <-]|].
  destruct (add_free_capacity_ok (zlen buf) ba Hwf) as (k & -> & Hg & Hcap & Hst); [lia|done|].
  destruct (write_at_cursor_ok buf _ Hg Hcap) as (ba2 & Hw & _ & _ & Hb & Hs).
  rewrite Hw. intros [= <-]. unfold spare in *. rewrite Hb, Hs, storage_grown.
  assert (m_capacity ba2 = m_capacity (grown k ba)) as ->; [|simpl; lia].
  unfold write_at_cursor in Hw. revert Hw. repeat case_match; intros Hw; simplify_eq; done.
Qed.

Lemma run_op_ok o ba :
  wf ba -> spare ba -> op_arg_ok o -> storage ba + op_cost (m_base_size ba) o < 2 ^ 64 ->
  exists r ba', run_op o ba = (r, ba') /\ harmless r /\ wf ba' /\ spare ba' /\
    m_base_size ba' = m_base_size ba /\ storage ba' <= storage ba + op_cost (m_base_size ba) o.
Proof.
  intros Hwf Hsp Harg Hcost. pose proof (wf_base ba Hwf). destruct o as [b|n|v|v]; simpl in *.
  - destruct (write_ok b ba Hwf) as (ba' & Hw & ? & _ & ? & ?); [unfold room; lia|].
    exists (Ret tt), ba'. split; [done|]. split; [by left|]. split; [done|].
    split; [|lia]. apply (write_spare b ba ba'); [done|unfold room; lia|done|done].
  - destruct (read_ok n ba Hwf ltac:(apply Harg)) as (r & ba' & Hr & ? & Ha & ? & ?).
    assert (m_capacity ba' = m_capacity ba) as Hc.
    { unfold read in Hr. revert Hr. repeat case_match; intros Hr; simplify_eq; done. }
    unfold bind. rewrite Hr. unfold a_read in Ha.
    destruct (_ <? n); injection Ha as -> _ _ _; eexists _, ba';
      (split; [reflexivity|]; split; [unfold harmless; auto|]; split; [done|]);
      (split; [unfold spare in *; rewrite Hc; lia|lia]).
  - destruct (Z.le_gt_cases v (m_capacity ba)).
    + unfold spare in Hsp. destruct Harg.
      destruct (set_position_ok v ba Hwf) as (ba' & Hs & ? & _ & _ & _ & _ & ? & ?); [lia..|].
      exists (Ret tt), ba'. split; [done|]. split; [by left|]. split; [done|].
      split; [|lia]. unfold spare.
      assert (m_capacity ba' = m_capacity ba) as ->; [|lia].
      unfold set_position in Hs. revert Hs. repeat case_match; intros Hs; simplify_eq; done.
    + exists (Throw out_of_range), ba. split; [by apply set_position_throws|].
      split; [by right|]. split; [done|]. split; [done|lia].
  - exists (Ret tt). eexists. split; [reflexivity|]. split; [by left|].
    split; [by destruct Hwf|]. split; [done|]. split; [done|]. unfold storage; simpl. lia.
Qed.

Lemma ops_cost_nonneg base os : 0 < base -> 0 <= ops_cost base os.
Proof.
  intros. induction os as [|o os IH]; cbn [ops_cost foldr]; [lia|].
  fold (ops_cost base os). destruct o as [b| | |]; simpl; try lia.
  pose proof (zlen_nonneg b). lia.
Qed.

Lemma run_ops_ok os : forall ba,
  wf ba -> spare ba -> Forall op_arg_ok os ->
  storage ba + ops_cost (m_base_size ba) os < 2 ^ 64 ->
  Forall harmless (run_ops os ba).1 /\ wf (run_ops os ba).2.
Proof.
  induction os as [|o os IH]; intros ba Hwf Hsp Hargs Hcost; [by split|].
  apply Forall_cons in Hargs as [Harg Hargs].
  cbn [ops_cost foldr] in Hcost. fold (ops_cost (m_base_size ba) os) in Hcost.
  pose proof (ops_cost_nonneg (m_base_size ba) os (wf_base ba Hwf)).
  destruct (run_op_ok o ba Hwf Hsp Harg) as (r & ba1 & Hr & Hh & Hwf1 & Hsp1 & Hb1 & Hs1); [lia|].
  cbn [run_ops]. rewrite Hr. specialize (IH ba1 Hwf1 Hsp1 Hargs).
  rewrite Hb1 in IH. destruct IH as [IH1 IH2]; [lia|].
  destruct (run_ops os ba1) as [rs ba2]. simpl in *. split; [by constructor|done].
Qed.

(** any sequence of writes, reads, repositionings and byte-order changes on a
    fresh array is memory safe: every call returns or throws [out_of_range], no call
    follows a null or dangling pointer, and the invariant holds at the end, whatever
    the block size and the arguments, up to the size of the address space. *)
Theorem ops_safe (base : Z) (os : list ba_op) :
  0 < base -> Forall op_arg_ok os -> base + ops_cost base os < 2 ^ 64 ->
  Forall harmless (run_ops os (new_ByteArray base)).1 /\ wf (run_ops os (new_ByteArray base)).2.
Proof.
  intros Hb Hargs Hcost. pose proof (ops_cost_nonneg base os Hb).
  assert (storage (new_ByteArray base) = base) as Hst.
  { unfold storage. simpl. unfold zlen. simpl. lia. }
  apply run_ops_ok; [apply new_ByteArray_wf; lia| |done|rewrite Hst; done].
  unfold spare. rewrite Hst. simpl. lia.
Qed.

Lemma ops_safe_witness :
  let os := [OWrite (str "abcdefgh"); OSetPosition 2; ORead 100; ORead 6; OWrite (str "xyz")] in
  Forall harmless (run_ops os (new_ByteArray 4)).1 /\ wf (run_ops os (new_ByteArray 4)).2.
Proof.
  intros os. apply ops_safe; [lia| |by_compute].
  repeat constructor; by_compute.
Defined.

(** ** Records of typed fields *)

Inductive field :=
| Fint8 (v : Z) | Fuint8 (v : Z)
| Fint16 (v : Z) | Fuint16 (v : Z)
| Fint32 (v : Z) | Fuint32 (v : Z)
| Fint64 (v : Z) | Fuint64 (v : Z)
| Fvint32 (v : Z) | Fvuint32 (v : Z)
| Fvint64 (v : Z) | Fvuint64 (v : Z)
| Ffloat (v : Z) | Fdouble (v : Z)
| Fstr16 (s : bytes) | Fstr32 (s : bytes) | Fstr64 (s : bytes) | Fstr (s : bytes).

Section fields.
Context (host : endian) (alloc_ok : Z -> bool).

Definition write_field (f : field) : ba_meth unit :=
  match f with
  | Fint8 v => write_fixed_int8 host v
  | Fuint8 v => write_fixed_uint8 host v
  | Fint16 v => write_fixed_int16 host v
  | Fuint16 v => write_fixed_uint16 host v
  | Fint32 v => write_fixed_int32 host v
  | Fuint32 v => write_fixed_uint32 host v
  | Fint64 v => write_fixed_int64 host v
  | Fuint64 v => write_fixed_uint64 host v
  | Fvint32 v => write_int32 v
  | Fvuint32 v => write_uint32 v
  | Fvint64 v => write_int64 v
  | Fvuint64 v => write_uint64 v
  | Ffloat v => write_float host v
  | Fdouble v => write_double host v
  | Fstr16 s => write_fixed_str16 host s
  | Fstr32 s => write_fixed_str32 host s
  | Fstr64 s => write_fixed_str64 host s
  | Fstr s => write_str s
  end.

Definition tag {A} (c : A -> field) (m : ba_meth A) : ba_meth field := let! x := m in ret (c x).

(** The reader for fields of the kind of [f]. *)
Definition read_like (f : field) : ba_meth field :=
  match f with
  | Fint8 _ => tag Fint8 (read_fixed_int8 host)
  | Fuint8 _ => tag Fuint8 (read_fixed_uint8 host)
  | Fint16 _ => tag Fint16 (read_fixed_int16 host)
  | Fuint16 _ => tag Fuint16 (read_fixed_uint16 host)
  | Fint32 _ => tag Fint32 (read_fixed_int32 host)
  | Fuint32 _ => tag Fuint32 (read_fixed_uint32 host)
  | Fint64 _ => tag Fint64 (read_fixed_int64 host)
  | Fuint64 _ => tag Fuint64 (read_fixed_uint64 host)
  | Fvint32 _ => tag Fvint32 (read_int32 host)
  | Fvuint32 _ => tag Fvuint32 (read_uint32 host)
  | Fvint64 _ => tag Fvint64 (read_int64 host)
  | Fvuint64 _ => tag Fvuint64 (read_uint64 host)
  | Ffloat _ => tag Ffloat (read_float host)
  | Fdouble _ => tag Fdouble (read_double host)
  | Fstr16 _ => tag Fstr16 (read_fixed_str16 host alloc_ok)
  | Fstr32 _ => tag Fstr32 (read_fixed_str32 host alloc_ok)
  | Fstr64 _ => tag Fstr64 (read_fixed_str64 host alloc_ok)
  | Fstr _ => tag Fstr (read_str host alloc_ok)
  end.

(** The value is in the range of its type; the varints of signed types exclude
    the least value, whose negation overflows. *)
Definition field_ok (f : field) : Prop :=
  match f with
  | Fint8 v => sfits 8 v
  | Fuint8 v => fits 8 v
  | Fint16 v => sfits 16 v
  | Fuint16 v => fits 16 v
  | Fint32 v => sfits 32 v
  | Fuint32 v | Fvuint32 v | Ffloat v => fits 32 v
  | Fint64 v => sfits 64 v
  | Fuint64 v | Fvuint64 v | Fdouble v => fits 64 v
  | Fvint32 v => - 2 ^ 31 < v < 2 ^ 31
  | Fvint64 v => - 2 ^ 63 < v < 2 ^ 63
  | Fstr16 s => str_dom alloc_ok 16 s
  | Fstr32 s => str_dom alloc_ok 32 s
  | Fstr64 s | Fstr s => str_dom alloc_ok 64 s
  end.

Fixpoint write_fields (fs : list field) : ba_meth unit :=
  match fs with
  | [] => ret tt
  | f :: fs' => let! _ := write_field f in write_fields fs'
  end.

Fixpoint read_fields (fs : list field) : ba_meth (list field) :=
  match fs with
  | [] => ret []
  | f :: fs' => let! x := read_like f in let! xs := read_fields fs' in ret (x :: xs)
  end.

(** The bytes a field takes at most. *)
Definition field_size (f : field) : Z :=
  match f with
  | Fstr16 s | Fstr32 s | Fstr64 s | Fstr s => 10 + zlen s
  | _ => 10
  end.

Definition fields_size (fs : list field) : Z := foldr (fun f n => field_size f + n) 0 fs.

Lemma codec_tag {A} (wr : A -> ba_meth unit) rd dom size (c : A -> field) e a :
  Codec wr rd dom size -> dom a ->
  exists enc, zlen enc <= 10 + size a /\ emits e 2 (wr a) enc /\ yields e (tag c rd) enc (c a).
Proof.
  intros [Hc] Ha. destruct (Hc e a Ha) as (enc & Hl & He & Hy). exists enc.
  split; [done|]. split; [done|]. by apply (yields_bind_ret e rd c).
Qed.

Lemma field_codec e f : field_ok f ->
  exists enc, zlen enc <= field_size f /\
    emits e 2 (write_field f) enc /\ yields e (read_like f) enc f.
Proof.
  destruct f as [v|v|v|v|v|v|v|v|v|v|v|v|v|v|s|s|s|s]; intros Hf.
  - exact (codec_tag _ _ _ _ Fint8 e v (codec_int8 host) Hf).
  - exact (codec_tag _ _ _ _ Fuint8 e v (codec_uint8 host) Hf).
  - exact (codec_tag _ _ _ _ Fint16 e v (codec_int16 host) Hf).
  - exact (codec_tag _ _ _ _ Fuint16 e v (codec_uint16 host) Hf).
  - exact (codec_tag _ _ _ _ Fint32 e v (codec_fixed_int32 host) Hf).
  - exact (codec_tag _ _ _ _ Fuint32 e v (codec_fixed_uint32 host) Hf).
  - exact (codec_tag _ _ _ _ Fint64 e v (codec_fixed_int64 host) Hf).
  - exact (codec_tag _ _ _ _ Fuint64 e v (codec_fixed_uint64 host) Hf).
  - exact (codec_tag _ _ _ _ Fvint32 e v (codec_int32 host) Hf).
  - exact (codec_tag _ _ _ _ Fvuint32 e v (codec_uint32 host) Hf).
  - exact (codec_tag _ _ _ _ Fvint64 e v (codec_int64 host) Hf).
  - exact (codec_tag _ _ _ _ Fvuint64 e v (codec_uint64 host) Hf).
  - exact (codec_tag _ _ _ _ Ffloat e v (codec_float host) Hf).
  - exact (codec_tag _ _ _ _ Fdouble e v (codec_double host) Hf).
  - exact (codec_tag _ _ _ _ Fstr16 e s (codec_str16 host alloc_ok) Hf).
  - exact (codec_tag _ _ _ _ Fstr32 e s (codec_str32 host alloc_ok) Hf).
  - exact (codec_tag _ _ _ _ Fstr64 e s (codec_str64 host alloc_ok) Hf).
  - exact (codec_tag _ _ _ _ Fstr e s (codec_str host alloc_ok) Hf).
Qed.

Lemma fields_codec e fs : Forall field_ok fs ->
  exists enc, zlen enc <= fields_size fs /\
    emits e (2 * zlen fs) (write_fields fs) enc /\ yields e (read_fields fs) enc fs.
Proof.
  induction 1 as [|f fs Hf _ (enc & IHl & IHe & IHy)].
  - exists []. split; [done|]. split; [|apply yields_ret]. intros ba Hwf He Hr. exists ba.
    split; [done|]. split; [done|]. split; [|split; [done|zlen_nil; lia]].
    unfold a_write, splice. zlen_nil. rewrite !Z.add_0_r, app_nil_l, ztake_zdrop.
    by destruct (abs ba).
  - destruct (field_codec e f Hf) as (enc1 & Hl1 & He1 & Hy1). exists (enc1 ++ enc).
    split; [rewrite zlen_app; cbn [fields_size foldr] in *; unfold fields_size in *; lia|]. split.
    + rewrite zlen_cons, Z.mul_add_distr_l. pose proof (zlen_nonneg fs).
      apply emits_seq; [lia..|done|done].
    + cbn [read_fields]. eapply yields_bind; [done|].
      rewrite <- (app_nil_r enc). eapply yields_bind; [done|]. apply yields_ret.
Qed.

End fields.

(** C22: the typed operations round trip: any sequence of values of any of the
    eighteen kinds (fixed-width and varint integers, floats, strings), in either byte
    order and on either host, written to a well-formed array and read back in the same
    order from the old position, comes back unchanged. *)
Theorem fields_roundtrip (host : endian) (alloc_ok : Z -> bool) (fs : list field) (ba : ByteArray) :
  wf ba -> Forall (field_ok alloc_ok) fs ->
  storage ba + fields_size fs + 4 * zlen fs * m_base_size ba < 2 ^ 64 ->
  exists ba1 ba2 ba3,
    write_fields host fs ba = (Ret tt, ba1) /\
    set_position (m_position ba) ba1 = (Ret tt, ba2) /\
    read_fields host alloc_ok fs ba2 = (Ret fs, ba3) /\
    wf ba3 /\ m_position ba3 = m_position ba1.
Proof.
  intros Hwf Hfs Hroom.
  destruct (fields_codec host alloc_ok (m_endian ba) fs Hfs) as (enc & Hl & He & Hy).
  pose proof (zlen_nonneg enc).
  destruct (He ba Hwf eq_refl) as (ba1 & Hw & Hwf1 & Ha1 & Hb1 & Hs1); [lia|].
  unfold abs, a_write in Ha1. injection Ha1 as Hd1 Hp1 He1. simpl in *.
  pose proof (wf_pos ba Hwf). pose proof (wf_pos ba1 Hwf1).
  destruct (set_position_abs (m_position ba) ba1 Hwf1) as (ba2 & Hset & Hwf2 & Ha2 & _); [lia|].
  unfold abs in Ha2. injection Ha2 as Hd2 Hp2 He2.
  destruct (Hy ba2 (zdrop (m_position ba + zlen enc) (data ba)) Hwf2) as (ba3 & Hr & Hwf3 & Ha3).
  { congruence. }
  { pose proof (zlen_data ba Hwf). rewrite Hp2, Hd2, Hd1. unfold splice.
    rewrite zdrop_app_r by (rewrite zlen_ztake; lia). rewrite zlen_ztake by lia.
    by rewrite Z.sub_diag. }
  unfold abs in Ha3. injection Ha3 as Hd3 Hp3 _.
  exists ba1, ba2, ba3. split; [done|]. split; [done|]. split; [done|]. split; [done|]. lia.
Qed.

(** A record with fields of several kinds, in an array of small blocks. *)
Definition sample_fields : list field :=
  [Fint16 (-2); Fuint32 4000000000; Fvint32 (-1000000); Fvuint64 (2 ^ 64 - 1); Fstr16 (str "tiger")].

Lemma fields_roundtrip_witness :
  exists ba1 ba2 ba3,
    write_fields LITTLE_ENDIAN sample_fields (new_ByteArray 4) = (Ret tt, ba1) /\
    set_position 0 ba1 = (Ret tt, ba2) /\
    read_fields LITTLE_ENDIAN (fun n => n <? 1024) sample_fields ba2 = (Ret sample_fields, ba3) /\
    wf ba3 /\ m_position ba3 = m_position ba1.
Proof.
  apply (fields_roundtrip LITTLE_ENDIAN (fun n => n <? 1024) sample_fields (new_ByteArray 4));
    [exact fresh_wf|repeat constructor; by_compute|by_compute].
Defined.

(** ** Layout of the encodings *)

(** the bytes a fixed-width write produces depend on the array's byte order only,
    not on the host: big-endian order stores the most significant byte first,
    little-endian order the least, for signed and unsigned values of 2, 4 and 8 bytes. *)
Theorem fixed_layout (host : endian) (n : nat) (v : Z) (ba : ByteArray) :
  wf ba -> room (Z.of_nat n) ba ->
  let enc := match m_endian ba with BIG_ENDIAN => be_bytes n v | LITTLE_ENDIAN => le_bytes n v end in
  (exists ba', write_fixed_uint host n v ba = (Ret tt, ba') /\ abs ba' = a_write enc (abs ba)) /\
  (exists ba', write_fixed_int host n v ba = (Ret tt, ba') /\ abs ba' = a_write enc (abs ba)).
Proof.
  intros Hwf Hroom enc.
  assert (enc = mem_of (m_endian ba) n v) as Henc by (unfold enc; by destruct (m_endian ba)).
  assert (zlen enc = Z.of_nat n) by (rewrite Henc; apply zlen_mem_of).
  unfold room in Hroom. split.
  - destruct (emits_fixed_uint host (m_endian ba) n v ba) as (ba' & ? & _ & ? & _);
      [done|done|rewrite <- Henc; lia|]. exists ba'. split; [done|congruence].
  - destruct (emits_fixed_int host (m_endian ba) n v ba) as (ba' & ? & _ & ? & _);
      [done|done|rewrite <- Henc; lia|]. exists ba'. split; [done|congruence].
Qed.

Lemma fixed_layout_witness :
  (exists ba', write_fixed_uint LITTLE_ENDIAN 4 0x01020304 (new_ByteArray 4) = (Ret tt, ba') /\
     abs ba' = a_write [1; 2; 3; 4] (abs (new_ByteArray 4))) /\
  (exists ba', write_fixed_int LITTLE_ENDIAN 4 0x01020304 (new_ByteArray 4) = (Ret tt, ba') /\
     abs ba' = a_write [1; 2; 3; 4] (abs (new_ByteArray 4))).
Proof.
  apply (fixed_layout LITTLE_ENDIAN 4 0x01020304 (new_ByteArray 4)); [exact fresh_wf|by_compute].
Defined.

(** the varint writers stay inside their stack arrays: every 32-bit value takes
    between 1 and 5 of [tmp[5]] and every 64-bit value between 1 and 10 of [tmp[10]],
    all of them bytes; one slot less overflows for the greatest value. *)
Theorem varint_in_bounds :
  (forall v, fits 32 v -> exists bs, varint_loop 5 v = Ret bs /\
     (1 <= length bs <= 5)%nat /\ Forall is_byte bs) /\
  (forall v, fits 64 v -> exists bs, varint_loop 10 v = Ret bs /\
     (1 <= length bs <= 10)%nat /\ Forall is_byte bs) /\
  varint_loop 4 (2 ^ 32 - 1) = Undef BufferOverflow /\
  varint_loop 9 (2 ^ 64 - 1) = Undef BufferOverflow.
Proof.
  split; [|split; [|by split]]; intros v Hv; apply varint_loop_ok; try lia.
  - apply (varint_fits 5 32); [lia|done].
  - apply (varint_fits 10 64); [lia|done].
Qed.

Lemma varint_in_bounds_witness :
  exists bs, varint_loop 5 (2 ^ 32 - 1) = Ret bs /\ (1 <= length bs <= 5)%nat /\ Forall is_byte bs.
Proof. apply (proj1 varint_in_bounds). by_compute. Defined.

(** the signed varint encoder is undefined on exactly one value of each width, the
    least one, whose negation overflows; on every other value zigzag decodes to what it
    encoded. *)
Theorem zigzag_domain (w v : Z) :
  1 < w -> sfits w v ->
  (v = - 2 ^ (w - 1) /\ Encode_Zigzag w v = Undef SignedOverflow) \/
  (exists u, Encode_Zigzag w v = Ret u /\ fits w u /\ Decode_Zigzag w u = v).
Proof.
  intros Hw [Hv1 Hv2]. destruct (Z.eq_dec v (- 2 ^ (w - 1))) as [->|Hne].
  - left. split; [done|]. unfold Encode_Zigzag. rewrite Z.eqb_refl.
    pose proof (Z.pow_pos_nonneg 2 (w - 1)). by destruct (Z.ltb_spec (- 2 ^ (w - 1)) 0); [|lia].
  - right. exists (zigzag v). split; [apply Encode_Zigzag_eq; lia|].
    split; [apply zigzag_fits; lia|apply Decode_Zigzag_eq; lia].
Qed.

Lemma zigzag_domain_witness :
  (-1 = - 2 ^ (32 - 1) /\ Encode_Zigzag 32 (-1) = Undef SignedOverflow) \/
  (exists u, Encode_Zigzag 32 (-1) = Ret u /\ fits 32 u /\ Decode_Zigzag 32 u = -1).
Proof. apply (zigzag_domain 32 (-1)); [lia|by_compute]. Defined.

(** ** Scatter/gather buffers *)

(** receiving through the write buffers is a [write]: [get_enable_write_buffers(len)]
    returns buffers of [len] bytes in total, and when the kernel fills any number of
    bytes [b] into them in order and the caller advances the position by that number,
    the array holds the same data as after [write(b)]. *)
Theorem write_buffers_receive (len : Z) (b : bytes) (ba : ByteArray) :
  wf ba -> 0 < len -> room len ba -> zlen b <= len ->
  exists vs ba1 ba2,
    get_enable_write_buffers len ba = (Ret (vs, len), ba1) /\ total_len vs = len /\
    set_position (m_position ba1 + zlen b) (with_nodes ba1 (scatter (m_nodes ba1) vs b))
      = (Ret tt, ba2) /\
    wf ba2 /\ abs ba2 = a_write b (abs ba).
Proof.
  intros Hwf Hlen Hroom Hb.
  destruct (receive_ok len b ba Hwf Hlen (or_introl Hroom) Hb)
    as (vs & ba1 & ba2 & H1 & H2 & H3 & H4 & H5 & _). by exists vs, ba1, ba2.
Qed.

Lemma write_buffers_receive_witness :
  exists vs ba1 ba2,
    get_enable_write_buffers 10 (new_ByteArray 4) = (Ret (vs, 10), ba1) /\ total_len vs = 10 /\
    set_position (m_position ba1 + 7) (with_nodes ba1 (scatter (m_nodes ba1) vs (str "request")))
      = (Ret tt, ba2) /\
    wf ba2 /\ abs ba2 = a_write (str "request") (abs (new_ByteArray 4)).
Proof.
  apply (write_buffers_receive 10 (str "request") (new_ByteArray 4));
    [exact fresh_wf|lia|by_compute|by_compute].
Defined.

(** the read buffers are the unread data: both forms of [get_enable_read_buffers]
    return the smaller of [len] and what is readable from the position, and gathering
    the buffers in order gives exactly those bytes. *)
Theorem read_buffers_gather (len position : Z) (ba : ByteArray) :
  wf ba -> fits 64 len -> 0 <= position ->
  (exists vs n, get_enable_read_buffers len ba = Ret (vs, n) /\
     n = Z.min len (m_size ba - m_position ba) /\
     gather (m_nodes ba) vs = slice (m_position ba) n (data ba)) /\
  (exists vs n, get_enable_read_buffers_at len position ba = Ret (vs, n) /\
     n = Z.max 0 (Z.min len (m_size ba - position)) /\
     gather (m_nodes ba) vs = slice position n (data ba)).
Proof.
  intros Hwf [Hl1 Hl2] Hp. pose proof Hwf as []. split.
  - destruct (send_ok len ba Hwf) as (vs & n & H1 & H2 & H3 & _); [done|]. by exists vs, n.
  - unfold get_enable_read_buffers_at. destruct (Z.leb_spec (m_size ba) position).
    { exists [], 0. split; [done|]. split; [lia|done]. }
    set (n := if m_size ba - position <? len then m_size ba - position else len).
    assert (n = Z.min len (m_size ba - position)) as Hn
      by (unfold n; destruct (Z.ltb_spec (m_size ba - position) len); lia).
    destruct (Z.eqb_spec n 0) as [Hz|Hz].
    { exists [], 0. split; [done|]. split; [lia|done]. }
    destruct (iovs_at_ok n position ba Hwf) as (vs & _ & Hvs & Hg); [lia..|].
    exists vs, n. split; [|split; [lia|done]].
    revert Hvs. destruct (seek (m_nodes ba) position) as [[[|nd rest] off]| |]; [done| |done|done].
    cbn [res_bind]. by intros ->.
Qed.

Lemma read_buffers_gather_witness :
  let ba := (run_ops [OWrite (str "hello, tiger"); OSetPosition 3] (new_ByteArray 4)).2 in
  (exists vs n, get_enable_read_buffers 6 ba = Ret (vs, n) /\ n = Z.min 6 (12 - 3) /\
     gather (m_nodes ba) vs = slice 3 n (data ba)) /\
  (exists vs n, get_enable_read_buffers_at 6 10 ba = Ret (vs, n) /\ n = Z.max 0 (Z.min 6 (12 - 10)) /\
     gather (m_nodes ba) vs = slice 10 n (data ba)).
Proof.
  intros ba. apply (read_buffers_gather 6 10 ba); [|by_compute|lia].
  apply (run_ops_ok [OWrite (str "hello, tiger"); OSetPosition 3] (new_ByteArray 4));
    [exact fresh_wf|by_compute|repeat constructor; by_compute|by_compute].
Defined.

(** ** Files *)

Lemma write_to_file_ok ba : wf ba ->
  write_to_file true ba = Ret (Some (zdrop (m_position ba) (data ba))).
Proof.
  intros Hwf. unfold write_to_file, get_enable_read_size. simpl.
  pose proof (zlen_data _ Hwf). pose proof (base_le_storage _ Hwf). pose proof Hwf as [].
  rewrite sz_sub_eq by lia. rewrite sz_mod_pos by done. cbn [res_bind].
  destruct (cursor_node _ Hwf) as (nd & next & Hd & Hsz). rewrite Hd, Hsz. rewrite <- Hd.
  pose proof (cursor_off _ Hwf) as Hoff. rewrite sz_sub_eq by lia.
  rewrite (read_loop_spec (m_base_size ba));
    [|done|by apply Forall_drop|done|lia|apply from_cursor_storage; [done|lia]].
  cbn [res_bind]. do 2 f_equal. rewrite from_cursor_cells by done.
  pose proof (cursor_split _ Hwf). unfold slice. rewrite zdrop_zdrop by lia.
  unfold data. rewrite zdrop_ztake by lia. do 2 f_equal. lia.
Qed.

Lemma read_file_loop_ok fuel : forall content ba,
  wf ba -> (length content < fuel)%nat ->
  storage ba + 3 * zlen content + 3 * m_base_size ba < 2 ^ 64 ->
  exists ba', read_file_loop fuel content ba = (Ret tt, ba') /\ wf ba' /\
    abs ba' = a_write content (abs ba).
Proof.
  induction fuel as [|fuel IH]; intros content ba Hwf Hfuel Hroom; [lia|].
  cbn [read_file_loop]. pose proof (wf_base ba Hwf). pose proof (zlen_nonneg content).
  set (chunk := ztake (m_base_size ba) content).
  assert (zlen chunk <= zlen content /\ zlen chunk <= m_base_size ba) as [Hc1 Hc2].
  { unfold chunk, ztake, zlen. rewrite length_take. lia. }
  destruct (write_ok chunk ba Hwf) as (ba1 & Hw & Hwf1 & Ha1 & Hb1 & Hs1); [unfold room; lia|].
  rewrite (bind_ret _ _ _ _ _ Hw).
  destruct (Z.ltb_spec (zlen chunk) (m_base_size ba)) as [Hlt|Hge].
  - exists ba1. split; [done|]. split; [done|]. rewrite Ha1. f_equal.
    unfold chunk in *. apply ztake_all. unfold ztake, zlen in *. rewrite length_take in Hlt. lia.
  - assert (m_base_size ba <= zlen content) by lia.
    destruct (IH (zdrop (m_base_size ba) content) ba1 Hwf1) as (ba2 & Hr & Hwf2 & Ha2).
    { unfold zdrop, zlen in *. rewrite length_drop. lia. }
    { rewrite zlen_zdrop, Hb1 by lia. lia. }
    exists ba2. split; [done|]. split; [done|].
    rewrite Ha2, Ha1, a_write_app by by apply abs_pos. unfold chunk. by rewrite ztake_zdrop.
Qed.

(** files round trip: [write_to_file] saves exactly the unread bytes without
    moving the cursor, and [read_from_file] of any file terminates and appends its whole
    content, block by block; so an array saved and loaded into an empty one gives the
    same string. *)
Theorem file_roundtrip (src dst : ByteArray) :
  wf src -> wf dst -> m_size dst = 0 ->
  storage dst + 3 * m_size src + 3 * m_base_size dst < 2 ^ 64 ->
  exists content dst1 dst2,
    write_to_file true src = Ret (Some content) /\ to_string src = Ret content /\
    read_from_file (Some content) dst = (Ret true, dst1) /\ data dst1 = content /\
    set_position 0 dst1 = (Ret tt, dst2) /\ to_string dst2 = Ret content.
Proof.
  intros Hs Hd Hz Hroom. set (c := zdrop (m_position src) (data src)).
  pose proof (zlen_data src Hs) as Hl. pose proof (wf_pos src Hs). pose proof (wf_pos dst Hd).
  assert (zlen c <= m_size src) as Hc by (unfold c; rewrite zlen_zdrop; lia).
  destruct (read_file_loop_ok (S (length c)) c dst Hd) as (d1 & Hr & Hwf1 & Ha1); [lia|lia|].
  unfold abs, a_write in Ha1. injection Ha1 as Hd1 Hp1 _. simpl in Hd1, Hp1.
  assert (data dst = []) as Hnil by (apply zlen_zero; rewrite zlen_data; done).
  assert (m_position dst = 0) as Hpos by lia.
  assert (data d1 = c) as Hdata.
  { rewrite Hd1, Hnil, Hpos. unfold splice, zdrop, ztake. rewrite take_nil, drop_nil.
    by rewrite app_nil_r. }
  pose proof (wf_pos d1 Hwf1).
  destruct (set_position_abs 0 d1 Hwf1) as (d2 & Hset & Hwf2 & Ha2 & _); [lia|].
  unfold abs in Ha2. injection Ha2 as Hd2 Hp2 _.
  exists c, d1, d2. split; [by apply write_to_file_ok|]. split; [by apply to_string_ok|].
  split; [unfold read_from_file; rewrite (bind_ret _ _ _ _ _ Hr); done|].
  split; [done|]. split; [done|].
  rewrite to_string_ok by done. rewrite Hp2, Hd2, Hdata. done.
Qed.

Lemma file_roundtrip_witness :
  let src := (run_ops [OWrite (str "hello, tiger"); OSetPosition 0] (new_ByteArray 4)).2 in
  exists content dst1 dst2,
    write_to_file true src = Ret (Some content) /\ to_string src = Ret content /\
    read_from_file (Some content) (new_ByteArray 4) = (Ret true, dst1) /\ data dst1 = content /\
    set_position 0 dst1 = (Ret tt, dst2) /\ to_string dst2 = Ret content.
Proof.
  intros src. apply (file_roundtrip src (new_ByteArray 4)); [|exact fresh_wf|done|by_compute].
  apply (run_ops_ok [OWrite (str "hello, tiger"); OSetPosition 0] (new_ByteArray 4));
    [exact fresh_wf|by_compute|repeat constructor; by_compute|by_compute].
Defined.

(** [set_position], [clear] and the reads at a position refine the flat buffer:
    a position beyond the capacity throws and changes nothing, one inside the data moves
    the cursor only, [clear] empties the data, and the [const] reads return the bytes at
    the given position, or throw when they would run past the data. *)
Theorem reposition_refines (v n : Z) (ba : ByteArray) :
  wf ba -> 0 <= v -> 0 <= n ->
  (m_capacity ba < v -> set_position v ba = (Throw out_of_range, ba)) /\
  (v <= m_size ba ->
     (exists ba', set_position v ba = (Ret tt, ba') /\ wf ba' /\
        abs ba' = MkFlat (data ba) v (m_endian ba)) /\
     read_at n v ba =
       (if m_size ba - v <? n then Throw out_of_range else Ret (slice v n (data ba)))) /\
  (exists ba', clear ba = (Ret tt, ba') /\ wf ba' /\ abs ba' = a_clear (abs ba)) /\
  to_string ba = Ret (zdrop (m_position ba) (data ba)).
Proof.
  intros Hwf Hv Hn. split; [by apply set_position_throws|]. split; [|split].
  - intros Hle. split; [|by apply read_at_ok].
    destruct (set_position_abs v ba Hwf) as (ba' & ? & ? & ? & _); [lia|]. eauto.
  - destruct (clear_ok ba Hwf) as (ba' & ? & ? & ? & _). eauto.
  - by apply to_string_ok.
Qed.

Lemma reposition_refines_witness :
  let ba := (run_ops [OWrite (str "hello, tiger")] (new_ByteArray 4)).2 in
  (exists ba', set_position 5 ba = (Ret tt, ba') /\ wf ba' /\
     abs ba' = MkFlat (data ba) 5 (m_endian ba)) /\
  read_at 3 5 ba = (if m_size ba - 5 <? 3 then Throw out_of_range else Ret (slice 5 3 (data ba))).
Proof.
  intros ba. assert (wf ba) as Hwf.
  { apply (run_ops_ok [OWrite (str "hello, tiger")] (new_ByteArray 4));
      [exact fresh_wf|by_compute|repeat constructor; by_compute|by_compute]. }
  apply (reposition_refines 5 3 ba Hwf); [lia|lia|by_compute].
Defined.

(** ** Where the cursor is wrong *)

(** a repositioning to the full capacity of a cleared array loses data.  [clear]
    counts the root block in the capacity, so [set_position] accepts the position just
    past the only block but leaves the cursor at the start of that block; the step that
    would move it on when [add_free_capacity_to] grows the chain is dead code (its
    counter is zero after the loop).  A [write] there overwrites the first block
    instead of appending, and the position no longer says where the bytes are. *)
Theorem set_position_at_capacity_corrupts :
  exists ba1 ba2 ba3 ba4,
    clear (new_ByteArray 4) = (Ret tt, ba1) /\ write (str "abcd") ba1 = (Ret tt, ba2) /\
    clear ba2 = (Ret tt, ba3) /\ set_position 4 ba3 = (Ret tt, ba4) /\
    (m_position ba4 = m_size ba4 /\ m_size ba4 = storage ba4 /\ m_cur ba4 = 0%nat) /\
    (write (str "wxyz") ba4).1 = Ret tt /\
    slice 0 4 (flat ba4) = str "abcd" /\
    slice 0 4 (flat (write (str "wxyz") ba4).2) = str "wxyz" /\
    slice 4 4 (flat (write (str "wxyz") ba4).2) <> str "wxyz".
Proof.
  exists (clear (new_ByteArray 4)).2, (write (str "abcd") (clear (new_ByteArray 4)).2).2,
    (clear (write (str "abcd") (clear (new_ByteArray 4)).2).2).2,
    (set_position 4 (clear (write (str "abcd") (clear (new_ByteArray 4)).2).2).2).2.
  vm_compute. repeat split; discriminate.
Qed.

(** The bounds check of the positional read does not cover positions past the data:
    [m_size - position] wraps around, the request passes the check, and the walk along
    the chain runs off its end for any position beyond the blocks. *)
Theorem read_at_past_end_undefined (n p : Z) (ba : ByteArray) :
  wf ba -> storage ba <= p < 2 ^ 64 -> 0 <= n <= 2 ^ 64 + m_size ba - p ->
  read_at n p ba = Undef NullDeref.
Proof.
  intros Hwf Hp Hn. pose proof Hwf as []. unfold read_at, sz_sub, wrap.
  replace (m_size ba - p) with (2 ^ 64 + m_size ba - p + (-1) * 2 ^ 64) by lia.
  rewrite Z.mod_add, Z.mod_small by lia.
  destruct (Z.ltb_spec (2 ^ 64 + m_size ba - p) n); [lia|].
  unfold sz_mod. destruct (Z.eqb_spec (m_base_size ba) 0); [lia|]. cbn [res_bind].
  enough (seek (m_nodes ba) p = Undef NullDeref) as -> by done.
  clear -wf_nodes wf_base Hp. unfold storage in Hp. destruct Hp as [Hp _]. revert p Hp.
  induction wf_nodes as [|nd l [Hsz Hl] _ IH]; intros p Hp; [done|].
  cbn [seek]. rewrite zlen_cons in Hp. rewrite Hsz. pose proof (zlen_nonneg l).
  destruct (Z.leb_spec (m_base_size ba) p); [apply IH; lia|nia].
Qed.

Lemma read_at_past_end_undefined_witness : read_at 1 4 (new_ByteArray 4) = Undef NullDeref.
Proof. apply read_at_past_end_undefined; [exact fresh_wf|by_compute|by_compute]. Defined.
