(* ===== verification/Hash.v ===== *)
(** * Digests and Base64 ([hash.cc])

    The Base64 coder with its loops and buffers as they are written, and the
    hexadecimal rendering of the digests.  The digest functions of OpenSSL are
    parameters. *)

From stdpp Require Import base list numbers strings.
From Stdlib Require Import Lia ZArith.
From S2P Require Import Prelude ByteArray.

(** ** Base64 *)

(** The inner loop of [Base64Encode]: at most [n] bytes are packed; the result also
    says how many were missing. *)
Fixpoint pack_loop (n : nat) (packed : Z) (ptr : bytes) : nat * Z * bytes :=
  match n, ptr with
  | S n', c :: ptr' => pack_loop n' (Z.lor (wrap 32 (Z.shiftl packed 8)) c) ptr'
  | _, _ => (n, packed, ptr)
  end.

Fixpoint pad_loop (n : nat) (packed : Z) : Z :=
  match n with
  | O => packed
  | S n' => pad_loop n' (wrap 32 (Z.shiftl packed 8))
  end.

Definition base64 : bytes :=
  str "ABCDEFGHIJKLMNOPQRSTUVWXYZabcdefghijklmnopqrstuvwxyz0123456789+/".

(** [base64[i]]; reading outside the table is undefined. *)
Definition base64_at (i : Z) : res Z :=
  match base64 !! Z.to_nat i with
  | Some c => Ret c
  | None => Undef BufferOverflow
  end.

Fixpoint encode_loop (fuel : nat) (ret ptr : bytes) : res bytes :=
  match ptr, fuel with
  | [], _ => Ret ret
  | _, O => Undef Diverges
  | _, S fuel' =>
      let '(missing, packed, ptr') := pack_loop 3 0 ptr in
      let padding := match missing with 1%nat => 1 | 2%nat => 2 | _ => 0 end in
      let packed := pad_loop missing packed in
      let? c0 := base64_at (Z.shiftr packed 18) in
      let? c1 := base64_at (Z.land (Z.shiftr packed 12) 63) in
      let? c2 :=
        (if padding =? 2 then Ret []
         else let? c := base64_at (Z.land (Z.shiftr packed 6) 63) in Ret [c]) in
      let? c3 :=
        (if padding =? 0
         then let? c := base64_at (Z.land packed 63) in Ret [c] else Ret []) in
      encode_loop fuel' (ret ++ [c0; c1] ++ c2 ++ c3 ++ zrepeat padding 61) ptr'
  end.

Definition Base64Encode (data : bytes) : res bytes :=
  encode_loop (length data) [] data.

(** The value of a character; [None] is the [return ""] for an invalid one. *)
Definition decode_char (c : Z) : option Z :=
  if (65 <=? c) && (c <=? 90) then Some (c - 65)
  else if (97 <=? c) && (c <=? 122) then Some (c - 97 + 26)
  else if (48 <=? c) && (c <=? 57) then Some (c - 48 + 52)
  else if c =? 43 then Some 62
  else if c =? 47 then Some 63
  else None.

(** The inner loop of [Base64Decode]: [n] characters of the group are still to come. *)
Fixpoint unpack_loop (n : nat) (padding packed : Z) (ptr : bytes)
    : option (nat * Z * Z * bytes) :=
  match n, ptr with
  | S n', c :: ptr' =>
      if c =? 61 then unpack_loop n' (padding + 1) (Z.shiftl packed 6) ptr'
      else if 0 <? padding then None
      else
        match decode_char c with
        | None => None
        | Some val => unpack_loop n' padding (Z.lor (Z.shiftl packed 6) val) ptr'
        end
  | _, _ => Some (n, padding, packed, ptr)
  end.

(** [*writeBuf++ = c] in a buffer of [cap] bytes. *)
Definition put (cap : Z) (out : bytes) (c : Z) : res bytes :=
  if zlen out <? cap then Ret (out ++ [c]) else Undef BufferOverflow.

Fixpoint decode_loop (fuel : nat) (cap : Z) (out ptr : bytes) : res bytes :=
  match ptr, fuel with
  | [], _ => Ret out
  | _, O => Undef Diverges
  | _, S fuel' =>
      match unpack_loop 4 0 0 ptr with
      | None => Ret []
      | Some (missing, padding, packed, ptr') =>
          if negb (missing =? 0)%nat then Ret []
          else if (0 <? padding) && negb (zlen ptr' =? 0) then Ret []
          else if 2 <? padding then Ret []
          else
            let? out := put cap out (Z.land (Z.shiftr packed 16) 255) in
            let? out :=
              (if padding =? 2 then Ret out
               else put cap out (Z.land (Z.shiftr packed 8) 255)) in
            let? out :=
              (if padding =? 0 then put cap out (Z.land packed 255) else Ret out) in
            decode_loop fuel' cap out ptr'
      end
  end.

Definition Base64Decode (src : bytes) : res bytes :=
  decode_loop (length src) (wrap 64 (zlen src * 3) / 4) [] src.

(** ** Digests *)

(** The rendering of a digest: two hexadecimal digits per byte. *)
Fixpoint hex_stream (md : bytes) : bytes :=
  match md with
  | [] => []
  | c :: md' => hex_byte c ++ hex_stream md'
  end.

(** The characters of a C string that starts at the buffer; running off its end is
    undefined. *)
Fixpoint c_str (buf : bytes) : res bytes :=
  match buf with
  | [] => Undef BufferOverflow
  | c :: buf' => if c =? 0 then Ret [] else let? s := c_str buf' in Ret (c :: s)
  end.

Section Digests.
(** The digest functions of OpenSSL. *)
Context (evp_md5 evp_sha256 evp_sha512 evp_sha1 : bytes -> bytes).

(** [EVP_DigestFinal_ex] writes the digest to the front of [md]. *)
Definition message_digest (s : bytes) (evp_md : bytes -> bytes) (digest_length : Z)
    : res bytes :=
  let md := zrepeat digest_length 0 in
  if zlen md <? zlen (evp_md s) then Undef BufferOverflow
  else Ret (hex_stream (splice 0 (evp_md s) md)).

Definition MD5 (s : bytes) : res bytes := message_digest s evp_md5 16.
Definition SHA256 (s : bytes) : res bytes := message_digest s evp_sha256 32.
Definition SHA512 (s : bytes) : res bytes := message_digest s evp_sha512 64.

(** [out] is the uninitialised buffer of 1024 bytes. *)
Definition SHA1 (out s : bytes) : res bytes := c_str (splice 0 (evp_sha1 s) out).
End Digests.
