(* ===== verification/HashProps.v ===== *)
(** * Digests and Base64: the theorems

    Base64 is a round trip on every byte string, decoding is memory safe on every
    input, and the hexadecimal digests determine the digest. *)

From stdpp Require Import base list numbers strings.
From Stdlib Require Import Lia ZArith.
From S2P Require Import Prelude ByteArray Hash.

(** ** One group of Base64 *)

Definition is_alphabet (c : Z) : bool := bool_decide (c ∈ base64).

Lemma base64_inverse k :
  0 <= k < 64 ->
  exists c, base64_at k = Ret c /\ decode_char c = Some k /\ (c =? 61) = false /\
    c ∈ base64.
Proof.
  intros Hk.
  pose (ok := fun k => match base64_at k with
    | Ret c => bool_decide (decode_char c = Some k) && negb (c =? 61) && is_alphabet c
    | _ => false end).
  assert (forallb ok (seqZ 0 64) = true) as Hall by (vm_compute; reflexivity).
  rewrite forallb_forall in Hall. specialize (Hall k). unfold ok in Hall.
  rewrite <- list_elem_of_In, elem_of_seqZ in Hall.
  destruct (base64_at k) as [c| |]; [|discriminate Hall; lia..].
  unfold is_alphabet in Hall. rewrite !andb_true_iff, !bool_decide_eq_true, negb_true_iff in Hall.
  destruct Hall as [[? ?] ?]; [lia|]. by exists c.
Qed.

Lemma shl_or_int a b k : 0 <= k -> 0 <= b < 2 ^ k -> Z.lor (Z.shiftl a k) b = a * 2 ^ k + b.
Proof. intros. rewrite Z.lor_comm, lor_low_high by done. lia. Qed.

Lemma shl_or w a b k : 0 <= k -> 0 <= b < 2 ^ k -> 0 <= a * 2 ^ k < 2 ^ w ->
  Z.lor (wrap w (Z.shiftl a k)) b = a * 2 ^ k + b.
Proof.
  intros. rewrite wrap_small; [by apply shl_or_int|].
  unfold fits. by rewrite Z.shiftl_mul_pow2.
Qed.

Lemma land_63 a : Z.land a 63 = a mod 64.
Proof. apply (land_low 6). lia. Qed.

Lemma land_255 a : Z.land a 255 = a mod 256.
Proof. apply (land_low 8). lia. Qed.

(** The 24 bits of a group. *)
Definition packed3 (a b c : Z) : Z := a * 65536 + b * 256 + c.

Lemma sextets p : 0 <= p < 2 ^ 24 ->
  0 <= p / 2 ^ 18 < 64 /\ 0 <= (p / 2 ^ 12) mod 64 < 64 /\
  0 <= (p / 2 ^ 6) mod 64 < 64 /\ 0 <= p mod 64 < 64 /\
  ((p / 2 ^ 18 * 64 + (p / 2 ^ 12) mod 64) * 64 + (p / 2 ^ 6) mod 64) * 64 + p mod 64 = p.
Proof.
  intros Hp. change (2 ^ 24) with 16777216 in Hp.
  change (2 ^ 18) with 262144. change (2 ^ 12) with 4096. change (2 ^ 6) with 64.
  repeat split; Z.to_euclidean_division_equations; lia.
Qed.

Lemma octets a b c : is_byte a -> is_byte b -> is_byte c ->
  let p := packed3 a b c in
  0 <= p < 2 ^ 24 /\ p / 2 ^ 16 mod 256 = a /\ p / 2 ^ 8 mod 256 = b /\ p mod 256 = c.
Proof.
  unfold is_byte, packed3. intros. cbn zeta.
  change (2 ^ 24) with 16777216. change (2 ^ 16) with 65536. change (2 ^ 8) with 256.
  repeat split; Z.to_euclidean_division_equations; lia.
Qed.

(** [q] is the encoding of the group [g]. *)
Record group (g q : bytes) : Prop := {
  group_len : zlen q = 4;
  group_alphabet : Forall (fun c => c ∈ base64 \/ c = 61) q;
  group_encode f ret r : (zlen g < 3 -> r = []) ->
    encode_loop (S f) ret (g ++ r) = encode_loop f (ret ++ q) r;
  group_decode f cap out r : (zlen g < 3 -> r = []) -> zlen out + zlen g <= cap ->
    decode_loop (S f) cap out (q ++ r) = decode_loop f cap (out ++ g) r }.

Lemma put_ok cap out c : zlen out < cap -> put cap out c = Ret (out ++ [c]).
Proof. intros. unfold put. by destruct (Z.ltb_spec (zlen out) cap); [|lia]. Qed.

Ltac put_all :=
  repeat (rewrite put_ok by (autorewrite with zlist in *; zlen_nil; lia); cbn [res_bind]).

Ltac sextet k c :=
  destruct (base64_inverse k) as (c & ?Hat & ?Hdec & ?Hne & ?Hin); [done|].

(** Evaluate the decoder on four characters whose values are known. *)
Ltac run_decode :=
  cbn [app decode_loop unpack_loop];
  repeat match goal with
  | H : (?c =? 61) = false |- context [?c =? 61] => rewrite H; cbn [Z.ltb Z.compare]
  | H : decode_char ?c = Some _ |- context [decode_char ?c] => rewrite H; cbn [unpack_loop]
  end;
  change (61 =? 61) with true; cbn [Nat.eqb negb Z.ltb Z.compare Z.eqb Pos.eqb andb Z.add Pos.add];
  rewrite ?Z.shiftl_0_l, ?Z.lor_0_l.

Ltac in_alphabet := repeat first [apply Forall_nil_2 | apply Forall_cons_2; [tauto|]].

Lemma pack3 a b c r : is_byte a -> is_byte b -> is_byte c ->
  pack_loop 3 0 (a :: b :: c :: r) = (0%nat, packed3 a b c, r).
Proof.
  unfold is_byte, packed3. intros. cbn [pack_loop].
  rewrite (shl_or 32 0 a 8), (shl_or 32 _ b 8), (shl_or 32 _ c 8) by lia.
  repeat f_equal. lia.
Qed.

Lemma pack2 a b : is_byte a -> is_byte b ->
  pack_loop 3 0 [a; b] = (1%nat, a * 256 + b, []).
Proof.
  unfold is_byte. intros. cbn [pack_loop].
  rewrite (shl_or 32 0 a 8), (shl_or 32 _ b 8) by lia. repeat f_equal.
Qed.

Lemma pack1 a : is_byte a -> pack_loop 3 0 [a] = (2%nat, a, []).
Proof.
  unfold is_byte. intros. cbn [pack_loop]. by rewrite (shl_or 32 0 a 8) by lia.
Qed.

Lemma pad1 p : 0 <= p < 2 ^ 16 -> pad_loop 1 p = p * 256.
Proof.
  intros. cbn [pad_loop]. rewrite Z.shiftl_mul_pow2 by lia. apply wrap_small. unfold fits. lia.
Qed.

Lemma pad2 p : 0 <= p < 2 ^ 8 -> pad_loop 2 p = p * 256 * 256.
Proof.
  intros. change (pad_loop 2 p) with (pad_loop 1 (pad_loop 1 p)).
  by rewrite !pad1 by (rewrite ?pad1; lia).
Qed.

Lemma group_3 a b c : is_byte a -> is_byte b -> is_byte c -> exists q, group [a; b; c] q.
Proof.
  intros Ha Hb Hc. destruct (octets a b c Ha Hb Hc) as (Hp & Pa & Pb & Pc).
  set (p := packed3 a b c) in *. destruct (sextets p Hp) as (H0 & H1 & H2 & H3 & Hsum).
  sextet (p / 2 ^ 18) c0. sextet ((p / 2 ^ 12) mod 64) c1.
  sextet ((p / 2 ^ 6) mod 64) c2. sextet (p mod 64) c3.
  exists [c0; c1; c2; c3]. constructor.
  - done.
  - in_alphabet.
  - intros f ret r _. cbn [app encode_loop]. rewrite pack3 by done. fold p. cbn [pad_loop].
    rewrite !land_63, !shiftr_div by lia. rewrite Hat, Hat0. cbn [res_bind Z.eqb].
    rewrite Hat1. cbn [res_bind]. rewrite Hat2. cbn [res_bind app]. done.
  - intros f cap out r _ Hcap. change (zlen [a; b; c]) with 3 in Hcap. run_decode.
    rewrite !shl_or_int by lia. change (2 ^ 6) with 64. change (2 ^ 6) with 64 in Hsum.
    rewrite Hsum. rewrite !land_255, !shiftr_div, Pa, Pb, Pc by lia.
    put_all. by rewrite <- !app_assoc.
Qed.

Lemma group_2 a b : is_byte a -> is_byte b -> exists q, group [a; b] q.
Proof.
  intros Ha Hb. destruct (octets a b 0 Ha Hb) as (Hp & Pa & Pb & _); [unfold is_byte; lia|].
  set (p := packed3 a b 0) in *. destruct (sextets p Hp) as (H0 & H1 & H2 & H3 & Hsum).
  assert (p mod 64 = 0) as Hp0.
  { unfold p, packed3. rewrite Z.add_0_r. apply Z.mod_divide; [done|].
    exists (a * 1024 + b * 4). lia. }
  sextet (p / 2 ^ 18) c0. sextet ((p / 2 ^ 12) mod 64) c1. sextet ((p / 2 ^ 6) mod 64) c2.
  exists [c0; c1; c2; 61]. constructor.
  - done.
  - in_alphabet.
  - intros f ret r Hr. rewrite Hr by done. rewrite app_nil_r. cbn [encode_loop].
    rewrite pack2 by done. unfold is_byte in *. rewrite pad1 by lia.
    replace ((a * 256 + b) * 256) with p by (unfold p, packed3; lia).
    rewrite !land_63, !shiftr_div by lia. rewrite Hat, Hat0. cbn [res_bind Z.eqb].
    rewrite Hat1. cbn [res_bind app]. done.
  - intros f cap out r Hr Hcap. rewrite Hr by done. change (zlen [a; b]) with 2 in Hcap.
    run_decode. rewrite !shl_or_int by lia. rewrite Z.shiftl_mul_pow2 by lia.
    change (2 ^ 6) with 64. change (2 ^ 6) with 64 in Hsum. rewrite Hp0, Z.add_0_r in Hsum.
    rewrite Hsum. rewrite !land_255, !shiftr_div, Pa, Pb by lia.
    put_all. by rewrite <- !app_assoc.
Qed.

Lemma group_1 a : is_byte a -> exists q, group [a] q.
Proof.
  intros Ha. destruct (octets a 0 0 Ha) as (Hp & Pa & _ & _); [unfold is_byte; lia..|].
  set (p := packed3 a 0 0) in *. destruct (sextets p Hp) as (H0 & H1 & H2 & H3 & Hsum).
  assert (p mod 64 = 0 /\ (p / 2 ^ 6) mod 64 = 0) as [Hp0 Hp1].
  { unfold p, packed3. change (2 ^ 6) with 64. split; Z.to_euclidean_division_equations; lia. }
  sextet (p / 2 ^ 18) c0. sextet ((p / 2 ^ 12) mod 64) c1.
  exists [c0; c1; 61; 61]. constructor.
  - done.
  - in_alphabet.
  - intros f ret r Hr. rewrite Hr by done. rewrite app_nil_r. cbn [encode_loop].
    rewrite pack1 by done. unfold is_byte in *. rewrite pad2 by lia.
    replace (a * 256 * 256) with p by (unfold p, packed3; lia).
    rewrite !land_63, !shiftr_div by lia. rewrite Hat, Hat0. done.
  - intros f cap out r Hr Hcap. rewrite Hr by done. change (zlen [a]) with 1 in Hcap.
    run_decode. rewrite !shl_or_int by lia. rewrite !Z.shiftl_mul_pow2 by lia.
    change (2 ^ 6) with 64. change (2 ^ 6) with 64 in Hsum, Hp1.
    rewrite Hp0, Hp1, !Z.add_0_r in Hsum.
    rewrite Hsum. rewrite !land_255, !shiftr_div, Pa by lia. by put_all.
Qed.

(** ** Whole strings *)

(** What an encoding of [bs] is: the encoder appends it, the decoder undoes it. *)
Definition encodes (bs q : bytes) : Prop :=
  zlen q = 4 * ((zlen bs + 2) / 3) /\
  Forall (fun c => c ∈ base64 \/ c = 61) q /\
  (forall f ret, (length bs <= f)%nat -> encode_loop f ret bs = Ret (ret ++ q)) /\
  (forall f cap out, (length q <= f)%nat -> zlen out + zlen bs <= cap ->
     decode_loop f cap out q = Ret (out ++ bs)).

Lemma encodes_nil : encodes [] [].
Proof.
  repeat split; [constructor|..]; intros [] *; cbn [encode_loop decode_loop];
    rewrite app_nil_r; done.
Qed.

Lemma encodes_group g q r s :
  group g q -> 1 <= zlen g <= 3 -> (zlen g < 3 -> r = []) -> encodes r s ->
  encodes (g ++ r) (q ++ s).
Proof.
  intros [Hlen Hal Henc Hdec] Hg Hr (Hs & Hals & Hencs & Hdecs).
  assert (zlen g < 3 -> s = []) as Hrs.
  { intros Hlt. apply zlen_zero. rewrite Hs, (Hr Hlt). done. }
  unfold zlen in Hg, Hlen. repeat split.
  - zlist. rewrite Hs. unfold zlen at 1. rewrite Hlen.
    destruct (Z.eq_dec (zlen g) 3) as [->|Hne].
    + replace (3 + zlen r + 2) with (zlen r + 2 + 1 * 3) by lia. rewrite Z.div_add; lia.
    + rewrite Hr by (unfold zlen in *; lia). zlen_nil. unfold zlen in *.
      rewrite Z.div_small by lia. replace (Z.of_nat (length g) + 0 + 2) with
        (Z.of_nat (length g) - 1 + 1 * 3) by lia. rewrite Z.div_add, Z.div_small by lia. lia.
  - by apply Forall_app.
  - intros [|f] ret Hf; rewrite length_app in Hf; [lia|].
    rewrite Henc by done. rewrite Hencs by lia. by rewrite app_assoc.
  - intros [|f] cap out Hf Hcap; rewrite length_app in Hf; [lia|].
    rewrite zlen_app in Hcap. pose proof (zlen_nonneg r).
    rewrite Hdec by (done || lia). rewrite Hdecs; [by rewrite app_assoc|lia|zlist; lia].
Qed.

Lemma encodes_ex bs : Forall is_byte bs -> exists q, encodes bs q.
Proof.
  remember (length bs) as n eqn:Hn. revert bs Hn.
  induction n as [n IH] using lt_wf_ind. intros bs Hn Hb.
  destruct bs as [|a [|b [|c r]]]; [exists []; apply encodes_nil|..];
    rewrite !Forall_cons in Hb.
  - destruct (group_1 a) as [q Hq]; [tauto|]. exists (q ++ []).
    apply (encodes_group [a] q [] []); [done|done|done|apply encodes_nil].
  - destruct (group_2 a b) as [q Hq]; [tauto..|]. exists (q ++ []).
    apply (encodes_group [a; b] q [] []); [done|done|done|apply encodes_nil].
  - destruct (group_3 a b c) as [q Hq]; [tauto..|].
    destruct (IH (length r)) with (bs := r) as [s Hs]; [simpl in Hn; lia|done|tauto|].
    exists (q ++ s). apply (encodes_group [a; b; c] q r s); [done|done|done|done].
Qed.

(** C32: Base64 is a round trip: every byte string is encoded without running off the
    table, to [4 * ceil (n / 3)] characters of the alphabet or the padding character,
    and decoding the encoding gives the bytes back (without overrunning the buffer
    sized [3/4] of the input). *)
Theorem base64_roundtrip (bs : bytes) :
  Forall is_byte bs -> zlen bs < 2 ^ 62 ->
  exists q, Base64Encode bs = Ret q /\ Base64Decode q = Ret bs /\
    zlen q = 4 * ((zlen bs + 2) / 3) /\ Forall (fun c => c ∈ base64 \/ c = 61) q.
Proof.
  intros Hb Hlen. destruct (encodes_ex bs Hb) as (q & Hq & Hal & Henc & Hdec).
  exists q. split; [|split]; [by apply Henc| |done].
  unfold Base64Decode. rewrite Hdec; [done|done|].
  pose proof (zlen_nonneg bs). change (zlen []) with 0. rewrite wrap_small.
  - rewrite Hq. Z.to_euclidean_division_equations; lia.
  - unfold fits. rewrite Hq. change (2 ^ 62) with 4611686018427387904 in Hlen.
    change (2 ^ 64) with 18446744073709551616. Z.to_euclidean_division_equations; lia.
Qed.

Lemma base64_roundtrip_witness :
  exists q, Base64Encode (str "tiger!!") = Ret q /\ Base64Decode q = Ret (str "tiger!!") /\
    zlen q = 12 /\ Forall (fun c => c ∈ base64 \/ c = 61) q.
Proof.
  apply base64_roundtrip; [|done]. repeat (constructor; [by vm_compute|]). constructor.
Defined.

(** ** Malformed input *)

Definition good (c : Z) : Prop := c = 61 \/ decode_char c <> None.

Lemma unpack_loop_consumes n p k ptr m p' k' ptr' :
  unpack_loop n p k ptr = Some (m, p', k', ptr') ->
  exists pre, ptr = pre ++ ptr' /\ zlen pre = Z.of_nat (n - m) /\ (m <= n)%nat /\ Forall good pre.
Proof.
  revert p k ptr. induction n as [|n IH]; intros p k ptr Heq; cbn [unpack_loop] in Heq.
  { injection Heq as <- <- <- <-. exists []. repeat split; [lia|constructor]. }
  destruct ptr as [|c ptr].
  { injection Heq as <- <- <- <-. exists []. rewrite Nat.sub_diag. repeat split; [lia|constructor]. }
  assert (good c /\ exists p k, unpack_loop n p k ptr = Some (m, p', k', ptr')) as (Hc & ? & ? & Hu).
  { unfold good. destruct (Z.eqb_spec c 61) as [->|]; [eauto|].
    destruct (0 <? p); [done|]. destruct (decode_char c); [|done]. split; [by right|eauto]. }
  apply IH in Hu as (pre & -> & Hlen & Hm & Hall). exists (c :: pre). rewrite zlen_cons.
  repeat split; [lia|lia|by constructor].
Qed.

Lemma decode_loop_safe f cap out ptr :
  (length ptr <= f)%nat -> 4 * zlen out + 3 * zlen ptr <= 4 * cap + 3 -> zlen out <= cap ->
  exists out', decode_loop f cap out ptr = Ret out' /\ zlen out' <= cap.
Proof.
  revert out ptr. induction f as [|f IH]; intros out ptr Hf Hcap Hout;
    (destruct ptr as [|c ptr]; [by exists out|]); [simpl in Hf; lia|].
  pose proof (zlen_nonneg out).
  assert (exists out', Ret [] = Ret out' /\ zlen out' <= cap) as Hnil
    by (exists (@nil Z); split; [done|zlen_nil; lia]).
  cbn [decode_loop]. remember (c :: ptr) as src eqn:Hsrc. clear Hsrc.
  destruct (unpack_loop 4 0 0 src) as [[[[m p] k] ptr']|] eqn:Hu; [|done].
  apply unpack_loop_consumes in Hu as (pre & -> & Hlen & Hm & _).
  destruct (Nat.eqb_spec m 0) as [->|]; cbn [negb]; [|done].
  destruct ((0 <? p) && _); [done|]. destruct (2 <? p); [done|]. pose proof (zlen_nonneg ptr').
  rewrite zlen_app in Hcap. rewrite length_app in Hf.
  assert (length pre = 4%nat) by (unfold zlen in Hlen; lia). rewrite Hlen in Hcap. put_all.
  destruct (p =? 2) eqn:E2; cbn [res_bind]; put_all;
    (destruct (p =? 0) eqn:E0; cbn [res_bind]; put_all; (apply IH; [lia|zlist; lia|zlist; lia])).
Qed.

(** Only a well-formed input decodes to something. *)
Lemma decode_loop_good f cap out ptr out' :
  decode_loop f cap out ptr = Ret out' -> out' = [] \/ (Forall good ptr /\ zlen ptr mod 4 = 0).
Proof.
  revert out ptr. induction f as [|f IH]; intros out ptr Heq;
    (destruct ptr as [|c ptr]; [right; by split; [constructor|]|]); [done|].
  cbn [decode_loop] in Heq. remember (c :: ptr) as src eqn:Hsrc. clear Hsrc c ptr.
  destruct (unpack_loop 4 0 0 src) as [[[[m p] k] ptr]|] eqn:Hu; [|left; by injection Heq].
  apply unpack_loop_consumes in Hu as (pre & -> & Hlen & Hm & Hpre).
  destruct (Nat.eqb_spec m 0) as [->|]; cbn [negb] in Heq; [|left; by injection Heq].
  destruct ((0 <? p) && _); [left; by injection Heq|].
  destruct (2 <? p); [left; by injection Heq|].
  assert (exists out, decode_loop f cap out ptr = Ret out') as [out2 Hrec].
  { destruct (put cap out _) as [o| |]; cbn [res_bind] in Heq; [|done..].
    destruct (if p =? 2 then _ else _) as [o2| |]; cbn [res_bind] in Heq; [|done..].
    destruct (if p =? 0 then _ else _) as [o3| |]; cbn [res_bind] in Heq; [|done..]. eauto. }
  apply IH in Hrec as [->|[Hall Hmod]]; [by left|]. right. split; [by apply Forall_app|].
  rewrite zlen_app, Hlen. change (Z.of_nat (4 - 0)) with 4.
  rewrite Z.add_comm. replace (zlen ptr + 4) with (zlen ptr + 1 * 4) by lia.
  by rewrite Z.mod_add by lia.
Qed.

(** [Base64Decode] is memory safe on every input: it terminates, never writes past
    the result buffer sized from the input, and returns at most [3/4] of the input's
    length; an input with a foreign character or whose length is not a multiple of four
    gives the empty string. *)
Theorem base64_decode_safe (src : bytes) :
  zlen src < 2 ^ 62 ->
  exists out, Base64Decode src = Ret out /\ 4 * zlen out <= 3 * zlen src /\
    (zlen src mod 4 <> 0 -> out = []) /\
    (forall c, c ∈ src -> decode_char c = None -> c <> 61 -> out = []).
Proof.
  intros Hlen. pose proof (zlen_nonneg src).
  assert (wrap 64 (zlen src * 3) = zlen src * 3) as Hw by (apply wrap_small; unfold fits; lia).
  destruct (decode_loop_safe (length src) (zlen src * 3 / 4) [] src) as (out & Hout & Hcap);
    [done|zlen_nil; Z.to_euclidean_division_equations; lia
    |zlen_nil; Z.to_euclidean_division_equations; lia|].
  exists out. unfold Base64Decode. rewrite Hw. split; [done|].
  split; [Z.to_euclidean_division_equations; lia|].
  apply decode_loop_good in Hout as [->|[Hall Hmod]]; [done|]. split; [done|].
  intros c Hc Hnone Hne. rewrite Forall_forall in Hall. by destruct (Hall c Hc).
Qed.

Lemma base64_decode_safe_witness :
  exists out, Base64Decode (str "dGln*XI=") = Ret out /\ 4 * zlen out <= 3 * 8 /\
    (8 mod 4 <> 0 -> out = []) /\
    (forall c, c ∈ str "dGln*XI=" -> decode_char c = None -> c <> 61 -> out = []).
Proof. apply (base64_decode_safe (str "dGln*XI=")). done. Defined.

(** ** Digests *)

Lemma hex_digit_inj a b : 0 <= a < 16 -> 0 <= b < 16 -> hex_digit a = hex_digit b -> a = b.
Proof. unfold hex_digit. intros. destruct (Z.ltb_spec a 10), (Z.ltb_spec b 10); lia. Qed.

Lemma hex_byte_inj a b : is_byte a -> is_byte b -> hex_byte a = hex_byte b -> a = b.
Proof.
  unfold is_byte, hex_byte. intros Ha Hb [= H1 H2].
  apply hex_digit_inj in H1; [|Z.to_euclidean_division_equations; lia..].
  apply hex_digit_inj in H2; [|Z.to_euclidean_division_equations; lia..].
  Z.to_euclidean_division_equations; lia.
Qed.

Lemma hex_stream_inj a b :
  Forall is_byte a -> Forall is_byte b -> hex_stream a = hex_stream b -> a = b.
Proof.
  revert b. induction a as [|x a IH]; intros [|y b] Ha Hb Heq; try done.
  apply Forall_cons in Ha as [Hx Ha], Hb as [Hy Hb]. cbn [hex_stream] in Heq.
  apply app_inj_1 in Heq as [Hxy Hab]; [|reflexivity]. f_equal; [by apply hex_byte_inj|by apply IH].
Qed.

Lemma zlen_hex_stream md : zlen (hex_stream md) = 2 * zlen md.
Proof. induction md as [|c md IH]; [done|]. cbn [hex_stream]. zlist. rewrite IH. unfold hex_byte. zlist. lia. Qed.

(** A digest of the right length fills the vector. *)
Lemma splice_full {A} (b l : list A) : zlen b = zlen l -> splice 0 b l = b.
Proof. intros H. unfold splice. rewrite zdrop_all by lia. by rewrite ztake_0, app_nil_r. Qed.

(** a rendered digest has two characters per byte of the digest, and two messages
    have the same rendering exactly when OpenSSL gives them the same digest. *)
Theorem message_digest_faithful (evp : bytes -> bytes) (n : Z) (s t : bytes) :
  (forall m, Forall is_byte (evp m) /\ zlen (evp m) = n) ->
  exists hs ht, message_digest s evp n = Ret hs /\ message_digest t evp n = Ret ht /\
    zlen hs = 2 * n /\ (hs = ht <-> evp s = evp t).
Proof.
  intros Hevp. assert (0 <= n) as Hn by (destruct (Hevp s) as [_ <-]; apply zlen_nonneg).
  assert (forall m, message_digest m evp n = Ret (hex_stream (evp m))) as Hm.
  { intros m. destruct (Hevp m) as [_ Hl]. unfold message_digest.
    rewrite zlen_zrepeat, Hl, Z.ltb_irrefl by done.
    by rewrite splice_full by (rewrite zlen_zrepeat; lia). }
  exists (hex_stream (evp s)), (hex_stream (evp t)). rewrite !Hm, zlen_hex_stream.
  destruct (Hevp s) as [Hs ->], (Hevp t) as [Ht _].
  repeat split; [by apply hex_stream_inj|by intros ->].
Qed.

Lemma message_digest_faithful_witness :
  exists hs ht, message_digest (str "a") (fun m => [zlen m mod 256]) 1 = Ret hs /\
    message_digest (str "bb") (fun m => [zlen m mod 256]) 1 = Ret ht /\
    zlen hs = 2 * 1 /\ (hs = ht <-> [1] = [2]).
Proof.
  apply (message_digest_faithful (fun m => [zlen m mod 256]) 1 (str "a") (str "bb")).
  intros m. split; [|done]. repeat constructor; apply Z.mod_pos_bound; lia.
Defined.

Lemma c_str_app pre tail : Forall (fun c => c <> 0) pre -> c_str (pre ++ 0 :: tail) = Ret pre.
Proof.
  induction 1 as [|c pre Hc _ IH]; [done|]. cbn [app c_str].
  destruct (Z.eqb_spec c 0); [done|]. by rewrite IH.
Qed.

(** [SHA1] returns the C string at the start of an uninitialised buffer: the digest
    is cut at its first zero byte. *)
Theorem sha1_truncates (sha1 : bytes -> bytes) (out s pre post : bytes) :
  sha1 s = pre ++ 0 :: post -> Forall (fun c => c <> 0) pre -> SHA1 sha1 out s = Ret pre.
Proof.
  intros Hs Hpre. unfold SHA1, splice. rewrite ztake_0, Hs, app_nil_l, <- app_assoc.
  by apply c_str_app.
Qed.

Lemma sha1_truncates_witness :
  SHA1 (fun _ => [7; 0; 9]) (zrepeat 1024 170) (str "key") = Ret [7].
Proof.
  apply (sha1_truncates (fun _ => [7; 0; 9]) (zrepeat 1024 170) (str "key") [7] [9]); [done|].
  by repeat constructor.
Defined.
