(* ===== verification/Util.v ===== *)
(** * String utilities ([util.cc])

    Percent-encoding, trimming, name validation and random strings, with the lookup
    tables of the source.  A character is its unsigned value. *)

From stdpp Require Import base list numbers strings.
From Stdlib Require Import Lia ZArith.
From S2P Require Import Prelude.

(** ** Searching, as [std::string] does it ([None] is [npos]) *)

Definition mem (c : Z) (chars : bytes) : bool := existsb (Z.eqb c) chars.

Fixpoint find_first_not_of (s chars : bytes) : option Z :=
  match s with
  | [] => None
  | c :: s' =>
      if mem c chars then Z.succ <$> find_first_not_of s' chars else Some 0
  end.

Fixpoint find_last_not_of (s chars : bytes) : option Z :=
  match s with
  | [] => None
  | c :: s' =>
      match find_last_not_of s' chars with
      | Some i => Some (Z.succ i)
      | None => if mem c chars then None else Some 0
      end
  end.

Definition name_chars : bytes :=
  str "abcdefghijklmnopqrstuvwxyzABCDEFGHIJKLMNOPQRSTUVWXYZ_0123456789.".

Definition IsValidName (name : bytes) : bool :=
  match find_first_not_of name name_chars with
  | None => true
  | Some _ => false
  end.

(** [Random]: the results of the calls of [rand()], in order, are an argument. *)
Fixpoint random_loop (n : nat) (chars : bytes) (rand : nat -> Z) (i : nat) : res bytes :=
  match n with
  | O => Ret []
  | S n' =>
      match chars !! Z.to_nat (rand i mod zlen chars) with
      | None => Undef BufferOverflow
      | Some c => let? r := random_loop n' chars rand (S i) in Ret (c :: r)
      end
  end.

Definition Random (len : Z) (chars : bytes) (rand : nat -> Z) : res bytes :=
  if (len =? 0) || (zlen chars =? 0) then Ret []
  else random_loop (Z.to_nat len) chars rand 0.

(** ** Percent-encoding *)

Definition uri_chars_0 : bytes :=
  [0; 0; 0; 0; 0; 0; 0; 0; 0; 0; 0; 0; 0; 0; 0; 0;
   0; 0; 0; 0; 0; 0; 0; 0; 0; 0; 0; 0; 0; 0; 0; 0;
   0; 0; 0; 0; 0; 0; 0; 0; 0; 0; 0; 0; 0; 1; 1; 0;
   1; 1; 1; 1; 1; 1; 1; 1; 1; 1; 0; 0; 0; 1; 0; 0].
Definition uri_chars_64 : bytes :=
  [0; 1; 1; 1; 1; 1; 1; 1; 1; 1; 1; 1; 1; 1; 1; 1;
   1; 1; 1; 1; 1; 1; 1; 1; 1; 1; 1; 0; 0; 0; 0; 1;
   0; 1; 1; 1; 1; 1; 1; 1; 1; 1; 1; 1; 1; 1; 1; 1;
   1; 1; 1; 1; 1; 1; 1; 1; 1; 1; 1; 0; 0; 0; 1; 0].
Definition uri_chars_128 : bytes :=
  [0; 0; 0; 0; 0; 0; 0; 0; 0; 0; 0; 0; 0; 0; 0; 0;
   0; 0; 0; 0; 0; 0; 0; 0; 0; 0; 0; 0; 0; 0; 0; 0;
   0; 0; 0; 0; 0; 0; 0; 0; 0; 0; 0; 0; 0; 0; 0; 0;
   0; 0; 0; 0; 0; 0; 0; 0; 0; 0; 0; 0; 0; 0; 0; 0].
Definition uri_chars_192 : bytes :=
  [0; 0; 0; 0; 0; 0; 0; 0; 0; 0; 0; 0; 0; 0; 0; 0;
   0; 0; 0; 0; 0; 0; 0; 0; 0; 0; 0; 0; 0; 0; 0; 0;
   0; 0; 0; 0; 0; 0; 0; 0; 0; 0; 0; 0; 0; 0; 0; 0;
   0; 0; 0; 0; 0; 0; 0; 0; 0; 0; 0; 0; 0; 0; 0; 0].
Definition uri_chars : bytes :=
  uri_chars_0 ++ uri_chars_64 ++ uri_chars_128 ++ uri_chars_192.

Definition xdigit_chars : bytes :=
  [0; 0; 0; 0; 0; 0; 0; 0; 0; 0; 0; 0; 0; 0; 0; 0; 0; 0; 0; 0; 0; 0; 0; 0; 0; 0; 0; 0; 0; 0; 0; 0;
   0; 0; 0; 0; 0; 0; 0; 0; 0; 0; 0; 0; 0; 0; 0; 0; 0; 1; 2; 3; 4; 5; 6; 7; 8; 9; 0; 0; 0; 0; 0; 0;
   0; 10; 11; 12; 13; 14; 15; 0; 0; 0; 0; 0; 0; 0; 0; 0; 0; 0; 0; 0; 0; 0; 0; 0; 0; 0; 0; 0; 0; 0; 0; 0;
   0; 10; 11; 12; 13; 14; 15; 0; 0; 0; 0; 0; 0; 0; 0; 0; 0; 0; 0; 0; 0; 0; 0; 0; 0; 0; 0; 0; 0; 0; 0; 0;
   0; 0; 0; 0; 0; 0; 0; 0; 0; 0; 0; 0; 0; 0; 0; 0; 0; 0; 0; 0; 0; 0; 0; 0; 0; 0; 0; 0; 0; 0; 0; 0;
   0; 0; 0; 0; 0; 0; 0; 0; 0; 0; 0; 0; 0; 0; 0; 0; 0; 0; 0; 0; 0; 0; 0; 0; 0; 0; 0; 0; 0; 0; 0; 0;
   0; 0; 0; 0; 0; 0; 0; 0; 0; 0; 0; 0; 0; 0; 0; 0; 0; 0; 0; 0; 0; 0; 0; 0; 0; 0; 0; 0; 0; 0; 0; 0;
   0; 0; 0; 0; 0; 0; 0; 0; 0; 0; 0; 0; 0; 0; 0; 0; 0; 0; 0; 0; 0; 0; 0; 0; 0; 0; 0; 0; 0; 0; 0; 0].

Definition char_is_unreserved (c : Z) : bool :=
  negb (nth (Z.to_nat c) uri_chars 0 =? 0).

Definition hexdigits : bytes := str "0123456789ABCDEF".

(** What [UrlEncode] appends for a character that is not unreserved. *)
Definition url_escape (space_as_plus : bool) (c : Z) : bytes :=
  if (c =? 32) && space_as_plus then [43]
  else [37; nth (Z.to_nat (Z.shiftr c 4)) hexdigits 0;
        nth (Z.to_nat (Z.land c 15)) hexdigits 0].

(** [ss] is null until the first character that has to be rewritten; then it starts as
    a copy of the characters before it. *)
Fixpoint url_encode_loop (space_as_plus : bool) (s : bytes) (i : Z) (ss : option bytes)
    (rest : bytes) : option bytes :=
  match rest with
  | [] => ss
  | c :: rest' =>
      let ss' :=
        if negb (char_is_unreserved c)
        then Some (default (ztake i s) ss ++ url_escape space_as_plus c)
        else (fun b => b ++ [c]) <$> ss in
      url_encode_loop space_as_plus s (i + 1) ss' rest'
  end.

Definition UrlEncode (s : bytes) (space_as_plus : bool) : bytes :=
  match url_encode_loop space_as_plus s 0 None s with
  | None => s
  | Some ss => ss
  end.

Definition isdigit (c : Z) : bool := (48 <=? c) && (c <=? 57).
Definition isxdigit (c : Z) : bool :=
  isdigit c || ((65 <=? c) && (c <=? 70)) || ((97 <=? c) && (c <=? 102)).

Definition xdigit (c : Z) : Z := nth (Z.to_nat c) xdigit_chars 0.

Fixpoint url_decode_loop (space_as_plus : bool) (s : bytes) (i : Z) (ss : option bytes)
    (rest : bytes) : option bytes :=
  match rest with
  | [] => ss
  | c :: rest' =>
      let plain :=
        url_decode_loop space_as_plus s (i + 1) ((fun b => b ++ [c]) <$> ss) rest' in
      if (c =? 43) && space_as_plus then
        url_decode_loop space_as_plus s (i + 1) (Some (default (ztake i s) ss ++ [32])) rest'
      else if c =? 37 then
        match rest' with
        | c1 :: c2 :: rest'' =>
            if isxdigit c1 && isdigit c2 then
              url_decode_loop space_as_plus s (i + 3)
                (Some (default (ztake i s) ss ++ [Z.lor (Z.shiftl (xdigit c1) 4) (xdigit c2)]))
                rest''
            else plain
        | _ => plain
        end
      else plain
  end.

Definition UrlDecode (s : bytes) (space_as_plus : bool) : bytes :=
  match url_decode_loop space_as_plus s 0 None s with
  | None => s
  | Some ss => ss
  end.

(** ** Trimming *)

Definition Trim (s delimit : bytes) : bytes :=
  match find_first_not_of s delimit with
  | None => []
  | Some begin =>
      match find_last_not_of s delimit with
      | None => zdrop begin s
      | Some last => slice begin (last - begin + 1) s
      end
  end.

Definition TrimLeft (s delimit : bytes) : bytes :=
  match find_first_not_of s delimit with
  | None => []
  | Some begin => zdrop begin s
  end.

Definition TrimRight (s delimit : bytes) : bytes :=
  match find_last_not_of s delimit with
  | None => []
  | Some last => ztake last s
  end.
