(* ===== verification/UtilProps.v ===== *)
(** * String utilities: the theorems

    The coders, which copy lazily, agree with character-wise coders that make the same
    decisions for each character: the same escapes, and the same test of the two characters
    behind a percent sign, the second of which must be a decimal digit.  Encoding followed by
    decoding is therefore the identity exactly on the strings whose escapes end in a decimal
    digit.  Trimming removes what it should on the left. *)

From stdpp Require Import base list numbers strings.
From Stdlib Require Import Lia ZArith.
From S2P Require Import Prelude Util.

(** ** Reference definitions of the coders *)

Definition enc1 (p : bool) (c : Z) : bytes :=
  if char_is_unreserved c then [c] else url_escape p c.

Definition url_encode_spec (p : bool) (s : bytes) : bytes := flat_map (enc1 p) s.

(** Decoding without the deferred copy, with the code's test of the second digit. *)
Fixpoint url_decode_spec (p : bool) (s : bytes) : bytes :=
  match s with
  | [] => []
  | c :: s' =>
      if (c =? 43) && p then 32 :: url_decode_spec p s'
      else if c =? 37 then
        match s' with
        | c1 :: c2 :: s'' =>
            if isxdigit c1 && isdigit c2
            then Z.lor (Z.shiftl (xdigit c1) 4) (xdigit c2) :: url_decode_spec p s''
            else c :: url_decode_spec p s'
        | _ => c :: url_decode_spec p s'
        end
      else c :: url_decode_spec p s'
  end.

Lemma zlen_snoc {A} (l : list A) a : zlen (l ++ [a]) = zlen l + 1.
Proof. by zlist. Qed.

Lemma ztake_zlen_app {A} (l k : list A) : ztake (zlen l) (l ++ k) = l.
Proof. rewrite ztake_app_l by lia. by apply ztake_all. Qed.

Lemma default_snoc (pre : bytes) ss c :
  default (pre ++ [c]) ((fun b => b ++ [c]) <$> ss) = default pre ss ++ [c].
Proof. by destruct ss. Qed.

Lemma url_encode_loop_ok p pre ss rest :
  default (pre ++ rest) (url_encode_loop p (pre ++ rest) (zlen pre) ss rest) =
  default pre ss ++ url_encode_spec p rest.
Proof.
  revert pre ss. induction rest as [|c rest IH]; intros pre ss.
  { cbn. rewrite !app_nil_r. by destruct ss. }
  cbn [url_encode_loop]. rewrite <- zlen_snoc with (a := c).
  rewrite (cons_middle c pre rest), app_assoc. rewrite IH. cbn [url_encode_spec flat_map].
  rewrite app_assoc. f_equal. unfold enc1. destruct (char_is_unreserved c); cbn [negb].
  - apply default_snoc.
  - cbn [from_option id]. by rewrite <- app_assoc, ztake_zlen_app.
Qed.

Lemma url_encode_ok s p : UrlEncode s p = url_encode_spec p s.
Proof. apply (url_encode_loop_ok p [] None s). Qed.

Lemma url_decode_loop_ok p n pre ss rest :
  (length rest <= n)%nat ->
  default (pre ++ rest) (url_decode_loop p (pre ++ rest) (zlen pre) ss rest) =
  default pre ss ++ url_decode_spec p rest.
Proof.
  revert pre ss rest. induction n as [|n IH]; intros pre ss [|c rest] Hn;
    try (cbn; rewrite !app_nil_r; by destruct ss); [simpl in Hn; lia|].
  assert (forall ss', default (pre ++ c :: rest)
      (url_decode_loop p (pre ++ c :: rest) (zlen pre + 1) ss' rest) =
      default (pre ++ [c]) ss' ++ url_decode_spec p rest) as Hnext.
  { intros ss'. rewrite <- zlen_snoc with (a := c), (cons_middle c pre rest), app_assoc.
    apply IH. simpl in Hn. lia. }
  assert (default (pre ++ c :: rest) (url_decode_loop p (pre ++ c :: rest) (zlen pre + 1)
      ((fun b => b ++ [c]) <$> ss) rest) = default pre ss ++ c :: url_decode_spec p rest) as Hplain.
  { by rewrite Hnext, default_snoc, <- app_assoc. }
  assert (forall x, default (ztake (zlen pre) (pre ++ c :: rest)) ss ++ [x] =
    default pre ss ++ [x]) as Hcopy by (intros; by rewrite ztake_zlen_app).
  cbn [url_decode_loop url_decode_spec]. rewrite Hcopy.
  destruct ((c =? 43) && p); [rewrite Hnext; cbn [from_option id]; by rewrite <- app_assoc|].
  destruct (c =? 37); [|done]. destruct rest as [|c1 [|c2 rest]]; [done|done|].
  destruct (isxdigit c1 && isdigit c2); [|done]. rewrite Hcopy.
  replace (zlen pre + 3) with (zlen (pre ++ [c; c1; c2])) by (by zlist).
  replace (pre ++ c :: c1 :: c2 :: rest) with ((pre ++ [c; c1; c2]) ++ rest)
    by (by rewrite <- app_assoc).
  rewrite IH by (simpl in Hn; lia). cbn [from_option id]. by rewrite <- app_assoc.
Qed.

Lemma url_decode_ok s p : UrlDecode s p = url_decode_spec p s.
Proof. by apply (url_decode_loop_ok p (length s) [] None s). Qed.

(** C38: [UrlEncode] and [UrlDecode] copy the input only from the first character that
    has to be rewritten on, yet compute the character-wise coders on every string. *)
Theorem url_coders_equiv (s : bytes) (space_as_plus : bool) :
  UrlEncode s space_as_plus = url_encode_spec space_as_plus s /\
  UrlDecode s space_as_plus = url_decode_spec space_as_plus s.
Proof. split; [apply url_encode_ok|apply url_decode_ok]. Qed.

(** ** Encoding then decoding *)

(** The escapes the decoder understands: the second digit is decimal. *)
Definition decodable (p : bool) (c : Z) : bool :=
  char_is_unreserved c || ((c =? 32) && p) || (c mod 16 <? 10).

(** The facts on one character, checked for every byte. *)
Definition byte_facts (p : bool) (c : Z) : bool :=
  if char_is_unreserved c then negb (c =? 37) && negb (c =? 43)
  else
    match url_escape p c with
    | [x] => (x =? 43) && (c =? 32) && p
    | [x; h; l] =>
        (x =? 37) && isxdigit h && Bool.eqb (isdigit l) (c mod 16 <? 10) &&
        negb (h =? 37) && negb (h =? 43) && negb (l =? 37) && negb (l =? 43) &&
        negb ((c =? 32) && p) && (Z.lor (Z.shiftl (xdigit h) 4) (xdigit l) =? c)
    | _ => false
    end.

Lemma byte_facts_ok p c : is_byte c -> byte_facts p c = true.
Proof.
  intros Hc. assert (forallb (byte_facts p) (seqZ 0 256) = true) as Hall
    by (destruct p; vm_compute; reflexivity).
  rewrite forallb_forall in Hall. apply Hall, list_elem_of_In, elem_of_seqZ.
  unfold is_byte in Hc. lia.
Qed.

Lemma decode_plain p c s :
  (c =? 37) = false -> (c =? 43) = false -> url_decode_spec p (c :: s) = c :: url_decode_spec p s.
Proof. intros H1 H2. cbn [url_decode_spec]. by rewrite H1, H2. Qed.

Lemma decode_pct p h l s :
  url_decode_spec p (37 :: h :: l :: s) =
  if isxdigit h && isdigit l
  then Z.lor (Z.shiftl (xdigit h) 4) (xdigit l) :: url_decode_spec p s
  else 37 :: url_decode_spec p (h :: l :: s).
Proof. done. Qed.

Lemma decode_enc1 p c s : is_byte c ->
  url_decode_spec p (enc1 p c ++ s) =
  (if decodable p c then [c] else enc1 p c) ++ url_decode_spec p s.
Proof.
  intros Hc. pose proof (byte_facts_ok p c Hc) as Hf. unfold byte_facts, decodable, enc1 in *.
  destruct (char_is_unreserved c).
  { rewrite andb_true_iff, !negb_true_iff in Hf. destruct Hf. by apply decode_plain. }
  destruct (url_escape p c) as [|x [|h [|l [|]]]]; try done.
  - rewrite !andb_true_iff, !Z.eqb_eq in Hf. destruct Hf as [[-> ->] ->]. done.
  - rewrite !andb_true_iff, !negb_true_iff, !Z.eqb_eq, Bool.eqb_true_iff in Hf.
    destruct Hf as [[[[[[[[-> Hh] Hl] ?] ?] ?] ?] ->] Hv]. cbn [orb app].
    rewrite decode_pct, Hh, Hl. cbn [andb]. destruct (c mod 16 <? 10); [by rewrite Hv|].
    by rewrite !decode_plain.
Qed.

Lemma decode_encode p s : Forall is_byte s ->
  url_decode_spec p (url_encode_spec p s) =
  flat_map (fun c => if decodable p c then [c] else enc1 p c) s.
Proof.
  induction 1 as [|c s Hc _ IH]; [done|]. cbn [url_encode_spec flat_map].
  rewrite decode_enc1 by done. by rewrite <- IH.
Qed.

Lemma enc1_long p c : decodable p c = false -> length (enc1 p c) = 3%nat.
Proof.
  unfold decodable, enc1, url_escape. intros H. apply orb_false_iff in H as [H _].
  apply orb_false_iff in H as [-> ->]. done.
Qed.

(** decoding undoes encoding exactly on the strings all of whose escaped characters
    have a low nibble below ten: [UrlDecode] asks for a decimal second digit, so the
    escapes [%xA] to [%xF] that [UrlEncode] writes stay in the string. *)
Theorem url_roundtrip_iff (s : bytes) (space_as_plus : bool) :
  Forall is_byte s ->
  (UrlDecode (UrlEncode s space_as_plus) space_as_plus = s <->
   forallb (decodable space_as_plus) s = true).
Proof.
  intros Hs. rewrite url_decode_ok, url_encode_ok, decode_encode by done. clear Hs. split.
  - intros Heq. apply (f_equal length) in Heq.
    assert (forall l, (length l <= length (flat_map (fun c =>
      if decodable space_as_plus c then [c] else enc1 space_as_plus c) l))%nat) as Hge.
    { induction l as [|c l IH]; [done|]. cbn [flat_map]. rewrite length_app. simpl.
      destruct (decodable space_as_plus c) eqn:Hd; [simpl; lia|]. rewrite enc1_long by done. lia. }
    induction s as [|c s IH]; [done|]. cbn [flat_map forallb] in *. rewrite length_app in Heq.
    specialize (Hge s). destruct (decodable space_as_plus c) eqn:Hd; simpl in Heq |- *;
      [apply IH; lia|]. rewrite enc1_long in Heq by done. lia.
  - induction s as [|c s IH]; [done|]. cbn [flat_map forallb]. rewrite andb_true_iff.
    intros [-> Hd]. by rewrite IH.
Qed.

Lemma url_roundtrip_iff_witness :
  (UrlDecode (UrlEncode (str "a b?c=1") true) true = str "a b?c=1" <->
   forallb (decodable true) (str "a b?c=1") = true) /\
  forallb (decodable true) (str "a b!c=1") = true.
Proof.
  split; [|reflexivity]. apply url_roundtrip_iff.
  repeat (constructor; [by vm_compute|]). constructor.
Defined.

(** ** Trimming *)

Definition all_in (chars s : bytes) : Prop := Forall (fun c => mem c chars = true) s.

Lemma find_first_spec s d :
  match find_first_not_of s d with
  | None => all_in d s
  | Some i => exists l c r, s = l ++ c :: r /\ zlen l = i /\ all_in d l /\ mem c d = false
  end.
Proof.
  induction s as [|c s IH]; cbn [find_first_not_of]; [constructor|].
  destruct (mem c d) eqn:Hc; [|exists [], c, s; split_and!; [done|done|apply Forall_nil_2|done]].
  destruct (find_first_not_of s d) as [i|]; cbn; [|by constructor].
  destruct IH as (l & c' & r & -> & <- & Hl & Hc'). exists (c :: l), c', r.
  rewrite zlen_cons. split_and!; [done|lia|by constructor|done].
Qed.

Lemma find_last_spec s d :
  match find_last_not_of s d with
  | None => all_in d s
  | Some i => exists l c r, s = l ++ c :: r /\ zlen l = i /\ all_in d r /\ mem c d = false
  end.
Proof.
  induction s as [|c s IH]; cbn [find_last_not_of]; [constructor|].
  destruct (find_last_not_of s d) as [i|].
  - destruct IH as (l & c' & r & -> & <- & Hr & Hc'). exists (c :: l), c', r.
    rewrite zlen_cons. split_and!; [done|lia|done|done].
  - destruct (mem c d) eqn:Hc; [by constructor|]. by exists [], c, s.
Qed.

(** What trimming means: [t] is [s] without delimiters at both ends. *)
Definition trimmed (d s t : bytes) : Prop :=
  exists l r, s = l ++ t ++ r /\ all_in d l /\ all_in d r /\
    match head t, last t with
    | Some a, Some b => mem a d = false /\ mem b d = false
    | _, _ => t = []
    end.

Lemma all_in_not_mem d l c r : all_in d (l ++ c :: r) -> mem c d = false -> False.
Proof.
  unfold all_in. rewrite Forall_app, Forall_cons. intros (_ & H & _) Hc. congruence.
Qed.

Lemma zdrop_zlen_app {A} (l k : list A) : zdrop (zlen l) (l ++ k) = k.
Proof. rewrite zdrop_app_r by lia. by rewrite Z.sub_diag, zdrop_0. Qed.

(** A string with a kept character has a first and a last one. *)
Lemma first_last d s l c r l' c' r' :
  s = l ++ c :: r -> all_in d l -> mem c d = false ->
  s = l' ++ c' :: r' -> all_in d r' -> mem c' d = false ->
  exists m, l' ++ [c'] = l ++ m /\ head m = Some c /\ last m = Some c'.
Proof.
  intros -> Hl Hc Heq Hr' Hc'. destruct (app_eq_inv l (c :: r) l' (c' :: r') Heq) as [[k [E1 E2]]|[k [E1 E2]]].
  - destruct k as [|x k]; cbn in E2; injection E2 as -> E2.
    + exists [c]. rewrite app_nil_r in E1. subst. by split.
    + exfalso. subst l. unfold all_in in Hl. rewrite Forall_app, Forall_cons in Hl.
      destruct Hl as (_ & Hx & _). congruence.
  - subst l'. destruct k as [|x k]; cbn in E2; injection E2 as <- E2.
    + exists [c]. rewrite app_nil_r. by split.
    + exists (c :: k ++ [c']). rewrite <- app_assoc. repeat split. cbn.
      by rewrite app_comm_cons, last_snoc.
Qed.

(** [Trim] removes exactly the delimiters at both ends and [TrimLeft] those on the
    left; [TrimRight] loses the last kept character as well: its [substr] takes the
    index of that character as the length. *)
Theorem trim_spec (s delimit : bytes) :
  trimmed delimit s (Trim s delimit) /\
  (exists l, s = l ++ TrimLeft s delimit /\ all_in delimit l /\
     forall c, head (TrimLeft s delimit) = Some c -> mem c delimit = false) /\
  ((all_in delimit s /\ TrimRight s delimit = []) \/
   exists c r, s = TrimRight s delimit ++ c :: r /\ mem c delimit = false /\ all_in delimit r).
Proof.
  pose proof (find_first_spec s delimit) as Hf. pose proof (find_last_spec s delimit) as Hl.
  unfold Trim, TrimLeft, TrimRight, trimmed.
  destruct (find_first_not_of s delimit) as [i|], (find_last_not_of s delimit) as [j|].
  - destruct Hf as (l & c & r & Hs & <- & Hall & Hc), Hl as (l' & c' & r' & Hs' & <- & Hall' & Hc').
    split; [|split].
    + destruct (first_last delimit s l c r l' c' r') as (m & Hm & Hh & Hla); try done.
      exists l, r'. assert (s = l ++ m ++ r') as Hlm.
      { by rewrite Hs', cons_middle, app_assoc, Hm, <- app_assoc. }
      assert (slice (zlen l) (zlen l' - zlen l + 1) s = m) as ->; [|by rewrite Hh, Hla].
      unfold slice. rewrite Hlm, zdrop_zlen_app. apply (f_equal zlen) in Hm.
      rewrite zlen_snoc, zlen_app in Hm. replace (zlen l' - zlen l + 1) with (zlen m) by lia.
      apply ztake_zlen_app.
    + exists l. rewrite Hs, zdrop_zlen_app. split_and!; [done|done|]. by intros ? [= <-].
    + right. exists c', r'. by rewrite Hs', ztake_zlen_app.
  - destruct Hf as (l & c & r & -> & _ & _ & Hc). by destruct (all_in_not_mem delimit l c r).
  - destruct Hl as (l & c & r & -> & _ & _ & Hc). by destruct (all_in_not_mem delimit l c r).
  - split_and!; [exists s, []; rewrite !app_nil_r; by repeat split; [..|constructor]
                |exists s; by rewrite app_nil_r|by left].
Qed.
