(* ===== verification/UtilSys.v ===== *)
(** * Utilities on the clock, the C library and the file system ([util.cc])

    The clock, [localtime_r], [strftime], [vasprintf], the conversions of multibyte text and
    the file system are parameters; what the functions make of their results is here. *)

From stdpp Require Import base list numbers gmap.
From Stdlib Require Import Lia ZArith.
From S2P Require Import Prelude.

(** ** The clock *)

(** [now] is the time of [system_clock] in nanoseconds since the epoch; [time_point_cast]
    rounds towards the epoch. *)
Definition Millisecond (now : Z) : Z := Z.quot now 1000000.
Definition Second (now : Z) : Z := Z.quot now 1000000000.

(** Text up to its first null character. *)
Fixpoint c_str (s : list Z) : list Z :=
  match s with
  | [] => []
  | c :: s => if c =? 0 then [] else c :: c_str s
  end.

Lemma c_str_idem s : c_str (c_str s) = c_str s.
Proof. induction s as [|c s IH]; [done|]. cbn. destruct (c =? 0) eqn:E; [done|]. cbn. by rewrite E, IH. Qed.

Section CLibrary.
Context {tm : Type} (localtime_r : Z -> tm) (strftime : bytes -> tm -> bytes).

(** The buffer has 64 bytes; what [strftime] leaves in it when the text and its end do not
    fit is unspecified. *)
Definition Time2Str (ts : Z) (format : bytes) : res bytes :=
  let text := strftime format (localtime_r ts) in
  if zlen text <? 64 then Ret text else Undef Uninitialized.

(** Variable arguments are a list of values; [vasprintf] fails with -1. *)
Context {arg : Type} (vasprintf : bytes -> list arg -> option bytes).

Definition Formatv (fmt : bytes) (ap : list arg) : bytes :=
  match vasprintf fmt ap with
  | None => []
  | Some buf => buf
  end.

Definition Format : bytes -> list arg -> bytes := Formatv.

(** ** Wide strings *)

(** The locale of the environment, if it is supported, and the conversions in a locale, of
    text up to its first null character; they fail with -1. *)
Context (env_locale : option bytes).
Context (wcstombs : bytes -> list Z -> option bytes) (mbstowcs : bytes -> bytes -> option (list Z)).

(** [setlocale(LC_ALL, "")]: the locale becomes that of the environment, whose name is the
    result; a failure returns null, of which no string can be made. *)
Definition setlocale_env (locale : bytes) : res bytes :=
  match env_locale with
  | Some l => Ret l
  | None => Throw logic_error
  end.

(** A conversion that fails gives size 0: the array is empty and is read as a string.  The
    result comes with the locale that is in force afterwards. *)
Definition WStringToString (w : list Z) (locale : bytes) : res (bytes * bytes) :=
  let? strLocale := setlocale_env locale in
  match wcstombs strLocale (c_str w) with
  | None => Undef BufferOverflow
  | Some chDest => Ret (c_str chDest, strLocale)
  end.

Definition StringToWString (s : bytes) (locale : bytes) : res (list Z * bytes) :=
  let? strLocle := setlocale_env locale in
  match mbstowcs strLocle (c_str s) with
  | None => Undef BufferOverflow
  | Some wchDest => Ret (c_str wchDest, strLocle)
  end.

(** ** Files *)

(** The file system: [lstat] has a code and a value, [unlink] a code and an effect, and a
    file can be opened for reading or not. *)
Context {fs stat : Type} (lstat : fs -> bytes -> Z * stat) (unlink : bytes -> fs -> Z * fs).
Context (open_read : fs -> bytes -> option bytes).

(** [__lstat], with the place for the value or without. *)
Definition __lstat (f : fs) (file : bytes) (st : option stat) : Z * option stat :=
  let (rst, lst) := lstat f file in
  (rst, match st with Some _ => Some lst | None => None end).

Definition Unlink (filename : bytes) (exist : bool) (f : fs) : bool * fs :=
  let _ := if negb exist then negb (fst (__lstat f filename None) =? 0) else false in
  let (rst, f) := unlink filename f in
  (rst =? 0, f).

Definition ReadFile (filename : bytes) (f : fs) : bytes :=
  match open_read f filename with
  | None => []
  | Some content => content
  end.

(** ** Properties *)

(** The two clocks agree. *)
Lemma seconds_of_milliseconds now : Second now = Z.quot (Millisecond now) 1000.
Proof. unfold Second, Millisecond. by rewrite Z.quot_quot. Qed.

(** The flag of [Unlink] has no effect: whether the file exists is looked up and the result
    thrown away. *)
Lemma Unlink_flag filename f : Unlink filename true f = Unlink filename false f.
Proof. reflexivity. Qed.

(** A conversion leaves the locale of the environment in force, whatever was before: the name
    that is put back at the end is not that of the old locale. *)
Lemma conversion_changes_locale w locale b locale' :
  WStringToString w locale = Ret (b, locale') -> env_locale = Some locale'.
Proof.
  unfold WStringToString, setlocale_env. destruct env_locale as [l|]; [|done]. cbn.
  destruct (wcstombs l (c_str w)); [|done]. by intros [= <- <-].
Qed.

(** Wide strings come back where the conversions of the C library are inverse. *)
Lemma wide_roundtrip w locale b locale' locale2 :
  (forall l w b, wcstombs l w = Some b -> mbstowcs l b = Some w) ->
  (forall l w b, wcstombs l (c_str w) = Some b -> c_str b = b) ->
  WStringToString w locale = Ret (b, locale') -> StringToWString b locale2 = Ret (c_str w, locale').
Proof.
  intros Hinv Hb. unfold WStringToString, StringToWString, setlocale_env. destruct env_locale as [l|]; [|done].
  cbn. destruct (wcstombs l (c_str w)) as [b'|] eqn:E; [|done]. intros [= <- <-].
  rewrite (Hb _ _ _ E), (Hb _ _ _ E), (Hinv _ _ _ E). by rewrite c_str_idem.
Qed.

(** A text that does not fit the buffer of [Time2Str]. *)
Lemma Time2Str_exact ts format :
  let text := strftime format (localtime_r ts) in
  (zlen text < 64 -> Time2Str ts format = Ret text) /\ (64 <= zlen text -> Time2Str ts format = Undef Uninitialized).
Proof.
  cbn zeta. unfold Time2Str. destruct (Z.ltb_spec (zlen (strftime format (localtime_r ts))) 64); split; intros; (done || lia).
Qed.
End CLibrary.
