(* ===== verification/Locks.v ===== *)
(** * Locks ([mutex.h], [mutex.cc])

    The semaphore, the three locks and the scoped locks on them.  What the templates rely on
    is the class [Lock]; the objects of pthread are its instances.  A call that blocks has no
    result, [None]; to release a lock that the thread does not hold is undefined.  The results
    of the pthread calls are ignored by the code: the model gives the lock as the call leaves
    it, which for a read-write lock that the thread has locked for writing is unchanged
    ([EDEADLK]); the limit on the number of readers ([EAGAIN]) is not modelled. *)

From stdpp Require Import base list numbers relations.
From Stdlib Require Import Lia ZArith.
From S2P Require Import Prelude.

(** ** Semaphores *)

Definition SEM_VALUE_MAX : Z := 2 ^ 31 - 1.

Record Semaphore := MkSemaphore { sem_count : Z }.

Definition new_Semaphore (count : Z) : res Semaphore :=
  if count <=? SEM_VALUE_MAX then Ret (MkSemaphore count) else Throw logic_error.

(** [sem_wait] fails when a signal handler interrupts it. *)
Definition Semaphore_wait (interrupted : bool) (s : Semaphore) : option (res Semaphore) :=
  if 0 <? sem_count s then Some (Ret (MkSemaphore (sem_count s - 1)))
  else if interrupted then Some (Throw logic_error)
  else None.

Definition Semaphore_post (s : Semaphore) : res Semaphore :=
  if sem_count s <? SEM_VALUE_MAX then Ret (MkSemaphore (sem_count s + 1)) else Throw logic_error.

(** ** The interface of the scoped locks *)

Abbreviation tid := Z (only parsing).

Inductive mode := Shared | Exclusive.

#[export] Instance mode_eq_dec : EqDecision mode.
Proof. solve_decision. Defined.

(** When a mode can be granted, and the sets of holders that can be. *)
Definition grants (m : mode) (hs : list (mode * tid)) : Prop :=
  match m with
  | Shared => Forall (fun h => fst h = Shared) hs
  | Exclusive => hs = []
  end.

Definition compatible (hs : list (mode * tid)) : Prop :=
  Forall (fun h => fst h = Shared) hs \/ exists t, hs = [(Exclusive, t)].

Class Lock (L : Type) := {
  holders : L -> list (mode * tid);
  offers : mode -> bool;
  acquire : mode -> tid -> L -> option L;
  release : tid -> L -> res L }.

Class LockLaws (L : Type) {lk : Lock L} := {
  (** the lock is granted, or the thread has it already and the call fails *)
  acquire_grants m t l l' : acquire m t l = Some l' ->
    grants m (holders l) /\ holders l' = (m, t) :: holders l \/ (Exclusive, t) ∈ holders l /\ l' = l;
  acquire_free m t l : offers m = true -> grants m (holders l) -> is_Some (acquire m t l);
  release_held m t l hs : compatible (holders l) -> holders l ≡ₚ (m, t) :: hs ->
    exists l', release t l = Ret l' /\ holders l' ≡ₚ hs }.

(** ** The locks *)

Record SpinLock := MkSpinLock { spin_owner : option tid }.
Definition new_SpinLock : SpinLock := MkSpinLock None.

Definition SpinLock_lock (t : tid) (l : SpinLock) : option SpinLock :=
  match spin_owner l with None => Some (MkSpinLock (Some t)) | Some _ => None end.

Definition SpinLock_unlock (t : tid) (l : SpinLock) : res SpinLock :=
  if bool_decide (spin_owner l = Some t) then Ret (MkSpinLock None) else Undef NotHeld.

Record MutexLock := MkMutexLock { mutex_owner : option tid }.
Definition new_MutexLock : MutexLock := MkMutexLock None.

Definition MutexLock_lock (t : tid) (l : MutexLock) : option MutexLock :=
  match mutex_owner l with None => Some (MkMutexLock (Some t)) | Some _ => None end.

Definition MutexLock_unlock (t : tid) (l : MutexLock) : res MutexLock :=
  if bool_decide (mutex_owner l = Some t) then Ret (MkMutexLock None) else Undef NotHeld.

Record ReadWriteLock := MkReadWriteLock { rw_readers : list tid; rw_writer : option tid }.
Definition new_ReadWriteLock : ReadWriteLock := MkReadWriteLock [] None.

Definition ReadWriteLock_rdlock (t : tid) (l : ReadWriteLock) : option ReadWriteLock :=
  match rw_writer l with
  | None => Some (MkReadWriteLock (t :: rw_readers l) None)
  | Some w => if w =? t then Some l else None
  end.

Definition ReadWriteLock_wrlock (t : tid) (l : ReadWriteLock) : option ReadWriteLock :=
  match rw_writer l, rw_readers l with
  | None, [] => Some (MkReadWriteLock [] (Some t))
  | Some w, _ => if w =? t then Some l else None
  | None, _ => None
  end.

Fixpoint remove_one (t : tid) (l : list tid) : list tid :=
  match l with
  | [] => []
  | x :: l => if x =? t then l else x :: remove_one t l
  end.

Definition ReadWriteLock_unlock (t : tid) (l : ReadWriteLock) : res ReadWriteLock :=
  if bool_decide (rw_writer l = Some t) then Ret (MkReadWriteLock (rw_readers l) None)
  else if bool_decide (t ∈ rw_readers l) then Ret (MkReadWriteLock (remove_one t (rw_readers l)) (rw_writer l))
  else Undef NotHeld.

(** *** They are instances *)

Definition exclusively (o : option tid) : list (mode * tid) := match o with Some t => [(Exclusive, t)] | None => [] end.

#[export] Instance SpinLock_lk : Lock SpinLock := {
  holders l := exclusively (spin_owner l);
  offers m := bool_decide (m = Exclusive);
  acquire m t l := match m with Exclusive => SpinLock_lock t l | Shared => None end;
  release := SpinLock_unlock }.

#[export] Instance MutexLock_lk : Lock MutexLock := {
  holders l := exclusively (mutex_owner l);
  offers m := bool_decide (m = Exclusive);
  acquire m t l := match m with Exclusive => MutexLock_lock t l | Shared => None end;
  release := MutexLock_unlock }.

#[export] Instance ReadWriteLock_lk : Lock ReadWriteLock := {
  holders l := exclusively (rw_writer l) ++ (pair Shared <$> rw_readers l);
  offers _ := true;
  acquire m := match m with Exclusive => ReadWriteLock_wrlock | Shared => ReadWriteLock_rdlock end;
  release := ReadWriteLock_unlock }.

(** An owner that holds alone. *)
Lemma exclusively_held o m t hs : exclusively o ≡ₚ (m, t) :: hs -> o = Some t /\ m = Exclusive /\ hs = [].
Proof.
  destruct o as [t'|]; cbn; intros H; [|by apply Permutation_nil_cons in H].
  apply Permutation_singleton_l in H. by injection H as <- <- <-.
Qed.

#[export] Instance SpinLock_laws : LockLaws SpinLock.
Proof.
  split.
  - intros [] t [[o|]] l' H; try done. left. by injection H as <-.
  - intros [] t [[o|]] Ho H; done.
  - intros m t [o] hs _ H. apply exclusively_held in H. cbn in H. destruct H as (-> & -> & ->). cbn. unfold SpinLock_unlock. cbn.
    rewrite bool_decide_eq_true_2 by done. by eexists.
Qed.

#[export] Instance MutexLock_laws : LockLaws MutexLock.
Proof.
  split.
  - intros [] t [[o|]] l' H; try done. left. by injection H as <-.
  - intros [] t [[o|]] Ho H; done.
  - intros m t [o] hs _ H. apply exclusively_held in H. cbn in H. destruct H as (-> & -> & ->). cbn. unfold MutexLock_unlock. cbn.
    rewrite bool_decide_eq_true_2 by done. by eexists.
Qed.

Lemma remove_one_perm t l : t ∈ l -> l ≡ₚ t :: remove_one t l.
Proof.
  induction l as [|x l IH]; intros H; [inv H|]. cbn. destruct (Z.eqb_spec x t) as [->|Hne]; [done|].
  apply elem_of_cons in H as [->|H]; [done|]. rewrite (IH H) at 1. apply Permutation_swap.
Qed.

#[export] Instance ReadWriteLock_laws : LockLaws ReadWriteLock.
Proof.
  split.
  - assert (forall o t l l' : _, (if o =? t then Some l else None) = Some l' -> o = t /\ l' = l :> ReadWriteLock) as Hself.
    { intros o t l l'. destruct (Z.eqb_spec o t); [|done]. by intros [= <-]. }
    intros [] t [rs [o|]] l' H; cbn in H.
    + apply Hself in H as [-> ->]. right. split; [by left|done].
    + left. injection H as <-. split; [|done]. cbn. by apply Forall_fmap, Forall_true.
    + apply Hself in H as [-> ->]. right. split; [by left|done].
    + left. unfold ReadWriteLock_wrlock in H. cbn in H. destruct rs; [|done]. by injection H as <-.
  - intros [] t [rs [o|]] _ H; cbn in *; try done; [by inv H|]. destruct rs; [by eexists|done].
  - intros m t [rs [o|]] hs Hc H; cbn in *; unfold ReadWriteLock_unlock; cbn.
    + destruct Hc as [Hc|[t' E]]; [by inv Hc|]. injection E as -> E. rewrite E in H.
      apply Permutation_singleton_l in H. injection H as <- <- <-.
      rewrite bool_decide_eq_true_2 by done. eexists. split; [done|]. cbn. by rewrite E.
    + assert ((m, t) ∈ pair Shared <$> rs) as Hin by (rewrite H; left).
      apply list_elem_of_fmap in Hin as (t' & [= -> ->] & Hin).
      rewrite (bool_decide_eq_true_2 (t' ∈ rs)) by done. eexists. split; [done|]. cbn.
      apply (Permutation_cons_inv (a := (Shared, t'))). rewrite <-H.
      symmetry. apply (fmap_Permutation (pair Shared) _ _ (remove_one_perm t' rs Hin)).
Qed.

(** ** Scoped locks

    The three templates differ in the call that acquires; [m_locked] is the state of the
    object. *)

Section Templates.
Context {L : Type} {lk : Lock L}.

(** [ScopedLockTmpl], in a thread. *)
Definition ScopedLock_lock (t : tid) (m_locked : bool) (l : L) : option (bool * L) :=
  if negb m_locked then l' ← acquire Exclusive t l; Some (true, l') else Some (m_locked, l).

Definition ScopedLock_unlock (t : tid) (m_locked : bool) (l : L) : res (bool * L) :=
  if m_locked then let? l' := release t l in Ret (false, l') else Ret (m_locked, l).

Definition new_ScopedLock (t : tid) (l : L) : option (bool * L) := ScopedLock_lock t false l.
Definition ScopedLock_destroy : tid -> bool -> L -> res (bool * L) := ScopedLock_unlock.

(** [ReadScopedLockTmpl]. *)
Definition ReadScopedLock_lock (t : tid) (m_locked : bool) (l : L) : option (bool * L) :=
  if negb m_locked then l' ← acquire Shared t l; Some (true, l') else Some (m_locked, l).

Definition ReadScopedLock_unlock (t : tid) (m_locked : bool) (l : L) : res (bool * L) :=
  if m_locked then let? l' := release t l in Ret (false, l') else Ret (m_locked, l).

Definition new_ReadScopedLock (t : tid) (l : L) : option (bool * L) := ReadScopedLock_lock t false l.
Definition ReadScopedLock_destroy : tid -> bool -> L -> res (bool * L) := ReadScopedLock_unlock.

(** [WriteScopedLockTmpl]. *)
Definition WriteScopedLock_lock (t : tid) (m_locked : bool) (l : L) : option (bool * L) :=
  if negb m_locked then l' ← acquire Exclusive t l; Some (true, l') else Some (m_locked, l).

Definition WriteScopedLock_unlock (t : tid) (m_locked : bool) (l : L) : res (bool * L) :=
  if m_locked then let? l' := release t l in Ret (false, l') else Ret (m_locked, l).

Definition new_WriteScopedLock (t : tid) (l : L) : option (bool * L) := WriteScopedLock_lock t false l.
Definition WriteScopedLock_destroy : tid -> bool -> L -> res (bool * L) := WriteScopedLock_unlock.

(** ** Threads with scoped locks on one lock *)

Inductive template := Scoped | ReadScoped | WriteScoped.

Definition mode_of (k : template) : mode := match k with ReadScoped => Shared | _ => Exclusive end.

(** An object of a template, on the stack of a thread. *)
Record guard := MkGuard { g_template : template; g_thread : tid; g_locked : bool; g_alive : bool }.

Record system := MkSystem { s_lock : L; s_guards : list guard }.

Definition guard_new (k : template) (t : tid) (l : L) : option (bool * L) :=
  match k with Scoped => new_ScopedLock t l | ReadScoped => new_ReadScopedLock t l | WriteScoped => new_WriteScopedLock t l end.

Definition guard_lock (g : guard) (l : L) : option (bool * L) :=
  match g_template g with
  | Scoped => ScopedLock_lock (g_thread g) (g_locked g) l
  | ReadScoped => ReadScopedLock_lock (g_thread g) (g_locked g) l
  | WriteScoped => WriteScopedLock_lock (g_thread g) (g_locked g) l
  end.

Definition guard_unlock (g : guard) (l : L) : res (bool * L) :=
  match g_template g with
  | Scoped => ScopedLock_unlock (g_thread g) (g_locked g) l
  | ReadScoped => ReadScopedLock_unlock (g_thread g) (g_locked g) l
  | WriteScoped => WriteScopedLock_unlock (g_thread g) (g_locked g) l
  end.

Definition guard_destroy (g : guard) (l : L) : res (bool * L) :=
  match g_template g with
  | Scoped => ScopedLock_destroy (g_thread g) (g_locked g) l
  | ReadScoped => ReadScopedLock_destroy (g_thread g) (g_locked g) l
  | WriteScoped => WriteScopedLock_destroy (g_thread g) (g_locked g) l
  end.

Definition with_state (locked alive : bool) (g : guard) : guard := MkGuard (g_template g) (g_thread g) locked alive.

(** What the threads do, in any order; a call that blocks is no step.  [P] is what a thread
    keeps to when it locks. *)
Inductive guard_step (P : tid -> L -> Prop) : system -> system -> Prop :=
| step_new k t l gs b l' : P t l -> guard_new k t l = Some (b, l') ->
    guard_step P (MkSystem l gs) (MkSystem l' (gs ++ [MkGuard k t b true]))
| step_lock i g l gs b l' : P (g_thread g) l -> gs !! i = Some g -> g_alive g = true -> guard_lock g l = Some (b, l') ->
    guard_step P (MkSystem l gs) (MkSystem l' (<[i := with_state b true g]> gs))
| step_unlock i g l gs b l' : gs !! i = Some g -> g_alive g = true -> guard_unlock g l = Ret (b, l') ->
    guard_step P (MkSystem l gs) (MkSystem l' (<[i := with_state b true g]> gs))
| step_destroy i g l gs b l' : gs !! i = Some g -> g_alive g = true -> guard_destroy g l = Ret (b, l') ->
    guard_step P (MkSystem l gs) (MkSystem l' (<[i := with_state b false g]> gs)).

(** A thread does not lock what it has locked exclusively. *)
Definition not_twice (t : tid) (l : L) : Prop := (Exclusive, t) ∉ holders l.

(** What the guards hold. *)
Definition held (gs : list guard) : list (mode * tid) :=
  omap (fun g => if g_locked g then Some (mode_of (g_template g), g_thread g) else None) gs.

Record guards_inv (s : system) : Prop := {
  inv_holders : holders (s_lock s) ≡ₚ held (s_guards s);
  inv_compatible : compatible (holders (s_lock s));
  inv_alive i g : s_guards s !! i = Some g -> g_locked g = true -> g_alive g = true }.

Context {laws : LockLaws L}.

Lemma grants_compatible m t hs : compatible hs -> grants m hs -> compatible ((m, t) :: hs).
Proof. destruct m; cbn; intros Hc Hg; [left; by constructor|subst; right; by eexists]. Qed.

Lemma compatible_cons_inv h hs : compatible (h :: hs) -> compatible hs.
Proof. intros [H|[t H]]; [left; by inv H|]. injection H as -> ->. left. constructor. Qed.

#[local] Instance compatible_perm : Proper ((≡ₚ) ==> iff) compatible.
Proof.
  assert (forall hs hs', hs ≡ₚ hs' -> compatible hs -> compatible hs') as H.
  { intros hs hs' E [Hf|[t ->]]; [left; by rewrite <-E|right]. apply Permutation_singleton_l in E. eauto. }
  intros hs hs' E. split; apply H; [done|by symmetry].
Qed.

(** A guard at its place among the others. *)
Lemma guards_held_insert gs i g g' : gs !! i = Some g -> exists rest,
  held gs ≡ₚ held [g] ++ rest /\ held (<[i := g']> gs) ≡ₚ held [g'] ++ rest.
Proof.
  intros H. exists (held (take i gs ++ drop (S i) gs)). unfold held.
  assert (i < length gs)%nat by by eapply lookup_lt_Some.
  rewrite insert_take_drop by done. rewrite <-(take_drop_middle gs i g H) at 1.
  change (g :: drop (S i) gs) with ([g] ++ drop (S i) gs). change (g' :: drop (S i) gs) with ([g'] ++ drop (S i) gs).
  rewrite !omap_app. split; rewrite !(assoc_L (++)); apply Permutation_app_tail, Permutation_app_comm.
Qed.

Lemma alive_insert (gs : list guard) i g' :
  (forall j g, gs !! j = Some g -> g_locked g = true -> g_alive g = true) ->
  (g_locked g' = true -> g_alive g' = true) ->
  forall j g, <[i := g']> gs !! j = Some g -> g_locked g = true -> g_alive g = true.
Proof.
  intros H Hg j g Hj Hl. destruct (decide (i = j)) as [->|Hne].
  - apply list_lookup_insert_Some in Hj as [(_ & <- & _)|(? & _)]; [auto|done].
  - rewrite list_lookup_insert_ne in Hj by done. eauto.
Qed.

(** The calls, whatever the template. *)
Lemma guard_lock_eq g l : guard_lock g l =
  if negb (g_locked g) then l' ← acquire (mode_of (g_template g)) (g_thread g) l; Some (true, l') else Some (g_locked g, l).
Proof. by destruct g as [[] t b a]. Qed.

Lemma guard_unlock_eq g l : guard_unlock g l =
  if g_locked g then let? l' := release (g_thread g) l in Ret (false, l') else Ret (g_locked g, l).
Proof. by destruct g as [[] t b a]. Qed.

Lemma guard_destroy_eq g l : guard_destroy g l = guard_unlock g l.
Proof. by destruct g as [[] t b a]. Qed.

(** Releasing what a guard holds. *)
Lemma guard_unlock_ok l gs i g : guards_inv (MkSystem l gs) -> gs !! i = Some g ->
  exists l', guard_unlock g l = Ret (false, l') /\ compatible (holders l') /\
    forall a, holders l' ≡ₚ held (<[i := with_state false a g]> gs).
Proof.
  intros [Hh Hc Ha] Hi. cbn in *. rewrite guard_unlock_eq. destruct (g_locked g) eqn:E.
  - destruct (guards_held_insert gs i g g Hi) as (rest & Hr & _). cbn in Hr. rewrite E in Hr. cbn in Hr.
    destruct (release_held (mode_of (g_template g)) (g_thread g) l rest) as (l' & -> & Hl');
      [done|by rewrite Hh|]. exists l'. split; [done|]. split.
    + rewrite Hh, Hr in Hc. apply compatible_cons_inv in Hc. by rewrite Hl'.
    + intros a. destruct (guards_held_insert gs i g (with_state false a g) Hi) as (rest' & Hr1 & Hr2).
      cbn in Hr1, Hr2. rewrite E in Hr1. cbn in Hr1. rewrite Hr2, Hl'.
      rewrite Hr in Hr1. by apply Permutation_cons_inv in Hr1.
  - exists l. split; [by destruct g as [? ? [] ?]|]. split; [done|]. intros a.
    destruct (guards_held_insert gs i g (with_state false a g) Hi) as (rest & Hr1 & Hr2).
    cbn in Hr1, Hr2. rewrite E in Hr1. by rewrite Hh, Hr1, Hr2.
Qed.

(** A lock that is not held by the thread is granted. *)
Lemma acquire_granted m t l l' : not_twice t l -> acquire m t l = Some l' ->
  grants m (holders l) /\ holders l' = (m, t) :: holders l.
Proof. intros Ht H. by destruct (acquire_grants _ _ _ _ H) as [|[]]. Qed.

Lemma guards_preserved s s' : guards_inv s -> guard_step not_twice s s' -> guards_inv s'.
Proof.
  intros Hinv Hstep. destruct Hstep as [k t l gs b l' Ht Hn|i g l gs b l' Ht Hi Hal Hn|i g l gs b l' Hi Hal Hn|i g l gs b l' Hi Hal Hn].
  - assert (acquire (mode_of k) t l = Some l' /\ b = true) as [Hq ->].
    { destruct k; cbn in Hn; destruct (acquire _ t l) eqn:Eq; try done; by injection Hn as <- <-. }
    destruct Hinv as [Hh Hc Ha]. destruct (acquire_granted _ _ _ _ Ht Hq) as [Hg Hl]. split; cbn in *.
    + rewrite Hl, Hh. unfold held. rewrite omap_app. cbn. by rewrite Permutation_app_comm.
    + rewrite Hl. by apply grants_compatible.
    + intros i g [[_ Hi]|[_ <-]]%lookup_snoc_Some; [eauto|done].
  - rewrite guard_lock_eq in Hn. destruct (g_locked g) eqn:E; cbn in Hn.
    + injection Hn as <- <-. replace (with_state true true g) with g by (destruct g; cbn in *; by subst).
      by rewrite list_insert_id.
    + destruct (acquire _ _ l) as [l1|] eqn:Hq; cbn in Hn; [|done]. injection Hn as <- <-.
      destruct Hinv as [Hh Hc Ha]. destruct (acquire_granted _ _ _ _ Ht Hq) as [Hg Hl]. split; cbn in *.
      * destruct (guards_held_insert gs i g (with_state true true g) Hi) as (rest & Hr1 & Hr2).
        cbn in Hr1, Hr2. rewrite E in Hr1. cbn in Hr1. by rewrite Hr2, Hl, Hh, Hr1.
      * rewrite Hl. by apply grants_compatible.
      * by apply alive_insert.
  - destruct (guard_unlock_ok l gs i g Hinv Hi) as (l1 & E & Hc' & Hh'). rewrite E in Hn. injection Hn as <- <-.
    split; cbn; [done|done|]. apply alive_insert; [apply Hinv|done].
  - rewrite guard_destroy_eq in Hn.
    destruct (guard_unlock_ok l gs i g Hinv Hi) as (l1 & E & Hc' & Hh'). rewrite E in Hn. injection Hn as <- <-.
    split; cbn; [done|done|]. apply alive_insert; [apply Hinv|done].
Qed.

(** The executions from a free lock. *)
Definition guards_reach (P : tid -> L -> Prop) (l : L) (s : system) : Prop := rtc (guard_step P) (MkSystem l []) s.

Lemma guards_reach_inv l s : holders l = [] -> guards_reach not_twice l s -> guards_inv s.
Proof.
  intros Hl H. unfold guards_reach in H. remember (MkSystem l []) as s0 eqn:E.
  assert (guards_inv s0) as H0.
  { subst s0. split; cbn; [by rewrite Hl|rewrite Hl; left; constructor|done]. }
  clear E. induction H as [|s0 s1 s H1 H2 IH]; [done|]. by eapply IH, guards_preserved.
Qed.

(** Two guards in the same set of holders. *)
Lemma held_two gs i j gi gj : gs !! i = Some gi -> gs !! j = Some gj -> i <> j ->
  exists rest, held gs ≡ₚ held [gi] ++ held [gj] ++ rest.
Proof.
  intros Hi Hj Hne.
  destruct (guards_held_insert gs i gi (with_state false false gi) Hi) as (rest & Hr1 & Hr2).
  destruct (guards_held_insert (<[i := with_state false false gi]> gs) j gj gj) as (rest' & Hs & _);
    [by rewrite list_lookup_insert_ne|]. exists rest'. rewrite Hr1. rewrite <-Hs, Hr2. done.
Qed.

(** A thread that has locked exclusively waits for ever when it locks again. *)
Definition blocks_again : Prop := forall m t (l : L), (Exclusive, t) ∈ holders l -> acquire m t l = None.

Lemma step_not_twice s s' : blocks_again -> guard_step (fun _ _ => True) s s' -> guard_step not_twice s s' \/ s' = s.
Proof.
  intros Hb [k t l gs b l' _ Hn|i g l gs b l' _ Hi Hal Hn|i g l gs b l' Hi Hal Hn|i g l gs b l' Hi Hal Hn].
  - left. apply step_new; [|done]. intros Ht. destruct k; cbn in Hn; by rewrite (Hb _ t l Ht) in Hn.
  - pose proof Hn as Hn'. rewrite guard_lock_eq in Hn'. destruct (g_locked g) eqn:E; cbn in Hn'.
    + right. injection Hn' as <- <-. f_equal. apply list_insert_id. by destruct g; cbn in *; subst.
    + left. apply step_lock; [|done..]. intros Ht. by rewrite (Hb _ _ l Ht) in Hn'.
  - left. by apply step_unlock.
  - left. by apply step_destroy.
Qed.

Lemma reach_not_twice l s :
  guards_reach not_twice l s \/ blocks_again /\ guards_reach (fun _ _ => True) l s -> guards_reach not_twice l s.
Proof.
  intros [H|[Hb H]]; [done|]. unfold guards_reach in *. induction H as [|s0 s1 s2 H1 H2 IH]; [done|].
  apply step_not_twice in H1 as [H1| ->]; [by eapply rtc_l|done|done].
Qed.
End Templates.
Arguments system : clear implicits.
Arguments blocks_again L {_}.

Section Guarantees.
Context {L : Type} {lk : Lock L} {laws : LockLaws L}.

(** C15: scoped locks exclude each other.  In every execution of any number of threads that
    make, lock, unlock and destroy scoped locks on one lock, and in which no thread locks
    again what it has locked exclusively, two guards that are locked at the same time are both
    for reading, and every guard that is locked is alive; unlocking or destroying a guard
    never releases a lock that its thread does not hold, and when all guards are unlocked or
    destroyed nobody holds the lock.  The condition is needed for read-write locks only: a
    lock that blocks a thread that has it already, as the mutex and the spin lock do, keeps
    every execution to it. *)
Theorem scoped_locks_exclude (l : L) (s : system L) : holders l = [] ->
  (guards_reach not_twice l s \/ blocks_again L /\ guards_reach (fun _ _ => True) l s) ->
  (forall i j gi gj, s_guards s !! i = Some gi -> s_guards s !! j = Some gj -> i <> j ->
    g_locked gi = true -> g_locked gj = true -> mode_of (g_template gi) = Shared /\ mode_of (g_template gj) = Shared) /\
  (forall i g, s_guards s !! i = Some g -> g_locked g = true -> g_alive g = true) /\
  (forall i g, s_guards s !! i = Some g -> exists l', guard_unlock g (s_lock s) = Ret (false, l') /\
    guard_destroy g (s_lock s) = Ret (false, l')) /\
  ((forall i g, s_guards s !! i = Some g -> g_locked g = false) -> holders (s_lock s) = []).
Proof.
  intros Hl Hr%reach_not_twice. pose proof (guards_reach_inv l s Hl Hr) as Hinv. destruct s as [l1 gs]. cbn.
  split; [|split; [apply Hinv|split]].
  - intros i j gi gj Hi Hj Hne Li Lj. destruct (held_two gs i j gi gj Hi Hj Hne) as (rest & E).
    destruct Hinv as [Hh Hc _]. cbn in Hh. cbn in E. rewrite Li, Lj in E. cbn in E.
    destruct Hc as [Hc|[t Hc]]; cbn in Hc.
    + rewrite Hh, E in Hc. by inv Hc; match goal with H : Forall _ (_ :: _) |- _ => inv H end.
    + rewrite Hc in Hh. rewrite <-Hh in E. by apply Permutation_length in E.
  - intros i g Hi. destruct (guard_unlock_ok l1 gs i g Hinv Hi) as (l' & E & _). exists l'.
    split; [exact E|]. transitivity (guard_unlock g l1); [apply guard_destroy_eq|exact E].
  - intros Hfree. pose proof (inv_holders _ Hinv) as Hh. cbn [s_lock s_guards] in *.
    assert (held gs = []) as E; [|rewrite E in Hh; by apply Permutation_nil_r].
    clear Hh Hr Hinv. induction gs as [|g gs IH]; [done|]. unfold held. cbn. rewrite (Hfree 0%nat g) by done.
    apply IH. intros i g' Hi. by apply (Hfree (S i) g').
Qed.

(** A guard that is not locked can lock when no guard is in its way. *)
Lemma guard_lock_free (l : L) (s : system L) g : holders l = [] -> guards_reach not_twice l s ->
  offers (mode_of (g_template g)) = true -> grants (mode_of (g_template g)) (held (s_guards s)) ->
  is_Some (guard_lock g (s_lock s)).
Proof.
  intros Hl Hr Ho Hg. pose proof (guards_reach_inv l s Hl Hr) as [Hh _ _]. rewrite guard_lock_eq.
  destruct (g_locked g); [by eexists|]. cbn.
  destruct (acquire_free (mode_of (g_template g)) (g_thread g) (s_lock s)) as [l' ->]; [done| |by eexists].
  destruct (mode_of _); cbn in *; [by rewrite Hh|]. rewrite Hg in Hh. by apply Permutation_nil_r.
Qed.
End Guarantees.

(** Two readers at the same time. *)
Definition two_readers : system ReadWriteLock :=
  MkSystem (MkReadWriteLock [2; 1] None) [MkGuard ReadScoped 1 true true; MkGuard ReadScoped 2 true true].

Lemma two_readers_reach : guards_reach not_twice new_ReadWriteLock two_readers.
Proof.
  eapply rtc_l; [apply (step_new _ ReadScoped 1 _ _ true); [apply not_elem_of_nil|done]|].
  eapply rtc_l; [apply (step_new _ ReadScoped 2 _ _ true); [|done]|apply rtc_refl].
  unfold not_twice. cbn. intros [H|H]%elem_of_cons; [done|by apply elem_of_nil in H].
Qed.

Lemma spin_blocks_again : blocks_again SpinLock.
Proof. intros [] t [[o|]] H; cbn in *; try done. by apply elem_of_nil in H. Qed.

Lemma mutex_blocks_again : blocks_again MutexLock.
Proof. intros [] t [[o|]] H; cbn in *; try done. by apply elem_of_nil in H. Qed.

(** Two readers, and the holder of a mutex in any execution. *)
Lemma scoped_locks_exclude_witness :
  (guards_reach not_twice new_ReadWriteLock two_readers /\
   exists l', guard_unlock (MkGuard ReadScoped 1 true true) (s_lock two_readers) = Ret (false, l') /\
     guard_destroy (MkGuard ReadScoped 1 true true) (s_lock two_readers) = Ret (false, l')) /\
  exists l', guard_unlock (MkGuard Scoped 1 true true) (MkMutexLock (Some 1)) = Ret (false, l').
Proof.
  split.
  - split; [exact two_readers_reach|].
    destruct (scoped_locks_exclude (lk := ReadWriteLock_lk) new_ReadWriteLock two_readers eq_refl (or_introl two_readers_reach))
      as (_ & _ & H & _).
    exact (H 0%nat _ eq_refl).
  - destruct (scoped_locks_exclude (lk := MutexLock_lk) new_MutexLock
      (MkSystem (MkMutexLock (Some 1)) [MkGuard Scoped 1 true true]) eq_refl) as (_ & _ & H & _).
    + right. split; [exact mutex_blocks_again|]. eapply rtc_l; [by apply (step_new _ Scoped 1 _ _ true)|apply rtc_refl].
    + destruct (H 0%nat _ eq_refl) as (l' & E & _). by exists l'.
Defined.

(** A thread that has locked a read-write lock for writing and takes a guard for reading gets a
    guard that says it is locked; its destruction releases the lock of the first, another
    writer comes in beside it, and the destruction of the first is undefined. *)
Definition two_writers : system ReadWriteLock :=
  MkSystem (MkReadWriteLock [] (Some 2))
    [MkGuard WriteScoped 1 true true; MkGuard ReadScoped 1 false false; MkGuard WriteScoped 2 true true].

Example relock_breaks_exclusion :
  guards_reach (fun _ _ => True) new_ReadWriteLock two_writers /\
  guard_destroy (MkGuard WriteScoped 1 true true) (s_lock two_writers) = Undef NotHeld.
Proof.
  split; [|done]. eapply rtc_l; [by apply (step_new _ WriteScoped 1 _ _ true)|].
  eapply rtc_l; [by apply (step_new _ ReadScoped 1 _ _ true)|].
  eapply rtc_l; [by apply (step_destroy _ 1 (MkGuard ReadScoped 1 true true) _ _ false)|].
  eapply rtc_l; [by apply (step_new _ WriteScoped 2 _ _ true)|]. apply rtc_refl.
Qed.

(** A second guard of the same thread on a mutex never gets it, and a writer waits for the
    readers. *)
Example locks_block :
  guard_new Scoped 1 (MkMutexLock (Some 1)) = None /\
  guard_new WriteScoped 3 (s_lock two_readers) = None.
Proof. done. Qed.

(** ** Counting of semaphores *)

(** The waits that returned are no more than the initial count and the posts, and the count
    is what is left. *)
Inductive sem_op := SemWait (interrupted : bool) | SemPost.

Definition sem_apply (o : sem_op) (s : Semaphore) : option (res Semaphore) :=
  match o with SemWait i => Semaphore_wait i s | SemPost => Some (Semaphore_post s) end.

(** The operations that returned, in their order. *)
Inductive sem_run : Semaphore -> list sem_op -> Semaphore -> Prop :=
| sem_nil s : sem_run s [] s
| sem_cons s o s1 os s' : sem_apply o s = Some (Ret s1) -> sem_run s1 os s' -> sem_run s (o :: os) s'.

Definition is_wait (o : sem_op) : bool := match o with SemWait _ => true | SemPost => false end.

Lemma semaphore_counts s os s' : sem_run s os s' -> 0 <= sem_count s <= SEM_VALUE_MAX ->
  sem_count s' = sem_count s + zlen (base.filter (fun o => is_wait o = false) os)
    - zlen (base.filter (fun o => is_wait o = true) os) /\ 0 <= sem_count s' <= SEM_VALUE_MAX.
Proof.
  induction 1 as [s|s o s1 os s' Ho _ IH]; intros Hs; [cbn; unfold zlen; cbn; lia|].
  destruct o as [i|]; cbn in Ho.
  - unfold Semaphore_wait in Ho. destruct (Z.ltb_spec 0 (sem_count s)); [|by destruct i]. injection Ho as <-.
    rewrite filter_cons_False, filter_cons_True, zlen_cons by done. cbn in IH. lia.
  - unfold Semaphore_post in Ho. destruct (Z.ltb_spec (sem_count s) SEM_VALUE_MAX); [|done]. injection Ho as <-.
    rewrite filter_cons_True, filter_cons_False, zlen_cons by done. cbn in IH. lia.
Qed.
