(* ===== verification/Thread.v ===== *)
(** * Threads ([thread.h], [thread.cc])

    The constructor and the function [Run] of the new thread as two programs that interleave,
    with the calls on the object after the constructor returned; the names and ids of the
    current thread; the calls on condition variables. *)

From stdpp Require Import base list numbers strings relations.
From Stdlib Require Import Lia ZArith.
From S2P Require Import Prelude Locks.

(** ** The object and the thread-local variables *)

(** What a callback does that concerns the thread: work, [Thread::SetName], an exception. *)
Inductive cb_op := CbWork | CbSetName (name : bytes) | CbThrow.
Definition callback : Type := list cb_op.

(** [m_thread] is [None] until it is assigned; 0 stands for no thread.  [m_cb] is [None] when
    the function is empty. *)
Record Thread := MkThread {
  m_thread : option Z; m_cb : option callback; m_name : bytes; m_semaphore : Semaphore }.

Definition set_thread (v : Z) (o : Thread) : Thread := MkThread (Some v) (m_cb o) (m_name o) (m_semaphore o).
Definition take_cb (o : Thread) : Thread := MkThread (m_thread o) None (m_name o) (m_semaphore o).
Definition set_thread_name (v : bytes) (o : Thread) : Thread := MkThread (m_thread o) (m_cb o) v (m_semaphore o).
Definition set_semaphore (v : Semaphore) (o : Thread) : Thread := MkThread (m_thread o) (m_cb o) (m_name o) v.

(** Whether [cur_thread] points at the object. *)
Record locals := MkLocals { cur_thread : bool; cur_thread_name : bytes; cur_thread_id : Z }.
Definition new_locals : locals := MkLocals false (str "UNKNOW") 0.

(** Before [pthread_create]. *)
Definition new_Thread (cb : option callback) (name : bytes) : Thread :=
  MkThread None cb (if bool_decide (name = []) then str "UNKNOW" else name) (MkSemaphore 0).

(** Where the owner is: in the constructor, after it, or when it threw. *)
Inductive owner_pc := OCreate | OStore | OWait | OReturned | ODestroyed | OThrew.

(** Where the new thread is in [Run]; [post] and the call of the callback are two moves. *)
Inductive runner_pc :=
| RNone | RStart | RId | RName | RSwap | RPost (cb : option callback)
| RBegin (cb : option callback) | RCall (cb : callback) | RDone.

(** [kernel_name] is the name of the new thread in the kernel; [calls] counts the callbacks
    that were begun. *)
Record world := MkWorld {
  w_obj : option Thread; w_owner : owner_pc; w_runner : runner_pc; w_locals : locals;
  kernel_name : bytes; calls : nat }.

Definition CurThreadName (l : locals) : bytes := cur_thread_name l.

Section Threads.
(** The id that [pthread_create] gives and the one of the kernel; whether the first is stored
    before the new thread runs, which POSIX leaves open. *)
Context (thread_id tid : Z) (stores_first : bool).

Definition CurThreadId (gettid : Z) (l : locals) : Z * locals :=
  if cur_thread_id l =? 0 then (gettid, MkLocals (cur_thread l) (cur_thread_name l) gettid)
  else (cur_thread_id l, l).

(** [SetName], in the new thread: the locals, the object and the name in the kernel. *)
Definition SetName (name : bytes) (l : locals) (obj : option Thread) (kname : bytes)
    : res (locals * option Thread * bytes) :=
  let l := MkLocals (cur_thread l) name (cur_thread_id l) in
  if cur_thread l then
    match obj with
    | None => Undef UseAfterFree
    | Some o =>
        let o := set_thread_name name o in
        match m_thread o with
        | None => Undef Uninitialized
        | Some _ => Ret (l, Some o, ztake 15 (m_name o))
        end
    end
  else Ret (l, obj, kname).

(** The constructor, from [pthread_create] on.  An exception destroys the members. *)
Definition owner_next (create_fails interrupted : bool) (w : world) : option (res world) :=
  let '(MkWorld obj owner runner l kname n) := w in
  match owner, obj with
  | OCreate, Some o =>
      if create_fails then Some (Ret (MkWorld None OThrew runner l kname n))
      else if stores_first then Some (Ret (MkWorld (Some (set_thread thread_id o)) OWait RStart l kname n))
      else Some (Ret (MkWorld (Some o) OStore RStart l kname n))
  | OStore, Some o => Some (Ret (MkWorld (Some (set_thread thread_id o)) OWait runner l kname n))
  | OWait, Some o =>
      match Semaphore_wait interrupted (m_semaphore o) with
      | None => None
      | Some (Ret s) => Some (Ret (MkWorld (Some (set_semaphore s o)) OReturned runner l kname n))
      | Some (Throw _) => Some (Ret (MkWorld None OThrew runner l kname n))
      | Some (Undef u) => Some (Undef u)
      end
  | _, _ => None
  end.

(** [join]; [pthread_join] waits for the end of the thread. *)
Definition join (w : world) : option (res world) :=
  let '(MkWorld obj owner runner l kname n) := w in
  match owner, obj with
  | OReturned, Some o =>
      match m_thread o with
      | None => Some (Undef Uninitialized)
      | Some id =>
          if id =? 0 then Some (Ret w)
          else match runner with
               | RDone => Some (Ret (MkWorld (Some (set_thread 0 o)) owner runner l kname n))
               | _ => None
               end
      end
  | _, _ => None
  end.

(** The destructor; [pthread_detach] lets the thread go on. *)
Definition destroy (w : world) : option (res world) :=
  let '(MkWorld obj owner runner l kname n) := w in
  match owner, obj with
  | OReturned, Some o =>
      match m_thread o with
      | None => Some (Undef Uninitialized)
      | Some _ => Some (Ret (MkWorld None ODestroyed runner l kname n))
      end
  | _, _ => None
  end.

(** [Run]: an access to the object needs it alive.  The exceptions are caught, that of the
    call of an empty function too. *)
Definition runner_next (w : world) : option (res world) :=
  let '(MkWorld obj owner runner l kname n) := w in
  match runner with
  | RNone | RDone => None
  | RId => Some (Ret (MkWorld obj owner RName (MkLocals (cur_thread l) (cur_thread_name l) tid) kname n))
  | RBegin (Some cb) => Some (Ret (MkWorld obj owner (RCall cb) l kname (S n)))
  | RBegin None => Some (Ret (MkWorld obj owner RDone l kname n))
  | RCall [] => Some (Ret (MkWorld obj owner RDone l kname n))
  | RCall (CbWork :: cb) => Some (Ret (MkWorld obj owner (RCall cb) l kname n))
  | RCall (CbThrow :: _) => Some (Ret (MkWorld obj owner RDone l kname n))
  | RCall (CbSetName name :: cb) =>
      Some (let? x := SetName name l obj kname in
            Ret (MkWorld (snd (fst x)) owner (RCall cb) (fst (fst x)) (snd x) n))
  | RStart | RName | RSwap | RPost _ =>
      match obj with
      | None => Some (Undef UseAfterFree)
      | Some o =>
          match runner with
          | RStart => Some (Ret (MkWorld obj owner RId (MkLocals true (m_name o) (cur_thread_id l)) kname n))
          | RName =>
              match m_thread o with
              | None => Some (Undef Uninitialized)
              | Some _ => Some (Ret (MkWorld obj owner RSwap l (ztake 15 (m_name o)) n))
              end
          | RSwap => Some (Ret (MkWorld (Some (take_cb o)) owner (RPost (m_cb o)) l kname n))
          | RPost cb =>
              match Semaphore_post (m_semaphore o) with
              | Ret s => Some (Ret (MkWorld (Some (set_semaphore s o)) owner (RBegin cb) l kname n))
              | Throw _ => Some (Ret (MkWorld obj owner RDone l kname n))
              | Undef u => Some (Undef u)
              end
          | _ => None
          end
      end
  end.

(** One move of either; [interrupts] says whether signals can interrupt [sem_wait]. *)
Inductive moves (interrupts : bool) (w : world) : res world -> Prop :=
| move_owner f i r : (i = true -> interrupts = true) -> owner_next f i w = Some r -> moves interrupts w r
| move_join r : join w = Some r -> moves interrupts w r
| move_destroy r : destroy w = Some r -> moves interrupts w r
| move_runner r : runner_next w = Some r -> moves interrupts w r.

Definition start (cb : option callback) (name : bytes) : world :=
  MkWorld (Some (new_Thread cb name)) OCreate RNone new_locals [] 0.

Definition reaches (interrupts : bool) (cb : option callback) (name : bytes) (w : world) : Prop :=
  rtc (fun w w' => moves interrupts w (Ret w')) (start cb name) w.
End Threads.

(** ** Condition variables *)

(** The mutex, the threads that wait on the condition and those that were woken and have not
    returned yet. *)
Record cond := MkCond { c_mutex : MutexLock; c_waiting : list tid; c_woken : list tid }.

(** [CondWait] up to [pthread_cond_wait], which enqueues the thread and releases the mutex at
    once; and from there on.  Waking up without a signal is possible. *)
Definition CondWait_begin (t : tid) (c : cond) : option (res cond) :=
  m ← MutexLock_lock t (c_mutex c);
  Some (let? m := MutexLock_unlock t m in Ret (MkCond m (c_waiting c ++ [t]) (c_woken c))).

Definition CondWait_end (t : tid) (c : cond) : option (res cond) :=
  if bool_decide (t ∈ c_woken c) then
    m ← MutexLock_lock t (c_mutex c);
    Some (let? m := MutexLock_unlock t m in Ret (MkCond m (c_waiting c) (remove_one t (c_woken c))))
  else None.

Definition pthread_cond_signal (c : cond) : cond :=
  match c_waiting c with
  | [] => c
  | t :: ts => MkCond (c_mutex c) ts (c_woken c ++ [t])
  end.

(** The loop of [CondSignal]. *)
Fixpoint signal_loop (cnt : nat) (c : cond) : cond :=
  match cnt with
  | O => c
  | S cnt => signal_loop cnt (pthread_cond_signal c)
  end.

Definition CondSignal (t : tid) (cnt : nat) (c : cond) : option (res cond) :=
  m ← MutexLock_lock t (c_mutex c);
  let c := signal_loop cnt (MkCond m (c_waiting c) (c_woken c)) in
  Some (let? m := MutexLock_unlock t (c_mutex c) in Ret (MkCond m (c_waiting c) (c_woken c))).
