(* ===== verification/ThreadProps.v ===== *)
(** * Properties of threads *)

From stdpp Require Import base list numbers strings relations.
From Stdlib Require Import Lia ZArith.
From S2P Require Import Prelude Locks Thread.

(** The new thread no longer uses the object, but for what its callback does. *)
Definition past_post (r : runner_pc) : bool := match r with RBegin _ | RCall _ | RDone => true | _ => false end.

Definition begun (cb : option callback) : nat := match cb with Some _ => 1 | None => 0 end.

(** The callback was begun, or is the next thing the new thread does. *)
Definition begins_once (cb : option callback) (r : runner_pc) (n : nat) : Prop :=
  match r with RBegin c => c = cb /\ n = O | _ => n = begun cb end.

Section Handshake.
Context (thread_id tid : Z) (Hid : thread_id <> 0) (cb : option callback) (name : bytes).

(** The object while the constructor waits. *)
Definition waiting_ok (r : runner_pc) (o : Thread) (n : nat) : Prop :=
  m_thread o = Some thread_id /\
  match r with
  | RNone => False
  | RStart | RId | RName | RSwap => sem_count (m_semaphore o) = 0 /\ m_cb o = cb /\ n = O
  | RPost c => sem_count (m_semaphore o) = 0 /\ c = cb /\ m_cb o = None /\ n = O
  | RBegin _ | RCall _ | RDone => sem_count (m_semaphore o) = 1 /\ m_cb o = None /\ begins_once cb r n
  end.

Definition returned_ok (r : runner_pc) (o : Thread) (n : nat) : Prop :=
  past_post r = true /\ m_cb o = None /\ begins_once cb r n /\
  (m_thread o = Some thread_id \/ (m_thread o = Some 0 /\ r = RDone)).

Definition thread_inv (w : world) : Prop :=
  match w_owner w with
  | OCreate => w = start cb name
  | OStore => False
  | OWait => exists o, w_obj w = Some o /\ waiting_ok (w_runner w) o (calls w)
  | OReturned => exists o, w_obj w = Some o /\ returned_ok (w_runner w) o (calls w)
  | ODestroyed => w_obj w = None /\ past_post (w_runner w) = true /\ begins_once cb (w_runner w) (calls w)
  | OThrew => w_obj w = None /\ w_runner w = RNone
  end.

(** Splits the moves of the new thread. *)
Ltac runner_cases r :=
  destruct r as [| | | | |[c|]|[c|]|[|[|nm|] c]|]; cbn in *; try done.

(** An owner that is in the constructor. *)
Lemma owner_preserved f w w' : thread_inv w -> owner_next thread_id true f false w = Some (Ret w') -> thread_inv w'.
Proof.
  destruct w as [obj owner r l k n]. destruct owner; cbn; try by destruct obj.
  - intros [= -> -> -> -> ->]. destruct f; intros [= <-]; [done|]. eexists. repeat split.
  - intros (o & -> & Ht & Ho). unfold Semaphore_wait.
    destruct (Z.ltb_spec 0 (sem_count (m_semaphore o))) as [Hs|]; [|done]. intros [= <-].
    cbn. exists (set_semaphore (MkSemaphore (sem_count (m_semaphore o) - 1)) o). split; [done|].
    runner_cases r; destruct_and?; try lia; repeat split; auto.
Qed.

Lemma join_preserved w w' : thread_inv w -> join w = Some (Ret w') -> thread_inv w'.
Proof.
  destruct w as [obj owner r l k n]. destruct owner; cbn; try done; try by destruct obj.
  intros (o & -> & Hp & Hc & Hn & Ht). destruct Ht as [Ht|[Ht Hr]]; rewrite Ht.
  - destruct (Z.eqb_spec thread_id 0); [done|]. destruct r; try done. intros [= <-]. cbn.
    exists (set_thread 0 o). repeat split; auto.
  - cbn. intros [= <-]. cbn. exists o. repeat split; auto.
Qed.

Lemma destroy_preserved w w' : thread_inv w -> destroy w = Some (Ret w') -> thread_inv w'.
Proof.
  destruct w as [obj owner r l k n]. destruct owner; cbn; try done; try by destruct obj.
  intros (o & -> & Hp & Hc & Hn & Ht). destruct (m_thread o); [|done]. intros [= <-]. done.
Qed.

Lemma set_name_obj nm l obj k l' obj' k' : SetName nm l obj k = Ret (l', obj', k') ->
  obj' = obj \/ exists o, obj = Some o /\ obj' = Some (set_thread_name nm o).
Proof.
  unfold SetName. cbn. destruct (cur_thread l); [|intros [= <- <- <-]; by left].
  destruct obj as [o|]; [|done]. cbn. destruct (m_thread o); [|done]. intros [= <- <- <-]. right. eauto.
Qed.

Lemma runner_preserved w w' : thread_inv w -> runner_next tid w = Some (Ret w') -> thread_inv w'.
Proof.
  destruct w as [obj owner r l k n]. intros Hi Hn.
  assert (forall nm c, r = RCall (CbSetName nm :: c) -> thread_inv w') as Hset.
  { intros nm c ->. cbn in Hn. injection Hn as Hn.
    destruct (SetName nm l obj k) as [[[l' obj'] k']| |] eqn:E; try done. cbn in Hn. injection Hn as <-.
    destruct (set_name_obj _ _ _ _ _ _ _ E) as [->|(o & -> & ->)]; destruct owner; cbn in *; try done;
      try (by destruct_and?; simplify_eq); destruct Hi as (? & Hobj & Hi); simplify_eq; eexists; (split; [done|]);
      first [exact Hi|destruct Hi as (? & ? & ? & [?|[? ?]]); [repeat split; auto|done]]. }
  destruct owner; cbn in Hi.
  - injection Hi as -> -> -> -> ->. done.
  - done.
  - destruct Hi as (o & -> & Ht & Ho).
    assert (forall s, sem_count s = 0 -> Semaphore_post s = Ret (MkSemaphore 1)) as Hpost
      by (intros [x] Hx; cbn in Hx; by subst x).
    runner_cases r; try (by eapply Hset); rewrite ?Ht, ?Hpost in Hn by (by destruct_and?);
      injection Hn as <-; cbn; eexists; (split; [done|]); unfold waiting_ok; cbn;
      destruct_and?; simplify_eq; repeat split; cbn; auto; by match goal with H : _ = cb |- _ => rewrite <-H end.
  - destruct Hi as (o & -> & Hp & Hc & Hn' & Ht).
    runner_cases r; try (by eapply Hset); injection Hn as <-; cbn; eexists; (split; [done|]);
      repeat split; auto; destruct Ht as [?|[? ?]]; auto; try done;
      by (destruct Hn' as [<- ->]; cbn).
  - destruct Hi as (-> & Hp & Hn'). runner_cases r; try (by eapply Hset); injection Hn as <-; try done;
      destruct Hn' as [<- ->]; repeat split; cbn; by match goal with H : _ = cb |- _ => rewrite <-H end.
  - destruct Hi as (-> & ->). done.
Qed.

Lemma thread_inv_reach w : reaches thread_id tid true false cb name w -> thread_inv w.
Proof.
  intros H. unfold reaches in H. remember (start cb name) as w0 eqn:E.
  assert (thread_inv w0) as H0 by (by subst w0). clear E.
  induction H as [|w0 w1 w H1 _ IH]; [done|]. apply IH. inversion H1 as [f i r Hi Hn|r Hn|r Hn|r Hn]; subst.
  - destruct i; [by specialize (Hi eq_refl)|]. by eapply owner_preserved.
  - by eapply join_preserved.
  - by eapply destroy_preserved.
  - by eapply runner_preserved.
Qed.

(** What is undefined in a state that is reached. *)
Lemma only_late_set_name w u : thread_inv w -> moves thread_id tid true false w (Undef u) ->
  u = UseAfterFree /\ w_obj w = None /\ exists nm c, w_runner w = RCall (CbSetName nm :: c).
Proof.
  destruct w as [obj owner r l k n]. intros Hi Hm. inversion Hm as [f i x Hx Hn|x Hn|x Hn|x Hn]; subst; clear Hm.
  - destruct i; [by specialize (Hx eq_refl)|].
    destruct owner; cbn in *; try by destruct obj.
    + injection Hi as -> -> -> -> ->. by destruct f.
    + destruct Hi as (o & -> & _). unfold Semaphore_wait in Hn. by destruct (0 <? _).
  - destruct owner; cbn in *; try by destruct obj. destruct Hi as (o & -> & _ & _ & _ & Ht).
    destruct Ht as [Ht|[Ht _]]; rewrite Ht in Hn; [|done]. by destruct (_ =? 0); destruct r.
  - destruct owner; cbn in *; try by destruct obj. destruct Hi as (o & -> & _ & _ & _ & Ht).
    by destruct Ht as [Ht|[Ht _]]; rewrite Ht in Hn.
  - assert (forall nm c, r = RCall (CbSetName nm :: c) -> (obj = None \/ exists o, obj = Some o /\ m_thread o <> None) ->
      u = UseAfterFree /\ obj = None /\ exists nm c, r = RCall (CbSetName nm :: c)) as Hset.
    { intros nm c -> Hobj. cbn in Hn. injection Hn as Hn. unfold SetName in Hn. cbn in Hn.
      destruct (cur_thread l); [|done]. destruct Hobj as [->|(o & -> & Ht)]; cbn in Hn; [injection Hn as <-; eauto|].
      by destruct (m_thread o). }
    destruct owner; cbn in Hi |- *.
    + injection Hi as -> -> -> -> ->. done.
    + done.
    + destruct Hi as (o & -> & Ht & Ho). runner_cases r; rewrite ?Ht in Hn; try done.
      * unfold Semaphore_post in Hn. by destruct (_ <? _).
      * unfold Semaphore_post in Hn. by destruct (_ <? _).
      * eapply Hset; [done|]. right. exists o. by rewrite Ht.
    + destruct Hi as (o & -> & Hp & Hc & Hn' & Ht). runner_cases r.
      eapply Hset; [done|]. right. exists o. by destruct Ht as [Ht|[Ht ?]]; rewrite Ht.
    + destruct Hi as (-> & Hp & Hn'). runner_cases r. eapply Hset; [done|]. by left.
    + destruct Hi as (-> & ->). done.
Qed.
End Handshake.

(** C16: the constructor of a thread hands over before it returns.  Under every interleaving
    of the constructor, [join] and the destructor with the new thread, where the id of the
    thread is stored before it runs and no signal interrupts: when the constructor has
    returned, the new thread has taken the callback out of the object, has begun it exactly
    once or is about to, and uses the object only where its callback calls [SetName]; a thread
    that was joined is done and has begun its callback; and no move is undefined but a
    [SetName] of the callback after the object is destroyed.  Without the two conditions other
    moves are undefined ([id_read_before_stored], [interrupted_constructor]). *)
Theorem thread_handshake thread_id tid cb name w : thread_id <> 0 ->
  reaches thread_id tid true false cb name w ->
  (w_owner w = OReturned \/ w_owner w = ODestroyed ->
    past_post (w_runner w) = true /\ begins_once cb (w_runner w) (calls w) /\ (forall o, w_obj w = Some o -> m_cb o = None)) /\
  (forall o, w_owner w = OReturned -> w_obj w = Some o -> m_thread o = Some 0 ->
    w_runner w = RDone /\ calls w = begun cb) /\
  (forall u, moves thread_id tid true false w (Undef u) ->
    u = UseAfterFree /\ w_obj w = None /\ exists nm c, w_runner w = RCall (CbSetName nm :: c)).
Proof.
  intros Hid Hr. pose proof (thread_inv_reach thread_id tid Hid cb name w Hr) as Hi.
  split; [|split; [|intros u; by apply only_late_set_name with cb name]].
  - destruct w as [obj owner r l k n]. cbn in *. intros [->| ->]; cbn in Hi.
    + destruct Hi as (o & -> & Hp & Hc & Hn & _). repeat split; auto. by intros ? [= <-].
    + destruct Hi as (-> & Hp & Hn). repeat split; auto. done.
  - destruct w as [obj owner r l k n]. cbn in *. intros o -> -> Ho. cbn in Hi.
    destruct Hi as (? & [= <-] & _ & _ & Hn & [Ht|[_ Hd]]); [congruence|]. by rewrite Hd in Hn.
Qed.

(** A thread that was made, worked and was joined. *)
Definition joined_world : world :=
  MkWorld (Some (MkThread (Some 0) None (str "io") (MkSemaphore 0))) OReturned RDone
    (MkLocals true (str "io") 42) (str "io") 1.

Lemma joined_reached : reaches 7 42 true false (Some [CbWork]) (str "io") joined_world.
Proof.
  eapply rtc_l; [eapply (move_owner _ _ _ _ _ false false); [done|reflexivity]|].
  do 4 (eapply rtc_l; [eapply move_runner; reflexivity|]).
  eapply rtc_l; [eapply move_runner; reflexivity|].
  eapply rtc_l; [eapply (move_owner _ _ _ _ _ false false); [done|reflexivity]|].
  do 3 (eapply rtc_l; [eapply move_runner; reflexivity|]).
  eapply rtc_l; [eapply move_join; reflexivity|]. apply rtc_refl.
Qed.

(** The constructor returned and the new thread has not begun its callback. *)
Definition handed_over : world :=
  MkWorld (Some (MkThread (Some 7) None (str "io") (MkSemaphore 0))) OReturned (RBegin (Some [CbWork]))
    (MkLocals true (str "io") 42) (str "io") 0.

Lemma handed_over_reached : reaches 7 42 true false (Some [CbWork]) (str "io") handed_over.
Proof.
  eapply rtc_l; [eapply (move_owner _ _ _ _ _ false false); [done|reflexivity]|].
  do 5 (eapply rtc_l; [eapply move_runner; reflexivity|]).
  eapply rtc_l; [eapply (move_owner _ _ _ _ _ false false); [done|reflexivity]|]. apply rtc_refl.
Qed.

Lemma thread_handshake_witness :
  begins_once (Some [CbWork]) (w_runner handed_over) (calls handed_over) /\
  w_runner joined_world = RDone /\ calls joined_world = 1%nat.
Proof.
  split.
  - destruct (thread_handshake 7 42 (Some [CbWork]) (str "io") handed_over ltac:(lia) handed_over_reached) as (H & _).
    exact (proj1 (proj2 (H (or_introl eq_refl)))).
  - destruct (thread_handshake 7 42 (Some [CbWork]) (str "io") joined_world ltac:(lia) joined_reached) as (_ & H & _).
    exact (H _ eq_refl eq_refl eq_refl).
Defined.

(** ** The constructor returns *)

Definition cb_length (cb : option callback) : nat := match cb with Some c => length c | None => 0 end.

(** The moves that are left to the two programs. *)
Definition runner_left (cb : option callback) (r : runner_pc) : nat :=
  match r with
  | RNone | RStart => 7 + cb_length cb
  | RId => 6 + cb_length cb
  | RName => 5 + cb_length cb
  | RSwap => 4 + cb_length cb
  | RPost c => 3 + cb_length c
  | RBegin c => 2 + cb_length c
  | RCall c => 1 + length c
  | RDone => 0
  end.

Definition moves_left (cb : option callback) (w : world) : nat :=
  (match w_owner w with OCreate => 2 | OStore | OWait => 1 | _ => 0 end + runner_left cb (w_runner w))%nat.

(** C18: the constructor of a thread always ends.  In every state that is reached before it
    has returned or thrown some program can move, and every move takes one from the finite
    number of moves that are left: whatever the order, the constructor neither deadlocks nor
    waits for ever. *)
Theorem constructor_ends thread_id tid cb name w : thread_id <> 0 ->
  reaches thread_id tid true false cb name w -> w_owner w = OCreate \/ w_owner w = OWait ->
  (exists r, moves thread_id tid true false w (Ret r)) /\
  (forall w', moves thread_id tid true false w (Ret w') -> (moves_left cb w' < moves_left cb w)%nat).
Proof.
  intros Hid Hr Ho. pose proof (thread_inv_reach thread_id tid Hid cb name w Hr) as Hi.
  destruct w as [obj owner r l k n]. cbn in Ho. destruct Ho as [->| ->]; cbn in Hi.
  - injection Hi as -> -> -> -> ->. split.
    + eexists. by apply (move_owner _ _ _ _ _ true false).
    + intros w' Hm. inversion Hm as [f i x Hx Hn|x Hn|x Hn|x Hn]; subst; try done.
      destruct f; injection Hn as <-; unfold moves_left; cbn; lia.
  - destruct Hi as (o & -> & Ht & Hs).
    assert (forall s, sem_count s = 0 -> Semaphore_post s = Ret (MkSemaphore 1)) as Hpost
      by (intros [x] Hx; cbn in Hx; by subst x).
    assert (forall i, sem_count (m_semaphore o) = 0 -> i = false -> Semaphore_wait i (m_semaphore o) = None) as Hblock
      by (intros i E ->; unfold Semaphore_wait; by rewrite E).
    split.
    + destruct (past_post r) eqn:Ep.
      * eexists. apply (move_owner _ _ _ _ _ false false); [done|]. cbn.
        assert (sem_count (m_semaphore o) = 1) as E by (destruct r; try done; by destruct_and?).
        unfold Semaphore_wait. rewrite E. reflexivity.
      * destruct r as [| | | | |[c|]| | |]; try done;
          (eexists; apply move_runner; cbn; rewrite ?Ht, ?Hpost by (by destruct_and?)); reflexivity.
    + intros w' Hm. inversion Hm as [f i x Hx Hn|x Hn|x Hn|x Hn]; subst; try done.
      * assert (i = false) as -> by (by destruct i; [specialize (Hx eq_refl)|]). cbn in Hn.
        unfold Semaphore_wait in Hn. destruct (0 <? _); [|done]. injection Hn as <-. unfold moves_left. cbn. lia.
      * destruct r as [| | | | |c|[c|]|[|[|nm|] c]|]; cbn in Hn; rewrite ?Ht, ?Hpost in Hn by (by destruct_and?); try done;
          try (injection Hn as <-; unfold moves_left; cbn; destruct_and?; subst; cbn; lia).
        -- injection Hn as Hn. destruct (SetName nm l (Some o) k); try done. cbn in Hn. injection Hn as <-.
           unfold moves_left. cbn. lia.
Qed.

Lemma constructor_ends_witness : (exists r, moves 7 42 true false (start None []) (Ret r)).
Proof.
  apply (constructor_ends 7 42 None [] (start None [])); [lia|apply rtc_refl|left; reflexivity].
Defined.

(** ** Undefined behaviour *)

(** Where the id of the thread is stored after the thread started, the new thread uses it
    before it is there. *)
Example id_read_before_stored : exists w,
  reaches 7 42 false false (Some []) (str "io") w /\ moves 7 42 false false w (Undef Uninitialized).
Proof.
  eexists. split.
  - eapply rtc_l; [eapply (move_owner _ _ _ _ _ false false); [done|reflexivity]|].
    do 2 (eapply rtc_l; [eapply move_runner; reflexivity|]). apply rtc_refl.
  - by apply move_runner.
Qed.

(** A signal that interrupts the wait makes the constructor throw while the new thread uses
    the object. *)
Example interrupted_constructor : exists w,
  reaches 7 42 true true (Some []) (str "io") w /\ moves 7 42 true true w (Undef UseAfterFree).
Proof.
  eexists. split.
  - eapply rtc_l; [eapply (move_owner _ _ _ _ _ false false); [done|reflexivity]|].
    eapply rtc_l; [eapply (move_owner _ _ _ _ _ false true); [done|reflexivity]|]. apply rtc_refl.
  - by apply move_runner.
Qed.

(** A callback that names its thread after the object is gone. *)
Example late_set_name : exists w,
  reaches 7 42 true false (Some [CbSetName (str "x")]) (str "io") w /\ moves 7 42 true false w (Undef UseAfterFree).
Proof.
  eexists. split.
  - eapply rtc_l; [eapply (move_owner _ _ _ _ _ false false); [done|reflexivity]|].
    do 5 (eapply rtc_l; [eapply move_runner; reflexivity|]).
    eapply rtc_l; [eapply (move_owner _ _ _ _ _ false false); [done|reflexivity]|].
    eapply rtc_l; [eapply move_runner; reflexivity|].
    eapply rtc_l; [eapply move_destroy; reflexivity|]. apply rtc_refl.
  - by apply move_runner.
Qed.

(** ** Condition variables *)

Lemma signal_loop_wakes cnt c :
  signal_loop cnt c = MkCond (c_mutex c) (drop cnt (c_waiting c)) (c_woken c ++ take cnt (c_waiting c)).
Proof.
  revert c; induction cnt as [|cnt IH]; intros [m ws ks]; cbn; [by rewrite app_nil_r|].
  rewrite IH. destruct ws as [|t ws]; cbn; [by rewrite drop_nil, take_nil|].
  by rewrite <-app_assoc.
Qed.

(** [CondSignal] wakes as many of the waiting threads as it is asked to, those that wait
    longest, and leaves the mutex free. *)
Lemma CondSignal_wakes t cnt c : mutex_owner (c_mutex c) = None ->
  CondSignal t cnt c =
  Some (Ret (MkCond (MkMutexLock None) (drop cnt (c_waiting c)) (c_woken c ++ take cnt (c_waiting c)))).
Proof.
  intros Hm. unfold CondSignal, MutexLock_lock. rewrite Hm. cbn. rewrite signal_loop_wakes. cbn.
  unfold MutexLock_unlock. cbn. by rewrite bool_decide_eq_true_2.
Qed.

(** A signal that comes before the wait is lost: the thread waits, however many there were. *)
Lemma signal_before_wait_lost t t' cnt c : mutex_owner (c_mutex c) = None -> c_waiting c = [] -> c_woken c = [] ->
  exists c1 c2, CondSignal t cnt c = Some (Ret c1) /\ CondWait_begin t' c1 = Some (Ret c2) /\ CondWait_end t' c2 = None.
Proof.
  intros Hm Hw Hk. rewrite CondSignal_wakes, Hw, Hk, drop_nil, take_nil by done.
  eexists _, _. split; [done|]. unfold CondWait_begin, MutexLock_lock, MutexLock_unlock. cbn.
  rewrite bool_decide_eq_true_2 by done. cbn. split; [done|]. unfold CondWait_end. cbn.
  rewrite bool_decide_eq_false_2; [done|]. by intros ?%not_elem_of_nil.
Qed.
