(* ===== verification/OrdSet.v ===== *)
(** * Ordered sets

    [std::set] with a comparator: a list in increasing order, searched by the comparator
    only, as the library does.  The comparator is an argument because the comparators of
    the program look at mutable objects; the lemmas hold for the elements on which it is
    a strict total order. *)

From stdpp Require Import base list numbers sets sorting.
From Stdlib Require Import Lia ZArith.
From S2P Require Import Prelude.

Section Operations.
Context {A : Type} (lt : A -> A -> bool).

(** The number of elements before [x]: the position [lower_bound] gives. *)
Fixpoint lower_bound (x : A) (l : list A) : nat :=
  match l with
  | [] => 0
  | y :: l' => if lt y x then S (lower_bound x l') else 0
  end%nat.

(** An iterator is a position; [length l] is [end()]. *)
Definition set_find (x : A) (l : list A) : nat :=
  let i := lower_bound x l in
  match l !! i with
  | Some y => if lt x y then length l else i
  | None => length l
  end.

Definition set_insert (x : A) (l : list A) : list A :=
  let i := lower_bound x l in
  if (set_find x l =? length l)%nat then take i l ++ x :: drop i l else l.

Definition set_erase (x : A) (l : list A) : list A :=
  let i := set_find x l in take i l ++ drop (S i) l.
End Operations.

(** A comparator that orders the elements satisfying [P]. *)
Class StrictTotal {A} (lt : A -> A -> bool) (P : A -> Prop) := {
  st_irrefl x : P x -> lt x x = false;
  st_trans x y z : P x -> P y -> P z -> lt x y = true -> lt y z = true -> lt x z = true;
  st_total x y : P x -> P y -> lt x y = false -> lt y x = false -> x = y }.

Section Facts.
Context {A : Type} (lt : A -> A -> bool) (P : A -> Prop) `{!StrictTotal lt P}.

Definition ordered (l : list A) : Prop := StronglySorted (fun x y => lt x y = true) l.

Lemma ordered_nodup l : Forall P l -> ordered l -> NoDup l.
Proof.
  intros HP Hs. revert HP. induction Hs as [|x l Hs IH Hx]; intros HP; constructor.
  - intros Hin. rewrite Forall_forall in Hx. apply Forall_cons in HP as [HPx _].
    specialize (Hx x Hin). rewrite st_irrefl in Hx by done. done.
  - apply IH. by apply Forall_cons in HP as [_ ?].
Qed.

(** The split of a sorted list around [x]. *)
Lemma lower_bound_split x l :
  P x -> Forall P l -> ordered l ->
  let i := lower_bound lt x l in
  (i <= length l)%nat /\ Forall (fun y => lt y x = true) (take i l) /\
  ((l = take i l ++ drop i l /\ Forall (fun y => lt x y = true) (drop i l)) \/
   exists r, drop i l = x :: r /\ Forall (fun y => lt x y = true) r).
Proof.
  intros Hx HP Hs. cbn zeta. revert HP. induction Hs as [|y l Hs IH Hy]; cbn [lower_bound].
  all: intros HP. { split_and!; [done|constructor|left; by split]. }
  apply Forall_cons in HP as [HPy HP]. specialize (IH HP) as (Hi & Ht & Hd).
  destruct (lt y x) eqn:Hyx; cbn [take drop length].
  - split_and!; [lia|by constructor|]. destruct Hd as [[Hl Hd]|Hd]; [left|by right].
    split; [cbn; by f_equal|done].
  - split_and!; [lia|constructor|]. destruct (lt x y) eqn:Hxy.
    + left. split; [done|]. constructor; [done|]. rewrite Forall_forall in Hy, HP |- *.
      intros z Hz. apply (st_trans x y z); auto.
    + right. exists l. by rewrite (st_total x y) by done.
Qed.

Lemma find_iff x l : P x -> Forall P l -> ordered l ->
  (set_find lt x l = length l /\ x ∉ l) \/
  ((set_find lt x l < length l)%nat /\ l !! set_find lt x l = Some x).
Proof.
  intros Hx HP Hs. destruct (lower_bound_split x l Hx HP Hs) as (Hi & Ht & Hd).
  unfold set_find. set (i := lower_bound lt x l) in *. clearbody i.
  assert (l !! i = head (drop i l)) as Hlk by (by rewrite head_lookup, lookup_drop, Nat.add_0_r).
  destruct Hd as [[Hl Hd]|(r & Hr & Hd)].
  - left. split.
    + rewrite Hlk. destruct (drop i l) as [|y k]; [done|]. cbn.
      apply Forall_cons in Hd as [-> _]. done.
    + rewrite Hl, elem_of_app. rewrite Forall_forall in Ht, Hd.
      intros [Hin|Hin]; [apply Ht in Hin|apply Hd in Hin];
        rewrite st_irrefl in Hin; done.
  - right. rewrite Hlk, Hr. cbn. rewrite st_irrefl by done. rewrite Hlk, Hr.
    split; [|done]. apply (f_equal length) in Hr. rewrite length_drop in Hr. simpl in Hr. lia.
Qed.

Lemma find_begin x l : P x -> Forall P (x :: l) -> ordered (x :: l) ->
  set_find lt x (x :: l) = 0%nat.
Proof. intros Hx _ _. unfold set_find. cbn. by rewrite st_irrefl; cbn; rewrite ?st_irrefl. Qed.

(** Concatenation of ordered pieces. *)
Lemma ordered_app l k :
  ordered (l ++ k) <->
  ordered l /\ ordered k /\ (forall x y, x ∈ l -> y ∈ k -> lt x y = true).
Proof.
  unfold ordered. induction l as [|a l IH]; cbn.
  - split; [|tauto]. intros. split_and!; [constructor|done|set_solver].
  - split.
    + intros H. apply StronglySorted_cons in H as [Ha H]. apply IH in H as (Hl & Hk & Hlk).
      rewrite Forall_app in Ha. destruct Ha as [Ha Hak]. rewrite Forall_forall in Hak.
      split_and!; [by constructor|done|]. intros x y [->|Hx]%elem_of_cons Hy; auto.
    + intros (H & Hk & Hlk). apply StronglySorted_cons in H as [Ha H]. constructor.
      * apply IH. split_and!; [done|done|]. intros x y Hx. apply Hlk. by right.
      * rewrite Forall_app, (Forall_forall _ k). split; [done|]. intros y. apply Hlk. by left.
Qed.

Lemma insert_ok x l : P x -> Forall P l -> ordered l ->
  ordered (set_insert lt x l) /\ (forall y, y ∈ set_insert lt x l <-> y = x \/ y ∈ l) /\
  Forall P (set_insert lt x l).
Proof.
  intros Hx HP Hs.
  assert (ordered (set_insert lt x l) /\ forall y, y ∈ set_insert lt x l <-> y = x \/ y ∈ l)
    as [Ho Hin].
  { unfold set_insert.
    destruct (find_iff x l Hx HP Hs) as [[-> Hni]|[Hlt Hf]].
    - rewrite Nat.eqb_refl. destruct (lower_bound_split x l Hx HP Hs) as (Hi & Ht & Hd).
      set (i := lower_bound lt x l) in *. clearbody i.
      destruct Hd as [[Hl Hd]|(r & Hr & _)].
      + rewrite Hl in Hs. apply ordered_app in Hs as (Hs1 & Hs2 & Hs12).
        rewrite Forall_forall in Ht, Hd. split.
        * apply ordered_app. split_and!; [done| |].
          { constructor; [done|]. by apply Forall_forall. }
          { intros a b Ha [->|Hb]%elem_of_cons; auto. }
        * intros y. rewrite elem_of_app, elem_of_cons. rewrite <- (take_drop i l) at 3.
          rewrite elem_of_app. tauto.
      + exfalso. apply Hni. rewrite <- (take_drop i l), Hr. set_solver.
    - destruct (Nat.eqb_spec (set_find lt x l) (length l)); [lia|]. split; [done|].
      intros y. split; [by right|]. intros [->|]; [|done]. by apply list_elem_of_lookup_2 in Hf. }
  split_and!; [done|done|]. rewrite Forall_forall in HP |- *. intros y [->|]%Hin; auto.
Qed.

Lemma erase_ok x l : P x -> Forall P l -> ordered l ->
  ordered (set_erase lt x l) /\ (forall y, y ∈ set_erase lt x l <-> y <> x /\ y ∈ l) /\
  Forall P (set_erase lt x l).
Proof.
  intros Hx HP Hs. unfold set_erase.
  destruct (find_iff x l Hx HP Hs) as [[-> Hni]|[Hlt Hf]].
  - rewrite take_ge, drop_ge, app_nil_r by lia. split_and!; [done| |done].
    intros y. split; [|tauto]. intros Hy. split; [|done]. by intros ->.
  - set (i := set_find lt x l) in *. clearbody i.
    assert (l = take i l ++ x :: drop (S i) l) as Hl by (by rewrite take_drop_middle).
    pose proof (ordered_nodup l HP Hs) as Hnd. rewrite Hl in Hnd, Hs, HP.
    apply NoDup_app in Hnd as (_ & Hdis & Hnd). apply NoDup_cons in Hnd as [Hnx _].
    apply ordered_app in Hs as (Hs1 & Hs2 & Hs12).
    apply StronglySorted_cons in Hs2 as [Hx2 Hs2].
    apply Forall_app in HP as [HP1 HP2]. apply Forall_cons in HP2 as [_ HP2].
    split_and!; [|intros y|by apply Forall_app].
    + apply ordered_app. split_and!; [done|done|]. intros a b Ha Hb. apply Hs12; [done|by right].
    + rewrite Hl at 3. rewrite !elem_of_app, elem_of_cons. split; [|intros [Hne [Hy|[->|Hy]]]; [by left|done|by right]].
      intros [Hy|Hy]; (split; [intros ->|tauto]); [|done]. apply (Hdis x Hy). by left.
Qed.

(** Two ordered lists with the same elements are the same list. *)
Lemma ordered_unique l k : Forall P l -> Forall P k -> ordered l -> ordered k ->
  (forall x, x ∈ l <-> x ∈ k) -> l = k.
Proof.
  intros HP HQ Hl. revert k HP HQ. induction Hl as [|a l Hl IH Ha]; intros k HP HQ Hk Heq.
  - destruct k as [|b k]; [done|]. exfalso. apply (not_elem_of_nil b), Heq. by left.
  - destruct k as [|b k]; [exfalso; apply (not_elem_of_nil a), Heq; by left|].
    pose proof (ordered_nodup _ HQ Hk) as Hnd2.
    apply StronglySorted_cons in Hk as [Hb Hk].
    apply Forall_cons in HP as [HPa HP], HQ as [HQb HQ].
    rewrite Forall_forall in Ha, Hb.
    assert (a = b) as <-.
    { assert (a = b \/ a ∈ k) as [?|Hin] by (apply elem_of_cons, Heq; by left); [done|].
      assert (b = a \/ b ∈ l) as [?|Hin'] by (apply elem_of_cons, Heq; by left); [done|].
      specialize (Ha b Hin'). specialize (Hb a Hin).
      pose proof (st_trans a b a HPa HQb HPa Ha Hb) as H. rewrite st_irrefl in H; done. }
    f_equal. apply IH; [done|done|done|]. intros x.
    apply NoDup_cons in Hnd2 as [Hn2 _].
    assert (a ∉ l) as Hn1 by (intros Hin; specialize (Ha a Hin); rewrite st_irrefl in Ha; done).
    specialize (Heq x). rewrite !elem_of_cons in Heq.
    split; intros Hx; [destruct (proj1 Heq) as [->|]|destruct (proj2 Heq) as [->|]]; tauto.
Qed.
End Facts.

(** ** Byte strings *)

(** The order of [strcmp] and [memcmp]: lexicographic, on unsigned characters. *)
Fixpoint lex_lt (a b : bytes) : bool :=
  match a, b with
  | _, [] => false
  | [], _ :: _ => true
  | x :: a', y :: b' => if x <? y then true else if y <? x then false else lex_lt a' b'
  end.

#[export] Instance lex_total : StrictTotal lex_lt (fun _ => True).
Proof.
  split.
  - intros x _. induction x as [|a x IH]; [done|]. cbn. by rewrite Z.ltb_irrefl.
  - intros x y z _ _ _. revert y z. induction x as [|a x IH]; intros [|b y] [|c z] H1 H2; try done.
    cbn in *. destruct (Z.ltb_spec a b), (Z.ltb_spec b a), (Z.ltb_spec b c), (Z.ltb_spec c b),
      (Z.ltb_spec a c), (Z.ltb_spec c a); try lia; try done. by eapply IH.
  - intros x y _ _. revert y. induction x as [|a x IH]; intros [|b y] H1 H2; try done.
    cbn in *. destruct (Z.ltb_spec a b), (Z.ltb_spec b a); try done; try lia.
    f_equal; [lia|by apply IH].
Qed.
