(* ===== verification/Timer.v ===== *)
(** * Timers ([timer.h], [timer.cc])

    A timer manager keeps shared [Timer] objects in a set ordered by deadline.  The
    objects are mutable and the comparator of the set looks into them, so the model has
    the store of the objects, and the set holds their addresses.  The clock reading of a
    call and the address of a new object are arguments. *)

From stdpp Require Import base list numbers gmap.
From Stdlib Require Import Lia ZArith.
From S2P Require Import Prelude OrdSet.

(** ** Data *)

(** A [Timer::ptr]; zero is the null pointer. *)
Abbreviation ptr := Z (only parsing).

(** A [std::function<void()>]: a function of the client, or the wrapper that
    [add_cond_timer] binds around one. *)
Inductive callback :=
| Fun (id : Z)
| CondFun (cond : Z) (cb : callback).

Record Timer := MkTimer {
  m_id : Z;
  m_interval : Z;
  m_loop : bool;
  m_next_time : Z;
  m_cb : option callback }.

Record TimerManager := MkTimerManager {
  heap : gmap ptr Timer;
  m_timers : list ptr;
  s_timer_id : Z;
  (** the calls of the virtual [on_timer_refresh] so far *)
  refreshes : Z }.

Definition new_TimerManager : TimerManager := MkTimerManager ∅ [] 0 0.

(** [time_t] arithmetic; overflow is undefined. *)
Definition time_t_of (z : Z) : res Z :=
  if (- 2 ^ 63 <=? z) && (z <? 2 ^ 63) then Ret z else Undef SignedOverflow.

Definition next_time (h : gmap ptr Timer) (p : ptr) : Z :=
  match h !! p with
  | Some t => m_next_time t
  | None => 0
  end.

Definition Comparator (h : gmap ptr Timer) (l r : ptr) : bool :=
  if r =? 0 then true
  else if l =? 0 then false
  else if next_time h r <? next_time h l then false
  else if next_time h l <? next_time h r then true
  else l <? r.

(** ** Operations *)

Definition on_timer_refresh (tm : TimerManager) : TimerManager :=
  MkTimerManager (heap tm) (m_timers tm) (s_timer_id tm) (refreshes tm + 1).

Definition set_timers (ts : list ptr) (tm : TimerManager) : TimerManager :=
  MkTimerManager (heap tm) ts (s_timer_id tm) (refreshes tm).

Definition put_timer (p : ptr) (t : Timer) (tm : TimerManager) : TimerManager :=
  MkTimerManager (<[p := t]> (heap tm)) (m_timers tm) (s_timer_id tm) (refreshes tm).

Definition find (p : ptr) (tm : TimerManager) : nat :=
  set_find (Comparator (heap tm)) p (m_timers tm).

Definition is_end (i : nat) (tm : TimerManager) : bool := (i =? length (m_timers tm))%nat.
Definition is_begin (i : nat) : bool := (i =? 0)%nat.

Definition insert_timer (p : ptr) (tm : TimerManager) : TimerManager :=
  set_timers (set_insert (Comparator (heap tm)) p (m_timers tm)) tm.

Definition erase_timer (p : ptr) (tm : TimerManager) : TimerManager :=
  set_timers (set_erase (Comparator (heap tm)) p (m_timers tm)) tm.

(** The constructor of [Timer]: [p] is the address of the object, [now] the value of
    [Millisecond()]. *)
Definition new_Timer (p now ms : Z) (loop : bool) (cb : option callback)
    : meth TimerManager unit :=
  fun tm =>
    let id := wrap 64 (s_timer_id tm + 1) in
    let tm := MkTimerManager (heap tm) (m_timers tm) id (refreshes tm) in
    match time_t_of (now + ms) with
    | Ret next => (Ret tt, put_timer p (MkTimer id ms loop next cb) tm)
    | Throw e => (Throw e, tm)
    | Undef u => (Undef u, tm)
    end.

Definition refresh_if_first (p : ptr) : meth TimerManager unit :=
  fun tm => (Ret tt, if is_begin (find p tm) then on_timer_refresh tm else tm).

Definition add_timer (p now interval : Z) (cb : option callback) (loop : bool)
    : meth TimerManager ptr :=
  let! _ := new_Timer p now interval loop cb in
  let! _ := (fun tm => (Ret tt, insert_timer p tm)) in
  let! _ := refresh_if_first p in
  ret p.

(** What a callback does when it runs: the functions of the client that are called,
    given which of the objects behind the weak pointers are still alive. *)
Fixpoint cond_timer_callback (alive : Z -> bool) (cb : callback) : list Z :=
  match cb with
  | Fun id => [id]
  | CondFun cond cb' => if alive cond then cond_timer_callback alive cb' else []
  end.

(** The argument [loop] is accepted and not passed on. *)
Definition add_cond_timer (p now interval : Z) (cb : callback) (cond : Z) (loop : bool)
    : meth TimerManager ptr :=
  add_timer p now interval (Some (CondFun cond cb)) false.

Definition is_valid_timer (p : ptr) (tm : TimerManager) : bool :=
  negb (is_end (find p tm) tm).

Definition set_interval (i : Z) (t : Timer) : Timer :=
  MkTimer (m_id t) i (m_loop t) (m_next_time t) (m_cb t).
Definition set_next_time (n : Z) (t : Timer) : Timer :=
  MkTimer (m_id t) (m_interval t) (m_loop t) n (m_cb t).
Definition clear_cb (t : Timer) : Timer :=
  MkTimer (m_id t) (m_interval t) (m_loop t) (m_next_time t) None.

Definition reset_timer (p interval : Z) : meth TimerManager unit :=
  fun tm =>
    match heap tm !! p with
    | None => (Undef NullDeref, tm)
    | Some t =>
        if m_interval t =? interval then (Ret tt, tm)
        else
          let tm := put_timer p (set_interval interval t) tm in
          let tm :=
            if is_end (find p tm) tm then insert_timer p tm
            else insert_timer p (erase_timer p tm) in
          refresh_if_first p tm
    end.

Definition cancel_timer (p : ptr) : meth TimerManager bool :=
  fun tm =>
    if p =? 0 then (Ret false, tm)
    else if is_end (find p tm) tm then (Ret false, tm)
    else
      let need_refresh := is_begin (find p tm) in
      let tm := erase_timer p tm in
      match heap tm !! p with
      | None => (Undef NullDeref, tm)
      | Some t =>
          let tm := put_timer p (clear_cb t) tm in
          (Ret true, if need_refresh then on_timer_refresh tm else tm)
      end.

(** The loop erases the first element until the set is empty. *)
Fixpoint cancel_loop (ts : list ptr) (tm : TimerManager) : res unit * TimerManager :=
  match ts with
  | [] => (Ret tt, tm)
  | p :: ts' =>
      match heap tm !! p with
      | None => (Undef NullDeref, tm)
      | Some t => cancel_loop ts' (set_timers ts' (put_timer p (clear_cb t) tm))
      end
  end.

Definition cancel_all_timer : meth TimerManager unit :=
  let! _ := (fun tm => cancel_loop (m_timers tm) tm) in
  fun tm => (Ret tt, on_timer_refresh tm).

Definition next_timer_left_time (now : Z) (tm : TimerManager) : res Z :=
  match m_timers tm with
  | [] => Ret (-1)
  | p :: _ =>
      let next := next_time (heap tm) p in
      if next <=? now then Ret 0
      else
        let? left_time := time_t_of (next - now) in
        Ret (if left_time <? 0 then 0 else left_time)
  end.

(** The first loop of [all_expired_cbs]. *)
Fixpoint expired_timers (h : gmap ptr Timer) (now : Z) (ts : list ptr) : list ptr :=
  match ts with
  | [] => []
  | p :: ts' => if now <? next_time h p then [] else p :: expired_timers h now ts'
  end.

Fixpoint expire_loop (now : Z) (ts : list ptr) (cbs : list (option callback))
    : meth TimerManager (list (option callback)) :=
  match ts with
  | [] => ret cbs
  | p :: ts' => fun tm =>
      let tm := erase_timer p tm in
      match heap tm !! p with
      | None => (Undef NullDeref, tm)
      | Some t =>
          let cbs := cbs ++ [m_cb t] in
          if m_loop t then
            match time_t_of (m_interval t + now) with
            | Ret n => expire_loop now ts' cbs (insert_timer p (put_timer p (set_next_time n t) tm))
            | Throw e => (Throw e, tm)
            | Undef u => (Undef u, tm)
            end
          else expire_loop now ts' cbs (put_timer p (clear_cb t) tm)
      end
  end.

Definition all_expired_cbs (now : Z) (cbs : list (option callback))
    : meth TimerManager (list (option callback)) :=
  fun tm =>
    match m_timers tm with
    | [] => (Ret cbs, tm)
    | _ => expire_loop now (expired_timers (heap tm) now (m_timers tm)) cbs tm
    end.
