(* ===== verification/TimerProps.v ===== *)
(** * Timers: invariant and theorems

    The set stays ordered by deadline although the comparator reads mutable objects,
    every call is safe, expiry fires exactly the due timers in deadline order, and the
    waiting time is the one after which the next timer is due. *)

From stdpp Require Import base list numbers gmap sets sorting.
From Stdlib Require Import Lia ZArith.
From S2P Require Import Prelude OrdSet Timer.

(** ** The order *)

#[export] Instance comparator_total h : StrictTotal (Comparator h) (fun p => p <> 0).
Proof.
  split; unfold Comparator; intros;
    repeat match goal with
    | H : context [Z.eqb ?a ?b] |- _ => destruct (Z.eqb_spec a b)
    | |- context [Z.eqb ?a ?b] => destruct (Z.eqb_spec a b)
    | H : context [Z.ltb ?a ?b] |- _ => destruct (Z.ltb_spec a b)
    | |- context [Z.ltb ?a ?b] => destruct (Z.ltb_spec a b)
    end; try done; lia.
Qed.

(** The order of the elements of a list depends on their deadlines only. *)
Lemma ordered_heap h h' l :
  (forall p, p ∈ l -> next_time h p = next_time h' p) ->
  ordered (Comparator h) l -> ordered (Comparator h') l.
Proof.
  intros Heq Hs. induction Hs as [|p l Hs IH Hp]; constructor.
  - apply IH. intros q Hq. apply Heq. by right.
  - rewrite Forall_forall in Hp |- *. intros q Hq. specialize (Hp q Hq). unfold Comparator in *.
    rewrite <- (Heq p), <- (Heq q) by (by constructor). done.
Qed.

(** Deadlines increase along an ordered list. *)
Lemma ordered_deadlines h p l q :
  Forall (fun p => p <> 0) (p :: l) -> ordered (Comparator h) (p :: l) -> q ∈ l ->
  next_time h p <= next_time h q.
Proof.
  intros Hnz [Hp _]%StronglySorted_cons Hq. rewrite Forall_forall in Hp, Hnz.
  specialize (Hp q Hq). pose proof (Hnz p ltac:(by left)). pose proof (Hnz q ltac:(by right)).
  unfold Comparator in Hp. destruct (Z.eqb_spec q 0), (Z.eqb_spec p 0); try done.
  destruct (Z.ltb_spec (next_time h q) (next_time h p)); [done|lia].
Qed.

(** ** The invariant *)

Definition timer_ok (h : gmap ptr Timer) (p : ptr) : Prop := p <> 0 /\ is_Some (h !! p).

Record timers_ok (tm : TimerManager) : Prop := {
  to_valid : Forall (timer_ok (heap tm)) (m_timers tm);
  to_ordered : ordered (Comparator (heap tm)) (m_timers tm);
  to_null : heap tm !! 0 = None;
  to_range p t : heap tm !! p = Some t -> sfits 64 (m_next_time t) }.

Lemma to_nonnull tm : timers_ok tm -> Forall (fun p => p <> 0) (m_timers tm).
Proof. intros [Hv _ _ _]. eapply Forall_impl; [done|]. by intros p []. Qed.

Lemma ok_nonnull tm p : timers_ok tm -> is_Some (heap tm !! p) -> p <> 0.
Proof. intros Hok [t Ht] ->. rewrite to_null in Ht; done. Qed.

Lemma next_time_insert h p t q :
  next_time (<[p := t]> h) q = if decide (q = p) then m_next_time t else next_time h q.
Proof.
  unfold next_time. destruct (decide (q = p)) as [->|]; [by rewrite lookup_insert_eq|].
  by rewrite lookup_insert_ne.
Qed.

(** Writing an object that keeps its deadline, or that is not in the set. *)
Lemma put_timer_ok p t tm :
  timers_ok tm -> p <> 0 -> (p ∉ m_timers tm \/ m_next_time t = next_time (heap tm) p) ->
  sfits 64 (m_next_time t) -> timers_ok (put_timer p t tm).
Proof.
  intros [Hv Ho Hn Hg] Hp Hcase Hfit. split; cbn.
  - eapply Forall_impl; [done|]. intros q [Hq Hs]. split; [done|].
    apply lookup_insert_is_Some'. by right.
  - apply ordered_heap with (heap tm); [|done]. intros q Hq. rewrite next_time_insert.
    destruct (decide (q = p)) as [->|]; [|done]. by destruct Hcase.
  - by rewrite lookup_insert_ne.
  - intros q u. destruct (decide (q = p)) as [->|]; [rewrite lookup_insert_eq; congruence|].
    rewrite lookup_insert_ne by done. apply Hg.
Qed.

Lemma insert_timer_ok p tm :
  timers_ok tm -> is_Some (heap tm !! p) ->
  timers_ok (insert_timer p tm) /\
  (forall q, q ∈ m_timers (insert_timer p tm) <-> q = p \/ q ∈ m_timers tm).
Proof.
  intros Hok Hp. pose proof (to_nonnull tm Hok) as Hnz. destruct Hok as [Hv Ho Hn Hg].
  assert (p <> 0) by (intros ->; rewrite Hn in Hp; by destruct Hp).
  destruct (insert_ok (Comparator (heap tm)) (fun p => p <> 0) p (m_timers tm)) as (Ho' & Hin & _);
    [done..|]. split; [|done]. split; cbn; [|done..].
  rewrite Forall_forall in Hv |- *. intros q [->|Hq]%Hin; [done|auto].
Qed.

Lemma erase_timer_ok p tm :
  timers_ok tm -> p <> 0 ->
  timers_ok (erase_timer p tm) /\
  (forall q, q ∈ m_timers (erase_timer p tm) <-> q <> p /\ q ∈ m_timers tm).
Proof.
  intros Hok Hp. pose proof (to_nonnull tm Hok) as Hnz. destruct Hok as [Hv Ho Hn Hg].
  destruct (erase_ok (Comparator (heap tm)) (fun p => p <> 0) p (m_timers tm)) as (Ho' & Hin & _);
    [done..|]. split; [|done]. split; cbn; [|done..].
  rewrite Forall_forall in Hv |- *. intros q [_ Hq]%Hin. auto.
Qed.

Lemma refresh_ok tm : timers_ok tm -> timers_ok (on_timer_refresh tm).
Proof. by intros [Hv Ho Hn Hg]. Qed.

Lemma refresh_if_first_ok p tm : timers_ok tm ->
  exists tm', refresh_if_first p tm = (Ret tt, tm') /\ timers_ok tm' /\
    heap tm' = heap tm /\ m_timers tm' = m_timers tm.
Proof.
  intros Hok. unfold refresh_if_first. eexists. split; [done|].
  destruct (is_begin (find p tm)); [|done]. split; [by apply refresh_ok|done].
Qed.

Lemma find_valid p tm : timers_ok tm -> p <> 0 ->
  is_end (find p tm) tm = true <-> p ∉ m_timers tm.
Proof.
  intros Hok Hp. unfold is_end, find.
  destruct (find_iff (Comparator (heap tm)) (fun p => p <> 0) p (m_timers tm)) as [[-> ?]|[Hlt Hf]];
    [done|by apply to_nonnull|by destruct Hok|by rewrite Nat.eqb_refl|].
  destruct (Nat.eqb_spec (set_find (Comparator (heap tm)) p (m_timers tm)) (length (m_timers tm)));
    [lia|]. apply list_elem_of_lookup_2 in Hf. by split.
Qed.

(** ** The first timer *)

Lemma head_min h l a :
  Forall (fun p => p <> 0) l -> ordered (Comparator h) l ->
  head l = Some a <-> a ∈ l /\ forall q, q ∈ l -> q = a \/ Comparator h a q = true.
Proof.
  intros Hnz Ho. split.
  - destruct l as [|b l]; [done|]. intros [= ->]. split; [by left|].
    apply StronglySorted_cons in Ho as [Hb _]. rewrite Forall_forall in Hb.
    intros q [->|Hq]%elem_of_cons; auto.
  - intros [Ha Hmin]. destruct l as [|b l]; [by apply elem_of_nil in Ha|]. cbn. f_equal.
    apply elem_of_cons in Ha as [->|Ha]; [done|].
    destruct (Hmin b) as [?|Hab]; [by left|done|].
    apply StronglySorted_cons in Ho as [Hb _]. rewrite Forall_forall in Hb, Hnz.
    specialize (Hb a Ha). assert (a <> 0) by (apply Hnz; by right).
    assert (b <> 0) by (apply Hnz; by left).
    pose proof (st_trans (P := fun p => p <> 0) a b a ltac:(done) ltac:(done) ltac:(done) Hab Hb) as H'.
    rewrite (st_irrefl (P := fun p => p <> 0)) in H'; done.
Qed.

Lemma find_begin_iff p tm : timers_ok tm -> p ∈ m_timers tm ->
  is_begin (find p tm) = true <-> head (m_timers tm) = Some p.
Proof.
  intros Hok Hp. pose proof (to_nonnull tm Hok) as Hnz.
  assert (p <> 0) by (rewrite Forall_forall in Hnz; auto). unfold is_begin, find.
  rewrite Nat.eqb_eq. split.
  - intros Hf. destruct (find_iff (Comparator (heap tm)) (fun p => p <> 0) p (m_timers tm))
      as [[_ ?]|[_ Hlk]]; [done|done|by destruct Hok|done|].
    rewrite Hf in Hlk. by rewrite head_lookup.
  - destruct (m_timers tm) as [|q l] eqn:Hl; [done|]. intros [= ->].
    apply (find_begin _ (fun p => p <> 0)); [done|done|]. rewrite <- Hl. by destruct Hok.
Qed.

(** What the waiting time depends on. *)
Lemma left_time_head now tm tm' :
  head (m_timers tm) = head (m_timers tm') ->
  (forall p, p ∈ m_timers tm -> next_time (heap tm) p = next_time (heap tm') p) ->
  next_timer_left_time now tm = next_timer_left_time now tm'.
Proof.
  unfold next_timer_left_time.
  destruct (m_timers tm) as [|p l], (m_timers tm') as [|p' l']; intros Hh Hn; try done.
  injection Hh as <-. by rewrite (Hn p) by (by left).
Qed.

(** A set to which only a later element was added keeps its first element. *)
Lemma head_extend h l l' p :
  Forall (fun p => p <> 0) l -> Forall (fun p => p <> 0) l' ->
  ordered (Comparator h) l -> ordered (Comparator h) l' ->
  (forall q, q ∈ l' <-> q = p \/ q ∈ l) -> head l' <> Some p -> head l' = head l.
Proof.
  intros Hnz Hnz' Ho Ho' Hin Hne.
  destruct l' as [|a l']; [exfalso; apply (not_elem_of_nil p), Hin; by left|].
  symmetry. apply (head_min h); [done|done|].
  destruct (proj1 (head_min h (a :: l') a Hnz' Ho')) as [Ha Hmin]; [done|].
  split; [|intros q Hq; apply Hmin, Hin; by right].
  apply Hin in Ha as [->|?]; [by destruct Hne|done].
Qed.

(** ** The operations keep the invariant *)

Lemma add_timer_ok p now interval cb loop tm :
  timers_ok tm -> p <> 0 -> heap tm !! p = None -> sfits 64 (now + interval) ->
  exists tm', add_timer p now interval cb loop tm = (Ret p, tm') /\ timers_ok tm' /\
    heap tm' = <[p := MkTimer (wrap 64 (s_timer_id tm + 1)) interval loop (now + interval) cb]>
      (heap tm) /\
    (forall q, q ∈ m_timers tm' <-> q = p \/ q ∈ m_timers tm) /\
    ((refreshes tm' = refreshes tm + 1 /\ head (m_timers tm') = Some p) \/
     (refreshes tm' = refreshes tm /\ head (m_timers tm') = head (m_timers tm))).
Proof.
  intros Hok Hp Hfresh [Hlo Hhi]. unfold add_timer, bind, new_Timer, time_t_of.
  destruct (Z.leb_spec (- 2 ^ 63) (now + interval)); [|lia].
  destruct (Z.ltb_spec (now + interval) (2 ^ 63)); [|lia]. cbn [andb].
  set (t := MkTimer _ interval loop _ cb).
  set (tm1 := put_timer p t _).
  assert (p ∉ m_timers tm) as Hni.
  { intros Hin. destruct Hok as [Hv _ _ _]. rewrite Forall_forall in Hv.
    destruct (Hv p Hin) as [_ [? Hs]]. congruence. }
  assert (timers_ok tm1) as Hok1 by (apply put_timer_ok; [by destruct Hok|done|by left|done]).
  destruct (insert_timer_ok p tm1 Hok1) as [Hok2 Hin2]; [cbn; by rewrite lookup_insert_eq|].
  set (tm2 := insert_timer p tm1) in *.
  unfold refresh_if_first, ret. eexists. split; [done|].
  assert (p ∈ m_timers tm2) as Hp2 by (apply Hin2; by left).
  pose proof (find_begin_iff p tm2 Hok2 Hp2) as Hb.
  assert (head (m_timers tm2) <> Some p -> head (m_timers tm2) = head (m_timers tm)) as Hh.
  { intros Hne. apply (head_extend (heap tm2) (m_timers tm) (m_timers tm2) p); try done;
      [by apply to_nonnull|by apply to_nonnull|by destruct Hok1|by destruct Hok2]. }
  destruct (is_begin (find p tm2)) eqn:E.
  - split_and!; [by apply refresh_ok|done|done|left; cbn; split; [done|by apply Hb]].
  - split_and!; [done|done|done|right; split; [done|]]. apply Hh. by rewrite <- Hb.
Qed.

Lemma reset_timer_ok p interval tm :
  timers_ok tm -> is_Some (heap tm !! p) ->
  exists tm', reset_timer p interval tm = (Ret tt, tm') /\ timers_ok tm' /\
    (forall q, next_time (heap tm') q = next_time (heap tm) q) /\
    ((tm' = tm /\ exists t, heap tm !! p = Some t /\ m_interval t = interval) \/
     ((forall q, q ∈ m_timers tm' <-> q = p \/ q ∈ m_timers tm) /\
      ((refreshes tm' = refreshes tm + 1 /\ head (m_timers tm') = Some p) \/
       (refreshes tm' = refreshes tm /\ head (m_timers tm') = head (m_timers tm))))).
Proof.
  intros Hok [t Ht]. unfold reset_timer. rewrite Ht.
  destruct (Z.eqb_spec (m_interval t) interval) as [Hi|Hi].
  { exists tm. split_and!; [done|done|done|left; eauto]. }
  assert (p <> 0) as Hp by (intros ->; rewrite to_null in Ht; done).
  set (tm1 := put_timer p (set_interval interval t) tm).
  assert (m_next_time t = next_time (heap tm) p) as Hnt by (unfold next_time; by rewrite Ht).
  assert (timers_ok tm1) as Hok1 by (apply put_timer_ok; [done|done|by right|exact (to_range tm Hok p t Ht)]).
  assert (forall q, next_time (heap tm1) q = next_time (heap tm) q) as Hn1.
  { intros q. cbn. rewrite next_time_insert. by destruct (decide (q = p)) as [->|]. }
  assert (is_Some (heap tm1 !! p)) as Hs1 by (cbn; by rewrite lookup_insert_eq).
  set (tm2 := if is_end (find p tm1) tm1 then _ else _).
  assert (timers_ok tm2 /\ heap tm2 = heap tm1 /\ refreshes tm2 = refreshes tm /\
    forall q, q ∈ m_timers tm2 <-> q = p \/ q ∈ m_timers tm) as (Hok2 & Hh2 & Hr2 & Hin2).
  { unfold tm2. destruct (is_end (find p tm1) tm1).
    - by destruct (insert_timer_ok p tm1 Hok1 Hs1).
    - destruct (erase_timer_ok p tm1 Hok1 Hp) as [Hok2 Hin2].
      destruct (insert_timer_ok p (erase_timer p tm1) Hok2 Hs1) as [Hok3 Hin3].
      split_and!; [done|done|done|]. intros q. rewrite Hin3, Hin2.
      change (m_timers tm1) with (m_timers tm). destruct (decide (q = p)); tauto. }
  clearbody tm2. unfold refresh_if_first. eexists. split; [done|].
  assert (p ∈ m_timers tm2) as Hp2 by (apply Hin2; by left).
  pose proof (find_begin_iff p tm2 Hok2 Hp2) as Hb.
  assert (head (m_timers tm2) <> Some p -> head (m_timers tm2) = head (m_timers tm)) as Hh.
  { intros Hne. apply (head_extend (heap tm1) (m_timers tm) (m_timers tm2) p); try done;
      [by apply to_nonnull|by apply to_nonnull|by destruct Hok1|].
    rewrite <- Hh2. by destruct Hok2. }
  destruct (is_begin (find p tm2)) eqn:E; (split_and!; [..|right; split; [done|]]).
  - by apply refresh_ok.
  - cbn. by rewrite Hh2.
  - left. cbn. rewrite Hr2. split; [done|by apply Hb].
  - done.
  - by rewrite Hh2.
  - right. split; [done|]. apply Hh. by rewrite <- Hb.
Qed.

Lemma cancel_timer_ok p tm :
  timers_ok tm ->
  exists r tm', cancel_timer p tm = (Ret r, tm') /\ timers_ok tm' /\
    (r = true <-> p ∈ m_timers tm) /\
    (forall q, next_time (heap tm') q = next_time (heap tm) q) /\
    (forall q, q ∈ m_timers tm' <-> q <> p /\ q ∈ m_timers tm) /\
    (r = true -> exists t, heap tm' !! p = Some (clear_cb t) /\ heap tm !! p = Some t) /\
    (refreshes tm' = refreshes tm + 1 \/
     (refreshes tm' = refreshes tm /\ head (m_timers tm') = head (m_timers tm))).
Proof.
  intros Hok. pose proof (to_nonnull tm Hok) as Hnz. unfold cancel_timer.
  assert (p ∉ m_timers tm -> exists r tm', (Ret false, tm) = (Ret r, tm') /\ timers_ok tm' /\
    (r = true <-> p ∈ m_timers tm) /\ (forall q, next_time (heap tm') q = next_time (heap tm) q) /\
    (forall q, q ∈ m_timers tm' <-> q <> p /\ q ∈ m_timers tm) /\
    (r = true -> exists t, heap tm' !! p = Some (clear_cb t) /\ heap tm !! p = Some t) /\
    (refreshes tm' = refreshes tm + 1 \/
     (refreshes tm' = refreshes tm /\ head (m_timers tm') = head (m_timers tm)))) as Habs.
  { intros Hn. exists false, tm. split_and!; try done; [intros q|by right].
    split; [|tauto]. intros Hq. split; [|done]. by intros ->. }
  destruct (Z.eqb_spec p 0) as [->|Hp].
  { apply Habs. rewrite Forall_forall in Hnz. intros H0. by destruct (Hnz 0). }
  pose proof (find_valid p tm Hok Hp) as Hfv. destruct (is_end (find p tm) tm) eqn:E.
  { apply Habs. by apply Hfv. }
  assert (p ∈ m_timers tm) as Hin.
  { destruct (decide (p ∈ m_timers tm)) as [|Hn]; [done|]. by apply Hfv in Hn. }
  destruct (erase_timer_ok p tm Hok Hp) as [Hok1 Hin1].
  assert (exists t, heap tm !! p = Some t) as [t Ht].
  { destruct Hok as [Hv _ _ _]. rewrite Forall_forall in Hv. by destruct (Hv p Hin). }
  change (heap (erase_timer p tm)) with (heap tm). rewrite Ht.
  set (tm1 := erase_timer p tm) in *. set (tm2 := put_timer p (clear_cb t) tm1).
  assert (timers_ok tm2) as Hok2.
  { apply put_timer_ok; [done|done| |exact (to_range tm Hok p t Ht)]. left. rewrite Hin1. tauto. }
  assert (forall q, next_time (heap tm2) q = next_time (heap tm) q) as Hnt.
  { intros q. cbn. rewrite next_time_insert. destruct (decide (q = p)) as [->|]; [|done].
    cbn. unfold next_time. by rewrite Ht. }
  pose proof (find_begin_iff p tm Hok Hin) as Hb.
  assert (heap tm2 !! p = Some (clear_cb t)) as Hcl by (cbn; by rewrite lookup_insert_eq).
  destruct (is_begin (find p tm)) eqn:E2; (eexists true, _; split; [done|]).
  - split_and!; [by apply refresh_ok|done|done|done|by exists t|by left].
  - split_and!; [done|done|done|done|by exists t|]. right. split; [done|]. symmetry.
    assert (head (m_timers tm) <> Some p) as Hne by (by rewrite <- Hb).
    apply (head_extend (heap tm) (m_timers tm1) (m_timers tm) p); try done;
      [by apply (to_nonnull tm1)|by destruct Hok1|by destruct Hok|].
    intros q. rewrite Hin1. destruct (decide (q = p)) as [->|]; tauto.
Qed.

Lemma cancel_loop_ok ts tm :
  timers_ok tm -> m_timers tm = ts ->
  exists tm', cancel_loop ts tm = (Ret tt, tm') /\ timers_ok tm' /\ m_timers tm' = [] /\
    refreshes tm' = refreshes tm /\
    (forall q, heap tm' !! q =
       if decide (q ∈ ts) then clear_cb <$> heap tm !! q else heap tm !! q).
Proof.
  revert tm. induction ts as [|p ts IH]; intros tm Hok Hts; cbn [cancel_loop].
  { by exists tm. }
  pose proof (to_nonnull tm Hok) as Hnz. pose proof Hok as [Hv Ho Hn Hg].
  rewrite Hts in Hv, Ho, Hnz. assert (p ∉ ts) as Hp.
  { pose proof (ordered_nodup _ _ (p :: ts) Hnz Ho) as Hnd. by apply NoDup_cons in Hnd as [? _]. }
  apply Forall_cons in Hv as [[Hp0 [t Ht]] Hv].
  rewrite Ht. set (tm1 := set_timers ts _).
  destruct (IH tm1) as (tm' & Heq & Hok' & Hnil & Hr & Hh); [|done|].
  { apply StronglySorted_cons in Ho as [_ Ho]. split; cbn.
    - eapply Forall_impl; [done|]. intros q [Hq Hs]. split; [done|].
      apply lookup_insert_is_Some'. by right.
    - apply ordered_heap with (heap tm); [|done]. intros q Hq. rewrite next_time_insert.
      destruct (decide (q = p)) as [->|]; done.
    - by rewrite lookup_insert_ne.
    - intros q u. destruct (decide (q = p)) as [->|]; [|rewrite lookup_insert_ne by done; apply Hg].
      rewrite lookup_insert_eq. intros [= <-]. exact (Hg p t Ht). }
  exists tm'. split_and!; [done|done|done|done|]. intros q. rewrite Hh. cbn.
  destruct (decide (q ∈ ts)) as [Hq|Hq].
  - rewrite lookup_insert_ne by (by intros ->).
    destruct (decide (q ∈ p :: ts)) as [|Hn']; [done|]. destruct Hn'. by right.
  - destruct (decide (q ∈ p :: ts)) as [[->|?]%elem_of_cons|Hn']; [|done|].
    + by rewrite lookup_insert_eq, Ht.
    + rewrite lookup_insert_ne; [done|]. intros ->. destruct Hn'. by left.
Qed.

(** ** Expiry *)

(** What expiry does to a timer that is due. *)
Definition expired (now : Z) (t : Timer) : Timer :=
  if m_loop t then set_next_time (m_interval t + now) t else clear_cb t.

Definition due (now : Z) (tm : TimerManager) (p : ptr) : bool := next_time (heap tm) p <=? now.

Definition loops (h : gmap ptr Timer) (p : ptr) : bool :=
  match h !! p with
  | Some t => m_loop t
  | None => false
  end.

Lemma expire_loop_ok now ts cbs tm :
  timers_ok tm -> NoDup ts -> (forall p, p ∈ ts -> p ∈ m_timers tm) ->
  (forall p t, p ∈ ts -> heap tm !! p = Some t -> sfits 64 (m_interval t + now)) ->
  exists tm', expire_loop now ts cbs tm =
      (Ret (cbs ++ ((fun p => heap tm !! p ≫= m_cb) <$> ts)), tm') /\
    timers_ok tm' /\ refreshes tm' = refreshes tm /\
    (forall q, heap tm' !! q =
       if decide (q ∈ ts) then expired now <$> heap tm !! q else heap tm !! q) /\
    (forall q, q ∈ m_timers tm' <-> q ∈ m_timers tm /\ (q ∉ ts \/ loops (heap tm) q = true)).
Proof.
  revert cbs tm. induction ts as [|p ts IH]; intros cbs tm Hok Hnd Hsub Hfit.
  { exists tm. cbn. rewrite app_nil_r. split_and!; try done.
    intros q. split; [|tauto]. intros. split; [done|]. left. apply not_elem_of_nil. }
  apply NoDup_cons in Hnd as [Hp Hnd].
  assert (p ∈ m_timers tm) as Hin by (apply Hsub; by left).
  pose proof Hok as [Hv _ _ _]. rewrite Forall_forall in Hv. destruct (Hv p Hin) as [Hp0 [t Ht]].
  destruct (erase_timer_ok p tm Hok Hp0) as [Hok1 Hin1]. set (tm1 := erase_timer p tm) in *.
  cbn [expire_loop]. fold tm1. change (heap tm1) with (heap tm). rewrite Ht.
  (* the state before the recursive call *)
  assert (exists tm2, timers_ok tm2 /\ refreshes tm2 = refreshes tm /\
    heap tm2 = <[p := expired now t]> (heap tm) /\
    (forall q, q ∈ m_timers tm2 <-> q ∈ m_timers tm /\ (q <> p \/ m_loop t = true)) /\
    forall cbs, (if m_loop t then match time_t_of (m_interval t + now) with
      | Ret n => expire_loop now ts cbs (insert_timer p (put_timer p (set_next_time n t) tm1))
      | Throw e => (Throw e, tm1) | Undef u => (Undef u, tm1) end
     else expire_loop now ts cbs (put_timer p (clear_cb t) tm1)) = expire_loop now ts cbs tm2)
    as (tm2 & Hok2 & Hr2 & Hh2 & Hin2 & Hstep).
  { destruct (Hfit p t) as [Hlo Hhi]; [by left|done|]. unfold expired, time_t_of.
    destruct (Z.leb_spec (- 2 ^ 63) (m_interval t + now)); [|lia].
    destruct (Z.ltb_spec (m_interval t + now) (2 ^ 63)); [|lia]. cbn [andb].
    assert (p ∉ m_timers tm1) as Hp1 by (rewrite Hin1; tauto).
    destruct (m_loop t) eqn:Hl.
    - set (t' := set_next_time _ t). set (tm3 := put_timer p t' tm1).
      assert (timers_ok tm3) as Hok3 by (apply put_timer_ok; [done|done|by left|done]).
      destruct (insert_timer_ok p tm3 Hok3) as [Hok4 Hin4]; [cbn; by rewrite lookup_insert_eq|].
      exists (insert_timer p tm3). split_and!; [done|done|done| |done]. intros q. rewrite Hin4.
      change (m_timers tm3) with (m_timers tm1). rewrite Hin1.
      destruct (decide (q = p)) as [->|]; tauto.
    - exists (put_timer p (clear_cb t) tm1). split_and!; [|done|done| |done].
      + apply put_timer_ok; [done|done|by left|exact (to_range tm Hok p t Ht)].
      + intros q. change (m_timers (put_timer p (clear_cb t) tm1)) with (m_timers tm1).
        rewrite Hin1. split; [tauto|]. intros [? [?|?]]; [tauto|done]. }
  rewrite Hstep.
  assert (forall q, q ∈ ts -> q <> p) as Hne by (by intros q Hq ->).
  destruct (IH (cbs ++ [m_cb t]) tm2) as (tm' & Heq & Hok' & Hr' & Hh' & Hin'); [done|done|..].
  { intros q Hq. apply Hin2. split; [apply Hsub; by right|left; auto]. }
  { intros q t' Hq. rewrite Hh2, lookup_insert_ne by (symmetry; auto). apply Hfit. by right. }
  exists tm'. rewrite Heq. split_and!; [|done|congruence| |].
  - f_equal. f_equal. rewrite <- app_assoc. cbn. rewrite Ht. cbn. do 2 f_equal.
    apply list_fmap_ext. intros i q Hq%list_elem_of_lookup_2.
    by rewrite Hh2, lookup_insert_ne by (symmetry; auto).
  - intros q. rewrite Hh', Hh2. destruct (decide (q ∈ ts)) as [Hq|Hq].
    + rewrite lookup_insert_ne by (symmetry; auto).
      destruct (decide (q ∈ p :: ts)) as [|Hn]; [done|]. destruct Hn. by right.
    + destruct (decide (q ∈ p :: ts)) as [[->|?]%elem_of_cons|Hn]; [|done|].
      * by rewrite lookup_insert_eq, Ht.
      * rewrite lookup_insert_ne; [done|]. intros ->. destruct Hn. by left.
  - intros q. rewrite Hin', Hin2, not_elem_of_cons. unfold loops. rewrite Hh2.
    destruct (decide (q = p)) as [->|Hqp].
    + rewrite lookup_insert_eq, Ht. unfold expired. destruct (m_loop t) eqn:Hl; cbn; rewrite ?Hl; tauto.
    + rewrite lookup_insert_ne by done. tauto.
Qed.

Lemma expired_prefix h now l :
  Forall (fun p => p <> 0) l -> ordered (Comparator h) l ->
  expired_timers h now l = base.filter (fun p => next_time h p <= now) l.
Proof.
  intros Hnz Ho. induction l as [|p l IH]; [done|]. cbn [expired_timers].
  pose proof Ho as [_ Ho']%StronglySorted_cons. pose proof Hnz as [_ Hnz']%Forall_cons.
  rewrite filter_cons. destruct (Z.ltb_spec now (next_time h p)), (decide (next_time h p <= now));
    try lia; [|by rewrite IH].
  symmetry. apply elem_of_nil_inv. intros q [Hq Hin]%list_elem_of_filter.
  pose proof (ordered_deadlines h p l q Hnz Ho Hin). lia.
Qed.

(** ** Sequences of calls *)

Inductive timer_op :=
| OpAdd (p now interval : Z) (cb : callback) (loop : bool)
| OpAddCond (p now interval : Z) (cb : callback) (cond : Z) (loop : bool)
| OpReset (p interval : Z)
| OpCancel (p : ptr)
| OpCancelAll
| OpExpire (now : Z).

Definition run_timer_op (op : timer_op) : meth TimerManager unit :=
  match op with
  | OpAdd p now interval cb loop =>
      let! _ := add_timer p now interval (Some cb) loop in ret tt
  | OpAddCond p now interval cb cond loop =>
      let! _ := add_cond_timer p now interval cb cond loop in ret tt
  | OpReset p interval => reset_timer p interval
  | OpCancel p => let! _ := cancel_timer p in ret tt
  | OpCancelAll => cancel_all_timer
  | OpExpire now => let! _ := all_expired_cbs now [] in ret tt
  end.

(** What the caller and the platform guarantee: a new object has a fresh address, a
    pointer the client passes is one it holds (or null, for a cancellation), and the
    deadlines are representable. *)
Definition op_valid (op : timer_op) (tm : TimerManager) : Prop :=
  match op with
  | OpAdd p now interval _ _ | OpAddCond p now interval _ _ _ =>
      p <> 0 /\ heap tm !! p = None /\ sfits 64 (now + interval)
  | OpReset p _ => is_Some (heap tm !! p)
  | OpCancel _ | OpCancelAll => True
  | OpExpire now =>
      forall p t, p ∈ m_timers tm -> heap tm !! p = Some t -> sfits 64 (m_interval t + now)
  end.

Inductive timers_reach : TimerManager -> Prop :=
| reach_new : timers_reach new_TimerManager
| reach_step tm op r tm' :
    timers_reach tm -> op_valid op tm -> run_timer_op op tm = (r, tm') -> timers_reach tm'.

Lemma all_expired_ok now cbs tm :
  timers_ok tm -> op_valid (OpExpire now) tm ->
  let E := base.filter (fun p => next_time (heap tm) p <= now) (m_timers tm) in
  exists tm', all_expired_cbs now cbs tm =
      (Ret (cbs ++ ((fun p => heap tm !! p ≫= m_cb) <$> E)), tm') /\
    timers_ok tm' /\ refreshes tm' = refreshes tm /\
    (forall q, heap tm' !! q =
       if decide (q ∈ E) then expired now <$> heap tm !! q else heap tm !! q) /\
    (forall q, q ∈ m_timers tm' <-> q ∈ m_timers tm /\ (q ∉ E \/ loops (heap tm) q = true)).
Proof.
  intros Hok Hval E. pose proof (to_nonnull tm Hok) as Hnz. pose proof Hok as [_ Ho _ _].
  assert (E = expired_timers (heap tm) now (m_timers tm)) as HE by (by rewrite expired_prefix).
  destruct (expire_loop_ok now E cbs tm Hok) as (tm' & Heq & Hrest).
  - apply NoDup_filter. by apply (ordered_nodup (Comparator (heap tm)) (fun p => p <> 0)).
  - by intros p [_ ?]%list_elem_of_filter.
  - intros p t [_ Hp]%list_elem_of_filter. by apply Hval.
  - exists tm'. split; [|done]. rewrite <- Heq. unfold all_expired_cbs. rewrite <- HE.
    destruct (m_timers tm) as [|p l] eqn:Hl; [|done].
    done.
Qed.

Lemma timer_op_ok op tm :
  timers_ok tm -> op_valid op tm ->
  exists tm', run_timer_op op tm = (Ret tt, tm') /\ timers_ok tm' /\
    (match op with OpExpire _ => True | _ =>
       refreshes tm' = refreshes tm ->
       forall now, next_timer_left_time now tm' = next_timer_left_time now tm end).
Proof.
  intros Hok Hval. destruct op as [p now iv cb loop|p now iv cb cond loop|p iv|p| |now]; cbn in *.
  1, 2: destruct Hval as (Hp & Hf & Hfit).
  1, 2: unfold add_cond_timer.
  1: destruct (add_timer_ok p now iv (Some cb) loop tm) as (tm' & Heq & Hok' & Hh & Hin & Hr);
       [done..|].
  2: destruct (add_timer_ok p now iv (Some (CondFun cond cb)) false tm)
       as (tm' & Heq & Hok' & Hh & Hin & Hr); [done..|].
  1, 2: exists tm'; rewrite (bind_ret _ _ _ _ _ Heq); split_and!; [done|done|];
    intros Hsame now'; destruct Hr as [[Hr _]|[_ Hr]]; [lia|]; symmetry;
    apply left_time_head; [done|]; intros q Hq; rewrite Hh, next_time_insert;
    destruct (decide (q = p)) as [->|]; [|done];
    destruct Hok as [Hv _ _ _]; rewrite Forall_forall in Hv; destruct (Hv p Hq) as [_ [? ?]]; congruence.
  - destruct (reset_timer_ok p iv tm Hok Hval) as (tm' & Heq & Hok' & Hn & Hcase).
    exists tm'. split_and!; [done|done|]. intros Hsame now. symmetry. apply left_time_head; [|done].
    destruct Hcase as [[-> _]|[_ [[Hr _]|[_ Hr]]]]; [done|lia|done].
  - destruct (cancel_timer_ok p tm Hok) as (r & tm' & Heq & Hok' & _ & Hn & _ & _ & Hr).
    exists tm'. rewrite (bind_ret _ _ _ _ _ Heq). split_and!; [done|done|]. intros Hsame now.
    symmetry. apply left_time_head; [|done]. destruct Hr as [Hr|[_ Hr]]; [lia|done].
  - destruct (cancel_loop_ok (m_timers tm) tm Hok eq_refl) as (tm' & Heq & Hok' & _ & Hr & _).
    unfold cancel_all_timer, bind. rewrite Heq.
    eexists. split_and!; [done|by apply refresh_ok|]. cbn. lia.
  - destruct (all_expired_ok now [] tm Hok Hval) as (tm' & Heq & Hok' & _).
    exists tm'. by rewrite (bind_ret _ _ _ _ _ Heq).
Qed.

Lemma reach_ok tm : timers_reach tm -> timers_ok tm.
Proof.
  induction 1 as [|tm op r tm' _ IH Hval Heq]; [by split; cbn; constructor|].
  destruct (timer_op_ok op tm IH Hval) as (tm2 & Heq2 & Hok & _). congruence.
Qed.

(** C27: the timer manager is safe and announces its deadlines: in every state reached by
    calls with valid arguments the set is ordered by deadline and holds live timers
    only, every further call returns, and a call that does not invoke
    [on_timer_refresh] leaves the time until the next timer as it was (expiry, which
    the event loop itself performs, aside). *)
Theorem timers_safe (tm : TimerManager) (op : timer_op) :
  timers_reach tm -> op_valid op tm ->
  timers_ok tm /\
  exists tm', run_timer_op op tm = (Ret tt, tm') /\ timers_ok tm' /\
    (match op with OpExpire _ => True | _ =>
       refreshes tm' = refreshes tm ->
       forall now, next_timer_left_time now tm' = next_timer_left_time now tm end).
Proof. intros Hr Hval. apply reach_ok in Hr. split; [done|by apply timer_op_ok]. Qed.

Definition t_ops : TimerManager :=
  (run_timer_op (OpAdd 8 100 50 (Fun 1) true)
    (run_timer_op (OpAdd 16 100 20 (Fun 2) false) new_TimerManager).2).2.

Lemma t_ops_reach : timers_reach t_ops.
Proof.
  refine (reach_step _ (OpAdd 8 100 50 (Fun 1) true) _ _ _ _ (surjective_pairing _)).
  - refine (reach_step _ (OpAdd 16 100 20 (Fun 2) false) _ _ reach_new _ (surjective_pairing _)).
    vm_compute. repeat split; discriminate.
  - vm_compute. repeat split; discriminate.
Defined.

Lemma t_ops_valid : op_valid (OpExpire 130) t_ops.
Proof.
  assert (forallb (fun p => match heap t_ops !! p with Some t => (m_interval t + 130 <? 1000)
    && (0 <? m_interval t) | None => true end) (m_timers t_ops) = true) as H by by vm_compute.
  rewrite forallb_forall in H. intros p t Hp Ht. specialize (H p (proj1 (list_elem_of_In _ _) Hp)).
  rewrite Ht in H. unfold sfits. lia.
Defined.

Lemma timers_safe_witness :
  timers_ok t_ops /\ exists tm', run_timer_op (OpExpire 130) t_ops = (Ret tt, tm') /\ timers_ok tm' /\ True.
Proof. apply (timers_safe t_ops (OpExpire 130) t_ops_reach t_ops_valid). Defined.

(** C26: expiry is exact: [all_expired_cbs] collects the callbacks of the timers whose
    deadline has passed, all of them and no others, in the order of their deadlines; a
    looping one is re-armed one interval from now, a one-shot one leaves the set and
    drops its callback, and every other timer is untouched. *)
Theorem expiry_exact (now : Z) (cbs : list (option callback)) (tm : TimerManager) :
  timers_reach tm -> op_valid (OpExpire now) tm ->
  exists E tm', all_expired_cbs now cbs tm =
      (Ret (cbs ++ ((fun p => heap tm !! p ≫= m_cb) <$> E)), tm') /\
    ordered (Comparator (heap tm)) E /\
    (forall p, p ∈ E <-> p ∈ m_timers tm /\ next_time (heap tm) p <= now) /\
    (forall p, heap tm' !! p =
       if decide (p ∈ E) then expired now <$> heap tm !! p else heap tm !! p) /\
    (forall p, p ∈ m_timers tm' <-> p ∈ m_timers tm /\ (p ∉ E \/ loops (heap tm) p = true)).
Proof.
  intros Hr Hval. apply reach_ok in Hr as Hok. pose proof (to_nonnull tm Hok) as Hnz.
  destruct (all_expired_ok now cbs tm Hok Hval) as (tm' & Heq & _ & _ & Hh & Hin).
  eexists _, tm'. split_and!; [done| | |done|done].
  - rewrite <- expired_prefix by (done || by destruct Hok). destruct Hok as [_ Ho _ _].
    clear -Ho. induction Ho as [|p l Ho IH Hp]; cbn [expired_timers]; [constructor|].
    destruct (now <? next_time (heap tm) p); constructor; [done|].
    rewrite Forall_forall in Hp |- *. intros q Hq. apply Hp. clear -Hq.
    induction l as [|a l IH]; [done|]. cbn [expired_timers] in Hq.
    destruct (now <? next_time (heap tm) a); [by apply elem_of_nil in Hq|].
    apply elem_of_cons in Hq as [->|Hq]; [by left|right; auto].
  - intros p. rewrite list_elem_of_filter. tauto.
Qed.

Lemma expiry_exact_witness :
  exists E tm', all_expired_cbs 130 [] t_ops =
      (Ret ([] ++ ((fun p => heap t_ops !! p ≫= m_cb) <$> E)), tm') /\
    ordered (Comparator (heap t_ops)) E /\
    (forall p, p ∈ E <-> p ∈ m_timers t_ops /\ next_time (heap t_ops) p <= 130) /\
    (forall p, heap tm' !! p =
       if decide (p ∈ E) then expired 130 <$> heap t_ops !! p else heap t_ops !! p) /\
    (forall p, p ∈ m_timers tm' <->
       p ∈ m_timers t_ops /\ (p ∉ E \/ loops (heap t_ops) p = true)).
Proof. apply (expiry_exact 130 [] t_ops t_ops_reach t_ops_valid). Defined.

(** The waiting time is right: it is [-1] exactly when there is no timer; otherwise
    some timer is due when it has passed, and none before. *)
Lemma left_time_ok (now : Z) (tm : TimerManager) :
  timers_ok tm -> 0 <= now ->
  exists left, next_timer_left_time now tm = Ret left /\
    ((left = -1 /\ m_timers tm = []) \/
     (0 <= left /\ (exists p, p ∈ m_timers tm /\ next_time (heap tm) p <= now + left) /\
      (forall p t, p ∈ m_timers tm -> now <= t < now + left -> t < next_time (heap tm) p))).
Proof.
  intros Hok Hnow. pose proof (to_nonnull tm Hok) as Hnz.
  destruct Hok as [Hv Ho _ Hg]. unfold next_timer_left_time.
  destruct (m_timers tm) as [|p l]; [exists (-1); by split; [|left]|].
  apply Forall_cons in Hv as [[_ [t Ht]] _].
  assert (next_time (heap tm) p = m_next_time t) as Hn by (unfold next_time; by rewrite Ht).
  destruct (Hg p t Ht) as [Hlo Hhi]. rewrite <- Hn in Hlo, Hhi.
  destruct (Z.leb_spec (next_time (heap tm) p) now) as [Hle|Hgt].
  { exists 0. split; [done|]. right. split_and!; [done| |intros; lia].
    exists p. split; [by left|lia]. }
  unfold time_t_of. destruct (Z.leb_spec (- 2 ^ 63) (next_time (heap tm) p - now)); [|lia].
  destruct (Z.ltb_spec (next_time (heap tm) p - now) (2 ^ 63)); [|lia]. cbn [andb res_bind].
  destruct (Z.ltb_spec (next_time (heap tm) p - now) 0); [lia|].
  eexists. split; [done|]. right. split_and!; [lia| |].
  - exists p. split; [by left|lia].
  - intros q u [->|Hq]%elem_of_cons Hu; [lia|].
    pose proof (ordered_deadlines (heap tm) p l q Hnz Ho Hq). lia.
Qed.

(** [reset_timer] does not reschedule: it stores the interval, keeps the old
    deadline, and (re-)enters the timer into the set whatever its state, so that a
    cancelled or expired timer fires again, at once and with its null callback. *)
Theorem reset_keeps_deadline (p interval : Z) (t : Timer) (tm : TimerManager) :
  timers_reach tm -> heap tm !! p = Some t -> m_interval t <> interval ->
  exists tm', reset_timer p interval tm = (Ret tt, tm') /\ p ∈ m_timers tm' /\
    heap tm' !! p = Some (MkTimer (m_id t) interval (m_loop t) (m_next_time t) (m_cb t)).
Proof.
  intros Hr Ht Hne. apply reach_ok in Hr as Hok.
  destruct (reset_timer_ok p interval tm Hok) as (tm' & Heq & Hok' & Hn & Hcase); [by eexists|].
  exists tm'. split; [done|]. destruct Hcase as [[_ (t' & Ht' & Hi)]|[Hin _]]; [congruence|].
  split; [apply Hin; by left|]. revert Heq. unfold reset_timer. rewrite Ht.
  destruct (Z.eqb_spec (m_interval t) interval); [done|]. unfold refresh_if_first.
  injection 1 as <-. destruct (is_end _ _), (is_begin _); cbn; by rewrite lookup_insert_eq.
Qed.

Lemma reset_keeps_deadline_witness :
  let t := MkTimer 2 50 true 150 (Some (Fun 1)) in
  exists tm', reset_timer 8 500 t_ops = (Ret tt, tm') /\ 8 ∈ m_timers tm' /\
    heap tm' !! 8 = Some (MkTimer 2 500 true 150 (Some (Fun 1))).
Proof.
  intros t. apply (reset_keeps_deadline 8 500 t t_ops t_ops_reach); [by vm_compute|done].
Defined.
