(* ===== verification/FDManager.v ===== *)
(** * Descriptor table ([fdmanager.h], [fdmanager.cc])

    The per-descriptor state that the hooked system calls consult, in a vector indexed
    by descriptor.  What [fstat] and [fcntl] say of a descriptor, and the configured
    default timeouts, are parameters. *)

From stdpp Require Import base list numbers.
From Stdlib Require Import Lia ZArith.
From S2P Require Import Prelude.

(** ** Data *)

Record FDEntity := MkFDEntity {
  m_is_init : bool;
  m_is_sys_nonblock : bool;
  m_is_user_nonblock : bool;
  m_is_socket : bool;
  m_is_closed : bool;
  m_fd : Z;
  m_connect_timeout : Z;
  m_recv_timeout : Z;
  m_send_timeout : Z;
  m_timer : Z }.

(** The members' initialisers. *)
Definition default_FDEntity (fd : Z) : FDEntity :=
  MkFDEntity false false false false false fd 0 0 0 0.

(** [m_datas]; a null pointer is [None]. *)
Abbreviation FDManager := (list (option FDEntity)).

Definition O_NONBLOCK : Z := 2048.

Section Platform.
(** [fstat]: [None] when it fails, else whether the descriptor is a socket; and the
    configuration variables. *)
Context (fstat : Z -> option bool).
Context (tcp_connect_timeout tcp_recv_timeout tcp_send_timeout : Z).

(** [init]: the flags of the descriptor as the kernel has them are passed and
    returned, since it may switch the socket to non-blocking. *)
Definition init (e : FDEntity) (flags : Z) : bool * FDEntity * Z :=
  if m_is_init e then (false, e, flags)
  else
    let '(is_init, is_socket) :=
      match fstat (m_fd e) with
      | None => (false, false)
      | Some sock => (true, sock)
      end in
    let '(sys_nonblock, flags) :=
      if is_socket
      then (true, if Z.land flags O_NONBLOCK =? 0 then Z.lor flags O_NONBLOCK else flags)
      else (false, flags) in
    (is_init,
     MkFDEntity is_init sys_nonblock false is_socket false (m_fd e) 0 0 0 (m_timer e),
     flags).

Definition new_FDEntity (fd flags : Z) : FDEntity * Z :=
  let '(_, e, flags) := init (default_FDEntity fd) flags in (e, flags).

Definition connect_timeout (e : FDEntity) : Z :=
  if m_connect_timeout e =? 0 then tcp_connect_timeout else m_connect_timeout e.
Definition recv_timeout (e : FDEntity) : Z :=
  if m_recv_timeout e =? 0 then tcp_recv_timeout else m_recv_timeout e.
Definition send_timeout (e : FDEntity) : Z :=
  if m_send_timeout e =? 0 then tcp_send_timeout else m_send_timeout e.

Definition set_sys_nonblock (flag : bool) (e : FDEntity) : FDEntity :=
  MkFDEntity (m_is_init e) flag (m_is_user_nonblock e) (m_is_socket e) (m_is_closed e)
    (m_fd e) (m_connect_timeout e) (m_recv_timeout e) (m_send_timeout e) (m_timer e).
Definition set_user_nonblock (flag : bool) (e : FDEntity) : FDEntity :=
  MkFDEntity (m_is_init e) (m_is_sys_nonblock e) flag (m_is_socket e) (m_is_closed e)
    (m_fd e) (m_connect_timeout e) (m_recv_timeout e) (m_send_timeout e) (m_timer e).
Definition set_connect_timeout (t : Z) (e : FDEntity) : FDEntity :=
  MkFDEntity (m_is_init e) (m_is_sys_nonblock e) (m_is_user_nonblock e) (m_is_socket e)
    (m_is_closed e) (m_fd e) t (m_recv_timeout e) (m_send_timeout e) (m_timer e).
Definition set_recv_timeout (t : Z) (e : FDEntity) : FDEntity :=
  MkFDEntity (m_is_init e) (m_is_sys_nonblock e) (m_is_user_nonblock e) (m_is_socket e)
    (m_is_closed e) (m_fd e) (m_connect_timeout e) t (m_send_timeout e) (m_timer e).
Definition set_send_timeout (t : Z) (e : FDEntity) : FDEntity :=
  MkFDEntity (m_is_init e) (m_is_sys_nonblock e) (m_is_user_nonblock e) (m_is_socket e)
    (m_is_closed e) (m_fd e) (m_connect_timeout e) (m_recv_timeout e) t (m_timer e).
Definition set_timer (t : Z) (e : FDEntity) : FDEntity :=
  MkFDEntity (m_is_init e) (m_is_sys_nonblock e) (m_is_user_nonblock e) (m_is_socket e)
    (m_is_closed e) (m_fd e) (m_connect_timeout e) (m_recv_timeout e) (m_send_timeout e) t.

(** ** The table *)

Definition new_FDManager : FDManager := zrepeat 60 None.

(** [std::vector::resize]. *)
Definition resize {A} (n : Z) (a : A) (l : list A) : list A :=
  ztake n l ++ zrepeat (n - zlen l) a.

(** [m_datas[fd] = e] and [m_datas[fd]]; an index outside the vector is undefined. *)
Definition store (fd : Z) (e : option FDEntity) : meth FDManager unit :=
  fun m =>
    if (0 <=? fd) && (fd <? zlen m) then (Ret tt, <[Z.to_nat fd := e]> m)
    else (Undef BufferOverflow, m).

Definition load (fd : Z) (m : FDManager) : res (option FDEntity) :=
  if fd <? 0 then Undef BufferOverflow
  else
    match m !! Z.to_nat fd with
    | None => Undef BufferOverflow
    | Some e => Ret e
    end.

Definition del_fd (fd : Z) : meth FDManager unit :=
  fun m => if zlen m <=? fd then (Ret tt, m) else store fd None m.

(** The new size: [size * 1.5] is a [double], compared before and truncated after the
    conversion to [size_t]. *)
Definition grown_size (size fd : Z) : Z :=
  if 2 * fd <? size * 3 then size * 3 / 2 else fd + 1.

Definition add_fd (fd flags : Z) : meth FDManager (option FDEntity) :=
  fun m =>
    let m := if zlen m <=? fd then resize (grown_size (zlen m) fd) None m else m in
    match store fd (Some (new_FDEntity fd flags).1) m with
    | (Ret _, m) => (load fd m, m)
    | (Throw e, m) => (Throw e, m)
    | (Undef u, m) => (Undef u, m)
    end.

Definition get_fd (fd : Z) (auto_create : bool) (flags : Z) : meth FDManager (option FDEntity) :=
  fun m =>
    if zlen m <=? fd then
      if auto_create then add_fd fd flags m else (Ret None, m)
    else
      match load fd m with
      | Ret (Some e) => (Ret (Some e), m)
      | Ret None => if auto_create then add_fd fd flags m else (Ret None, m)
      | Throw e => (Throw e, m)
      | Undef u => (Undef u, m)
      end.
End Platform.
