(* ===== verification/FDManagerProps.v ===== *)
(** * Descriptor table: the theorems

    The table is a map from descriptors to entities; growing it overruns the vector for
    one descriptor per odd size. *)

From stdpp Require Import base list numbers.
From Stdlib Require Import Lia ZArith.
From S2P Require Import Prelude FDManager.

Section Facts.
Context (fstat : Z -> option bool).

(** The abstract view: a partial map. *)
Definition entity (m : FDManager) (fd : Z) : option FDEntity :=
  if fd <? 0 then None else mjoin (m !! Z.to_nat fd).

(** The descriptors for which the growth of the table falls short. *)
Definition short_growth (m : FDManager) (fd : Z) : Prop :=
  zlen m <= fd /\ 2 * fd + 1 = 3 * zlen m.

Lemma zlen_resize {A} n (a : A) l : 0 <= n -> zlen (resize n a l) = n.
Proof.
  intros Hn. unfold resize. pose proof (zlen_nonneg l). zlist.
  destruct (Z.le_gt_cases n (zlen l)).
  - rewrite zlen_ztake by lia. unfold zrepeat, zlen at 1. rewrite length_replicate. lia.
  - rewrite ztake_all by lia. rewrite zlen_zrepeat by lia. lia.
Qed.

Lemma lookup_zlen {A} (l : list A) i : 0 <= i < zlen l -> is_Some (l !! Z.to_nat i).
Proof. unfold zlen. intros. apply lookup_lt_is_Some. lia. Qed.

Lemma load_ok fd m : 0 <= fd < zlen m -> load fd m = Ret (entity m fd).
Proof.
  intros Hfd. unfold load, entity. destruct (Z.ltb_spec fd 0); [lia|].
  destruct (lookup_zlen m fd Hfd) as [e ->]. by destruct e.
Qed.

Lemma store_ok fd e m : 0 <= fd < zlen m ->
  store fd e m = (Ret tt, <[Z.to_nat fd := e]> m).
Proof.
  intros. unfold store. destruct (Z.leb_spec 0 fd), (Z.ltb_spec fd (zlen m)); try lia. done.
Qed.

Lemma zlen_insert {A} i (a : A) l : zlen (<[i := a]> l) = zlen l.
Proof. unfold zlen. by rewrite length_insert. Qed.

Lemma entity_insert fd e m g : 0 <= fd < zlen m ->
  entity (<[Z.to_nat fd := e]> m) g = if decide (g = fd) then e else entity m g.
Proof.
  intros Hfd. unfold entity. destruct (Z.ltb_spec g 0); [by destruct (decide (g = fd)); [lia|]|].
  destruct (decide (g = fd)) as [->|].
  - rewrite list_lookup_insert_eq by (unfold zlen in *; lia). by destruct e.
  - by rewrite list_lookup_insert_ne by lia.
Qed.

Lemma entity_resize m n g : zlen m <= n -> entity (resize n None m) g = entity m g.
Proof.
  intros Hn. unfold entity, resize. destruct (Z.ltb_spec g 0); [done|].
  rewrite ztake_all by done. destruct (Z.lt_ge_cases g (zlen m)).
  - by rewrite lookup_app_l by (unfold zlen in *; lia).
  - rewrite lookup_app_r by (unfold zlen in *; lia).
    rewrite (lookup_ge_None_2 m) by (unfold zlen in *; lia). unfold zrepeat.
    destruct (replicate _ _ !! _) as [o|] eqn:E; [|done].
    by apply lookup_replicate in E as [-> _].
Qed.

(** The table after growing for [fd]. *)
Definition grow (fd : Z) (m : FDManager) : FDManager :=
  if zlen m <=? fd then resize (grown_size (zlen m) fd) None m else m.

Lemma grow_ok fd m : 0 <= fd ->
  (fd < zlen (grow fd m) <-> ~ short_growth m fd) /\ zlen m <= zlen (grow fd m) /\
  (forall g, entity (grow fd m) g = entity m g).
Proof.
  intros Hfd. pose proof (zlen_nonneg m). unfold grow, short_growth.
  destruct (Z.leb_spec (zlen m) fd) as [Hle|]; [|split_and!; [lia|lia|done]].
  unfold grown_size. destruct (Z.ltb_spec (2 * fd) (zlen m * 3)).
  - assert (zlen m <= zlen m * 3 / 2) by (Z.to_euclidean_division_equations; lia).
    rewrite zlen_resize by lia. split_and!; [|done|intros; by apply entity_resize].
    Z.to_euclidean_division_equations; lia.
  - rewrite zlen_resize by lia. split_and!; [lia|lia|intros; apply entity_resize; lia].
Qed.

Lemma add_fd_ok fd flags m : 0 <= fd ->
  (short_growth m fd -> (add_fd fstat fd flags m).1 = Undef BufferOverflow) /\
  (~ short_growth m fd ->
     exists m', add_fd fstat fd flags m = (Ret (Some (new_FDEntity fstat fd flags).1), m') /\
       (forall g, entity m' g =
          if decide (g = fd) then Some (new_FDEntity fstat fd flags).1 else entity m g)).
Proof.
  intros Hfd. destruct (grow_ok fd m Hfd) as (Hlt & Hlen & Hent).
  unfold add_fd. fold (grow fd m). split.
  - intros Hs. unfold store. destruct (Z.leb_spec 0 fd), (Z.ltb_spec fd (zlen (grow fd m)));
      try done; [tauto|lia..].
  - intros Hs. apply Hlt in Hs. rewrite store_ok by lia.
    rewrite load_ok by (rewrite zlen_insert; lia). rewrite entity_insert by lia.
    destruct (decide (fd = fd)); [|done]. eexists. split; [done|].
    intros g. rewrite entity_insert, Hent by lia. done.
Qed.
End Facts.

(** the table implements a map from descriptors to entities.  [add_fd] overwrites
    the entry of its descriptor with a freshly initialised entity, [del_fd] removes it,
    [get_fd] finds it and creates it only on demand; no other entry changes.  The one
    exception is a descriptor for which the vector grows to exactly its number (an odd
    size [n] and descriptor [(3 * n - 1) / 2]): there [add_fd] writes past the end. *)
Theorem fd_table_map (fstat : Z -> option bool) (fd flags : Z) (m : FDManager) :
  0 <= fd ->
  let fresh := (new_FDEntity fstat fd flags).1 in
  (short_growth m fd -> (add_fd fstat fd flags m).1 = Undef BufferOverflow) /\
  (~ short_growth m fd ->
     exists m', add_fd fstat fd flags m = (Ret (Some fresh), m') /\
       forall g, entity m' g = if decide (g = fd) then Some fresh else entity m g) /\
  (exists m', del_fd fd m = (Ret tt, m') /\
     forall g, entity m' g = if decide (g = fd) then None else entity m g) /\
  get_fd fstat fd false flags m = (Ret (entity m fd), m) /\
  get_fd fstat fd true flags m =
    match entity m fd with
    | Some e => (Ret (Some e), m)
    | None => add_fd fstat fd flags m
    end.
Proof.
  intros Hfd fresh. destruct (add_fd_ok fstat fd flags m Hfd) as [Hbad Hgood].
  assert (zlen m <= fd -> entity m fd = None) as Hout.
  { intros Hle. unfold entity. destruct (fd <? 0); [done|].
    by rewrite lookup_ge_None_2 by (unfold zlen in Hle; lia). }
  split_and!; [done|done| | |].
  - unfold del_fd. destruct (Z.leb_spec (zlen m) fd) as [Hle|Hlt].
    + exists m. split; [done|]. intros g. destruct (decide (g = fd)) as [->|]; auto.
    + rewrite store_ok by lia. eexists. split; [done|]. intros g. by apply entity_insert.
  - unfold get_fd. destruct (Z.leb_spec (zlen m) fd) as [Hle|Hlt]; [by rewrite Hout|].
    rewrite load_ok by lia. by destruct (entity m fd).
  - unfold get_fd. destruct (Z.leb_spec (zlen m) fd) as [Hle|Hlt]; [by rewrite Hout|].
    rewrite load_ok by lia. by destruct (entity m fd).
Qed.

(** The overrun is reached from an empty table by two connections. *)
Lemma fd_table_map_witness :
  let sock := fun _ => Some true in
  let m := (add_fd sock 90 0 new_FDManager).2 in
  short_growth m 136 /\ (add_fd sock 136 0 m).1 = Undef BufferOverflow.
Proof.
  intros sock m. assert (short_growth m 136) as Hs by (vm_compute; split; [discriminate|done]).
  split; [done|]. exact (proj1 (fd_table_map sock 136 0 m ltac:(done)) Hs).
Defined.
