(* ===== verification/Coroutine.v ===== *)
(** * Coroutines ([coroutine.h], [coroutine.cc])

    One thread and its coroutines, as a machine.  The client's code is a list of
    instructions; a saved [ucontext_t] is the list of the instructions still to be
    executed, so that [swapcontext] saves the rest of the running code and continues
    with another rest.  The thread-local pointers, the state of every coroutine and the
    order of the assignments around [swapcontext] are those of the source.
    [getcontext], [makecontext], [swapcontext] and [malloc] succeed. *)

From stdpp Require Import base list numbers gmap.
From Stdlib Require Import Lia ZArith.
From S2P Require Import Prelude.

(** ** Data *)

Inductive State := INIT | RUNNING | YIELD | TERMINAL | EXCEPT.

#[export] Instance state_eq_dec : EqDecision State.
Proof. solve_decision. Defined.

(** Client code: [IWork n] stands for code that does not touch coroutines.  The last two
    instructions are the rest of [resume] after its [swapcontext], and the rest of [Run]
    after the function returned. *)
Inductive instr :=
| IWork (n : Z)
| INew (p m : Z) (fn : list instr) (stack_size : Z)
| IYield
| IResume (p : Z)
| IReset (p : Z) (fn : list instr)
| IThrow
| IResumeTail
| IRunTail.

Record Coroutine := MkCoroutine {
  m_id : Z;
  m_fn : option (list instr);
  m_state : State;
  m_ctx : list instr;
  (** whether [m_stack] is not null: false for the main coroutine *)
  m_stack : bool;
  m_stack_size : Z }.

(** A thread; the pointers are addresses, zero is null. *)
Record Thread := MkThread {
  cos : gmap Z Coroutine;
  s_t_main_co : Z;
  s_t_running_co : Z;
  s_co_id : Z;
  s_co_cnt : Z;
  code : list instr;
  log : list Z;
  (** the value of the configuration variable *)
  g_co_stack_size : Z }.

Definition set_state (s : State) (c : Coroutine) : Coroutine :=
  MkCoroutine (m_id c) (m_fn c) s (m_ctx c) (m_stack c) (m_stack_size c).
Definition set_ctx (k : list instr) (c : Coroutine) : Coroutine :=
  MkCoroutine (m_id c) (m_fn c) (m_state c) k (m_stack c) (m_stack_size c).
Definition clear_fn (c : Coroutine) : Coroutine :=
  MkCoroutine (m_id c) None (m_state c) (m_ctx c) (m_stack c) (m_stack_size c).

(** [p->...]: the object behind a pointer is changed in place. *)
Definition update (p : Z) (f : Coroutine -> Coroutine) (t : Thread) : res Thread :=
  match cos t !! p with
  | None => Undef NullDeref
  | Some c =>
      Ret (MkThread (<[p := f c]> (cos t)) (s_t_main_co t) (s_t_running_co t)
             (s_co_id t) (s_co_cnt t) (code t) (log t) (g_co_stack_size t))
  end.

Definition set_running (p : Z) (t : Thread) : Thread :=
  MkThread (cos t) (s_t_main_co t) p (s_co_id t) (s_co_cnt t) (code t) (log t) (g_co_stack_size t).
Definition set_code (k : list instr) (t : Thread) : Thread :=
  MkThread (cos t) (s_t_main_co t) (s_t_running_co t) (s_co_id t) (s_co_cnt t) k (log t) (g_co_stack_size t).

(** [swapcontext (&p->m_ctx, &q->m_ctx)] with [k] the rest of the running code. *)
Definition swapcontext (p q : Z) (k : list instr) (t : Thread) : res Thread :=
  let? t := update p (set_ctx k) t in
  match cos t !! q with
  | None => Undef NullDeref
  | Some c => Ret (set_code (m_ctx c) t)
  end.

(** ** Operations *)

Definition CurCoroutineId (t : Thread) : Z :=
  match cos t !! s_t_running_co t with
  | Some c => m_id c
  | None => 0
  end.

Definition GetRunningCo (t : Thread) : Z :=
  if s_t_running_co t =? 0 then s_t_main_co t else s_t_running_co t.

(** The default constructor: the main coroutine of the thread, at address [m]. *)
Definition new_main (m : Z) (t : Thread) : Thread :=
  let id := wrap 64 (s_co_id t + 1) in
  MkThread (<[m := MkCoroutine id None RUNNING [] false 0]> (cos t)) m m id
    (s_co_cnt t + 1) (code t) (log t) (g_co_stack_size t).

(** [makecontext (&m_ctx, &Run, 0)]. *)
Definition make_ctx (fn : list instr) : list instr := fn ++ [IRunTail].

(** What [g_co_stack_size] is until the configuration changes it. *)
Definition default_stack_size : Z := 131072.

Definition new_Coroutine (p m : Z) (fn : list instr) (stack_size : Z) (t : Thread) : Thread :=
  let t := if s_t_main_co t =? 0 then new_main m t else t in
  let id := wrap 64 (s_co_id t + 1) in
  let size := if stack_size =? 0 then g_co_stack_size t else stack_size in
  MkThread (<[p := MkCoroutine id (Some fn) INIT (make_ctx fn) true size]> (cos t))
    (s_t_main_co t) (s_t_running_co t) id (s_co_cnt t + 1) (code t) (log t) (g_co_stack_size t).

(** The destructor of the coroutine at [p]: that of the main coroutine clears the
    pointers of the thread. *)
Definition destroy (p : Z) (t : Thread) : res Thread :=
  match cos t !! p with
  | None => Undef NullDeref
  | Some c =>
      let '(main, running) :=
        if m_stack c then (s_t_main_co t, s_t_running_co t) else (0, 0) in
      Ret (MkThread (delete p (cos t)) main running (s_co_id t) (s_co_cnt t - 1)
             (code t) (log t) (g_co_stack_size t))
  end.

(** [p->yield()] with [k] the code after the call. *)
Definition yield (p : Z) (k : list instr) (t : Thread) : res Thread :=
  if s_t_running_co t =? s_t_main_co t then Undef AssertFail
  else
    let? t := update p (set_state YIELD) t in
    let? t := update (s_t_main_co t) (set_state RUNNING) t in
    let t := set_running (s_t_main_co t) t in
    swapcontext p (s_t_main_co t) k t.

Definition can_resume (s : State) : bool :=
  match s with INIT | YIELD => true | _ => false end.

Definition resume (p : Z) (k : list instr) (t : Thread) : res Thread :=
  match cos t !! p with
  | None => Undef NullDeref
  | Some c =>
      if can_resume (m_state c) then
        let? t := update (s_t_main_co t) (set_state YIELD) t in
        let? t := update p (set_state RUNNING) t in
        let t := set_running p t in
        swapcontext (s_t_main_co t) p (IResumeTail :: k) t
      else Undef AssertFail
  end.

(** The static functions. *)
Definition Yield (k : list instr) (t : Thread) : res Thread :=
  if s_t_running_co t =? 0 then Ret t else yield (s_t_running_co t) k t.

Definition Resume (k : list instr) (t : Thread) : res Thread :=
  if s_t_main_co t =? 0 then Ret t else resume (s_t_main_co t) k t.

Definition resume_tail (t : Thread) : res Thread :=
  let? t := update (s_t_main_co t) (set_state RUNNING) t in
  Ret (set_running (s_t_main_co t) t).

(** The end of [Run], after a normal return and after an exception. *)
Definition run_tail (t : Thread) : res Thread :=
  let? t := update (s_t_running_co t) clear_fn t in
  let? t := update (s_t_running_co t) (set_state TERMINAL) t in
  swapcontext (s_t_running_co t) (s_t_main_co t) [] t.

Definition run_catch (t : Thread) : res Thread :=
  let? t := update (s_t_running_co t) (set_state EXCEPT) t in
  swapcontext (s_t_running_co t) (s_t_main_co t) [] t.

Definition can_reset (s : State) : bool :=
  match s with INIT | TERMINAL | EXCEPT => true | _ => false end.

Definition reset (p : Z) (fn : list instr) (t : Thread) : res (bool * Thread) :=
  match cos t !! p with
  | None => Undef NullDeref
  | Some c =>
      if negb (m_stack c) then Undef AssertFail
      else if can_reset (m_state c) then
        let id := wrap 64 (s_co_id t + 1) in
        Ret (true,
          MkThread (<[p := MkCoroutine id (Some fn) INIT (make_ctx fn) true (m_stack_size c)]>
                      (cos t))
            (s_t_main_co t) (s_t_running_co t) id (s_co_cnt t) (code t) (log t) (g_co_stack_size t))
      else Ret (false, t)
  end.

(** ** Execution *)

(** Whether the running code is below [Run], which catches every exception. *)
Definition in_Run (k : list instr) : bool :=
  existsb (fun i => match i with IRunTail => true | _ => false end) k.

(** One instruction of the running code. *)
Definition step (t : Thread) : res Thread :=
  match code t with
  | [] => Ret t
  | i :: k =>
      let t := set_code k t in
      match i with
      | IWork n =>
          Ret (MkThread (cos t) (s_t_main_co t) (s_t_running_co t) (s_co_id t) (s_co_cnt t)
                 (code t) (log t ++ [n]) (g_co_stack_size t))
      | INew p m fn size => Ret (new_Coroutine p m fn size t)
      | IYield => Yield k t
      | IResume p => resume p k t
      | IReset p fn => let? (_, t) := reset p fn t in Ret t
      | IThrow => if in_Run k then run_catch t else Throw logic_error
      | IResumeTail => resume_tail t
      | IRunTail => run_tail t
      end
  end.

Fixpoint run (n : nat) (t : Thread) : res Thread :=
  match n with
  | O => Ret t
  | S n' => let? t := step t in run n' t
  end.

(** A thread before its first coroutine, and a change of the configuration. *)
Definition new_Thread (k : list instr) : Thread := MkThread ∅ 0 0 0 0 k [] default_stack_size.

Definition configure (size : Z) (t : Thread) : Thread :=
  MkThread (cos t) (s_t_main_co t) (s_t_running_co t) (s_co_id t) (s_co_cnt t) (code t) (log t) size.
