(* ===== verification/CoroutineProps.v ===== *)
(** * Coroutines: the theorems

    What one [resume] does, as a whole, and the invariant on the states of the
    coroutines of a thread whose coroutines do not resume others. *)

From stdpp Require Import base list numbers gmap.
From Stdlib Require Import Lia ZArith.
From S2P Require Import Prelude Coroutine.

(** ** Running *)

Lemma run_add n n' t : run (n + n') t = let? t := run n t in run n' t.
Proof.
  revert t. induction n as [|n IH]; intros t; [done|]. cbn. destruct (step t); cbn; [apply IH|done..].
Qed.

Definition with_log (l : list Z) (t : Thread) : Thread :=
  MkThread (cos t) (s_t_main_co t) (s_t_running_co t) (s_co_id t) (s_co_cnt t) (code t) l (g_co_stack_size t).

(** Code that does not touch the coroutines. *)
Lemma run_works ns k t :
  code t = (IWork <$> ns) ++ k ->
  run (length ns) t = Ret (with_log (log t ++ ns) (set_code k t)).
Proof.
  revert t. induction ns as [|n ns IH]; intros t Hc; cbn [length run].
  - rewrite app_nil_r. cbn in Hc. subst k. by destruct t.
  - unfold step. rewrite Hc. cbn. rewrite IH by done. cbn. by rewrite <- app_assoc.
Qed.

Lemma update_ok p f t c :
  cos t !! p = Some c ->
  update p f t = Ret (MkThread (<[p := f c]> (cos t)) (s_t_main_co t) (s_t_running_co t)
    (s_co_id t) (s_co_cnt t) (code t) (log t) (g_co_stack_size t)).
Proof. intros Hc. unfold update. by rewrite Hc. Qed.

Lemma swapcontext_ok p q k t c d :
  cos t !! p = Some c -> cos t !! q = Some d -> p <> q ->
  swapcontext p q k t = Ret (MkThread (<[p := set_ctx k c]> (cos t)) (s_t_main_co t)
    (s_t_running_co t) (s_co_id t) (s_co_cnt t) (m_ctx d) (log t) (g_co_stack_size t)).
Proof.
  intros Hc Hd Hne. unfold swapcontext. rewrite (update_ok _ _ _ c) by done. cbn.
  by rewrite lookup_insert_ne, Hd.
Qed.

Lemma resume_ok p k t c mc :
  cos t !! p = Some c -> cos t !! s_t_main_co t = Some mc -> p <> s_t_main_co t ->
  can_resume (m_state c) = true ->
  resume p k t = Ret (MkThread
    (<[s_t_main_co t := set_ctx (IResumeTail :: k) (set_state YIELD mc)]>
       (<[p := set_state RUNNING c]> (cos t)))
    (s_t_main_co t) p (s_co_id t) (s_co_cnt t) (m_ctx c) (log t) (g_co_stack_size t)).
Proof.
  intros Hc Hm Hne Hr. unfold resume. rewrite Hc, Hr.
  rewrite (update_ok _ _ _ mc) by done. cbn.
  rewrite (update_ok _ _ _ c) by (cbn; by rewrite lookup_insert_ne). cbn.
  erewrite swapcontext_ok; cbn; [|by rewrite lookup_insert_ne, lookup_insert_eq
    |by rewrite lookup_insert_eq|done].
  do 2 f_equal. apply map_eq. intros q. destruct (decide (q = p)), (decide (q = s_t_main_co t));
    subst; by simplify_map_eq.
Qed.

Lemma yield_ok k t c mc :
  let p := s_t_running_co t in
  cos t !! p = Some c -> cos t !! s_t_main_co t = Some mc -> p <> s_t_main_co t ->
  yield p k t = Ret (MkThread
    (<[p := set_ctx k (set_state YIELD c)]>
       (<[s_t_main_co t := set_state RUNNING mc]> (cos t)))
    (s_t_main_co t) (s_t_main_co t) (s_co_id t) (s_co_cnt t) (m_ctx mc) (log t) (g_co_stack_size t)).
Proof.
  intros p Hc Hm Hne. unfold yield. destruct (Z.eqb_spec (s_t_running_co t) (s_t_main_co t)); [done|].
  rewrite (update_ok _ _ _ c) by done. cbn.
  rewrite (update_ok _ _ _ mc) by (cbn; by rewrite lookup_insert_ne). cbn.
  erewrite swapcontext_ok; cbn; [|by rewrite lookup_insert_ne, lookup_insert_eq
    |by rewrite lookup_insert_eq|done].
  do 2 f_equal. apply map_eq. intros q. destruct (decide (q = p)), (decide (q = s_t_main_co t));
    subst; by simplify_map_eq.
Qed.

Lemma run_tail_ok t c mc :
  let p := s_t_running_co t in
  cos t !! p = Some c -> cos t !! s_t_main_co t = Some mc -> p <> s_t_main_co t ->
  run_tail t = Ret (MkThread
    (<[p := set_ctx [] (set_state TERMINAL (clear_fn c))]> (cos t))
    (s_t_main_co t) p (s_co_id t) (s_co_cnt t) (m_ctx mc) (log t) (g_co_stack_size t)).
Proof.
  intros p Hc Hm Hne. unfold run_tail.
  rewrite (update_ok _ _ _ c) by done. cbn.
  rewrite (update_ok _ _ _ (clear_fn c)) by (cbn; by rewrite lookup_insert_eq). cbn.
  erewrite swapcontext_ok; cbn; [|by rewrite lookup_insert_eq
    |by rewrite !lookup_insert_ne by done|done].
  do 2 f_equal. by rewrite !insert_insert_eq.
Qed.

Lemma run_catch_ok t c mc :
  let p := s_t_running_co t in
  cos t !! p = Some c -> cos t !! s_t_main_co t = Some mc -> p <> s_t_main_co t ->
  run_catch t = Ret (MkThread
    (<[p := set_ctx [] (set_state EXCEPT c)]> (cos t))
    (s_t_main_co t) p (s_co_id t) (s_co_cnt t) (m_ctx mc) (log t) (g_co_stack_size t)).
Proof.
  intros p Hc Hm Hne. unfold run_catch.
  rewrite (update_ok _ _ _ c) by done. cbn.
  erewrite swapcontext_ok; cbn; [|by rewrite lookup_insert_eq
    |by rewrite !lookup_insert_ne by done|done].
  do 2 f_equal. by rewrite !insert_insert_eq.
Qed.

Lemma resume_tail_ok t mc :
  cos t !! s_t_main_co t = Some mc ->
  resume_tail t = Ret (MkThread (<[s_t_main_co t := set_state RUNNING mc]> (cos t))
    (s_t_main_co t) (s_t_main_co t) (s_co_id t) (s_co_cnt t) (code t) (log t) (g_co_stack_size t)).
Proof. intros Hm. unfold resume_tail. by rewrite (update_ok _ _ _ mc). Qed.

(** ** One resume *)

(** The coroutine after its code stopped: at a [Yield], at the end of its function, or
    by an exception. *)
Definition stopped (stop : list instr) (c : Coroutine) : option Coroutine :=
  match stop with
  | IYield :: rest => Some (set_ctx rest (set_state YIELD c))
  | [IRunTail] => Some (set_ctx [] (set_state TERMINAL (clear_fn c)))
  | IThrow :: rest => if in_Run rest then Some (set_ctx [] (set_state EXCEPT c)) else None
  | _ => None
  end.

(** The step at which the coroutine stops brings back the code after the [resume]. *)
Lemma stop_step t c mc k stop c' :
  let p := s_t_running_co t in
  cos t !! p = Some (set_state RUNNING c) -> cos t !! s_t_main_co t = Some mc ->
  p <> s_t_main_co t -> p <> 0 -> m_ctx mc = IResumeTail :: k ->
  code t = stop -> stopped stop c = Some c' ->
  run 2 t = Ret (MkThread (<[p := c']> (<[s_t_main_co t := set_state RUNNING mc]> (cos t)))
    (s_t_main_co t) (s_t_main_co t) (s_co_id t) (s_co_cnt t) k (log t) (g_co_stack_size t)).
Proof.
  intros p Hp Hm Hne H0 Hctx Hcode Hstop. unfold run, step. rewrite Hcode.
  destruct stop as [|i rest]; [done|]. unfold stopped in Hstop.
  destruct i; try done.
  - injection Hstop as <-. unfold Yield. destruct (Z.eqb_spec (s_t_running_co (set_code rest t)) 0); [done|].
    rewrite (yield_ok rest (set_code rest t) (set_state RUNNING c) mc) by done.
    cbn [res_bind code]. rewrite Hctx. erewrite resume_tail_ok by (cbn; by simplify_map_eq).
    cbn. do 2 f_equal. apply map_eq. intros q. fold p.
    destruct (decide (q = p)), (decide (q = s_t_main_co t)); subst; by simplify_map_eq.
  - destruct (in_Run rest); [|done]. injection Hstop as <-.
    rewrite (run_catch_ok (set_code rest t) (set_state RUNNING c) mc) by done.
    cbn [res_bind code]. rewrite Hctx. erewrite resume_tail_ok by (cbn; by simplify_map_eq).
    cbn. do 2 f_equal. apply map_eq. intros q. fold p.
    destruct (decide (q = p)), (decide (q = s_t_main_co t)); subst; by simplify_map_eq.
  - destruct rest; [|done]. injection Hstop as <-.
    rewrite (run_tail_ok (set_code [] t) (set_state RUNNING c) mc) by done.
    cbn [res_bind code]. rewrite Hctx. erewrite resume_tail_ok by (cbn; by simplify_map_eq).
    cbn. do 2 f_equal. apply map_eq. intros q. fold p.
    destruct (decide (q = p)), (decide (q = s_t_main_co t)); subst; by simplify_map_eq.
Qed.

(** C25: [resume] is a call that runs the coroutine up to where it stops and returns: a
    coroutine in state INIT or YIELD continues at its saved context, runs up to its next
    [Yield], the end of its function or an exception, and control is back after the
    [resume] with the caller RUNNING and current again, the coroutine YIELD with the rest
    of its code saved, TERMINAL with its function dropped, or EXCEPT, and no other
    coroutine changed. *)
Theorem resume_segment (t : Thread) (p : Z) (k stop : list instr) (ns : list Z)
    (c mc c' : Coroutine) :
  code t = IResume p :: k ->
  cos t !! p = Some c -> cos t !! s_t_main_co t = Some mc ->
  p <> s_t_main_co t -> p <> 0 ->
  can_resume (m_state c) = true -> m_ctx c = (IWork <$> ns) ++ stop ->
  stopped stop c = Some c' ->
  exists t', run (1 + (length ns + 2)) t = Ret t' /\
    code t' = k /\ s_t_running_co t' = s_t_main_co t /\ s_t_main_co t' = s_t_main_co t /\
    log t' = log t ++ ns /\ cos t' !! p = Some c' /\
    (exists mc', cos t' !! s_t_main_co t = Some mc' /\ m_state mc' = RUNNING) /\
    (forall q, q <> p -> q <> s_t_main_co t -> cos t' !! q = cos t !! q).
Proof.
  intros Hcode Hc Hm Hne H0 Hres Hctx Hstop. rewrite run_add. cbn [run].
  unfold step at 1. rewrite Hcode.
  rewrite (resume_ok p k (set_code k t) c mc) by done. cbn [res_bind]. rewrite run_add.
  erewrite run_works by (cbn [code]; exact Hctx). cbn [res_bind].
  erewrite (stop_step _ c (set_ctx (IResumeTail :: k) (set_state YIELD mc)) k stop c');
    cbn -[lookup insert]; try done; [|by simplify_map_eq|by simplify_map_eq].
  eexists. split; [done|]. cbn -[lookup insert]. split_and!; try done.
  - by simplify_map_eq.
  - eexists. split; [by simplify_map_eq|done].
  - intros q Hq Hq'. by simplify_map_eq.
Qed.

Definition demo_thread : Thread :=
  MkThread {[ 1 := MkCoroutine 1 None RUNNING [] false 0;
              2 := MkCoroutine 2 None YIELD ([IWork 7; IWork 8] ++ [IYield; IWork 9; IRunTail]) true 65536 ]}
    1 1 2 2 [IResume 2; IWork 5] [] default_stack_size.

Lemma resume_segment_witness :
  exists t', run (1 + (2 + 2)) demo_thread = Ret t' /\ code t' = [IWork 5] /\
    s_t_running_co t' = 1 /\ s_t_main_co t' = 1 /\ log t' = [] ++ [7; 8] /\
    cos t' !! 2 = Some (MkCoroutine 2 None YIELD [IWork 9; IRunTail] true 65536) /\
    (exists mc', cos t' !! 1 = Some mc' /\ m_state mc' = RUNNING) /\
    (forall q, q <> 2 -> q <> 1 -> cos t' !! q = cos demo_thread !! q).
Proof.
  apply (resume_segment demo_thread 2 [IWork 5] [IYield; IWork 9; IRunTail] [7; 8]
    (MkCoroutine 2 None YIELD ([IWork 7; IWork 8] ++ [IYield; IWork 9; IRunTail]) true 65536)
    (MkCoroutine 1 None RUNNING [] false 0)); (reflexivity || discriminate).
Defined.

(** ** The states of the coroutines of a thread *)

(** The function of a coroutine that leaves resuming to the main coroutine, its code
    below [Run], and the code of the main coroutine. *)
Definition body (k : list instr) : Prop :=
  Forall (fun i => match i with IWork _ | IYield | IThrow => True | _ => False end) k.

Definition co_code (k : list instr) : Prop := exists b, body b /\ k = b ++ [IRunTail].

Definition main_code (k : list instr) : Prop :=
  Forall (fun i => match i with
    | INew _ _ fn _ | IReset _ fn => body fn
    | IResumeTail | IRunTail => False
    | _ => True end) k.

(** New objects are at fresh addresses. *)
Definition fresh_objects (t : Thread) : Prop :=
  match code t with
  | INew p m _ _ :: _ =>
      p <> 0 /\ cos t !! p = None /\ m <> 0 /\ m <> p /\ (s_t_main_co t = 0 -> cos t !! m = None)
  | _ => True
  end.

(** The executions.  Between two steps the configuration may change, and the client may give
    up its last pointer to a coroutine, which destroys the object; the thread's own pointers
    keep the main coroutine and the current one, and whoever resumes a coroutine keeps its
    pointer during the call. *)
Inductive reach (k : list instr) : Thread -> Prop :=
| reach_start : reach k (new_Thread k)
| reach_next t t' : reach k t -> fresh_objects t -> step t = Ret t' -> reach k t'
| reach_configure t size : reach k t -> reach k (configure size t)
| reach_destroy t t' p : reach k t -> p <> s_t_main_co t -> p <> s_t_running_co t ->
    destroy p t = Ret t' -> reach k t'.

(** A coroutine other than the main one, and what its state says of its context. *)
Definition co_ok (running q : Z) (c : Coroutine) : Prop :=
  m_stack c = true /\
  match m_state c with
  | INIT | YIELD => co_code (m_ctx c)
  | RUNNING => q = running
  | TERMINAL | EXCEPT => True
  end.

(** Where control is: in the main coroutine, in another one, or on the way back from one
    that ended. *)
Inductive control (t : Thread) (mc : Coroutine) : Prop :=
| in_main : s_t_running_co t = s_t_main_co t -> m_state mc = RUNNING ->
    (main_code (code t) \/ exists k, code t = IResumeTail :: k /\ main_code k) -> control t mc
| in_co c k : s_t_running_co t <> s_t_main_co t -> s_t_running_co t <> 0 -> m_state mc = YIELD ->
    cos t !! s_t_running_co t = Some c -> m_state c = RUNNING -> co_code (code t) ->
    m_ctx mc = IResumeTail :: k -> main_code k -> control t mc
| back c k : s_t_running_co t <> s_t_main_co t -> m_state mc = YIELD ->
    cos t !! s_t_running_co t = Some c -> m_state c = TERMINAL \/ m_state c = EXCEPT ->
    code t = IResumeTail :: k -> main_code k -> control t mc.

Inductive inv (t : Thread) : Prop :=
| inv_empty : s_t_main_co t = 0 -> s_t_running_co t = 0 -> cos t = ∅ -> main_code (code t) -> inv t
| inv_main mc : s_t_main_co t <> 0 -> cos t !! 0 = None ->
    cos t !! s_t_main_co t = Some mc -> m_stack mc = false ->
    (forall q c, q <> s_t_main_co t -> cos t !! q = Some c -> co_ok (s_t_running_co t) q c) ->
    control t mc -> inv t.

Lemma body_co fn : body fn -> co_code (make_ctx fn).
Proof. by exists fn. Qed.

(** The code of a coroutine advances. *)
Lemma co_code_cons i k : co_code (i :: k) ->
  (i = IRunTail /\ k = []) \/
  (co_code k /\ in_Run k = true /\ match i with IWork _ | IYield | IThrow => True | _ => False end).
Proof.
  intros (b & Hb & Heq). destruct b as [|j b]; [injection Heq as -> ->; by left|].
  injection Heq as -> ->. apply Forall_cons in Hb as [Hj Hb]. right. split_and!; [by exists b| |done].
  unfold in_Run. rewrite existsb_app. cbn. by rewrite orb_true_r.
Qed.

Lemma inv_start k : main_code k -> inv (new_Thread k).
Proof. intros. by apply inv_empty. Qed.

(** While another coroutine runs, no step can fail. *)
Lemma step_in_co t mc c k :
  s_t_main_co t <> 0 -> cos t !! 0 = None -> cos t !! s_t_main_co t = Some mc ->
  m_stack mc = false ->
  (forall q c, q <> s_t_main_co t -> cos t !! q = Some c -> co_ok (s_t_running_co t) q c) ->
  s_t_running_co t <> s_t_main_co t -> s_t_running_co t <> 0 -> m_state mc = YIELD ->
  cos t !! s_t_running_co t = Some c -> m_state c = RUNNING -> co_code (code t) ->
  m_ctx mc = IResumeTail :: k -> main_code k ->
  exists t', step t = Ret t' /\ inv t'.
Proof.
  intros Hm0 H0 Hm Hms Hco Hne Hr0 Hst Hc Hcs Hcode Hctx Hk.
  pose proof (Hco _ _ Hne Hc) as [Hstk _].
  unfold step. destruct (code t) as [|i rest] eqn:Hcd; [by destruct Hcode as ([] & _ & ?)|].
  apply co_code_cons in Hcode as [[-> ->]|(Hrest & Hin & Hi)]; [|destruct i; try done].
  - rewrite (run_tail_ok _ c mc) by done. eexists. split; [done|].
    apply inv_main with mc; cbn; try done; [by simplify_map_eq|by simplify_map_eq| |].
    + intros q d Hq Hd. destruct (decide (q = s_t_running_co t)) as [->|]; simplify_map_eq;
        [done|by apply Hco].
    + eapply back; cbn; [done|done|by simplify_map_eq|by left|done|done].
  - eexists. split; [done|]. apply inv_main with mc; cbn; try done. by eapply in_co.
  - unfold Yield. destruct (Z.eqb_spec (s_t_running_co (set_code rest t)) 0); [done|].
    rewrite (yield_ok rest (set_code rest t) c mc) by done. eexists. split; [done|].
    apply inv_main with (set_state RUNNING mc); cbn; try done;
      [by simplify_map_eq|by simplify_map_eq| |].
    + intros q d Hq Hd. destruct (decide (q = s_t_running_co t)) as [->|]; simplify_map_eq; [done|].
      destruct (Hco q d Hq Hd) as [? Hs]. split; [done|]. destruct (m_state d); done || congruence.
    + apply in_main; cbn; [done|done|]. right. by exists k.
  - rewrite Hin. rewrite (run_catch_ok (set_code rest t) c mc) by done. eexists. split; [done|].
    apply inv_main with mc; cbn; try done; [by simplify_map_eq|by simplify_map_eq| |].
    + intros q d Hq Hd. destruct (decide (q = s_t_running_co t)) as [->|]; simplify_map_eq;
        [done|by apply Hco].
    + eapply back; cbn; [done|done|by simplify_map_eq|by right|done|done].
Qed.

(** Steps of the main coroutine. *)
Lemma step_in_main t t' mc :
  s_t_main_co t <> 0 -> cos t !! 0 = None -> cos t !! s_t_main_co t = Some mc ->
  m_stack mc = false ->
  (forall q c, q <> s_t_main_co t -> cos t !! q = Some c -> co_ok (s_t_running_co t) q c) ->
  s_t_running_co t = s_t_main_co t -> m_state mc = RUNNING -> main_code (code t) ->
  fresh_objects t -> step t = Ret t' -> inv t'.
Proof.
  intros Hm0 H0 Hm Hms Hco Hr Hst Hcode Hfresh Hstep. unfold step, fresh_objects in *.
  destruct (code t) as [|i k] eqn:Hcd.
  { injection Hstep as <-. apply inv_main with mc; try done. apply in_main; [done|done|].
    rewrite Hcd. by left. }
  apply Forall_cons in Hcode as [Hi Hk]. destruct i as [n|p m fn size| |p|p fn| | |]; try done.
  - injection Hstep as <-. apply inv_main with mc; cbn; try done. apply in_main; cbn; auto.
  - injection Hstep as <-. destruct Hfresh as (Hp0 & Hp & Hmm & Hmp & _). unfold new_Coroutine. cbn.
    destruct (Z.eqb_spec (s_t_main_co t) 0); [done|]. cbn.
    assert (p <> s_t_main_co t) by congruence.
    apply inv_main with mc; cbn; try done; [by simplify_map_eq|by simplify_map_eq| |].
    + intros q d Hq Hd. destruct (decide (q = p)) as [->|]; simplify_map_eq; [|by apply Hco].
      split; [done|]. by apply body_co.
    + apply in_main; cbn; auto.
  - unfold Yield in Hstep. cbn in Hstep. destruct (s_t_running_co t =? 0) eqn:E; [lia|]. unfold yield in Hstep. cbn in Hstep.
    by rewrite Hr, Z.eqb_refl in Hstep.
  - destruct (cos t !! p) as [c|] eqn:Hc; [|unfold resume in Hstep; cbn in Hstep; by rewrite Hc in Hstep].
    destruct (can_resume (m_state c)) eqn:Hcr;
      [|unfold resume in Hstep; cbn in Hstep; by rewrite Hc, Hcr in Hstep].
    assert (p <> s_t_main_co t) as Hpm by (intros ->; rewrite Hm in Hc; injection Hc as <-;
      by rewrite Hst in Hcr).
    assert (p <> 0) by (intros ->; congruence).
    rewrite (resume_ok p k (set_code k t) c mc) in Hstep by done. injection Hstep as <-.
    destruct (Hco p c Hpm Hc) as [Hstk Hcc].
    apply inv_main with (set_ctx (IResumeTail :: k) (set_state YIELD mc)); cbn; try done;
      [by simplify_map_eq|by simplify_map_eq| |].
    + intros q d Hq Hd. destruct (decide (q = p)) as [->|]; simplify_map_eq; [done|].
      destruct (Hco q d Hq Hd) as [? Hs]. split; [done|]. destruct (m_state d); done || congruence.
    + apply in_co with (set_state RUNNING c) k; cbn; try done; [by simplify_map_eq|].
      by destruct (m_state c).
  - unfold reset in Hstep. cbn in Hstep. destruct (cos t !! p) as [c|] eqn:Hc; [|done].
    destruct (m_stack c) eqn:Hs; [|done]. cbn in Hstep. destruct (can_reset (m_state c)).
    + injection Hstep as <-. assert (p <> s_t_main_co t) by congruence.
      assert (p <> 0) by (intros ->; congruence).
      apply inv_main with mc; cbn; try done; [by simplify_map_eq|by simplify_map_eq| |].
      * intros q d Hq Hd. destruct (decide (q = p)) as [->|]; simplify_map_eq; [|by apply Hco].
        split; [done|]. by apply body_co.
      * apply in_main; cbn; auto.
    + injection Hstep as <-. apply inv_main with mc; cbn; try done. apply in_main; cbn; auto.
  - destruct (in_Run k) eqn:Hin; [|done]. exfalso. unfold in_Run in Hin.
    apply existsb_exists in Hin as (i & Hin & Hi'). apply list_elem_of_In in Hin.
    unfold main_code in Hk. rewrite Forall_forall in Hk. specialize (Hk i Hin). by destruct i.
Qed.

(** The return to the main coroutine. *)
Lemma step_back t t' mc k :
  s_t_main_co t <> 0 -> cos t !! 0 = None -> cos t !! s_t_main_co t = Some mc ->
  m_stack mc = false ->
  (forall q c, q <> s_t_main_co t -> cos t !! q = Some c ->
     co_ok (s_t_running_co t) q c /\ m_state c <> RUNNING) ->
  code t = IResumeTail :: k -> main_code k -> step t = Ret t' -> inv t'.
Proof.
  intros Hm0 H0 Hm Hms Hco Hcode Hk Hstep. unfold step in Hstep. rewrite Hcode in Hstep.
  rewrite (resume_tail_ok _ mc) in Hstep by done. injection Hstep as <-.
  apply inv_main with (set_state RUNNING mc); cbn; try done; [by simplify_map_eq|by simplify_map_eq| |].
  - intros q d Hq Hd. simplify_map_eq. destruct (Hco q d Hq Hd) as [[? Hs] ?].
    split; [done|]. by destruct (m_state d).
  - apply in_main; cbn; auto.
Qed.

(** Steps before there is a coroutine. *)
Lemma step_empty t t' :
  s_t_main_co t = 0 -> s_t_running_co t = 0 -> cos t = ∅ -> main_code (code t) ->
  fresh_objects t -> step t = Ret t' -> inv t'.
Proof.
  intros Hm Hr Hc Hcode Hfresh Hstep. unfold step, fresh_objects in *.
  destruct (code t) as [|i k] eqn:Hcd.
  { injection Hstep as <-. apply inv_empty; try done. by rewrite Hcd. }
  apply Forall_cons in Hcode as [Hi Hk]. destruct i as [n|p m fn size| |p|p fn| | |]; try done.
  - injection Hstep as <-. by apply inv_empty.
  - injection Hstep as <-. destruct Hfresh as (Hp0 & Hp & Hmm & Hmp & _).
    unfold new_Coroutine. cbn. rewrite Hm. cbn. rewrite Hc.
    eapply inv_main; cbn; [done|by simplify_map_eq|by simplify_map_eq|done| |].
    + intros q d Hq Hd. destruct (decide (q = p)) as [->|]; simplify_map_eq.
      split; [done|]. by apply body_co.
    + apply in_main; cbn; auto.
  - cbn in Hstep. unfold Yield in Hstep; cbn in Hstep; rewrite Hr in Hstep. injection Hstep as <-. by apply inv_empty.
  - unfold resume in Hstep. cbn in Hstep. by rewrite Hc in Hstep.
  - unfold reset in Hstep. cbn in Hstep. by rewrite Hc in Hstep.
  - destruct (in_Run k) eqn:Hin; [|done]. unfold run_catch, update in Hstep. cbn in Hstep.
    by rewrite Hc in Hstep.
Qed.

Lemma step_inv t t' : inv t -> fresh_objects t -> step t = Ret t' -> inv t'.
Proof.
  intros [|mc Hm0 H0 Hm Hms Hco [Hr Hs [Hk|(k & Hc & Hk)]|c k ????????|c k ?? Hc Hend ??]] Hf Hst.
  - by eapply step_empty.
  - by eapply step_in_main.
  - eapply step_back; try done. intros q d Hq Hd. split; [by apply Hco|]. intros Hrun.
    destruct (Hco q d Hq Hd) as [_ H']. rewrite Hrun in H'. congruence.
  - destruct (step_in_co t mc c k) as (t2 & Heq & Hinv); try done. congruence.
  - eapply step_back; try done. intros q d Hq Hd. split; [by apply Hco|]. intros Hrun.
    destruct (Hco q d Hq Hd) as [_ H']. rewrite Hrun in H'. subst q.
    assert (d = c) as -> by congruence. rewrite Hrun in Hend. by destruct Hend.
Qed.

Lemma configure_inv size t : inv t -> inv (configure size t).
Proof.
  intros [H1 H2 H3 H4|mc Hm0 H0 Hm Hms Hco Hctl]; [by apply inv_empty|].
  apply inv_main with mc; try done.
  destruct Hctl as [? ? ?|c k ????????|c k ??????]; [by apply in_main|by eapply in_co|by eapply back].
Qed.

Lemma destroy_inv t t' p : inv t -> p <> s_t_main_co t -> p <> s_t_running_co t -> destroy p t = Ret t' -> inv t'.
Proof.
  intros Hinv Hm Hr. unfold destroy. destruct (cos t !! p) as [c|] eqn:Hp; [|done].
  destruct Hinv as [_ _ Hc _|mc Hm0 H0 Hmc Hms Hco Hctl]; [by rewrite Hc, lookup_empty in Hp|].
  destruct (Hco p c Hm Hp) as [Hstk _]. rewrite Hstk. intros [= <-].
  apply inv_main with mc; cbn; [done|by simplify_map_eq|by simplify_map_eq|done| |].
  - intros q d Hq Hd. apply lookup_delete_Some in Hd as [_ Hd]. by apply Hco.
  - destruct Hctl as [? ? ?|d k ????????|d k ??????]; [by apply in_main| |].
    + eapply in_co with (c := d); cbn; try done. by rewrite lookup_delete_ne.
    + eapply back with (c := d); cbn; try done. by rewrite lookup_delete_ne.
Qed.

Lemma reach_inv k t : main_code k -> reach k t -> inv t.
Proof.
  intros Hk. induction 1; [by apply inv_start|by eapply step_inv|by apply configure_inv|by eapply destroy_inv].
Qed.

(** C6: in a thread whose coroutines leave resuming to the main code, at every step of every
    execution, with coroutines made, reset and destroyed in between: before the first
    coroutine there is nothing; afterwards the pointers to the main and to the current
    coroutine point to objects that are alive, and exactly the current one is RUNNING, but for
    the moment in which the current one has ended and control goes back into [resume], when
    none is; the main coroutine is YIELD whenever another one is current and RUNNING
    otherwise; a suspended coroutine keeps a context that ends in the end of [Run]; and while
    another coroutine is current no step fails (every yield, return and exception finds its
    way back to the main coroutine). *)
Theorem one_running (k : list instr) (t : Thread) :
  main_code k -> reach k t ->
  (s_t_main_co t = 0 /\ s_t_running_co t = 0 /\ cos t = ∅) \/
  exists mc c, cos t !! s_t_main_co t = Some mc /\ cos t !! s_t_running_co t = Some c /\
    m_state mc = (if s_t_running_co t =? s_t_main_co t then RUNNING else YIELD) /\
    ((forall p d, cos t !! p = Some d -> (m_state d = RUNNING <-> p = s_t_running_co t)) \/
     ((m_state c = TERMINAL \/ m_state c = EXCEPT) /\
      (forall p d, cos t !! p = Some d -> m_state d <> RUNNING) /\ exists k', code t = IResumeTail :: k')) /\
    (forall p d, p <> s_t_main_co t -> cos t !! p = Some d -> can_resume (m_state d) = true -> co_code (m_ctx d)) /\
    (s_t_running_co t <> s_t_main_co t -> exists t', step t = Ret t').
Proof.
  intros Hk Hr. apply reach_inv in Hr; [|done].
  destruct Hr as [Hm Hrn Hc _|mc Hm0 H0 Hm Hms Hco Hctl]; [by left|right].
  assert (forall p d, p <> s_t_main_co t -> cos t !! p = Some d -> m_state d = RUNNING -> p = s_t_running_co t) as Hone
    by (intros p d Hp Hd Hrun; destruct (Hco p d Hp Hd) as [_ Hs]; by rewrite Hrun in Hs).
  assert (forall p d, p <> s_t_main_co t -> cos t !! p = Some d -> can_resume (m_state d) = true -> co_code (m_ctx d)) as Hctx
    by (intros p d Hp Hd Hs; destruct (Hco p d Hp Hd) as [_ Hs']; by destruct (m_state d)).
  destruct Hctl as [Hr Hs _|c j Hne Hr0 Hs Hc Hcs Hcode Hj Hk'|c j Hne Hs Hc Hend Hcode Hk'].
  - exists mc, mc. rewrite Hr, Z.eqb_refl. split_and!; try done. left. intros p d Hd. rewrite Hr in Hone. split; [|congruence].
    intros Hrun. destruct (decide (p = s_t_main_co t)); [done|]. by apply (Hone p d).
  - exists mc, c. rewrite (proj2 (Z.eqb_neq _ _) Hne). split_and!; try done.
    + left. intros p d Hd. split; [|congruence]. intros Hrun. apply (Hone p d); [congruence|done|done].
    + intros _. destruct (step_in_co t mc c j) as (t' & Heq & _); try done. eauto.
  - exists mc, c. rewrite (proj2 (Z.eqb_neq _ _) Hne). split_and!; try done.
    + right. split; [done|]. split; [|eauto]. intros p d Hd Hrun.
      assert (p = s_t_running_co t) as -> by (apply (Hone p d); [congruence|done|done]).
      assert (d = c) as -> by congruence. rewrite Hrun in Hend. by destruct Hend.
    + intros _. unfold step. rewrite Hcode. by rewrite (resume_tail_ok _ mc); eauto.
Qed.

(** Two coroutines are made, the client drops the second, and resumes the first. *)
Definition returned (r : res Thread) (t : Thread) : Thread := match r with Ret t' => t' | _ => t end.

Definition demo_code : list instr :=
  [INew 8 16 [IWork 1; IYield; IWork 2] 0; INew 24 16 [] 0; IResume 8; IResume 8].
Definition demo_made : Thread :=
  let t := returned (step (new_Thread demo_code)) (new_Thread demo_code) in returned (step t) t.
Definition demo_dropped : Thread := returned (destroy 24 demo_made) demo_made.
Definition demo_running : Thread := returned (step demo_dropped) demo_dropped.

Lemma demo_reach : reach demo_code demo_running.
Proof.
  eapply reach_next with (t := demo_dropped); [|done|reflexivity].
  eapply (reach_destroy _ demo_made _ 24); [|vm_compute; discriminate..|reflexivity].
  eapply reach_next; [eapply reach_next; [apply reach_start| |reflexivity]| |reflexivity];
    cbn; repeat split; discriminate.
Qed.

Lemma one_running_witness :
  main_code demo_code /\ s_t_running_co demo_running = 8 /\ cos demo_running !! 24 = None /\
  forall p d, cos demo_running !! p = Some d -> (m_state d = RUNNING <-> p = 8).
Proof.
  assert (main_code demo_code) as Hk by (repeat constructor). split; [done|].
  split; [reflexivity|]. split; [reflexivity|].
  destruct (one_running demo_code demo_running Hk demo_reach)
    as [(_ & H0 & _)|(mc & c & _ & _ & _ & [H|(_ & _ & k' & Hk')] & _)]; [discriminate|exact H|discriminate].
Defined.
