(* ===== verification/Scheduler.v ===== *)
(** * The scheduler ([scheduler.h], [scheduler.cc])

    A queue of tasks shared by worker threads.  Each worker is a program counter in
    [Scheduler::run] or [Scheduler::idle], each call of [schedule] one in that function;
    a step of the system is one atomic section of the source: the code under [m_mutex],
    or an access to an atomic counter, a flag or the semaphore; a call of [tickle], with
    the assignment before it, is one step; so are the test of a coroutine's state in [run],
    the test of the assertion in [Coroutine::resume], the assignment of RUNNING and the
    assignment by which the coroutine gives up control, because other threads can change
    the state in between.  Any worker or caller may move next, so the step relation is the
    set of interleavings.  Coroutines are new when they are first scheduled, and only
    workers resume them. *)

From stdpp Require Import base list numbers gmap.
From Stdlib Require Import Lia ZArith.
From S2P Require Import Prelude Coroutine.

(** ** Data *)

(** A task: the coroutine (null is [None]) and the thread it is bound to (zero: any). *)
Record Task := MkTask { m_co : option Z; m_thread_id : Z }.

#[export] Instance task_eq_dec : EqDecision Task.
Proof. solve_decision. Defined.

(** What [schedule] accepts. *)
Inductive job :=
| JCo (co : option Z)
| JFn (fn : Z)
| JFnPtr (fn : Z).

(** The constructors of [Task]: [p] is the address of the coroutine made for a function;
    the second result is the stack size it is made with (zero asks for the default).
    The constructor from a pointer to a function passes the thread as the stack size. *)
Definition new_Task (p : Z) (j : job) (thread_id : Z) : Task * Z :=
  match j with
  | JCo co => (MkTask co thread_id, 0)
  | JFn _ => (MkTask (Some p) thread_id, 0)
  | JFnPtr _ => (MkTask (Some p) thread_id, thread_id)
  end.

Record Scheduler := MkScheduler {
  m_use_main_thread : bool;
  m_thread_cnt : Z;
  m_main_thread_id : Z;
  m_is_stopping : bool;
  m_is_stopped : bool;
  m_semaphore : Z;
  m_idle_cnt : Z;
  m_tasks : list Task }.

Definition new_Scheduler (main_thread : Z) (use_main_thread : bool) (thread_cnt : Z) : Scheduler :=
  MkScheduler use_main_thread
    (if use_main_thread then wrap 64 (thread_cnt - 1) else thread_cnt)
    main_thread false true 0 0 [].

Definition set_tasks (ts : list Task) (s : Scheduler) : Scheduler :=
  MkScheduler (m_use_main_thread s) (m_thread_cnt s) (m_main_thread_id s) (m_is_stopping s)
    (m_is_stopped s) (m_semaphore s) (m_idle_cnt s) ts.
Definition set_idle (n : Z) (s : Scheduler) : Scheduler :=
  MkScheduler (m_use_main_thread s) (m_thread_cnt s) (m_main_thread_id s) (m_is_stopping s)
    (m_is_stopped s) (m_semaphore s) n (m_tasks s).
Definition set_semaphore (n : Z) (s : Scheduler) : Scheduler :=
  MkScheduler (m_use_main_thread s) (m_thread_cnt s) (m_main_thread_id s) (m_is_stopping s)
    (m_is_stopped s) n (m_idle_cnt s) (m_tasks s).
Definition set_thread_cnt (n : Z) (s : Scheduler) : Scheduler :=
  MkScheduler (m_use_main_thread s) n (m_main_thread_id s) (m_is_stopping s)
    (m_is_stopped s) (m_semaphore s) (m_idle_cnt s) (m_tasks s).
Definition set_stop (stopping stopped : bool) (s : Scheduler) : Scheduler :=
  MkScheduler (m_use_main_thread s) (m_thread_cnt s) (m_main_thread_id s) stopping
    stopped (m_semaphore s) (m_idle_cnt s) (m_tasks s).

(** ** Operations *)

Definition tickle (s : Scheduler) : Scheduler :=
  if m_idle_cnt s =? 0 then s else set_semaphore (m_semaphore s + 1) s.

(** The critical section of [run] on thread [tid]: the first task of the list that this
    thread may run; whether another task was passed over.  A task without coroutine is
    erased and the loop goes on with the iterator to the erased element. *)
Fixpoint take_loop (tid : Z) (passed ts : list Task) (need : bool)
    : res (option Task * bool * list Task) :=
  match ts with
  | [] => Ret (None, need, passed)
  | t :: ts' =>
      if negb (m_thread_id t =? 0) && negb (m_thread_id t =? tid)
      then take_loop tid (passed ++ [t]) ts' true
      else
        match m_co t with
        | None => Undef UseAfterFree
        | Some _ => Ret (Some t, need, passed ++ ts')
        end
  end.

Definition take_task (tid : Z) (s : Scheduler) : res (option Task * bool * Scheduler) :=
  let? (t, need, ts) := take_loop tid [] (m_tasks s) false in
  let s := set_tasks ts s in
  Ret (t, need || (negb (bool_decide (ts = [])) && (0 <? m_idle_cnt s)), s).

(** The critical section of [schedule] and [schedules]. *)
Definition push_tasks (ts : list Task) (s : Scheduler) : bool * Scheduler :=
  (bool_decide (m_tasks s = []), set_tasks (m_tasks s ++ ts) s).

(** The part of [start] under the lock: whether threads are started. *)
Definition start_flags (s : Scheduler) : bool * Scheduler :=
  if negb (m_is_stopped s) || m_is_stopping s then (false, s)
  else (true, set_stop false false s).

Definition stop (s : Scheduler) : Scheduler :=
  if m_is_stopped s then s else tickle (set_stop true (m_is_stopped s) s).

(** The destructor. *)
Definition destroy_Scheduler (s : Scheduler) : Scheduler := set_stop false true s.

(** ** Threads *)

(** Where a worker is: in [run] before the critical section, after it with or without a
    task, about to test the state of the coroutine, in [resume] before the assertion and
    after it, in the coroutine, in the coroutine after it set its state and before control
    is back in [run]; about to decide on idling; in [idle] at the check of the loop,
    waiting, woken; leaving; gone; or in a failed assertion of [Coroutine::resume], on the
    coroutine of a task or on the idle coroutine. *)
Inductive wpc :=
| WTake
| WGot (t : Task) (need : bool)
| WNone (need : bool)
| WRun (t : Task)
| WResume (t : Task)
| WEnter (t : Task)
| WBody (t : Task)
| WLeave (t : Task)
| WAbort (t : Task)
| WDecide (need : bool)
| WIdle
| WWait
| WWoken
| WExit
| WDone
| WAssert.

(** A worker: its program counter and whether its idle coroutine can still be resumed. *)
Record worker := MkWorker { w_pc : wpc; w_idle : bool }.

(** Where a caller of [schedule] or [schedules] is. *)
Inductive cpc :=
| CPush (ts : list Task)
| CTickle (need : bool).

Record World := MkWorld {
  sched : Scheduler;
  workers : gmap Z worker;
  callers : gmap Z cpc;
  (** ghost: the tasks accepted so far, and the dispatches, with their thread *)
  submitted : list Task;
  executed : list (Z * Task);
  (** the states of the coroutines that were resumed; the others are INIT *)
  costates : gmap Z State;
  (** ghost: the tasks that failed the test of the state, with the thread and the state *)
  dropped : list (Z * Task * State) }.

Definition co_state (co : option Z) (x : World) : State :=
  match co with Some p => default INIT (costates x !! p) | None => INIT end.

Definition set_costate (co : option Z) (st : State) (m : gmap Z State) : gmap Z State :=
  match co with Some p => <[p := st]> m | None => m end.

Definition is_main (tid : Z) (s : Scheduler) : bool := tid =? m_main_thread_id s.

(** The decision of [run] without a task, and where it leads. *)
Definition idle_resume (alive : bool) : wpc := if alive then WIdle else WAssert.

Definition decide_idle (tid : Z) (need alive : bool) (s : Scheduler) : wpc :=
  if m_is_stopping s then
    if is_main tid s && negb (m_thread_cnt s =? 0) then idle_resume alive else WExit
  else if need then WTake else idle_resume alive.

(** The check at the head of the loop of [idle]: wait, or leave the idle coroutine. *)
Definition idle_waits (tid : Z) (s : Scheduler) : bool :=
  negb (m_is_stopping s) || (is_main tid s && (0 <? m_thread_cnt s)).

Definition set_worker (tid : Z) (w : worker) (x : World) : World :=
  MkWorld (sched x) (<[tid := w]> (workers x)) (callers x) (submitted x) (executed x) (costates x) (dropped x).
Definition set_sched (s : Scheduler) (x : World) : World :=
  MkWorld s (workers x) (callers x) (submitted x) (executed x) (costates x) (dropped x).

(** One step of the worker [tid]; [None] when it cannot move. *)
Definition worker_step (tid : Z) (x : World) : option (res World) :=
  match workers x !! tid with
  | None => None
  | Some w =>
      let s := sched x in
      let goto pc := MkWorker pc (w_idle w) in
      match w_pc w with
      | WTake =>
          Some (let? (t, need, s) := take_task tid s in
                Ret (set_sched s (set_worker tid
                  (goto (match t with Some t => WGot t need | None => WNone need end)) x)))
      | WGot t need =>
          Some (Ret (set_sched (if need then tickle s else s) (set_worker tid (goto (WRun t)) x)))
      | WNone need =>
          Some (Ret (set_sched (if need then tickle s else s)
                  (set_worker tid (goto (WDecide need)) x)))
      | WRun t =>
          let st := co_state (m_co t) x in
          Some (Ret (if can_resume st then set_worker tid (goto (WResume t)) x
                     else MkWorld s (<[tid := goto WTake]> (workers x)) (callers x) (submitted x)
                            (executed x) (costates x) (dropped x ++ [(tid, t, st)])))
      | WResume t =>
          Some (Ret (set_worker tid (goto (if can_resume (co_state (m_co t) x) then WEnter t else WAbort t)) x))
      | WEnter t =>
          Some (Ret (MkWorld s (<[tid := goto (WBody t)]> (workers x)) (callers x) (submitted x)
                  (executed x ++ [(tid, t)]) (set_costate (m_co t) RUNNING (costates x)) (dropped x)))
      | WBody _ => None
      | WLeave _ => Some (Ret (set_worker tid (goto WTake) x))
      | WDecide need =>
          Some (Ret (set_worker tid (goto (decide_idle tid need (w_idle w) s)) x))
      | WIdle =>
          Some (Ret (if idle_waits tid s
                     then set_sched (set_idle (m_idle_cnt s + 1) s) (set_worker tid (goto WWait) x)
                     else set_worker tid (MkWorker WTake false) x))
      | WWait =>
          if 0 <? m_semaphore s
          then Some (Ret (set_sched (set_semaphore (m_semaphore s - 1) s)
                 (set_worker tid (goto WWoken) x)))
          else None
      | WWoken =>
          Some (Ret (set_sched (set_idle (m_idle_cnt s - 1) s) (set_worker tid (goto WTake) x)))
      | WExit =>
          Some (Ret (set_sched (tickle (set_thread_cnt (wrap 64 (m_thread_cnt s - 1)) s))
                  (set_worker tid (goto WDone) x)))
      | WDone | WAssert | WAbort _ => None
      end
  end.

(** The coroutine that the worker [tid] runs gives up control: it yields, its function
    returns, or an exception ends it. *)
Definition body_step (tid : Z) (st : State) (x : World) : option World :=
  match workers x !! tid, st with
  | Some (MkWorker (WBody t) alive), (YIELD | TERMINAL | EXCEPT) =>
      Some (MkWorld (sched x) (<[tid := MkWorker (WLeave t) alive]> (workers x)) (callers x) (submitted x)
              (executed x) (set_costate (m_co t) st (costates x)) (dropped x))
  | _, _ => None
  end.

Definition set_caller (c : Z) (p : cpc) (x : World) : World :=
  MkWorld (sched x) (workers x) (<[c := p]> (callers x)) (submitted x) (executed x) (costates x) (dropped x).

(** The steps of a call of [schedule] or [schedules]. *)
Definition call_schedule (c : Z) (ts : list Task) (x : World) : World :=
  if m_is_stopping (sched x) then x else set_caller c (CPush ts) x.

Definition caller_step (c : Z) (x : World) : option World :=
  match callers x !! c with
  | None => None
  | Some (CPush ts) =>
      let '(need, s) := push_tasks ts (sched x) in
      Some (MkWorld s (workers x) (<[c := CTickle need]> (callers x)) (submitted x ++ ts)
              (executed x) (costates x) (dropped x))
  | Some (CTickle need) =>
      let s := sched x in
      Some (MkWorld (if need && (0 <? m_idle_cnt s) then tickle s else s) (workers x)
              (delete c (callers x)) (submitted x) (executed x) (costates x) (dropped x))
  end.

(** [start]: the new threads [tids], and the calling thread when it takes part, enter
    [run]. *)
Definition start (tids : list Z) (x : World) : World :=
  let '(go, s) := start_flags (sched x) in
  if go then
    let new := MkWorker WTake true in
    let ws := foldr (fun t m => <[t := new]> m) (workers x) tids in
    let ws := if m_use_main_thread s then <[m_main_thread_id s := new]> ws else ws in
    MkWorld s ws (callers x) (submitted x) (executed x) (costates x) (dropped x)
  else x.

Inductive sstep : World -> World -> Prop :=
| s_start tids x :
    (forall t, t ∈ tids -> workers x !! t = None /\ t <> m_main_thread_id (sched x)) ->
    workers x !! m_main_thread_id (sched x) = None ->
    zlen tids = m_thread_cnt (sched x) -> sstep x (start tids x)
| s_stop x : sstep x (set_sched (stop (sched x)) x)
| s_call c ts x : callers x !! c = None -> sstep x (call_schedule c ts x)
| s_caller c x x' : caller_step c x = Some x' -> sstep x x'
| s_worker tid x x' : worker_step tid x = Some (Ret x') -> sstep x x'
| s_body tid st x x' : body_step tid st x = Some x' -> sstep x x'.

Definition new_World (main_thread : Z) (use_main_thread : bool) (thread_cnt : Z) : World :=
  MkWorld (new_Scheduler main_thread use_main_thread thread_cnt) ∅ ∅ [] [] ∅ [].

Inductive sreach (x0 : World) : World -> Prop :=
| sreach_refl : sreach x0 x0
| sreach_step x x' : sreach x0 x -> sstep x x' -> sreach x0 x'.
