(* ===== verification/SchedulerProps.v ===== *)
(** * The scheduler: the theorems

    Over all interleavings: every accepted task is queued, held by one worker, was
    dispatched once on a thread it may run on, or was dropped because its coroutine could
    not be resumed; when coroutines are scheduled the way the hooks do it nothing is
    dropped; and a wake-up can be lost. *)

From stdpp Require Import base list numbers gmap.
From Stdlib Require Import Lia ZArith.
From S2P Require Import Prelude Coroutine Scheduler.

(** ** The critical section of [run] *)

Definition eligible (tid : Z) (t : Task) : Prop := m_thread_id t = 0 \/ m_thread_id t = tid.

#[export] Instance eligible_dec tid t : Decision (eligible tid t).
Proof. unfold eligible. apply _. Defined.

Lemma eligible_test tid t :
  negb (m_thread_id t =? 0) && negb (m_thread_id t =? tid) = bool_decide (~ eligible tid t).
Proof.
  unfold eligible. destruct (Z.eqb_spec (m_thread_id t) 0), (Z.eqb_spec (m_thread_id t) tid); cbn;
    symmetry; rewrite ?bool_decide_eq_true, ?bool_decide_eq_false; tauto.
Qed.

Lemma take_loop_spec tid passed ts need :
  match take_loop tid passed ts need with
  | Ret (Some t, n, rest) =>
      exists l r, ts = l ++ t :: r /\ rest = passed ++ l ++ r /\
        Forall (fun t => ~ eligible tid t) l /\ eligible tid t /\ is_Some (m_co t) /\
        n = need || negb (bool_decide (l = []))
  | Ret (None, n, rest) =>
      rest = passed ++ ts /\ Forall (fun t => ~ eligible tid t) ts /\
        n = need || negb (bool_decide (ts = []))
  | Throw _ => False
  | Undef u =>
      u = UseAfterFree /\
      exists l t r, ts = l ++ t :: r /\ Forall (fun t => ~ eligible tid t) l /\
        eligible tid t /\ m_co t = None
  end.
Proof.
  revert passed need. induction ts as [|t ts IH]; intros passed need; cbn [take_loop].
  { rewrite app_nil_r. split_and!; [done|constructor|]. cbn. by rewrite orb_false_r. }
  rewrite eligible_test. destruct (bool_decide_reflect (~ eligible tid t)) as [Hn|Hn].
  - specialize (IH (passed ++ [t]) true).
    destruct (take_loop tid (passed ++ [t]) ts true) as [[[[t'|] n] rest]| |]; try done.
    + destruct IH as (l & r & -> & -> & Hl & He & Hs & ->). exists (t :: l), r.
      rewrite <- app_assoc. split_and!; try done; [by constructor|]. cbn. by rewrite orb_true_r.
    + destruct IH as (-> & Hl & ->). rewrite <- app_assoc. split_and!; [done|by constructor|].
      cbn. by rewrite orb_true_r.
    + destruct IH as (-> & l & t' & r & -> & Hl & ? & ?). split; [done|].
      exists (t :: l), t', r. split_and!; [done|by constructor|done|done].
  - assert (eligible tid t) as He by (destruct (decide (eligible tid t)); tauto).
    destruct (m_co t) as [co|] eqn:Hco.
    + exists [], ts. split_and!; [done|done|constructor|done|done|]. cbn. by rewrite orb_false_r.
    + split; [done|]. exists [], t, ts. split_and!; [done|constructor|done|done].
Qed.

(** the critical section of [run] hands a thread the first task of the queue it may
    run, removes exactly that one and keeps the order of the others; it asks for another
    wake-up when it passed tasks over, or leaves tasks while threads are idle.  When the
    first task it may run has no coroutine, the loop continues with the iterator to the
    erased element. *)
Theorem take_task_first (tid : Z) (s : Scheduler) :
  match take_task tid s with
  | Ret (Some t, need, s') =>
      exists l r, m_tasks s = l ++ t :: r /\ s' = set_tasks (l ++ r) s /\
        Forall (fun t => ~ eligible tid t) l /\ eligible tid t /\ is_Some (m_co t) /\
        (need = true <-> l <> [] \/ (l ++ r <> [] /\ 0 < m_idle_cnt s))
  | Ret (None, need, s') =>
      s' = set_tasks (m_tasks s) s /\ Forall (fun t => ~ eligible tid t) (m_tasks s) /\
        (need = true <-> m_tasks s <> [])
  | Throw _ => False
  | Undef u =>
      u = UseAfterFree /\
      exists l t r, m_tasks s = l ++ t :: r /\ Forall (fun t => ~ eligible tid t) l /\
        eligible tid t /\ m_co t = None
  end.
Proof.
  unfold take_task. pose proof (take_loop_spec tid [] (m_tasks s) false) as Hspec.
  destruct (take_loop tid [] (m_tasks s) false) as [[[[t|] n] rest]| |]; cbn in Hspec |- *; try done.
  - destruct Hspec as (l & r & Hts & -> & Hl & He & Hco & ->). exists l, r. split_and!; try done.
    rewrite orb_true_iff, andb_true_iff, !negb_true_iff, !bool_decide_eq_false, Z.ltb_lt. tauto.
  - destruct Hspec as (-> & Hl & ->). split_and!; try done.
    rewrite orb_true_iff, andb_true_iff, !negb_true_iff, !bool_decide_eq_false. tauto.
Qed.

(** ** Conservation of tasks *)

(** The task a worker holds, and the one whose coroutine it runs. *)
Definition held1 (w : worker) : list Task :=
  match w_pc w with
  | WGot t _ | WRun t | WResume t | WEnter t | WAbort t => [t]
  | _ => []
  end.

Definition body1 (w : worker) : list Task :=
  match w_pc w with
  | WBody t | WLeave t => [t]
  | _ => []
  end.

Definition held (ws : gmap Z worker) : list Task :=
  map_to_list ws ≫= (fun p => held1 p.2).

Lemma held_split tid w ws :
  ws !! tid = Some w -> held ws ≡ₚ held1 w ++ held (delete tid ws).
Proof.
  intros Hw. unfold held. rewrite <- (insert_delete_id ws tid w Hw) at 1.
  rewrite map_to_list_insert by (by rewrite lookup_delete_eq). done.
Qed.

Lemma held_insert tid w ws : held (<[tid := w]> ws) ≡ₚ held1 w ++ held (delete tid ws).
Proof.
  rewrite (held_split tid w) by (by rewrite lookup_insert_eq). by rewrite delete_insert_eq.
Qed.

(** Workers without a task do not matter. *)
Lemma held_swap tid w w' ws :
  ws !! tid = Some w -> held1 w' = held1 w -> held (<[tid := w']> ws) ≡ₚ held ws.
Proof. intros Hw Heq. by rewrite held_insert, (held_split tid w ws), Heq. Qed.

Lemma held_fresh tid w ws : ws !! tid = None -> held1 w = [] -> held (<[tid := w]> ws) ≡ₚ held ws.
Proof. intros Hn Hw. rewrite held_insert, Hw. by rewrite delete_id. Qed.

Lemma elem_of_held t ws : t ∈ held ws <-> exists tid w, ws !! tid = Some w /\ t ∈ held1 w.
Proof.
  unfold held. rewrite list_elem_of_bind. split.
  - intros ([tid w] & Ht & Hin%elem_of_map_to_list). eauto.
  - intros (tid & w & Hw & Ht). exists (tid, w). split; [done|]. by apply elem_of_map_to_list.
Qed.

(** The workers after [start]: those that were there, and new ones. *)
Definition new_worker : worker := MkWorker WTake true.

Lemma start_shape x tids :
  (forall t, t ∈ tids -> workers x !! t = None /\ t <> m_main_thread_id (sched x)) ->
  workers x !! m_main_thread_id (sched x) = None ->
  exists s ws, start tids x = MkWorld s ws (callers x) (submitted x) (executed x) (costates x) (dropped x) /\
    m_tasks s = m_tasks (sched x) /\ held ws ≡ₚ held (workers x) /\
    (forall tid w, workers x !! tid = Some w -> ws !! tid = Some w) /\
    (forall tid w, ws !! tid = Some w -> workers x !! tid = Some w \/ w = new_worker).
Proof.
  intros Hf Hm. unfold start, start_flags. destruct (_ || _).
  { exists (sched x), (workers x). destruct x. eauto 10. }
  set (ws := foldr _ (workers x) tids).
  assert (forall tid, ws !! tid = if decide (tid ∈ tids) then Some new_worker else workers x !! tid) as Hws.
  { subst ws. clear. induction tids as [|t tids IH]; intros tid; cbn [foldr]; [done|].
    destruct (decide (tid = t)) as [->|Hne].
    - rewrite lookup_insert_eq, decide_True by (by left). done.
    - rewrite lookup_insert_ne, IH by done. destruct (decide (tid ∈ tids)) as [Hin|Hin].
      + by rewrite decide_True by (by right).
      + rewrite decide_False; [done|]. by intros [?|?]%elem_of_cons. }
  assert (held ws ≡ₚ held (workers x)) as Hh.
  { subst ws. assert (forall t, t ∈ tids -> workers x !! t = None) as Hf' by (intros t Ht; by apply Hf).
    clear Hws Hm Hf. induction tids as [|t tids IH]; [done|]. cbn [foldr].
    rewrite held_insert. cbn [held1 w_pc app]. rewrite <- IH by (intros u Hu; apply Hf'; by right).
    set (m := foldr _ (workers x) tids). destruct (m !! t) as [w|] eqn:E.
    - rewrite (held_split t w m E). enough (held1 w = []) as -> by done.
      assert (workers x !! t = None) as Hn by (apply Hf'; by left). clear -E Hn. subst m.
      induction tids as [|u tids IH]; cbn [foldr] in E; [congruence|].
      apply lookup_insert_Some in E as [[_ <-]|[_ E]]; [done|]. by apply IH.
    - by rewrite delete_id. }
  exists (set_stop false false (sched x)).
  destruct (m_use_main_thread (set_stop false false (sched x))).
  - exists (<[m_main_thread_id (sched x) := new_worker]> ws). split; [done|]. split; [done|]. split.
    { rewrite held_fresh; [done| |done]. rewrite Hws, decide_False; [done|]. intros Hin. by apply Hf in Hin as []. }
    split.
    + intros tid w Hw. rewrite lookup_insert_ne by congruence. rewrite Hws, decide_False; [done|].
      intros Hin. apply Hf in Hin as []. congruence.
    + intros tid w [[_ <-]|[_ E]]%lookup_insert_Some; [by right|]. rewrite Hws in E.
      destruct (decide _); [injection E as <-; by right|by left].
  - exists ws. split; [done|]. split; [done|]. split; [done|]. split.
    + intros tid w Hw. rewrite Hws, decide_False; [done|]. intros Hin. apply Hf in Hin as []. congruence.
    + intros tid w E. rewrite Hws in E. destruct (decide _); [injection E as <-; by right|by left].
Qed.

(** The workers hold and dispatch only tasks of theirs, with a coroutine. *)
Definition runs_ok (tid : Z) (t : Task) : Prop := eligible tid t /\ is_Some (m_co t).

Record sched_inv (x : World) : Prop := {
  si_conserved : submitted x ≡ₚ
    m_tasks (sched x) ++ held (workers x) ++ (executed x).*2 ++ (dropped x).*1.*2;
  si_held tid w t : workers x !! tid = Some w -> t ∈ held1 w -> runs_ok tid t;
  si_executed tid t : (tid, t) ∈ executed x -> runs_ok tid t;
  si_dropped tid t st : (tid, t, st) ∈ dropped x -> runs_ok tid t /\ can_resume st = false }.

Lemma tasks_tickle s : m_tasks (tickle s) = m_tasks s.
Proof. unfold tickle. by destruct (_ =? _). Qed.

Lemma tasks_stop s : m_tasks (stop s) = m_tasks s.
Proof. unfold stop. destruct (m_is_stopped s); [done|]. by rewrite tasks_tickle. Qed.

(** A step that moves a worker and neither queue nor tasks. *)
Lemma inv_move tid w w' s' x :
  sched_inv x -> workers x !! tid = Some w -> held1 w' = held1 w -> m_tasks s' = m_tasks (sched x) ->
  sched_inv (set_sched s' (set_worker tid w' x)).
Proof.
  intros [Hc Hh He Hd] Hw Heq Hs. split; cbn; [|intros u v t|done|done].
  - by rewrite Hs, (held_swap tid w w').
  - destruct (decide (u = tid)) as [->|]; [|rewrite lookup_insert_ne by done; apply Hh].
    rewrite lookup_insert_eq. intros [= <-]. rewrite Heq. by apply (Hh tid w).
Qed.

Lemma inv_take tid w x x' :
  sched_inv x -> workers x !! tid = Some w -> w_pc w = WTake ->
  worker_step tid x = Some (Ret x') -> sched_inv x'.
Proof.
  intros [Hc Hh He Hd] Hw Hpc. unfold worker_step. rewrite Hw, Hpc.
  assert (held1 w = []) as Hw0 by (unfold held1; by rewrite Hpc).
  unfold take_task. pose proof (take_loop_spec tid [] (m_tasks (sched x)) false) as Hspec.
  destruct (take_loop tid [] _ false) as [[[[t|] n] rest]| |]; cbn in Hspec |- *; try done;
    intros [= <-].
  - destruct Hspec as (l & r & Hts & -> & _ & Hel & Hco & _). split; cbn; [|intros u v t'|done|done].
    + rewrite Hc, Hts, (held_split tid w) by done. rewrite held_insert, Hw0. cbn.
      rewrite <- !app_assoc. solve_Permutation.
    + destruct (decide (u = tid)) as [->|]; [|rewrite lookup_insert_ne by done; apply Hh].
      rewrite lookup_insert_eq. intros [= <-]. cbn. intros ->%list_elem_of_singleton. done.
  - destruct Hspec as (-> & _). apply (inv_move tid w); try done; by split.
Qed.

(** A step by which a worker that held [t] holds nothing, and [t] is noted. *)
Lemma inv_noted tid w w' t x es cs ds :
  sched_inv x -> workers x !! tid = Some w -> held1 w = [t] -> held1 w' = [] ->
  ((es = executed x ++ [(tid, t)] /\ ds = dropped x) \/
   (es = executed x /\ exists st, ds = dropped x ++ [(tid, t, st)] /\ can_resume st = false)) ->
  sched_inv (MkWorld (sched x) (<[tid := w']> (workers x)) (callers x) (submitted x) es cs ds).
Proof.
  intros [Hc Hh He Hd] Hw Hw1 Hw2 Hcase. assert (runs_ok tid t) as Hok by (apply (Hh tid w); [done|]; rewrite Hw1; by left).
  split; cbn.
  - rewrite Hc, (held_split tid w) by done. rewrite held_insert, Hw1, Hw2. cbn.
    destruct Hcase as [[-> ->]|(-> & st & -> & _)]; rewrite ?fmap_app; cbn; solve_Permutation.
  - intros u v t'. destruct (decide (u = tid)) as [->|]; [|rewrite lookup_insert_ne by done; apply Hh].
    rewrite lookup_insert_eq. intros [= <-]. rewrite Hw2. by intros []%elem_of_nil.
  - intros u t'. destruct Hcase as [[-> _]|[-> _]]; [|apply He].
    intros [Hin|[= -> ->]%list_elem_of_singleton]%elem_of_app; [by apply He|done].
  - intros u t' st'. destruct Hcase as [[_ ->]|(_ & st & -> & Hst)]; [apply Hd|].
    intros [Hin|[= -> -> ->]%list_elem_of_singleton]%elem_of_app; [by apply Hd|done].
Qed.

Lemma worker_inv tid x x' :
  sched_inv x -> worker_step tid x = Some (Ret x') -> sched_inv x'.
Proof.
  intros Hinv Hstep. pose proof Hstep as Hstep'. unfold worker_step in Hstep.
  destruct (workers x !! tid) as [w|] eqn:Hw; [|done].
  assert (forall pc pc', w_pc w = pc -> held1 (MkWorker pc' (w_idle w)) = held1 (MkWorker pc (w_idle w)) ->
    forall s' b, m_tasks s' = m_tasks (sched x) -> sched_inv (set_sched s' (set_worker tid (MkWorker pc' b) x))) as Hmove.
  { intros pc pc' Hpc Heq s' b Hs. apply (inv_move tid w); [done|done| |done].
    unfold held1 in *. cbn in *. by rewrite Hpc. }
  assert (forall need : bool, m_tasks (if need then tickle (sched x) else sched x) = m_tasks (sched x)) as Htk
    by (intros []; [apply tasks_tickle|done]).
  destruct (w_pc w) eqn:Hpc; try done.
  - by apply (inv_take tid w x).
  - injection Hstep as <-. by apply (Hmove _ (WRun t) eq_refl).
  - injection Hstep as <-. by apply (Hmove _ (WDecide need) eq_refl).
  - injection Hstep as <-. destruct (can_resume (co_state (m_co t) x)) eqn:Hst.
    + by apply (Hmove _ (WResume t) eq_refl eq_refl (sched x)).
    + apply (inv_noted tid w _ t); [done|done|unfold held1; by rewrite Hpc|done|right; eauto].
  - injection Hstep as <-. destruct (can_resume _).
    + by apply (Hmove _ (WEnter t) eq_refl eq_refl (sched x)).
    + by apply (Hmove _ (WAbort t) eq_refl eq_refl (sched x)).
  - injection Hstep as <-. apply (inv_noted tid w _ t); [done|done|unfold held1; by rewrite Hpc|done|by left].
  - injection Hstep as <-. by apply (Hmove _ WTake eq_refl eq_refl (sched x)).
  - injection Hstep as <-. apply (Hmove _ (decide_idle tid need (w_idle w) (sched x)) eq_refl); [|done].
    unfold held1, decide_idle, idle_resume. cbn.
    by destruct (m_is_stopping (sched x)),
      (is_main tid (sched x) && negb (m_thread_cnt (sched x) =? 0)), (w_idle w), need.
  - injection Hstep as <-. destruct (idle_waits tid (sched x)).
    + by apply (Hmove _ WWait eq_refl).
    + by apply (Hmove _ WTake eq_refl eq_refl (sched x)).
  - destruct (0 <? m_semaphore (sched x)); [|done]. injection Hstep as <-. by apply (Hmove _ WWoken eq_refl).
  - injection Hstep as <-. by apply (Hmove _ WTake eq_refl).
  - injection Hstep as <-. apply (Hmove _ WDone eq_refl); [done|]. by rewrite tasks_tickle.
Qed.

(** The step of a coroutine. *)
Lemma body_step_eq tid st x x' : body_step tid st x = Some x' ->
  exists t alive, workers x !! tid = Some (MkWorker (WBody t) alive) /\ st <> INIT /\ st <> RUNNING /\
    x' = MkWorld (sched x) (<[tid := MkWorker (WLeave t) alive]> (workers x)) (callers x) (submitted x)
           (executed x) (set_costate (m_co t) st (costates x)) (dropped x).
Proof.
  unfold body_step. destruct (workers x !! tid) as [[[] alive]|]; try done.
  destruct st; try done; intros [= <-]; eauto 10.
Qed.

Lemma sstep_inv x x' : sched_inv x -> sstep x x' -> sched_inv x'.
Proof.
  intros Hinv Hstep. pose proof Hinv as [Hc Hh He Hd].
  destruct Hstep as [tids x Hf Hm _|x|c ts x _|c x x' Hc'| |tid st x x' Hb].
  - destruct (start_shape x tids Hf Hm) as (s & ws & -> & Hs & Hws & _ & Hnew). split; cbn; [by rewrite Hs, Hws| |done|done].
    intros tid w t [Hw| ->]%Hnew; [by apply Hh|]. by intros []%elem_of_nil.
  - split; cbn; [by rewrite tasks_stop|done..].
  - unfold call_schedule. by destruct (m_is_stopping (sched x)).
  - unfold caller_step in Hc'. destruct (callers x !! c) as [[ts|need]|]; [..|done];
      injection Hc' as <-; split; cbn; try done.
    + rewrite Hc. solve_Permutation.
    + by destruct (need && _); rewrite ?tasks_tickle.
  - by eapply worker_inv.
  - apply body_step_eq in Hb as (t & alive & Hw & _ & _ & ->).
    destruct (inv_move tid _ (MkWorker (WLeave t) alive) (sched x) x Hinv Hw eq_refl eq_refl) as [H1 H2 H3 H4].
    by split.
Qed.

Lemma sreach_inv m u n x : sreach (new_World m u n) x -> sched_inv x.
Proof.
  induction 1; [|by eapply sstep_inv]. split; cbn; [done| | |].
  - intros tid w t. by rewrite lookup_empty.
  - by intros tid t []%elem_of_nil.
  - by intros tid t st []%elem_of_nil.
Qed.

(** ** Coroutines that are scheduled when they wait *)

(** The worker runs the coroutine [p]. *)
Definition in_body (p : Z) (w : worker) : Prop := exists t, m_co t = Some p /\ t ∈ body1 w.

(** The coroutine can be resumed, and no worker is in it. *)
Definition ready (p : Z) (x : World) : Prop :=
  can_resume (co_state (Some p) x) = true /\ forall tid w, workers x !! tid = Some w -> ~ in_body p w.

(** The task is bound to the thread that is in its coroutine, which has not ended. *)
Definition at_home (t : Task) (p : Z) (x : World) : Prop :=
  m_thread_id t <> 0 /\ exists w, workers x !! m_thread_id t = Some w /\ in_body p w /\
    (forall t', w_pc w = WLeave t' -> can_resume (co_state (Some p) x) = true).

(** The tasks that wait for their coroutine to be resumed. *)
Definition awaiting (x : World) : list Task := m_tasks (sched x) ++ held (workers x).

(** A call schedules coroutines that no other task waits for: each is suspended, or is the
    one that the thread of the task runs, as in the hooks, where a coroutine has itself
    scheduled on its own thread and then yields. *)
Definition suspended (ts : list Task) (x : World) : Prop :=
  NoDup (omap m_co (ts ++ awaiting x)) /\
  forall t p, t ∈ ts -> m_co t = Some p -> ready p x \/ at_home t p x.

(** Every call is of that kind, and a coroutine that a task waits for does not end. *)
Record tidy_step (x x' : World) : Prop := {
  ts_step : sstep x x';
  ts_push c ts : callers x !! c = Some (CPush ts) -> caller_step c x = Some x' -> suspended ts x;
  ts_end tid st t : body_step tid st x = Some x' -> st <> YIELD ->
    (exists alive, workers x !! tid = Some (MkWorker (WBody t) alive)) ->
    forall t' p, t' ∈ awaiting x -> m_co t = Some p -> m_co t' <> Some p }.

Record tidy (x : World) : Prop := {
  td_nodup : NoDup (omap m_co (awaiting x));
  td_alone p tid1 w1 tid2 w2 : workers x !! tid1 = Some w1 -> workers x !! tid2 = Some w2 ->
    in_body p w1 -> in_body p w2 -> tid1 = tid2;
  td_queued t p : t ∈ m_tasks (sched x) -> m_co t = Some p -> ready p x \/ at_home t p x;
  td_held t p : t ∈ held (workers x) -> m_co t = Some p -> ready p x;
  td_dropped : dropped x = [];
  td_abort tid w t : workers x !! tid = Some w -> w_pc w <> WAbort t }.

(** Two tasks of different places have different coroutines. *)
Lemma nodup_other t l p q t' : NoDup (omap m_co (t :: l)) -> m_co t = Some p -> t' ∈ l -> m_co t' = Some q -> q <> p.
Proof.
  cbn. intros Hn Hp Hin Hq ->. rewrite Hp in Hn. apply NoDup_cons in Hn as [Hn _].
  apply Hn, list_elem_of_omap. eauto.
Qed.

(** What a step leaves as it was for the coroutine [p]. *)
Definition untouched (p : Z) (x x' : World) : Prop :=
  co_state (Some p) x' = co_state (Some p) x /\
  forall u w, in_body p w -> workers x' !! u = Some w <-> workers x !! u = Some w.

Lemma ready_untouched p x x' : untouched p x x' -> ready p x -> ready p x'.
Proof. intros [Hs Hw] [H1 H2]. split; [by rewrite Hs|]. intros u w Hu Hb. by apply (H2 u w); [apply Hw|]. Qed.

Lemma home_untouched t p x x' : untouched p x x' -> at_home t p x -> at_home t p x'.
Proof.
  intros [Hs Hw] [H0 (w & Hu & Hb & Hl)]. split; [done|]. exists w. split; [by apply Hw|].
  split; [done|]. by rewrite Hs.
Qed.

Lemma queued_untouched t p x x' : tidy x -> untouched p x x' -> t ∈ m_tasks (sched x) -> m_co t = Some p ->
  ready p x' \/ at_home t p x'.
Proof.
  intros Ht Hu Hin Hp. destruct (td_queued x Ht t p Hin Hp);
    [left; by apply (ready_untouched p x)|right; by apply (home_untouched t p x)].
Qed.

Lemma abort_insert tid w' x : tidy x -> (forall t, w_pc w' <> WAbort t) ->
  forall u v t, <[tid := w']> (workers x) !! u = Some v -> w_pc v <> WAbort t.
Proof. intros Ht Hw' u v t [[_ <-]|[_ E]]%lookup_insert_Some; [done|]. by apply (td_abort x Ht u). Qed.

Lemma untouched_worker p tid w w' x x' :
  workers x !! tid = Some w -> workers x' = <[tid := w']> (workers x) -> ~ in_body p w -> ~ in_body p w' ->
  co_state (Some p) x' = co_state (Some p) x -> untouched p x x'.
Proof.
  intros Hw Hx Hn Hn' Hs. split; [done|]. intros u v Hv. rewrite Hx.
  destruct (decide (u = tid)) as [->|Hne]; [|by rewrite lookup_insert_ne].
  rewrite lookup_insert_eq. split; intros E; congruence.
Qed.

Lemma not_in_body p w : body1 w = [] -> ~ in_body p w.
Proof. intros E (t & _ & Ht). rewrite E in Ht. by apply elem_of_nil in Ht. Qed.

(** Workers in the same coroutine, after one of them moved. *)
Lemma alone_insert p tid w' x u1 v1 u2 v2 : tidy x ->
  (in_body p w' -> forall u v, workers x !! u = Some v -> in_body p v -> u = tid) ->
  <[tid := w']> (workers x) !! u1 = Some v1 -> <[tid := w']> (workers x) !! u2 = Some v2 ->
  in_body p v1 -> in_body p v2 -> u1 = u2.
Proof.
  intros Ht Hw' [[<- <-]|[H1 E1]]%lookup_insert_Some [[<- <-]|[H2 E2]]%lookup_insert_Some B1 B2; [done|..].
  - symmetry. by apply (Hw' B1 u2 v2).
  - by apply (Hw' B2 u1 v1).
  - by apply (td_alone x Ht p u1 v1 u2 v2).
Qed.

Lemma tidy_move tid w w' s' x :
  tidy x -> workers x !! tid = Some w -> held1 w' = held1 w -> body1 w = [] -> body1 w' = [] ->
  (forall t, w_pc w' <> WAbort t) -> m_tasks s' = m_tasks (sched x) ->
  tidy (set_sched s' (set_worker tid w' x)).
Proof.
  intros Ht Hw Hh Hb Hb' Hab Hs. set (x' := set_sched _ _).
  assert (forall p, untouched p x x') as Hun
    by (intros p; apply (untouched_worker p tid w w'); try done; by apply not_in_body).
  assert (held (workers x') ≡ₚ held (workers x)) as Hheld by (by apply held_swap with w).
  split.
  - unfold awaiting. cbn [sched x' set_sched]. rewrite Hs. change (workers _) with (workers x'). rewrite Hheld. apply Ht.
  - intros p u1 v1 u2 v2. apply (alone_insert p tid w' x); [done|]. intros Hbad. by apply (not_in_body p w') in Hbad.
  - intros t p Hin Hp. cbn in Hin. rewrite Hs in Hin. by apply (queued_untouched t p x).
  - intros t p Hin Hp. rewrite Hheld in Hin. apply (ready_untouched p x); [done|]. by apply (td_held x Ht t).
  - apply Ht.
  - by apply (abort_insert tid w' x).
Qed.

Lemma tidy_take tid w x x' :
  tidy x -> workers x !! tid = Some w -> w_pc w = WTake -> worker_step tid x = Some (Ret x') -> tidy x'.
Proof.
  intros Ht Hw Hpc. assert (held1 w = [] /\ body1 w = []) as [Hw0 Hb0] by (unfold held1, body1; by rewrite Hpc).
  unfold worker_step. rewrite Hw, Hpc. unfold take_task.
  pose proof (take_loop_spec tid [] (m_tasks (sched x)) false) as Hspec.
  destruct (take_loop tid [] _ false) as [[[[t|] n] rest]| |]; cbn in Hspec |- *; try done; intros [= <-].
  2: { destruct Hspec as (-> & _). by apply (tidy_move tid w). }
  destruct Hspec as (l & r & Hts & -> & _ & Hel & _). set (w' := MkWorker (WGot t _) _). set (x' := set_sched _ _).
  assert (forall p, untouched p x x') as Hun
    by (intros p; apply (untouched_worker p tid w w'); try done; by apply not_in_body).
  assert (held (workers x') ≡ₚ t :: held (workers x)) as Hheld
    by (change (held (<[tid := w']> (workers x)) ≡ₚ t :: held (workers x));
        by rewrite held_insert, (held_split tid w (workers x)), Hw0).
  split.
  - unfold awaiting. rewrite Hheld. cbn [sched x' set_sched m_tasks set_tasks].
    pose proof (td_nodup x Ht) as Hn. unfold awaiting in Hn. rewrite Hts in Hn.
    assert ((l ++ t :: r) ++ held (workers x) ≡ₚ (l ++ r) ++ t :: held (workers x)) as <-; [|done].
    rewrite <- !app_assoc. solve_Permutation.
  - intros p u1 v1 u2 v2. apply (alone_insert p tid w' x); [done|]. intros Hbad. by apply (not_in_body p w') in Hbad.
  - intros t' p Hin Hp. cbn in Hin. assert (t' ∈ m_tasks (sched x)) as Hin'.
    { rewrite Hts. apply elem_of_app in Hin as [?|?]; apply elem_of_app; [by left|right; by right]. }
    by apply (queued_untouched t' p x).
  - intros t' p Hin Hp. rewrite Hheld in Hin. apply (ready_untouched p x); [done|].
    apply elem_of_cons in Hin as [->|Hin]; [|by apply (td_held x Ht t')].
    destruct (td_queued x Ht t p) as [H|[H0 (v & Hv & Hb & _)]]; [rewrite Hts; set_solver|done|done|].
    exfalso. destruct Hel as [He|He]; [done|]. rewrite He in Hv. assert (v = w) as -> by congruence.
    by apply (not_in_body p w).
  - apply Ht.
  - by apply (abort_insert tid w' x).
Qed.

Lemma co_state_set p q st x s ws cl sb ex dr : q <> p ->
  co_state (Some p) (MkWorld s ws cl sb ex (set_costate (Some q) st (costates x)) dr) = co_state (Some p) x.
Proof. intros Hne. cbn. by rewrite lookup_insert_ne. Qed.

(** A worker enters the coroutine of the task it holds. *)
Lemma tidy_enter tid w t x : tidy x -> workers x !! tid = Some w -> w_pc w = WEnter t -> is_Some (m_co t) ->
  tidy (MkWorld (sched x) (<[tid := MkWorker (WBody t) (w_idle w)]> (workers x)) (callers x) (submitted x)
    (executed x ++ [(tid, t)]) (set_costate (m_co t) RUNNING (costates x)) (dropped x)).
Proof.
  intros Ht Hw Hpc [p Hp]. assert (held1 w = [t] /\ body1 w = []) as [Hw1 Hb0] by (unfold held1, body1; by rewrite Hpc).
  rewrite Hp. set (w' := MkWorker (WBody t) _). set (x' := MkWorld _ _ _ _ _ _ _).
  assert (held (workers x) ≡ₚ t :: held (workers x')) as Hheld.
  { change (held (workers x) ≡ₚ t :: held (<[tid := w']> (workers x))).
    by rewrite held_insert, (held_split tid w (workers x)), Hw1. }
  pose proof (td_nodup x Ht) as Hn. unfold awaiting in Hn. rewrite Hheld in Hn.
  assert (m_tasks (sched x) ++ t :: held (workers x') ≡ₚ t :: awaiting x') as Hperm
    by (unfold awaiting; cbn [sched x']; solve_Permutation).
  rewrite Hperm in Hn.
  assert (forall q, q <> p -> untouched q x x') as Hun.
  { intros q Hq. apply (untouched_worker q tid w w'); [done|done|by apply not_in_body| |by apply co_state_set].
    intros (t' & Ht' & Hin). cbn in Hin. apply list_elem_of_singleton in Hin as ->. congruence. }
  assert (t ∈ held (workers x)) as Hin0 by (rewrite Hheld; by left).
  destruct (td_held x Ht t p Hin0 Hp) as [_ Hnone].
  split.
  - cbn in Hn. rewrite Hp in Hn. by apply NoDup_cons in Hn as [_ Hn].
  - intros q u1 v1 u2 v2. apply (alone_insert q tid w' x); [done|]. intros (t' & Ht' & Hin) u v Hu Hv.
    cbn in Hin. apply list_elem_of_singleton in Hin as ->. exfalso. apply (Hnone u v Hu). congruence.
  - intros t' q Hin Hq. assert (q <> p) as Hne.
    { apply (nodup_other t (awaiting x') p q t' Hn Hp); [|done]. apply elem_of_app. by left. }
    apply (queued_untouched t' q x); [done|by apply Hun|done..].
  - intros t' q Hin Hq. assert (q <> p) as Hne.
    { apply (nodup_other t (awaiting x') p q t' Hn Hp); [|done]. apply elem_of_app. by right. }
    apply (ready_untouched q x); [by apply Hun|]. apply (td_held x Ht t'); [|done]. rewrite Hheld. by right.
  - apply Ht.
  - by apply (abort_insert tid w' x).
Qed.

(** The coroutine gives up control. *)
Lemma tidy_body tid t alive st x : tidy x -> workers x !! tid = Some (MkWorker (WBody t) alive) ->
  (st <> YIELD -> forall t' p, t' ∈ awaiting x -> m_co t = Some p -> m_co t' <> Some p) ->
  tidy (MkWorld (sched x) (<[tid := MkWorker (WLeave t) alive]> (workers x)) (callers x) (submitted x)
    (executed x) (set_costate (m_co t) st (costates x)) (dropped x)).
Proof.
  intros Ht Hw Hend. set (w := MkWorker (WBody t) alive) in *. set (w' := MkWorker (WLeave t) alive).
  set (x' := MkWorld _ _ _ _ _ _ _).
  assert (held (workers x') ≡ₚ held (workers x)) as Hheld by (by apply held_swap with w).
  assert (forall q, in_body q w' <-> m_co t = Some q) as Hb'.
  { intros q. split; [intros (t' & Hq & ->%list_elem_of_singleton); done|]. intros Hq. exists t. split; [done|by left]. }
  assert (forall q, in_body q w <-> in_body q w') as Hbb by done.
  assert (forall q, m_co t <> Some q -> untouched q x x') as Hun.
  { intros q Hq. apply (untouched_worker q tid w w'); [done|done|by rewrite Hbb, Hb'|by rewrite Hb'|].
    destruct (m_co t) as [p|]; [|done]. apply co_state_set. congruence. }
  split.
  - unfold awaiting. rewrite Hheld. apply Ht.
  - intros q u1 v1 u2 v2. apply (alone_insert q tid w' x); [done|]. intros Hq u v Hu Hv.
    by apply (td_alone x Ht q u v tid w).
  - intros t' q Hin Hq. destruct (decide (m_co t = Some q)) as [Hp|Hp].
    + right. destruct (td_queued x Ht t' q Hin Hq) as [[_ Hr]|[H0 (v & Hv & Hbv & _)]].
      { exfalso. apply (Hr tid w Hw). by apply Hb'. }
      assert (m_thread_id t' = tid) as Hid by (apply (td_alone x Ht q _ v tid w); try done; by apply Hb').
      split; [done|]. exists w'. rewrite Hid. split; [cbn; by rewrite lookup_insert_eq|]. split; [by apply Hb'|].
      intros _ _. assert (st = YIELD) as ->.
      { destruct (decide (st = YIELD)) as [|Hne]; [done|]. exfalso.
        apply (Hend Hne t' q); [apply elem_of_app; by left|done|done]. }
      cbn. rewrite Hp. cbn. by rewrite lookup_insert_eq.
    + apply (queued_untouched t' q x); [done|by apply Hun|done..].
  - intros t' q Hin Hq. rewrite Hheld in Hin. pose proof (td_held x Ht t' q Hin Hq) as Hr.
    apply (ready_untouched q x); [|done]. apply Hun. intros Hp. destruct Hr as [_ Hr]. apply (Hr tid w Hw). by apply Hb'.
  - apply Ht.
  - by apply (abort_insert tid w' x).
Qed.

(** Control is back in [run]. *)
Lemma tidy_leave tid w t x : tidy x -> workers x !! tid = Some w -> w_pc w = WLeave t ->
  tidy (set_worker tid (MkWorker WTake (w_idle w)) x).
Proof.
  intros Ht Hw Hpc. set (w' := MkWorker WTake _). set (x' := set_worker _ _ _).
  assert (held1 w = [] /\ body1 w = [t]) as [Hw0 Hb1] by (unfold held1, body1; by rewrite Hpc).
  assert (held (workers x') ≡ₚ held (workers x)) as Hheld by (by apply held_swap with w).
  assert (forall q, in_body q w <-> m_co t = Some q) as Hb.
  { intros q. unfold in_body. rewrite Hb1. split; [intros (t' & Hq & ->%list_elem_of_singleton); done|].
    intros Hq. exists t. split; [done|by left]. }
  assert (forall q, m_co t <> Some q -> untouched q x x') as Hun
    by (intros q Hq; apply (untouched_worker q tid w w'); try done; [by rewrite Hb|by apply not_in_body]).
  split.
  - unfold awaiting. rewrite Hheld. apply Ht.
  - intros q u1 v1 u2 v2. apply (alone_insert q tid w' x); [done|]. intros Hbad. by apply (not_in_body q w') in Hbad.
  - intros t' q Hin Hq. destruct (decide (m_co t = Some q)) as [Hp|Hp].
    + left. destruct (td_queued x Ht t' q Hin Hq) as [[_ Hr]|[H0 (v & Hv & Hbv & Hl)]].
      { exfalso. apply (Hr tid w Hw). by apply Hb. }
      assert (m_thread_id t' = tid) as Hid by (apply (td_alone x Ht q _ v tid w); try done; by apply Hb).
      rewrite Hid in Hv. assert (v = w) as -> by congruence. split; [by apply (Hl t)|].
      intros u v' Hv'. change (<[tid := w']> (workers x) !! u = Some v') in Hv'.
      apply lookup_insert_Some in Hv' as [[_ <-]|[Hne E]]; [by apply not_in_body|]. intros Hbad.
      apply Hne. symmetry. apply (td_alone x Ht q u v' tid w); try done.
    + apply (queued_untouched t' q x); [done|by apply Hun|done..].
  - intros t' q Hin Hq. rewrite Hheld in Hin. pose proof (td_held x Ht t' q Hin Hq) as Hr.
    apply (ready_untouched q x); [|done]. apply Hun. intros Hp. destruct Hr as [_ Hr]. apply (Hr tid w Hw). by apply Hb.
  - apply Ht.
  - by apply (abort_insert tid w' x).
Qed.

(** A step that leaves workers and coroutines, and only adds tasks. *)
Lemma tidy_others x x' ts : tidy x -> workers x' = workers x -> costates x' = costates x -> dropped x' = dropped x ->
  m_tasks (sched x') = m_tasks (sched x) ++ ts -> suspended ts x -> tidy x'.
Proof.
  intros Ht Hw Hc Hd Hs [Hn Hts].
  assert (forall p, untouched p x x') as Hun by (intros p; split; [cbn; by rewrite Hc|intros; by rewrite Hw]).
  split; rewrite ?Hw, ?Hd; try apply Ht.
  - unfold awaiting. rewrite Hw, Hs. assert ((m_tasks (sched x) ++ ts) ++ held (workers x) ≡ₚ ts ++ awaiting x) as ->
      by (unfold awaiting; solve_Permutation). done.
  - intros t p Hin Hp. rewrite Hs in Hin.
    assert (ready p x \/ at_home t p x) as [H|H].
    { apply elem_of_app in Hin as [Hin|Hin]; [by apply (td_queued x Ht)|by apply Hts]. }
    + left. by apply (ready_untouched p x).
    + right. by apply (home_untouched t p x).
  - intros t p Hin Hp. apply (ready_untouched p x); [done|]. by apply (td_held x Ht t).
Qed.

Lemma suspended_nil x : tidy x -> suspended [] x.
Proof. intros Ht. split; [apply Ht|]. by intros t p []%elem_of_nil. Qed.

Lemma tidy_worker tid x x' : sched_inv x -> tidy x -> worker_step tid x = Some (Ret x') -> tidy x'.
Proof.
  intros Hinv Ht Hstep. pose proof Hstep as Hstep'. unfold worker_step in Hstep.
  destruct (workers x !! tid) as [w|] eqn:Hw; [|done].
  assert (forall pc', held1 (MkWorker pc' (w_idle w)) = held1 w -> body1 w = [] -> body1 (MkWorker pc' (w_idle w)) = [] ->
    (forall t, pc' <> WAbort t) -> forall s' b, m_tasks s' = m_tasks (sched x) ->
    tidy (set_sched s' (set_worker tid (MkWorker pc' b) x))) as Hmove
    by (intros pc' H1 H2 H3 H4 s' b Hs; by apply (tidy_move tid w)).
  assert (forall need : bool, m_tasks (if need then tickle (sched x) else sched x) = m_tasks (sched x)) as Htk
    by (intros []; [apply tasks_tickle|done]).
  assert (forall t, held1 w = [t] -> can_resume (co_state (m_co t) x) = true /\ is_Some (m_co t)) as Hres.
  { intros t Hh. destruct (si_held x Hinv tid w t Hw) as [_ [p Hp]]; [rewrite Hh; by left|].
    rewrite Hp. split; [|done]. apply (td_held x Ht t p); [|done]. apply elem_of_held. exists tid, w. rewrite Hh. by split; [|left]. }
  unfold held1, body1 in Hmove, Hres.
  destruct (w_pc w) eqn:Hpc; try done.
  - by apply (tidy_take tid w x).
  - injection Hstep as <-. by apply (Hmove (WRun t)).
  - injection Hstep as <-. by apply (Hmove (WDecide need)).
  - injection Hstep as <-. destruct (Hres t eq_refl) as [-> _]. by apply (Hmove (WResume t) eq_refl eq_refl eq_refl).
  - injection Hstep as <-. destruct (Hres t eq_refl) as [-> _]. by apply (Hmove (WEnter t) eq_refl eq_refl eq_refl).
  - injection Hstep as <-. apply tidy_enter; [done|done|done|]. by apply Hres.
  - injection Hstep as <-. by apply (tidy_leave tid w t).
  - injection Hstep as <-.
    assert (decide_idle tid need (w_idle w) (sched x) ∈ [WTake; WIdle; WAssert; WExit]) as Hin.
    { unfold decide_idle, idle_resume. repeat case_match; set_solver. }
    revert Hin. generalize (decide_idle tid need (w_idle w) (sched x)) as pc'. intros pc' Hin.
    apply (Hmove pc' ); [..|done]; [|done| |]; clear -Hin;
      repeat (apply elem_of_cons in Hin as [->|Hin]; [done|]); by apply elem_of_nil in Hin.
  - injection Hstep as <-. destruct (idle_waits tid (sched x)).
    + by apply (Hmove WWait).
    + by apply (Hmove WTake eq_refl eq_refl eq_refl).
  - destruct (0 <? m_semaphore (sched x)); [|done]. injection Hstep as <-. by apply (Hmove WWoken).
  - injection Hstep as <-. by apply (Hmove WTake).
  - injection Hstep as <-. apply (Hmove WDone); [done..|]. by rewrite tasks_tickle.
Qed.

Lemma tidy_step_inv x x' : sched_inv x -> tidy x -> tidy_step x x' -> tidy x'.
Proof.
  intros Hinv Ht [Hstep Hpush Hend]. pose proof (suspended_nil x Ht) as Hnil.
  assert (forall s', m_tasks s' = m_tasks (sched x) -> forall cl, tidy (MkWorld s' (workers x) cl (submitted x)
    (executed x) (costates x) (dropped x))) as Hother.
  { intros s' Hs cl. apply (tidy_others x _ []); [done..| |done]. cbn. by rewrite Hs, app_nil_r. }
  destruct Hstep as [tids x Hf Hm _|x|c ts x _|c x x' Hc|tid x x' Hw|tid st x x' Hb].
  - destruct (start_shape x tids Hf Hm) as (s & ws & -> & Hs & Hws & Hold & Hnew).
    assert (forall p, untouched p x (MkWorld s ws (callers x) (submitted x) (executed x) (costates x) (dropped x))) as Hun.
    { intros p. split; [done|]. intros u w Hb. cbn. split; [|apply Hold]. intros [Hu| ->]%Hnew; [done|].
      by apply (not_in_body p new_worker) in Hb. }
    split; cbn.
    + unfold awaiting. cbn. rewrite Hs, Hws. apply Ht.
    + intros p u1 v1 u2 v2 [H1| ->]%Hnew [H2| ->]%Hnew B1 B2; [by apply (td_alone x Ht p u1 v1 u2 v2)|..];
        exfalso; by apply (not_in_body p new_worker).
    + intros t p Hin Hp. rewrite Hs in Hin. by apply (queued_untouched t p x).
    + intros t p Hin Hp. rewrite Hws in Hin. apply (ready_untouched p x); [done|]. by apply (td_held x Ht t).
    + apply Ht.
    + intros u v t [Hu| ->]%Hnew; [by apply (td_abort x Ht u)|done].
  - apply Hother. apply tasks_stop.
  - unfold call_schedule. destruct (m_is_stopping (sched x)); [done|]. by apply Hother.
  - pose proof Hc as Hc'. unfold caller_step in Hc. destruct (callers x !! c) as [[ts|need]|] eqn:E; [..|done]; injection Hc as <-.
    + apply (tidy_others x _ ts); [done..|]. by apply (Hpush c).
    + apply Hother. by destruct (need && _); rewrite ?tasks_tickle.
  - by apply (tidy_worker tid x).
  - pose proof Hb as Hb'. apply body_step_eq in Hb as (t & alive & Hw & _ & _ & ->). apply tidy_body; [done|done|].
    intros Hst. apply (Hend tid st t Hb' Hst). eauto.
Qed.

(** The executions whose steps are tidy. *)
Inductive tidy_reach (x0 : World) : World -> Prop :=
| tidy_refl : tidy_reach x0 x0
| tidy_next x x' : tidy_reach x0 x -> tidy_step x x' -> tidy_reach x0 x'.

Lemma tidy_reach_sreach x0 x : tidy_reach x0 x -> sreach x0 x.
Proof. induction 1 as [|x x' _ IH Hs]; [constructor|]. econstructor; [exact IH|]. apply Hs. Qed.

Lemma tidy_reach_inv m u n x : tidy_reach (new_World m u n) x -> tidy x.
Proof.
  induction 1 as [|x x' Hr IH Hs].
  - split; cbn; [constructor|..|done|].
    + intros p u1 v1 u2 v2. by rewrite lookup_empty.
    + by intros t p []%elem_of_nil.
    + by intros t p []%elem_of_nil.
    + intros tid v t. by rewrite lookup_empty.
  - apply (tidy_step_inv x); [|done|done]. by apply (sreach_inv m u n), tidy_reach_sreach.
Qed.

(** C1: no task is lost or run twice.  In every interleaving of workers, callers and
    coroutines, the tasks accepted by [schedule] are, as a multiset, the queued ones, those
    held by a worker between the queue and [resume], those dispatched, and those dropped;
    a task is dispatched on a thread it may run on, with a coroutine; and it is dropped only
    when the state of its coroutine allowed no [resume] at the test.  When every coroutine
    that is scheduled is suspended, or is the one that the thread of the task runs and goes
    on to yield, and no other task waits for it, then no task is ever dropped, no assertion
    of [resume] fails for a task, and no two workers are in the same coroutine. *)
Theorem tasks_exactly_once (main_thread : Z) (use_main : bool) (thread_cnt : Z) (x : World) :
  sreach (new_World main_thread use_main thread_cnt) x ->
  submitted x ≡ₚ m_tasks (sched x) ++ held (workers x) ++ (executed x).*2 ++ (dropped x).*1.*2 /\
  (forall tid t, (tid, t) ∈ executed x ->
     (m_thread_id t = 0 \/ m_thread_id t = tid) /\ is_Some (m_co t)) /\
  (forall tid t st, (tid, t, st) ∈ dropped x -> st <> INIT /\ st <> YIELD) /\
  (tidy_reach (new_World main_thread use_main thread_cnt) x ->
     dropped x = [] /\ (forall tid w t, workers x !! tid = Some w -> w_pc w <> WAbort t) /\
     (forall p tid1 w1 tid2 w2, workers x !! tid1 = Some w1 -> workers x !! tid2 = Some w2 ->
        in_body p w1 -> in_body p w2 -> tid1 = tid2)).
Proof.
  intros Hr. apply sreach_inv in Hr as [Hc Hh He Hd]. split; [done|]. split; [intros; by apply He|]. split.
  - intros tid t st Hin. apply Hd in Hin as [_ Hst]. by destruct st.
  - intros Ht%tidy_reach_inv. split; [apply Ht|]. split; [apply Ht|]. apply Ht.
Qed.

(** The execution used below: the worker finds the queue empty, a task is scheduled
    before the worker has counted itself idle, the worker goes to sleep. *)
Definition w0 : World := new_World 100 false 1.
Definition w1 : World := start [1] w0.

Definition wstep (tid : Z) (x : World) : World :=
  match worker_step tid x with Some (Ret x') => x' | _ => x end.
Definition cstep (c : Z) (x : World) : World :=
  match caller_step c x with Some x' => x' | None => x end.

Definition a_task : Task := MkTask (Some 7) 0.

(** take, no task; decide: idle *)
Definition w2 : World := wstep 1 (wstep 1 (wstep 1 w1)).
(** a whole call of [schedule] *)
Definition w3 : World := cstep 5 (cstep 5 (call_schedule 5 [a_task] w2)).
(** the worker counts itself idle and waits *)
Definition w4 : World := wstep 1 w3.

Lemma wstep_reach x0 tid x : sreach x0 x -> sreach x0 (wstep tid x).
Proof.
  intros Hr. unfold wstep. destruct (worker_step tid x) as [[x'| |]|] eqn:E; try done.
  eapply sreach_step; [done|by eapply s_worker].
Qed.

Lemma cstep_reach x0 c x : sreach x0 x -> sreach x0 (cstep c x).
Proof.
  intros Hr. unfold cstep. destruct (caller_step c x) as [x'|] eqn:E; [|done].
  eapply sreach_step; [done|by eapply s_caller].
Qed.

Lemma w4_reach : sreach w0 w4.
Proof.
  apply wstep_reach, cstep_reach, cstep_reach.
  eapply sreach_step; [|by apply s_call].
  apply wstep_reach, wstep_reach, wstep_reach.
  eapply sreach_step; [apply sreach_refl|]. apply s_start; [|reflexivity|reflexivity].
  intros t ->%list_elem_of_singleton. split; [reflexivity|discriminate].
Qed.

(** Two workers.  The first dispatches the coroutine 7, which is scheduled again, for any
    thread, while it runs; the second worker takes that task and drops it, because the
    coroutine is RUNNING; then the coroutine yields, and no task is left that would resume
    it. *)
Definition wsteps (n : nat) (tid : Z) (x : World) : World := Nat.iter n (wstep tid) x.
Definition bstep (tid : Z) (st : State) (x : World) : World :=
  match body_step tid st x with Some x' => x' | None => x end.

Definition d0 : World := start [1; 2] (new_World 100 false 2).
Definition d1 : World := cstep 5 (cstep 5 (call_schedule 5 [a_task] d0)).
(** take, tickle, test, assertion, RUNNING *)
Definition d2 : World := wsteps 5 1 d1.
Definition d3 : World := cstep 5 (cstep 5 (call_schedule 5 [a_task] d2)).
Definition d4 : World := bstep 1 YIELD (wsteps 3 2 d3).

Lemma wsteps_reach x0 n tid x : sreach x0 x -> sreach x0 (wsteps n tid x).
Proof. intros H. induction n as [|n IH]; [done|]. by apply wstep_reach. Qed.

Lemma bstep_reach x0 tid st x : sreach x0 x -> sreach x0 (bstep tid st x).
Proof.
  intros Hr. unfold bstep. destruct (body_step tid st x) as [x'|] eqn:E; [|done].
  eapply sreach_step; [done|by eapply s_body].
Qed.

Lemma call_reach x0 c ts x : sreach x0 x -> callers x !! c = None -> sreach x0 (cstep c (cstep c (call_schedule c ts x))).
Proof. intros Hr Hn. apply cstep_reach, cstep_reach. eapply sreach_step; [exact Hr|by apply s_call]. Qed.

Lemma d4_reach : sreach (new_World 100 false 2) d4.
Proof.
  apply bstep_reach, wsteps_reach, call_reach; [|vm_compute; reflexivity].
  apply wsteps_reach, call_reach; [|vm_compute; reflexivity].
  eapply sreach_step; [apply sreach_refl|]. apply s_start; [|reflexivity|reflexivity].
  intros t Ht. assert (t = 1 \/ t = 2) as [->| ->] by set_solver; split; (reflexivity || discriminate).
Qed.

(** Up to the second call the execution is tidy. *)
Lemma tidy_plain x x' : sstep x x' -> (forall c ts, callers x !! c <> Some (CPush ts)) ->
  (forall tid w, workers x !! tid = Some w -> body1 w = []) -> tidy_step x x'.
Proof.
  intros Hs Hc Hw. split; [done|by intros c ts Hx _; apply Hc in Hx|].
  intros tid st t _ _ [alive Ha]. by apply Hw in Ha.
Qed.

Definition no_push (x : World) : bool :=
  forallb (fun p => match p.2 with CPush _ => false | _ => true end) (map_to_list (callers x)).
Definition no_body (x : World) : bool :=
  forallb (fun p => bool_decide (body1 p.2 = [])) (map_to_list (workers x)).

Lemma no_push_ok x : no_push x = true -> forall c ts, callers x !! c <> Some (CPush ts).
Proof.
  intros H c ts Hc. unfold no_push in H. rewrite forallb_forall in H.
  by specialize (H (c, CPush ts) (proj1 (list_elem_of_In _ _) (proj2 (elem_of_map_to_list _ _ _) Hc))).
Qed.

Lemma no_body_ok x : no_body x = true -> forall tid w, workers x !! tid = Some w -> body1 w = [].
Proof.
  intros H tid w Hw. unfold no_body in H. rewrite forallb_forall in H.
  specialize (H (tid, w) (proj1 (list_elem_of_In _ _) (proj2 (elem_of_map_to_list _ _ _) Hw))).
  by apply bool_decide_eq_true in H.
Qed.

Lemma tidy_wstep x0 x : tidy_reach x0 x -> no_push x = true -> no_body x = true -> tidy_reach x0 (wstep 1 x).
Proof.
  intros Hr Hp Hb. unfold wstep. destruct (worker_step 1 x) as [[x'| |]|] eqn:E; try done.
  eapply tidy_next; [exact Hr|]. apply tidy_plain; [by eapply s_worker|by apply no_push_ok|by apply no_body_ok].
Qed.

Lemma d1_tidy : tidy_reach (new_World 100 false 2) d1.
Proof.
  eapply tidy_next; [eapply tidy_next; [eapply tidy_next; [eapply tidy_next; [apply tidy_refl|]|]|]|].
  - apply (tidy_plain _ d0); [|by intros c ts|by intros tid w].
    apply s_start; [|reflexivity|reflexivity].
    intros t Ht. assert (t = 1 \/ t = 2) as [->| ->] by set_solver; split; (reflexivity || discriminate).
  - apply (tidy_plain d0 (call_schedule 5 [a_task] d0)); [by apply s_call|apply no_push_ok|apply no_body_ok];
      vm_compute; reflexivity.
  - split; [by apply (s_caller 5 _ (cstep 5 (call_schedule 5 [a_task] d0)))| |].
    + intros c ts Hc _. change (callers (call_schedule 5 [a_task] d0)) with (<[5 := CPush [a_task]]> (∅ : gmap Z cpc)) in Hc.
      apply lookup_insert_Some in Hc as [[<- [= <-]]|[_ Hc]]; [|by rewrite lookup_empty in Hc].
      split; [apply NoDup_singleton|]. intros t p ->%list_elem_of_singleton [= <-]. left. split; [reflexivity|].
      intros tid w Hw. apply not_in_body. revert tid w Hw. apply no_body_ok. vm_compute. reflexivity.
    + intros tid st t _ _ [alive Ha]. exfalso. assert (body1 (MkWorker (WBody t) alive) = []) as E; [|done].
      revert Ha. apply no_body_ok. vm_compute. reflexivity.
  - apply tidy_plain; [|apply no_push_ok|apply no_body_ok]; [|vm_compute; reflexivity..].
    by apply (s_caller 5 _ d1).
Qed.

Lemma d2_tidy : tidy_reach (new_World 100 false 2) d2.
Proof.
  unfold d2, wsteps. cbn [Nat.iter nat_rect].
  do 5 (apply tidy_wstep; [|vm_compute; reflexivity..]). exact d1_tidy.
Qed.

Lemma tasks_exactly_once_witness :
  executed d4 = [(1, a_task)] /\ dropped d4 = [(2, a_task, RUNNING)] /\ m_tasks (sched d4) = [] /\
  co_state (Some 7) d4 = YIELD /\
  submitted d4 ≡ₚ m_tasks (sched d4) ++ held (workers d4) ++ (executed d4).*2 ++ (dropped d4).*1.*2 /\
  executed d2 = [(1, a_task)] /\ dropped d2 = [].
Proof.
  split; [vm_compute; reflexivity|]. split; [vm_compute; reflexivity|]. split; [vm_compute; reflexivity|].
  split; [vm_compute; reflexivity|]. split; [exact (proj1 (tasks_exactly_once 100 false 2 d4 d4_reach))|].
  split; [vm_compute; reflexivity|].
  destruct (tasks_exactly_once 100 false 2 d2 (tidy_reach_sreach _ _ d2_tidy)) as (_ & _ & _ & H).
  exact (proj1 (H d2_tidy)).
Defined.

(** ** A lost wake-up *)

(** The only worker sleeps, nobody will wake it: the queue is not empty, so no caller
    asks for a wake-up. *)
Record asleep (x : World) : Prop := {
  as_workers : workers x = {[ 1 := MkWorker WWait true ]};
  as_sem : m_semaphore (sched x) = 0;
  as_tasks : m_tasks (sched x) <> [];
  as_callers c p : callers x !! c = Some p -> p <> CTickle true;
  as_stopped : m_is_stopped (sched x) = false;
  as_executed : executed x = [] }.

Lemma asleep_step x x' :
  asleep x -> sstep x x' -> asleep x' \/ m_is_stopping (sched x') = true.
Proof.
  intros Has Hstep. pose proof Has as [Hw Hs Ht Hc Hd He].
  destruct Hstep as [tids x _ _ _|x|c ts x Hn|c x x' Hstep|tid x x' Hstep|tid st x x' Hstep].
  - left. unfold start, start_flags. rewrite Hd. done.
  - right. cbn. unfold stop. rewrite Hd. unfold tickle. by destruct (_ =? 0).
  - left. unfold call_schedule. destruct (m_is_stopping (sched x)); [done|]. split; cbn; try done.
    intros d p. destruct (decide (d = c)) as [->|]; [rewrite lookup_insert_eq; by intros [= <-]|].
    rewrite lookup_insert_ne by done. apply Hc.
  - left. unfold caller_step in Hstep. destruct (callers x !! c) as [[ts|need]|] eqn:Hcc; [..|done].
    + injection Hstep as <-. split; cbn; try done; [by destruct (m_tasks (sched x))|].
      intros d p. destruct (decide (d = c)) as [->|]; [|rewrite lookup_insert_ne by done; apply Hc].
      rewrite lookup_insert_eq. intros [= <-]. by rewrite bool_decide_false.
    + destruct need; [by destruct (Hc c (CTickle true))|]. injection Hstep as <-. split; cbn; try done.
      intros d p. destruct (decide (d = c)) as [->|]; [by rewrite lookup_delete_eq|].
      rewrite lookup_delete_ne by done. apply Hc.
  - exfalso. unfold worker_step in Hstep. rewrite Hw in Hstep.
    destruct (decide (tid = 1)) as [->|]; [|by rewrite lookup_singleton_ne in Hstep].
    rewrite lookup_singleton_eq in Hstep. cbn in Hstep. by rewrite Hs in Hstep.
  - exfalso. apply body_step_eq in Hstep as (t & alive & Hb & _). rewrite Hw in Hb.
    apply lookup_singleton_Some in Hb as [_ Hb]. done.
Qed.

Lemma stopping_stays x x' :
  sstep x x' -> m_is_stopping (sched x) = true -> m_is_stopping (sched x') = true.
Proof.
  assert (forall s, m_is_stopping (tickle s) = m_is_stopping s) as Htk
    by (intros s; unfold tickle; by destruct (_ =? 0)).
  intros Hstep Hs. destruct Hstep as [tids x _ _ _|x|c ts x Hn|c x x' Hstep|tid x x' Hstep|tid st x x' Hstep].
  - unfold start, start_flags. by rewrite Hs, orb_true_r.
  - cbn. unfold stop. destruct (m_is_stopped (sched x)); [done|]. by rewrite Htk.
  - unfold call_schedule. by rewrite Hs.
  - unfold caller_step in Hstep. destruct (callers x !! c) as [[ts|need]|]; [..|done];
      injection Hstep as <-; cbn; [done|]. by destruct (need && _); rewrite ?Htk.
  - unfold worker_step in Hstep. destruct (workers x !! tid) as [w|]; [|done].
    destruct (w_pc w) as [|t need|need|t|t|t|t|t|t|need| | | | | |]; try done.
    + unfold take_task in Hstep. destruct (take_loop _ _ _ _) as [[[? ?] ?]| |]; [|done..].
      by injection Hstep as <-.
    + injection Hstep as <-. cbn. by destruct need; rewrite ?Htk.
    + injection Hstep as <-. cbn. by destruct need; rewrite ?Htk.
    + injection Hstep as <-. by destruct (can_resume _).
    + by injection Hstep as <-.
    + by injection Hstep as <-.
    + by injection Hstep as <-.
    + by injection Hstep as <-.
    + injection Hstep as <-. by destruct (idle_waits tid (sched x)).
    + destruct (0 <? _); [|done]. by injection Hstep as <-.
    + by injection Hstep as <-.
    + injection Hstep as <-. cbn. by rewrite Htk.
  - by apply body_step_eq in Hstep as (t & alive & _ & _ & _ & ->).
Qed.

(** C39: a wake-up can be lost for good: with one worker there is an execution after which a
    scheduled task stays in the queue and the worker asleep, whatever is scheduled
    afterwards, until [stop] is called.  The worker tests the queue before it counts
    itself idle, and [schedule] wakes a worker only if one is counted and only when the
    queue was empty. *)
Theorem wakeup_lost :
  exists x, sreach (new_World 100 false 1) x /\ a_task ∈ m_tasks (sched x) /\
    forall x', sreach x x' -> m_is_stopping (sched x') = false ->
      workers x' = {[ 1 := MkWorker WWait true ]} /\ m_tasks (sched x') <> [] /\ executed x' = [].
Proof.
  exists w4. split; [exact w4_reach|]. split; [by left|].
  assert (asleep w4) as Ha.
  { split; try reflexivity; [discriminate|]. intros c p.
    change (callers w4) with (delete 5 (<[5 := CTickle true]> (<[5 := CPush [a_task]]> (∅ : gmap Z cpc)))).
    rewrite delete_insert_eq, delete_insert_eq, delete_empty. by rewrite lookup_empty. }
  intros x' Hr. assert (asleep x' \/ m_is_stopping (sched x') = true) as [[]| ->]; [|done..].
  induction Hr as [|x x' _ IH Hstep]; [by left|]. destruct IH as [IH|IH].
  - by apply (asleep_step x).
  - right. by apply (stopping_stays x).
Qed.
