(* ===== verification/IOManager.v ===== *)
(** * The event loop ([iomanager.h], [iomanager.cc])

    The table of descriptor contexts: who waits for which event, and what the kernel was
    told.  The calls are the sections of the source under the lock of the context, run to
    completion.  The kernel's [epoll] and the scheduler are interfaces with the
    behaviour this code relies on. *)

From stdpp Require Import base list numbers gmap.
From Stdlib Require Import Lia ZArith.
From S2P Require Import Prelude Scheduler.

(** ** Interfaces *)

Inductive ctl_op := EPOLL_CTL_ADD | EPOLL_CTL_MOD | EPOLL_CTL_DEL.

(** [epoll_ctl] on a kernel state: it fails and changes nothing, or registers, changes or
    removes the interest of the descriptor; adding needs a descriptor that is not
    registered, the others one that is. *)
Class Epoll (K : Type) := {
  epoll_ctl : ctl_op -> Z -> Z -> K -> bool * K;
  interest : K -> Z -> option Z;
  epoll_ok op fd ev k k' : epoll_ctl op fd ev k = (true, k') ->
    (match op with EPOLL_CTL_ADD => interest k fd = None | _ => is_Some (interest k fd) end) /\
    (forall g, interest k' g =
       if decide (g = fd)
       then (match op with EPOLL_CTL_DEL => None | _ => Some ev end) else interest k g);
  epoll_fail op fd ev k k' : epoll_ctl op fd ev k = (false, k') ->
    forall g, interest k' g = interest k g }.

(** [Scheduler::schedule] as its clients see it: a job is accepted and becomes pending, or
    refused and nothing happens. *)
Class TaskQueue (Q : Type) := {
  schedule : job -> Z -> Q -> bool * Q;
  pending : Q -> list Task;
  schedule_spec j tid q q' b : schedule j tid q = (b, q') ->
    pending q' = if b then pending q ++ [(new_Task (match j with JFnPtr f | JFn f => f | JCo _ => 0 end) j tid).1]
                 else pending q }.

(** The scheduler implements it (a call of [schedule] run to completion). *)
Definition schedule_now (j : job) (tid : Z) (s : Scheduler) : bool * Scheduler :=
  if m_is_stopping s then (false, s)
  else
    let t := (new_Task (match j with JFnPtr f | JFn f => f | JCo _ => 0 end) j tid).1 in
    let '(need, s) := push_tasks [t] s in
    (true, if need && (0 <? m_idle_cnt s) then Scheduler.tickle s else s).

#[export] Instance scheduler_queue : TaskQueue Scheduler.
Proof.
  refine {| schedule := schedule_now; pending := m_tasks |}.
  unfold schedule_now. intros j tid s s' b. destruct (m_is_stopping s); [by intros [= <- <-]|].
  unfold push_tasks. intros [= <- <-]. unfold Scheduler.tickle. cbn.
  by destruct (bool_decide _), (0 <? m_idle_cnt s), (m_idle_cnt s =? 0).
Defined.

(** ** Data *)

Definition NONE : Z := 0.
Definition READ : Z := 1.
Definition WRITE : Z := 4.

Definition EPOLLIN : Z := 1.
Definition EPOLLOUT : Z := 4.
Definition EPOLLERR : Z := 8.
Definition EPOLLHUP : Z := 16.
Definition EPOLLET : Z := 2147483648.

Record EventContext := MkEventContext {
  (** whether [scheduler] is not null *)
  scheduler : bool;
  thread_id : Z;
  co : option Z;
  cb : option Z }.

Record Context := MkContext {
  c_fd : Z;
  statuses : Z;
  ec_read : EventContext;
  ec_write : EventContext }.

Section IOManager.
Context {K Q : Type} `{!Epoll K} `{!TaskQueue Q}.

Record IOManager := MkIOManager {
  kernel : K;
  queue : Q;
  m_contexts : list Context;
  m_appending_event_cnt : Z }.

Definition set_contexts (cs : list Context) (m : IOManager) : IOManager :=
  MkIOManager (kernel m) (queue m) cs (m_appending_event_cnt m).
Definition set_kernel (k : K) (m : IOManager) : IOManager :=
  MkIOManager k (queue m) (m_contexts m) (m_appending_event_cnt m).
Definition add_appending (d : Z) (m : IOManager) : IOManager :=
  MkIOManager (kernel m) (queue m) (m_contexts m) (wrap 64 (m_appending_event_cnt m + d)).

(** A new context: the [thread_id] of its event contexts is left uninitialised; [junk]
    says what it holds. *)
Definition new_Context (junk i : Z) : Context :=
  let ec := MkEventContext false junk None None in MkContext i NONE ec ec.

Definition fd_context_resize (junk size : Z) (m : IOManager) : IOManager :=
  let cs := m_contexts m in
  if size <=? zlen cs then m
  else set_contexts (cs ++ (new_Context junk <$> seqZ (zlen cs) (size - zlen cs))) m.

Definition new_IOManager (junk : Z) (k : K) (q : Q) : IOManager :=
  fd_context_resize junk 128 (MkIOManager k q [] 0).

(** ** Contexts *)

Definition get_event_context (c : Context) (status : Z) : EventContext :=
  if status =? READ then ec_read c else ec_write c.

Definition put_event_context (c : Context) (status : Z) (e : EventContext) : Context :=
  if status =? READ then MkContext (c_fd c) (statuses c) e (ec_write c)
  else MkContext (c_fd c) (statuses c) (ec_read c) e.

Definition set_statuses (st : Z) (c : Context) : Context :=
  MkContext (c_fd c) st (ec_read c) (ec_write c).

Definition reset_event_context : EventContext := MkEventContext false 0 None None.

Definition has (c : Context) (status : Z) : bool := negb (Z.land (statuses c) status =? 0).
(** [statuses & ~status]. *)
Definition without (st status : Z) : Z := Z.ldiff st status.

(** [trigger_event]: a waiting coroutine is moved into the task, a callback copied. *)
Definition trigger_event (status : Z) (c : Context) (q : Q) : res (Context * Q) :=
  if negb (has c status) then Ret (c, q)
  else
    let c := set_statuses (without (statuses c) status) c in
    let e := get_event_context c status in
    if negb (scheduler e) then Undef NullDeref
    else
      let j := match co e with Some p => JCo (Some p)
               | None => JFnPtr (match cb e with Some f => f | None => 0 end) end in
      let '(_, q) := schedule j (thread_id e) q in
      Ret (put_event_context c status reset_event_context, q).

Definition set_context (fd : Z) (c : Context) (m : IOManager) : IOManager :=
  set_contexts (<[Z.to_nat fd := c]> (m_contexts m)) m.

(** [m_contexts[fd]]; outside the vector it is undefined. *)
Definition context (fd : Z) (m : IOManager) : res Context :=
  if fd <? 0 then Undef BufferOverflow
  else
    match m_contexts m !! Z.to_nat fd with
    | Some c => Ret c
    | None => Undef BufferOverflow
    end.

Definition lift_io {A} (r : res A) (m : IOManager) : res A * IOManager := (r, m).

(** [epoll_ctl] with [EPOLL_CTL_MOD] or [DEL] depending on what is left. *)
Definition ctl_left (fd left : Z) (m : IOManager) : bool * IOManager :=
  let op := if left =? 0 then EPOLL_CTL_DEL else EPOLL_CTL_MOD in
  let '(ok, k) := epoll_ctl op fd (Z.lor EPOLLET left) (kernel m) in
  (ok, set_kernel k m).

(** ** Operations *)

(** [add_event] by the thread [tid] running the coroutine [running]; [sched] says whether
    the thread belongs to a scheduler. *)
Definition add_event (junk fd status : Z) (fn : option Z) (sched : bool) (running tid : Z)
    : meth IOManager bool :=
  fun m =>
    let m :=
      if fd <? zlen (m_contexts m) then m else fd_context_resize junk (fd * 3 / 2) m in
    match context fd m with
    | Throw e => (Throw e, m)
    | Undef u => (Undef u, m)
    | Ret c =>
        if has c status then (Ret false, m)
        else
          let op := if statuses c =? 0 then EPOLL_CTL_ADD else EPOLL_CTL_MOD in
          let '(ok, k) :=
            epoll_ctl op fd (Z.lor (Z.lor (statuses c) status) EPOLLET) (kernel m) in
          let m := set_kernel k m in
          if negb ok then (Ret false, m)
          else
            let m := add_appending 1 m in
            let c := set_statuses (Z.lor (statuses c) status) c in
            let e := get_event_context c status in
            let e :=
              match fn with
              | Some f => MkEventContext sched (thread_id e) (co e) (Some f)
              | None => MkEventContext sched tid (Some running) (cb e)
              end in
            (Ret true, set_context fd (put_event_context c status e) m)
    end.

(** [del_event] resets the event context of the status that is left. *)
Definition del_event (fd status : Z) : meth IOManager bool :=
  fun m =>
    if zlen (m_contexts m) <=? fd then (Ret false, m)
    else
      match context fd m with
      | Throw e => (Throw e, m)
      | Undef u => (Undef u, m)
      | Ret c =>
          if negb (has c status) then (Ret false, m)
          else
            let new_status := without (statuses c) status in
            let '(ok, m) := ctl_left fd new_status m in
            if negb ok then (Ret false, m)
            else
              let m := add_appending (-1) m in
              let c := set_statuses new_status c in
              (Ret true, set_context fd (put_event_context c new_status reset_event_context) m)
      end.

Definition trigger (fd status : Z) (c : Context) (m : IOManager) : res Context * IOManager :=
  match trigger_event status c (queue m) with
  | Ret (c, q) =>
      (Ret c, set_context fd c (MkIOManager (kernel m) q (m_contexts m) (m_appending_event_cnt m)))
  | Throw e => (Throw e, m)
  | Undef u => (Undef u, m)
  end.

Definition cancel_event (fd status : Z) : meth IOManager bool :=
  fun m =>
    if zlen (m_contexts m) <=? fd then (Ret false, m)
    else
      match context fd m with
      | Throw e => (Throw e, m)
      | Undef u => (Undef u, m)
      | Ret c =>
          if negb (has c status) then (Ret false, m)
          else
            let '(ok, m) := ctl_left fd (without (statuses c) status) m in
            if negb ok then (Ret false, m)
            else
              let m := add_appending (-1) m in
              (let! _ := trigger fd status c in ret true) m
      end.

(** A triggering of the status if it is set, with its count. *)
Definition trigger_if (test : bool) (fd status : Z) (c : Context) : meth IOManager Context :=
  if test then
    let! c := trigger fd status c in
    fun m => (Ret c, add_appending (-1) m)
  else ret c.

Definition cancel_all_event (fd : Z) : meth IOManager bool :=
  fun m =>
    if zlen (m_contexts m) <=? fd then (Ret false, m)
    else
      match context fd m with
      | Throw e => (Throw e, m)
      | Undef u => (Undef u, m)
      | Ret c =>
          if statuses c =? 0 then (Ret false, m)
          else
            let '(ok, k) := epoll_ctl EPOLL_CTL_DEL fd NONE (kernel m) in
            let m := set_kernel k m in
            if negb ok then (Ret false, m)
            else
              (let! c := trigger_if (has c READ) fd READ c in
               let! c := trigger_if (has c WRITE) fd WRITE c in
               if statuses c =? NONE then ret true
               else (fun m => (Undef AssertFail, m))) m
      end.

(** The event a reported mask stands for, as [idle] computes it. *)
Definition real_status (events : Z) : Z :=
  let events :=
    if Z.land events (Z.lor EPOLLERR EPOLLHUP) =? 0 then events
    else Z.lor events (Z.lor EPOLLIN EPOLLOUT) in
  let st := if Z.land events EPOLLIN =? 0 then NONE else READ in
  if Z.land events EPOLLOUT =? 0 then st else WRITE.

(** One iteration of the loop of [idle] over the reported events, for a descriptor other
    than the pipe. *)
Definition handle_event (fd events : Z) : meth IOManager unit :=
  fun m =>
    match context fd m with
    | Throw e => (Throw e, m)
    | Undef u => (Undef u, m)
    | Ret c =>
        let real := real_status events in
        if Z.land (statuses c) real =? NONE then (Ret tt, m)
        else
          let '(ok, m) := ctl_left fd (without (statuses c) real) m in
          if negb ok then (Ret tt, m)
          else
            (let! c := trigger_if (negb (Z.land real READ =? 0)) fd READ c in
             let! _ := trigger_if (negb (Z.land real WRITE =? 0)) fd WRITE c in
             ret tt) m
    end.

(** The timeout [idle] passes to [epoll_wait]. *)
Definition epoll_timeout (next_time : Z) : Z :=
  let next_time := if next_time <? 0 then 5000 else next_time in
  if 5000 <? next_time then 5000 else next_time.

End IOManager.
