(* ===== verification/IOManagerProps.v ===== *)
(** * The event loop: the theorems

    Registration, cancellation and event delivery keep the table and the kernel in step
    and hand every waiter to the scheduler exactly once; two defects of the code are
    stated beside. *)

From stdpp Require Import base list numbers gmap.
From Stdlib Require Import Lia ZArith.
From S2P Require Import Prelude Scheduler IOManager.

(** ** Abstract view *)

(** Who waits: the job to schedule, and its thread. *)
Definition waiter : Type := job * Z.

Definition ec_waiter (e : EventContext) : waiter :=
  (match co e with
   | Some p => JCo (Some p)
   | None => JFnPtr (match cb e with Some f => f | None => 0 end)
   end, thread_id e).

Definition task_of (w : waiter) : Task :=
  (new_Task (match w.1 with JFnPtr f | JFn f => f | JCo _ => 0 end) w.1 w.2).1.

Definition is_status (st : Z) : Prop := st = READ \/ st = WRITE.

Section Facts.
Context {K Q : Type} `{!Epoll K} `{!TaskQueue Q} (pipe : Z).

#[local] Abbreviation IOM := (IOManager (K := K) (Q := Q)).

(** The waiter registered for an event of a descriptor. *)
Definition ctx_view (c : Context) (st : Z) : option waiter :=
  if has c st then Some (ec_waiter (get_event_context c st)) else None.

Definition reg (m : IOM) (fd st : Z) : option waiter :=
  if fd <? 0 then None
  else
    match m_contexts m !! Z.to_nat fd with
    | Some c => ctx_view c st
    | None => None
    end.

(** The waiters are handed to the scheduler one by one. *)
Inductive delivered : list waiter -> Q -> Q -> Prop :=
| delivered_nil q : delivered [] q q
| delivered_cons w ws b q q1 q' :
    schedule w.1 w.2 q = (b, q1) -> delivered ws q1 q' -> delivered (w :: ws) q q'.

(** ** Invariant *)

(** An event context is in use or clean. *)
Definition ec_ok (used : bool) (e : EventContext) : Prop :=
  if used then scheduler e = true /\ (is_Some (co e) \/ is_Some (cb e))
  else co e = None /\ cb e = None.

Record ctx_ok (k : K) (fd : Z) (c : Context) : Prop := {
  co_fd : c_fd c = fd;
  co_statuses : statuses c ∈ [0; 1; 4; 5];
  co_read : ec_ok (has c READ) (ec_read c);
  co_write : ec_ok (has c WRITE) (ec_write c);
  co_kernel : fd <> pipe ->
    interest k fd = if statuses c =? 0 then None else Some (Z.lor EPOLLET (statuses c)) }.

Definition events_of (c : Context) : Z :=
  (if has c READ then 1 else 0) + (if has c WRITE then 1 else 0).

Definition total_events (cs : list Context) : Z := foldr (fun c n => events_of c + n) 0 cs.

Record io_ok (m : IOM) : Prop := {
  io_ctx i c : m_contexts m !! i = Some c -> ctx_ok (kernel m) (Z.of_nat i) c;
  io_out fd : zlen (m_contexts m) <= fd -> fd <> pipe -> interest (kernel m) fd = None;
  io_count : m_appending_event_cnt m = wrap 64 (total_events (m_contexts m));
  io_size : 128 <= zlen (m_contexts m) }.

Lemma total_events_insert cs i c c' :
  cs !! i = Some c -> total_events (<[i := c']> cs) = total_events cs + events_of c' - events_of c.
Proof.
  revert i. induction cs as [|d cs IH]; intros [|i] Hi; try done.
  - injection Hi as ->. change (events_of c' + total_events cs =
      events_of c + total_events cs + events_of c' - events_of c). lia.
  - change (events_of d + total_events (<[i := c']> cs) =
      events_of d + total_events cs + events_of c' - events_of c). rewrite IH by done. lia.
Qed.

Lemma wrap_add w a b : 0 <= w -> wrap w (wrap w a + b) = wrap w (a + b).
Proof. intros. unfold wrap. apply Zplus_mod_idemp_l. Qed.

(** Replacing one context. *)
Lemma io_ok_update i c c' k' q' (m : IOM) :
  io_ok m -> m_contexts m !! i = Some c -> ctx_ok k' (Z.of_nat i) c' ->
  (forall g, g <> Z.of_nat i -> interest k' g = interest (kernel m) g) ->
  io_ok (MkIOManager k' q' (<[i := c']> (m_contexts m))
    (wrap 64 (m_appending_event_cnt m + (events_of c' - events_of c)))).
Proof.
  intros [Hc Ho Hn Hz] Hi Hc' Hk. split; cbn.
  - intros j d. destruct (decide (j = i)) as [->|].
    + rewrite list_lookup_insert_eq by (by eapply lookup_lt_Some). by intros [= <-].
    + rewrite list_lookup_insert_ne by done. intros Hj. destruct (Hc j d Hj) as [? ? ? ? Hint].
      split; try done. intros Hp. rewrite Hk by lia. auto.
  - intros fd Hfd Hp. unfold zlen in *. rewrite length_insert in Hfd.
    apply lookup_lt_Some in Hi. rewrite Hk by lia. auto.
  - rewrite (total_events_insert _ _ c c') by done. rewrite Hn, wrap_add by lia. f_equal. lia.
  - unfold zlen in *. by rewrite length_insert.
Qed.

Lemma context_ok fd (m : IOM) c : context fd m = Ret c -> 0 <= fd /\ m_contexts m !! Z.to_nat fd = Some c.
Proof.
  unfold context. destruct (Z.ltb_spec fd 0); [done|].
  destruct (m_contexts m !! Z.to_nat fd); [|done]. by intros [= ->].
Qed.

(** The four values of the status field and the two events, by computation. *)
Ltac by_status :=
  repeat match goal with
  | H : is_status _ |- _ => destruct H as [->| ->]
  | H : statuses ?c ∈ _ |- _ =>
      rewrite !elem_of_cons in H; destruct H as [H|[H|[H|[H|H%elem_of_nil]]]]; [..|done]
  end;
  repeat match goal with H : statuses ?c = _ |- _ => rewrite H in * end.

Lemma has_set c st st' : has (set_statuses st' c) st = negb (Z.land st' st =? 0).
Proof. done. Qed.

Lemma has_put c st e st' : has (put_event_context c st e) st' = has c st'.
Proof. unfold put_event_context, has. by destruct (st =? READ). Qed.

(** The context after a registration: the entry is in use. *)
Lemma ctx_add k k' fd c st e :
  ctx_ok k fd c -> is_status st -> has c st = false -> scheduler e = true ->
  is_Some (co e) \/ is_Some (cb e) ->
  (fd <> pipe -> interest k' fd = Some (Z.lor (Z.lor (statuses c) st) EPOLLET)) ->
  let c' := put_event_context (set_statuses (Z.lor (statuses c) st) c) st e in
  ctx_ok k' fd c' /\ events_of c' - events_of c = 1.
Proof.
  intros [Hf Hs Hr Hw Hk] Hst Hh Hsc He Hk'. unfold has, events_of in *. cbn zeta.
  by_status; try discriminate Hh; (split; [split|]); cbn in *; try done;
    try (intros Hp; rewrite Hk' by done; done); try (apply list_elem_of_In; cbn; tauto);
    unfold has; cbn; rewrite Hs; reflexivity.
Qed.

(** The context after a trigger or a proper removal: the entry is clean. *)
Lemma ctx_remove k k' fd c st :
  ctx_ok k fd c -> is_status st -> has c st = true ->
  (fd <> pipe -> interest k' fd =
     if without (statuses c) st =? 0 then None else Some (Z.lor EPOLLET (without (statuses c) st))) ->
  let c' := put_event_context (set_statuses (without (statuses c) st) c) st reset_event_context in
  ctx_ok k' fd c' /\ events_of c' - events_of c = -1.
Proof.
  intros [Hf Hs Hr Hw Hk] Hst Hh Hk'. unfold has, events_of in *. cbn zeta.
  by_status; try discriminate Hh; (split; [split|]); cbn in *; try done;
    try (intros Hp; rewrite Hk' by done; done); try (apply list_elem_of_In; cbn; tauto);
    unfold has; cbn; rewrite Hs; reflexivity.
Qed.

Lemma ec_ok_get k fd c st : ctx_ok k fd c -> is_status st -> ec_ok (has c st) (get_event_context c st).
Proof. intros [] [->| ->]; done. Qed.

(** ** Effects on the view *)

Lemma view_add k fd c st e st' :
  ctx_ok k fd c -> is_status st -> is_status st' ->
  ctx_view (put_event_context (set_statuses (Z.lor (statuses c) st) c) st e) st' =
  if decide (st' = st) then Some (ec_waiter e) else ctx_view c st'.
Proof.
  intros [Hf Hs Hr Hw Hk] Hst Hst'. unfold ctx_view, has. by_status; cbn; done.
Qed.

Lemma view_remove k fd c st e st' :
  ctx_ok k fd c -> is_status st -> is_status st' ->
  ctx_view (put_event_context (set_statuses (without (statuses c) st) c) st e) st' =
  if decide (st' = st) then None else ctx_view c st'.
Proof.
  intros [Hf Hs Hr Hw Hk] Hst Hst'. unfold ctx_view, has. by_status; cbn; done.
Qed.

Lemma reg_set (m : IOM) fd c c' k q n g st :
  m_contexts m !! Z.to_nat fd = Some c -> 0 <= fd ->
  reg (MkIOManager k q (<[Z.to_nat fd := c']> (m_contexts m)) n) g st =
  if decide (g = fd) then ctx_view c' st else reg m g st.
Proof.
  intros Hc Hfd. unfold reg. cbn. destruct (Z.ltb_spec g 0).
  { destruct (decide (g = fd)); [lia|done]. }
  destruct (decide (g = fd)) as [->|].
  - by rewrite list_lookup_insert_eq by (by eapply lookup_lt_Some).
  - by rewrite list_lookup_insert_ne by lia.
Qed.

Lemma reg_view (m : IOM) fd c st :
  m_contexts m !! Z.to_nat fd = Some c -> 0 <= fd -> reg m fd st = ctx_view c st.
Proof. intros Hc Hfd. unfold reg. destruct (Z.ltb_spec fd 0); [lia|]. by rewrite Hc. Qed.

(** A trigger of a status that is set hands over its waiter and cleans the entry. *)
Lemma trigger_event_ok c st q :
  has c st = true -> scheduler (get_event_context c st) = true ->
  exists b q', schedule (ec_waiter (get_event_context c st)).1
      (ec_waiter (get_event_context c st)).2 q = (b, q') /\
    trigger_event st c q =
      Ret (put_event_context (set_statuses (without (statuses c) st) c) st reset_event_context, q').
Proof.
  intros Hh Hs.
  destruct (schedule (ec_waiter (get_event_context c st)).1 (ec_waiter (get_event_context c st)).2 q)
    as [b q'] eqn:E. exists b, q'. split; [done|].
  unfold trigger_event. rewrite Hh. cbn [negb]. cbv zeta.
  change (get_event_context (set_statuses (without (statuses c) st) c) st)
    with (get_event_context c st). rewrite Hs. cbn [negb].
  unfold ec_waiter in E. cbn [fst snd] in E. by rewrite E.
Qed.

Lemma used_scheduler k fd c st :
  ctx_ok k fd c -> is_status st -> has c st = true -> scheduler (get_event_context c st) = true.
Proof.
  intros Hc Hst Hh. pose proof (ec_ok_get k fd c st Hc Hst) as He. rewrite Hh in He. by destruct He.
Qed.

(** [ctl_left] does to the kernel what the table is about to say. *)
Lemma ctl_left_ok fd left (m m' : IOM) ok :
  ctl_left fd left m = (ok, m') ->
  m_contexts m' = m_contexts m /\ queue m' = queue m /\
  m_appending_event_cnt m' = m_appending_event_cnt m /\
  (forall g, interest (kernel m') g =
     if decide (g = fd /\ ok = true)
     then (if left =? 0 then None else Some (Z.lor EPOLLET left)) else interest (kernel m) g).
Proof.
  unfold ctl_left. destruct (epoll_ctl _ fd _ (kernel m)) as [b k] eqn:E. intros [= <- <-].
  split_and!; [done..|]. intros g. cbn. destruct b.
  - apply epoll_ok in E as [_ E]. rewrite E.
    destruct (decide (g = fd)) as [->|], (decide (_ /\ _)) as [[]|]; try tauto; try done.
    by destruct (left =? 0).
  - rewrite (epoll_fail _ _ _ _ _ E). by destruct (decide (_ /\ _)) as [[]|].
Qed.

(** A kernel that answers the same keeps the invariant. *)
Lemma io_ok_kernel (m m' : IOM) :
  io_ok m -> m_contexts m' = m_contexts m ->
  m_appending_event_cnt m' = m_appending_event_cnt m ->
  (forall g, interest (kernel m') g = interest (kernel m) g) -> io_ok m'.
Proof.
  intros [Hc Ho Hn Hz] Hcs Hcnt Hk. split; rewrite ?Hcs, ?Hcnt; [|intros; rewrite Hk; auto|done|done].
  intros i c Hi. destruct (Hc i c Hi). split; try done. intros. rewrite Hk. auto.
Qed.

(** The state after one waiter was removed and delivered. *)
Definition removed (fd st : Z) (m m' : IOM) : Prop :=
  exists w, reg m fd st = Some w /\ delivered [w] (queue m) (queue m') /\
    forall g st', is_status st' ->
      reg m' g st' = if decide (g = fd /\ st' = st) then None else reg m g st'.

Definition unchanged (m m' : IOM) : Prop :=
  queue m' = queue m /\ forall g st, reg m' g st = reg m g st.

Lemma unchanged_contexts (m m' : IOM) :
  m_contexts m' = m_contexts m -> queue m' = queue m -> unchanged m m'.
Proof. intros Hc Hq. split; [done|]. intros g st. unfold reg. by rewrite Hc. Qed.

(** The common part of [cancel_event] and of the delivery of an event: the kernel is told,
    then the waiter is triggered and the count lowered. *)
Lemma remove_ok fd st c m m1 :
  io_ok m -> is_status st -> 0 <= fd -> m_contexts m !! Z.to_nat fd = Some c -> has c st = true ->
  ctl_left fd (without (statuses c) st) m = (true, m1) ->
  exists q' c', trigger_event st c (queue m1) = Ret (c', q') /\
    let m' := MkIOManager (kernel m1) q' (<[Z.to_nat fd := c']> (m_contexts m1))
                (wrap 64 (m_appending_event_cnt m1 + -1)) in
    io_ok m' /\ removed fd st m m'.
Proof.
  intros Hok Hst Hfd Hc Hh Hctl. apply ctl_left_ok in Hctl as (Hcs & Hq & Hcnt & Hk).
  pose proof (io_ctx m Hok _ _ Hc) as Hctx. rewrite Z2Nat.id in Hctx by done.
  destruct (trigger_event_ok c st (queue m1) Hh (used_scheduler _ _ _ _ Hctx Hst Hh))
    as (b & q' & Hs & Ht).
  destruct (ctx_remove (kernel m) (kernel m1) fd c st Hctx Hst Hh) as [Hctx' Hev].
  { intros _. rewrite Hk. by destruct (decide (fd = fd /\ true = true)) as [_|[]]. }
  eexists q', _. split; [exact Ht|]. cbn zeta. rewrite Hcs, Hcnt, <- Hev. split.
  - apply io_ok_update; [done|done|by rewrite Z2Nat.id|]. intros g Hg. rewrite Z2Nat.id in Hg by done.
    rewrite Hk. by destruct (decide (g = fd /\ true = true)) as [[]|].
  - exists (ec_waiter (get_event_context c st)). split_and!.
    + rewrite (reg_view m fd c) by done. unfold ctx_view. by rewrite Hh.
    + cbn. rewrite <- Hq. eapply delivered_cons; [exact Hs|constructor].
    + intros g st' Hst'. rewrite (reg_set m fd c) by done.
      destruct (decide (g = fd)) as [->|Hne].
      * rewrite (view_remove (kernel m) fd) by done. rewrite (reg_view m fd c) by done.
        destruct (decide (st' = st)), (decide (fd = fd /\ st' = st)); tauto.
      * destruct (decide (g = fd /\ st' = st)); tauto.
Qed.

(** ** The operations *)

Lemma cancel_event_ok fd st (m : IOM) :
  io_ok m -> is_status st -> 0 <= fd ->
  exists r m', cancel_event fd st m = (Ret r, m') /\ io_ok m' /\
    (if r then removed fd st m m' else unchanged m m').
Proof.
  intros Hok Hst Hfd. unfold cancel_event.
  destruct (Z.leb_spec (zlen (m_contexts m)) fd); [by exists false, m|].
  destruct (context fd m) as [c| |] eqn:Hctx.
  2, 3: unfold context in Hctx; destruct (Z.ltb_spec fd 0); [lia|];
    destruct (lookup_lt_is_Some_2 (m_contexts m) (Z.to_nat fd)) as [c Hc];
      [unfold zlen in *; lia|by rewrite Hc in Hctx].
  apply context_ok in Hctx as [_ Hc].
  destruct (has c st) eqn:Hh; cbn [negb]; [|by exists false, m].
  destruct (ctl_left fd (without (statuses c) st) m) as [ok m1] eqn:Hctl. destruct ok; cbn [negb].
  - destruct (remove_ok fd st c m m1) as (q' & c' & Ht & Hok' & Hrem); try done.
    unfold bind, trigger. cbn [add_appending queue]. rewrite Ht. by eexists true, _.
  - apply ctl_left_ok in Hctl as (Hcs & Hq & Hcnt & Hk). exists false, m1. split_and!; [done| |].
    + apply (io_ok_kernel m); try done. intros g. rewrite Hk.
      by destruct (decide (g = fd /\ false = true)) as [[]|].
    + by apply unchanged_contexts.
Qed.

Lemma real_status_cases ev : real_status ev = NONE \/ is_status (real_status ev).
Proof.
  unfold real_status, is_status. cbv zeta.
  repeat match goal with |- context [if ?b then _ else _] => destruct b end; auto.
Qed.

Lemma handle_event_ok fd ev (m : IOM) :
  io_ok m -> 0 <= fd < zlen (m_contexts m) ->
  exists m', handle_event fd ev m = (Ret tt, m') /\ io_ok m' /\ zlen (m_contexts m') = zlen (m_contexts m) /\
    (unchanged m m' /\ (reg m fd (real_status ev) = None \/ exists left m1, ctl_left fd left m = (false, m1)) \/
     removed fd (real_status ev) m m').
Proof.
  intros Hok Hfd. unfold handle_event.
  destruct (lookup_lt_is_Some_2 (m_contexts m) (Z.to_nat fd)) as [c Hc]; [unfold zlen in *; lia|].
  assert (context fd m = Ret c) as ->.
  { unfold context. destruct (Z.ltb_spec fd 0); [lia|]. by rewrite Hc. }
  destruct (Z.land (statuses c) (real_status ev) =? NONE) eqn:Hz.
  { exists m. split_and!; [done..|]. left. split; [done|left]. rewrite (reg_view m fd c) by (done || lia).
    unfold ctx_view, has. change 0 with NONE. by rewrite Hz. }
  destruct (real_status_cases ev) as [Hn|Hst]; [by rewrite Hn, Z.land_0_r in Hz|].
  assert (has c (real_status ev) = true) as Hh by (unfold has; change 0 with NONE; by rewrite Hz).
  set (st := real_status ev) in *. clearbody st.
  destruct (ctl_left fd (without (statuses c) st) m) as [ok m1] eqn:Hctl. destruct ok; cbn [negb].
  - pose proof (ctl_left_ok _ _ _ _ _ Hctl) as (Hcs & _).
    assert (forall c' : Context, zlen (<[Z.to_nat fd := c']> (m_contexts m1)) = zlen (m_contexts m)) as Hlen.
    { intros c'. unfold zlen. by rewrite length_insert, Hcs. }
    destruct (remove_ok fd st c m m1) as (q' & c' & Ht & Hok' & Hrem); try done; [lia|].
    unfold trigger_if, trigger, bind, ret.
    destruct Hst as [-> | ->].
    + change (negb (Z.land READ READ =? 0)) with true.
      change (negb (Z.land READ WRITE =? 0)) with false. cbv beta iota. rewrite Ht.
      eexists. split_and!; [done|done|exact (Hlen _)|by right].
    + change (negb (Z.land WRITE READ =? 0)) with false.
      change (negb (Z.land WRITE WRITE =? 0)) with true. cbv beta iota. rewrite Ht.
      eexists. split_and!; [done|done|exact (Hlen _)|by right].
  - pose proof Hctl as Hfail. apply ctl_left_ok in Hctl as (Hcs & Hq & Hcnt & Hk). exists m1.
    split_and!; [done| |by rewrite Hcs|].
    + apply (io_ok_kernel m); try done. intros g. rewrite Hk.
      by destruct (decide (g = fd /\ false = true)) as [[]|].
    + left. split; [by apply unchanged_contexts|]. right. eauto.
Qed.

Lemma total_events_app cs cs' : total_events (cs ++ cs') = total_events cs + total_events cs'.
Proof.
  induction cs as [|c cs IH]; [done|].
  change (events_of c + total_events (cs ++ cs') = events_of c + total_events cs + total_events cs').
  lia.
Qed.

Lemma total_events_new junk l : total_events (new_Context junk <$> l) = 0.
Proof. induction l as [|i l IH]; [done|]. exact IH. Qed.

(** Growing the table registers nobody. *)
Lemma resize_ok junk size (m : IOM) :
  io_ok m ->
  io_ok (fd_context_resize junk size m) /\ unchanged m (fd_context_resize junk size m) /\
  size <= zlen (m_contexts (fd_context_resize junk size m)) /\
  kernel (fd_context_resize junk size m) = kernel m.
Proof.
  intros Hok. unfold fd_context_resize. destruct (Z.leb_spec size (zlen (m_contexts m))) as [|Hlt].
  { split; [done|]. split; [by split|]. by split. }
  pose proof Hok as [Hc Ho Hn Hz]. pose proof (zlen_nonneg (m_contexts m)).
  set (new := new_Context junk <$> seqZ (zlen (m_contexts m)) (size - zlen (m_contexts m))).
  assert (zlen new = size - zlen (m_contexts m)) as Hnew.
  { unfold new, zlen at 1. rewrite length_fmap, length_seqZ. lia. }
  assert (forall i c, (m_contexts m ++ new) !! i = Some c ->
    m_contexts m !! i = Some c \/ (m_contexts m !! i = None /\ c = new_Context junk (Z.of_nat i))) as Hlk.
  { intros i c Hi. apply lookup_app_Some in Hi as [Hi|[Hge Hi]]; [by left|right].
    split; [by apply lookup_ge_None|]. unfold new in Hi.
    apply list_lookup_fmap_Some in Hi as (j & -> & Hj). f_equal.
    apply lookup_seqZ in Hj as [-> _]. unfold zlen. lia. }
  split; [split|split; [split|split; [|done]]]; cbn.
  - intros i c [Hi|[Hi ->]]%Hlk; [by apply Hc|]. split; try done; [by left|].
    intros Hp. apply Ho; [|done]. apply lookup_ge_None in Hi. unfold zlen. lia.
  - intros fd. rewrite zlen_app, Hnew. intros. apply Ho; [lia|done].
  - rewrite total_events_app. unfold new. by rewrite total_events_new, Z.add_0_r.
  - rewrite zlen_app. lia.
  - done.
  - intros g st. unfold reg. cbn. destruct (g <? 0); [done|].
    destruct (m_contexts m !! Z.to_nat g) as [c|] eqn:Hg.
    + by rewrite (lookup_app_l_Some _ _ _ c).
    + destruct ((m_contexts m ++ new) !! Z.to_nat g) as [c|] eqn:Hi; [|done].
      apply Hlk in Hi as [Hi|[_ ->]]; [congruence|done].
  - rewrite zlen_app. lia.
Qed.

(** What [add_event] registers: a callback, with the thread the entry happens to hold, or
    the running coroutine with its thread. *)
Definition new_waiter (fn : option Z) (running tid : Z) (w : waiter) : Prop :=
  match fn with
  | Some f => w.1 = JFnPtr f
  | None => w = (JCo (Some running), tid)
  end.

Lemma add_event_ok junk fd st fn running tid (m : IOM) :
  io_ok m -> is_status st -> 0 <= fd ->
  exists r m', add_event junk fd st fn true running tid m = (Ret r, m') /\ io_ok m' /\
    (if r then reg m fd st = None /\ queue m' = queue m /\
       exists w, new_waiter fn running tid w /\
         forall g st', is_status st' ->
           reg m' g st' = if decide (g = fd /\ st' = st) then Some w else reg m g st'
     else unchanged m m').
Proof.
  intros Hok Hst Hfd. unfold add_event.
  set (m1 := if fd <? zlen (m_contexts m) then m else _).
  assert (io_ok m1 /\ unchanged m m1 /\ fd < zlen (m_contexts m1)) as (Hok1 & [Hq1 Hr1] & Hlt).
  { unfold m1. destruct (Z.ltb_spec fd (zlen (m_contexts m))); [split; [done|]; by split; [split|]|].
    destruct (resize_ok junk (fd * 3 / 2) m Hok) as (? & ? & Hsz & _). split; [done|]. split; [done|].
    pose proof (io_size m Hok). enough (fd < fd * 3 / 2) by lia.
    Z.to_euclidean_division_equations; lia. }
  clearbody m1.
  destruct (lookup_lt_is_Some_2 (m_contexts m1) (Z.to_nat fd)) as [c Hc]; [unfold zlen in *; lia|].
  assert (context fd m1 = Ret c) as ->.
  { unfold context. destruct (Z.ltb_spec fd 0); [lia|]. by rewrite Hc. }
  destruct (has c st) eqn:Hh; [by exists false, m1|].
  pose proof (io_ctx m1 Hok1 _ _ Hc) as Hctx. rewrite Z2Nat.id in Hctx by done.
  destruct (epoll_ctl _ fd _ (kernel m1)) as [ok k] eqn:Hctl. destruct ok; cbn [negb].
  - apply epoll_ok in Hctl as [_ Hk]. set (c1 := set_statuses _ c).
    set (e := match fn with Some f => _ | None => _ end).
    pose proof (ec_ok_get _ _ c st Hctx Hst) as He. rewrite Hh in He. destruct He as [Hco Hcb].
    destruct (ctx_add (kernel m1) k fd c st e Hctx Hst Hh) as [Hctx' Hev].
    { unfold e. by destruct fn. }
    { unfold e. destruct fn; cbn; [right|left]; eauto. }
    { intros _. rewrite Hk. destruct (decide (fd = fd)); [|done]. by destruct (statuses c =? 0). }
    eexists true, _. split; [done|]. split.
    + unfold set_context, add_appending, set_kernel, set_contexts. cbn -[put_event_context].
      rewrite <- Hev. apply (io_ok_update _ c); [done|done|by rewrite Z2Nat.id|].
      intros g Hg. rewrite Z2Nat.id in Hg by done. rewrite Hk. by destruct (decide (g = fd)).
    + rewrite <- Hr1. split_and!; [rewrite (reg_view m1 fd c) by done; unfold ctx_view; by rewrite Hh
        |done|].
      exists (ec_waiter e). split.
      * unfold e, new_waiter, ec_waiter. destruct fn; [|done].
        change (get_event_context c1 st) with (get_event_context c st). cbn. by rewrite Hco.
      * intros g st' Hst'. unfold set_context, add_appending, set_kernel, set_contexts.
        cbn -[put_event_context]. rewrite (reg_set m1 fd c) by done. rewrite <- Hr1.
        destruct (decide (g = fd)) as [->|Hne].
        -- unfold c1. rewrite (view_add (kernel m1) fd) by done. rewrite (reg_view m1 fd c) by done.
           destruct (decide (st' = st)), (decide (fd = fd /\ st' = st)); tauto.
        -- destruct (decide (g = fd /\ st' = st)); tauto.
  - pose proof (epoll_fail _ _ _ _ _ Hctl) as Hk. exists false. eexists. split; [done|]. split.
    + by apply (io_ok_kernel m1).
    + by split.
Qed.

(** The state after all waiters of a descriptor were removed and delivered. *)
Definition removed_all (fd : Z) (m m' : IOM) : Prop :=
  delivered (option_list (reg m fd READ) ++ option_list (reg m fd WRITE)) (queue m) (queue m') /\
  forall g st, is_status st -> reg m' g st = if decide (g = fd) then None else reg m g st.

(** One trigger with its count. *)
Lemma trigger_if_ok fd st c (m : IOM) :
  has c st = true -> scheduler (get_event_context c st) = true ->
  let c' := put_event_context (set_statuses (without (statuses c) st) c) st reset_event_context in
  exists b q', schedule (ec_waiter (get_event_context c st)).1
      (ec_waiter (get_event_context c st)).2 (queue m) = (b, q') /\
    trigger_if (has c st) fd st c m =
      (Ret c', MkIOManager (kernel m) q' (<[Z.to_nat fd := c']> (m_contexts m))
                 (wrap 64 (m_appending_event_cnt m + -1))).
Proof.
  intros Hh Hs. destruct (trigger_event_ok c st (queue m) Hh Hs) as (b & q' & Hsc & Ht).
  exists b, q'. split; [done|]. unfold trigger_if, bind, trigger. by rewrite Hh, Ht.
Qed.

(** The table with an emptied context. *)
Lemma emptied_ok fd c (m : IOM) k er ew q :
  io_ok m -> 0 <= fd -> m_contexts m !! Z.to_nat fd = Some c ->
  (forall g, interest k g = if decide (g = fd) then None else interest (kernel m) g) ->
  ec_ok false er -> ec_ok false ew ->
  delivered (option_list (ctx_view c READ) ++ option_list (ctx_view c WRITE)) (queue m) q ->
  let m' := MkIOManager k q (<[Z.to_nat fd := MkContext (c_fd c) 0 er ew]> (m_contexts m))
              (wrap 64 (m_appending_event_cnt m + (0 - events_of c))) in
  io_ok m' /\ removed_all fd m m'.
Proof.
  intros Hok Hfd Hc Hk Her Hew Hd. cbn zeta. split; [|split].
  - change 0 with (events_of (MkContext (c_fd c) 0 er ew)) at 2.
    apply io_ok_update; [done|done| |].
    + rewrite Z2Nat.id by done. split; [|by left|done|done|].
      * pose proof (io_ctx m Hok _ _ Hc) as []. cbn. lia.
      * intros _. rewrite Hk. by destruct (decide (fd = fd)).
    + intros g Hg. rewrite Z2Nat.id in Hg by done. rewrite Hk. by destruct (decide (g = fd)).
  - rewrite !(reg_view m fd c) by done. done.
  - intros g st Hst. rewrite (reg_set m fd c) by done. by destruct (decide (g = fd)), Hst as [-> | ->].
Qed.

Lemma cancel_all_ok fd (m : IOM) :
  io_ok m -> 0 <= fd ->
  exists r m', cancel_all_event fd m = (Ret r, m') /\ io_ok m' /\
    (if r then removed_all fd m m' else unchanged m m').
Proof.
  intros Hok Hfd. unfold cancel_all_event.
  destruct (Z.leb_spec (zlen (m_contexts m)) fd); [by exists false, m|].
  destruct (lookup_lt_is_Some_2 (m_contexts m) (Z.to_nat fd)) as [c Hc]; [unfold zlen in *; lia|].
  assert (context fd m = Ret c) as ->.
  { unfold context. destruct (Z.ltb_spec fd 0); [lia|]. by rewrite Hc. }
  destruct (Z.eqb_spec (statuses c) 0) as [|Hnz]; [by exists false, m|].
  destruct (epoll_ctl EPOLL_CTL_DEL fd NONE (kernel m)) as [ok k] eqn:Hctl. destruct ok; cbn [negb].
  2: { pose proof (epoll_fail _ _ _ _ _ Hctl). exists false. eexists. split; [done|].
       split; [by apply (io_ok_kernel m)|by split]. }
  apply epoll_ok in Hctl as [_ Hk].
  pose proof (io_ctx m Hok _ _ Hc) as Hctx. rewrite Z2Nat.id in Hctx by done.
  pose proof (fun er ew q => emptied_ok fd c m k er ew q Hok Hfd Hc Hk) as Hfin.
  pose proof (used_scheduler _ _ _ READ Hctx (or_introl eq_refl)) as Hsr.
  pose proof (used_scheduler _ _ _ WRITE Hctx (or_intror eq_refl)) as Hsw.
  destruct Hctx as [_ Hs Hr Hw _]. destruct c as [f s er ew]. cbn [statuses] in Hs, Hnz.
  rewrite !elem_of_cons in Hs. destruct Hs as [->|[->|[->|[->|[]%elem_of_nil]]]]; [done|..].
  - destruct (trigger_if_ok fd READ (MkContext f 1 er ew) (set_kernel k m) eq_refl (Hsr eq_refl))
      as (b & q' & Hsc & Ht).
    unfold bind at 1. rewrite Ht. eexists true, _. split; [reflexivity|]. apply Hfin; [done|done|].
    by eapply delivered_cons; [|constructor].
  - destruct (trigger_if_ok fd WRITE (MkContext f 4 er ew) (set_kernel k m) eq_refl (Hsw eq_refl))
      as (b & q' & Hsc & Ht).
    unfold bind at 1. change (trigger_if (has (MkContext f 4 er ew) READ) fd READ
      (MkContext f 4 er ew) (set_kernel k m)) with (@Ret Context (MkContext f 4 er ew), set_kernel k m).
    unfold bind at 1. cbv beta iota. rewrite Ht. eexists true, _. split; [reflexivity|].
    apply Hfin; [done|done|]. by eapply delivered_cons; [|constructor].
  - destruct (trigger_if_ok fd READ (MkContext f 5 er ew) (set_kernel k m) eq_refl (Hsr eq_refl))
      as (b & q' & Hsc & Ht).
    unfold bind at 1. rewrite Ht. cbv beta iota zeta in *.
    set (c1 := put_event_context _ READ reset_event_context).
    set (m1 := MkIOManager _ q' _ _).
    destruct (trigger_if_ok fd WRITE c1 m1 eq_refl (Hsw eq_refl)) as (b2 & q2 & Hsc2 & Ht2).
    unfold bind. rewrite Ht2. eexists true, _. split; [reflexivity|].
    unfold m1. cbn [m_contexts kernel m_appending_event_cnt]. rewrite list_insert_insert_eq, wrap_add by lia.
    replace (m_appending_event_cnt (set_kernel k m) + -1 + -1)
      with (m_appending_event_cnt m + (0 - events_of (MkContext f 5 er ew)))
      by (change (events_of (MkContext f 5 er ew)) with 2; cbn [set_kernel m_appending_event_cnt]; lia).
    apply Hfin; [done|done|]. eapply delivered_cons; [exact Hsc|].
    by eapply delivered_cons; [|constructor].
Qed.

Lemma new_IOManager_ok junk k (q : Q) :
  (forall fd, fd <> pipe -> interest k fd = None) -> io_ok (new_IOManager junk k q).
Proof.
  intros Hk. change (new_IOManager junk k q)
    with (MkIOManager k q (new_Context junk <$> seqZ 0 128) 0). split.
  - intros i c Hi. cbn [m_contexts] in Hi. apply list_lookup_fmap_Some in Hi as (j & -> & Hj).
    apply lookup_seqZ in Hj as [-> _]. split; try done; [by left|]. intros. by rewrite Hk.
  - intros. by apply Hk.
  - cbn [m_contexts m_appending_event_cnt]. by rewrite total_events_new.
  - cbn [m_contexts]. unfold zlen. by rewrite length_fmap, length_seqZ.
Qed.
End Facts.

(** ** Sequences of calls *)

Inductive io_op :=
| IoAdd (fd st : Z) (fn : option Z) (running tid : Z)
| IoCancel (fd st : Z)
| IoCancelAll (fd : Z)
| IoEvent (fd events : Z).

Definition run_io {K Q} `{!Epoll K} `{!TaskQueue Q} (junk : Z) (op : io_op)
    : meth (IOManager (K := K) (Q := Q)) bool :=
  match op with
  | IoAdd fd st fn running tid => add_event junk fd st fn true running tid
  | IoCancel fd st => cancel_event fd st
  | IoCancelAll fd => cancel_all_event fd
  | IoEvent fd events => let! _ := handle_event fd events in ret true
  end.

(** The caller passes a descriptor and one of the two events; the kernel reports events
    of descriptors it was told. *)
Definition io_valid {K Q} (op : io_op) (m : IOManager (K := K) (Q := Q)) : Prop :=
  match op with
  | IoAdd fd st _ _ _ | IoCancel fd st => is_status st /\ 0 <= fd
  | IoCancelAll fd => 0 <= fd
  | IoEvent fd _ => 0 <= fd < zlen (m_contexts m)
  end.

(** What a call may do, in terms of the registered waiters and the scheduler. *)
Definition io_effect {K Q} `{!Epoll K} `{!TaskQueue Q} (op : io_op) (r : bool)
    (m m' : IOManager (K := K) (Q := Q)) : Prop :=
  unchanged m m' \/
  (r = true /\
   match op with
   | IoAdd fd st fn running tid =>
       reg m fd st = None /\ queue m' = queue m /\
       exists w, new_waiter fn running tid w /\
         forall g st', is_status st' ->
           reg m' g st' = if decide (g = fd /\ st' = st) then Some w else reg m g st'
   | IoCancel fd st => removed fd st m m'
   | IoCancelAll fd => removed_all fd m m'
   | IoEvent fd events => removed fd (real_status events) m m'
   end).

(** C2: the table of waiters, the kernel and the scheduler stay in step: registering,
    cancelling and the delivery of an event never fail with undefined behaviour, keep the
    invariant (the kernel's interest in a descriptor is exactly the set of events somebody
    waits for, the pending count is their number), and either change no waiter, or
    register one, or take waiters out and hand each of them to the scheduler exactly
    once. *)
Theorem io_waiters_exact {K Q : Type} `{!Epoll K} `{!TaskQueue Q} (pipe junk : Z) (op : io_op)
    (m : IOManager (K := K) (Q := Q)) :
  io_ok pipe m -> io_valid op m ->
  exists r m', run_io junk op m = (Ret r, m') /\ io_ok pipe m' /\ io_effect op r m m'.
Proof.
  intros Hok Hval. destruct op as [fd st fn running tid|fd st|fd|fd ev]; cbn [run_io io_valid] in *.
  - destruct Hval. destruct (add_event_ok pipe junk fd st fn running tid m) as (r & m' & Heq & Hok' & He);
      [done..|]. exists r, m'. split_and!; [done|done|]. destruct r; [by right|by left].
  - destruct Hval. destruct (cancel_event_ok pipe fd st m) as (r & m' & Heq & Hok' & He); [done..|].
    exists r, m'. split_and!; [done|done|]. destruct r; [by right|by left].
  - destruct (cancel_all_ok pipe fd m) as (r & m' & Heq & Hok' & He); [done..|].
    exists r, m'. split_and!; [done|done|]. destruct r; [by right|by left].
  - destruct (handle_event_ok pipe fd ev m) as (m' & Heq & Hok' & _ & He); [done..|].
    exists true, m'. rewrite (bind_ret _ _ _ _ _ Heq). split_and!; [done|done|].
    destruct He as [[? _]|]; [by left|by right].
Qed.

(** A kernel that always succeeds when the operation makes sense. *)
Definition gmap_ctl (op : ctl_op) (fd ev : Z) (k : gmap Z Z) : bool * gmap Z Z :=
  match op, k !! fd with
  | EPOLL_CTL_ADD, None | EPOLL_CTL_MOD, Some _ => (true, <[fd := ev]> k)
  | EPOLL_CTL_DEL, Some _ => (true, delete fd k)
  | _, _ => (false, k)
  end.

#[export] Instance gmap_epoll : Epoll (gmap Z Z).
Proof.
  refine {| epoll_ctl := gmap_ctl; interest k fd := k !! fd |}; unfold gmap_ctl.
  - intros op fd ev k k' H. destruct op, (k !! fd) eqn:E; simplify_eq;
      (split; [by eauto|intros g; destruct (decide (g = fd)) as [->|]; by simplify_map_eq]).
  - intros op fd ev k k' H g. destruct op, (k !! fd); by simplify_eq.
Defined.

Definition io0 : IOManager (K := gmap Z Z) (Q := Scheduler) :=
  new_IOManager 0 ∅ (new_Scheduler 1 false 1).

Lemma io0_ok : io_ok (-1) io0.
Proof. apply new_IOManager_ok. intros. apply lookup_empty. Qed.

Definition io1 := (run_io 0 (IoAdd 7 READ None 42 3) io0).2.

Lemma io1_ok : io_ok (-1) io1.
Proof.
  destruct (add_event_ok (-1) 0 7 READ None 42 3 io0 io0_ok) as (r & m' & Heq & Hok & _);
    [by left|done|]. unfold io1. cbn [run_io]. by rewrite Heq.
Qed.

Lemma io_waiters_exact_witness :
  reg io1 7 READ = Some (JCo (Some 42), 3) /\
  exists r m', run_io 0 (IoEvent 7 EPOLLIN) io1 = (Ret r, m') /\ io_ok (-1) m' /\
    io_effect (IoEvent 7 EPOLLIN) r io1 m'.
Proof.
  split; [vm_compute; reflexivity|].
  apply (io_waiters_exact (-1) 0 (IoEvent 7 EPOLLIN) io1 io1_ok). vm_compute. split; [discriminate|done].
Defined.

(** ** Defects *)

(** a hang-up or an error is not delivered to a reader: [idle] turns it into readable
    and writable, lets writable override readable, and drops the event when nobody waits
    for writing; the interest is edge-triggered, so the kernel does not report it
    again. *)
Theorem hangup_skips_reader {K Q : Type} `{!Epoll K} `{!TaskQueue Q} (pipe fd events : Z)
    (w : waiter) (m : IOManager (K := K) (Q := Q)) :
  io_ok pipe m -> reg m fd READ = Some w -> reg m fd WRITE = None ->
  Z.land events (Z.lor EPOLLERR EPOLLHUP) <> 0 ->
  handle_event fd events m = (Ret tt, m).
Proof.
  intros Hok Hr Hw Hev. unfold handle_event.
  unfold reg in Hr, Hw. destruct (Z.ltb_spec fd 0); [done|].
  destruct (m_contexts m !! Z.to_nat fd) as [c|] eqn:Hc; [|done].
  assert (context fd m = Ret c) as ->.
  { unfold context. destruct (Z.ltb_spec fd 0); [lia|]. by rewrite Hc. }
  assert (real_status events = WRITE) as ->.
  { unfold real_status. destruct (Z.eqb_spec (Z.land events (Z.lor EPOLLERR EPOLLHUP)) 0); [done|].
    cbv zeta. destruct (Z.eqb_spec (Z.land (Z.lor events (Z.lor EPOLLIN EPOLLOUT)) EPOLLOUT) 0) as [E|];
      [|done]. apply (f_equal (fun z => Z.testbit z 2)) in E.
    rewrite Z.land_spec, Z.lor_spec in E. cbn in E. by rewrite orb_true_r in E. }
  unfold ctx_view, has in Hw. change NONE with 0. cbv zeta.
  by destruct (Z.land (statuses c) WRITE =? 0) eqn:E.
Qed.

Lemma hangup_skips_reader_witness :
  handle_event 7 (Z.lor EPOLLIN EPOLLHUP) io1 = (Ret tt, io1).
Proof.
  apply (hangup_skips_reader (-1) 7 (Z.lor EPOLLIN EPOLLHUP) (JCo (Some 42), 3) io1 io1_ok);
    vm_compute; (reflexivity || discriminate).
Defined.

(** [del_event] resets the event context of the event that is left instead of the one
    it removes: with a reader and a writer registered, deleting the reader erases the
    writer's coroutine while its event stays armed, and its delivery then dereferences a
    null scheduler. *)
Theorem del_event_corrupts :
  let m2 := (run_io 0 (IoAdd 7 WRITE None 43 3) io1).2 in
  let m3 := (del_event 7 READ m2).2 in
  (del_event 7 READ m2).1 = Ret true /\
  reg m2 7 WRITE = Some (JCo (Some 43), 3) /\ reg m3 7 WRITE <> Some (JCo (Some 43), 3) /\
  interest (kernel m3) 7 = Some (Z.lor EPOLLET WRITE) /\
  (handle_event 7 EPOLLOUT m3).1 = Undef NullDeref.
Proof. vm_compute. repeat split; discriminate. Qed.
