(* ===== verification/Hook.v ===== *)
(** * Hooked system calls ([hook.h], [hook.cc])

    The calls of the C library as the library replaces them: on a thread of the IO manager a
    call on a socket that would block registers for the event, yields, and is repeated when
    it is woken; a timer cancels the wait.

    A call runs to completion or up to a [Yield] ([co]); what happens before it is resumed
    is up to the other coroutines, and the continuation starts in the state they leave.  The
    original functions and the kernel behind them are parameters on a state [Sys]: a
    function gives its result, the [errno] it sets when the result is -1, and the new state.
    The thread, the running coroutine and its IO manager stay the same over a call. *)

From stdpp Require Import base list numbers gmap.
From Stdlib Require Import Lia ZArith.
From S2P Require Import Prelude OrdSet Timer FDManager Scheduler IOManager.

(** ** Constants of the platform *)

Definition EINTR : Z := 4.
Definition EBADF : Z := 9.
Definition EAGAIN : Z := 11.
Definition ETIMEDOUT : Z := 110.
Definition EINPROGRESS : Z := 115.

Definition F_DUPFD : Z := 0.
Definition F_GETFD : Z := 1.
Definition F_SETFD : Z := 2.
Definition F_GETFL : Z := 3.
Definition F_SETFL : Z := 4.
Definition F_GETLK : Z := 5.
Definition F_SETLK : Z := 6.
Definition F_SETLKW : Z := 7.
Definition F_SETOWN : Z := 8.
Definition F_GETOWN : Z := 9.
Definition F_SETSIG : Z := 10.
Definition F_GETSIG : Z := 11.
Definition F_SETOWN_EX : Z := 15.
Definition F_GETOWN_EX : Z := 16.
Definition F_SETLEASE : Z := 1024.
Definition F_GETLEASE : Z := 1025.
Definition F_NOTIFY : Z := 1026.
Definition F_DUPFD_CLOEXEC : Z := 1030.
Definition F_SETPIPE_SZ : Z := 1031.
Definition F_GETPIPE_SZ : Z := 1032.
Definition F_ADD_SEALS : Z := 1033.

Definition FIONBIO : Z := 21537.
Definition SOL_SOCKET : Z := 1.
Definition SO_RCVTIMEO : Z := 20.
Definition SO_SNDTIMEO : Z := 21.

(** ** State *)

(** The closures given to timers: cancelling the wait of a call, by its [SocketIoState], or
    scheduling a coroutine on a thread. *)
Inductive closure :=
| CancelIo (state fd status : Z)
| ScheduleCo (co tid : Z).

Section Hook.
Context {K Q Sys : Type} `{!Epoll K} `{!TaskQueue Q}.

(** An IO manager is also a timer manager. *)
Record Iom := MkIom {
  iom_io : IOManager (K := K) (Q := Q);
  iom_timers : TimerManager }.

Record World := MkWorld {
  h_errno : Z;
  t__enable_hook : bool;
  h_fds : FDManager;
  h_iom : option Iom;
  (** the [SocketIoState] objects that are alive, with [canceled] *)
  h_states : gmap Z bool;
  (** what the functions bound into timers are, by the address of the timer *)
  h_closures : gmap Z closure;
  (** the next address that is free *)
  h_next : Z;
  (** [Millisecond()], and what [errno] is after a failure that was logged *)
  h_now : Z;
  h_fail_errno : Z;
  h_sys : Sys }.

Definition set_errno (e : Z) (w : World) : World :=
  MkWorld e (t__enable_hook w) (h_fds w) (h_iom w) (h_states w) (h_closures w) (h_next w) (h_now w)
    (h_fail_errno w) (h_sys w).
Definition set_enable_hook (b : bool) (w : World) : World :=
  MkWorld (h_errno w) b (h_fds w) (h_iom w) (h_states w) (h_closures w) (h_next w) (h_now w)
    (h_fail_errno w) (h_sys w).
Definition set_fds (m : FDManager) (w : World) : World :=
  MkWorld (h_errno w) (t__enable_hook w) m (h_iom w) (h_states w) (h_closures w) (h_next w) (h_now w)
    (h_fail_errno w) (h_sys w).
Definition set_iom (i : Iom) (w : World) : World :=
  MkWorld (h_errno w) (t__enable_hook w) (h_fds w) (Some i) (h_states w) (h_closures w) (h_next w)
    (h_now w) (h_fail_errno w) (h_sys w).
Definition set_states (m : gmap Z bool) (w : World) : World :=
  MkWorld (h_errno w) (t__enable_hook w) (h_fds w) (h_iom w) m (h_closures w) (h_next w) (h_now w)
    (h_fail_errno w) (h_sys w).
Definition set_closures (m : gmap Z closure) (w : World) : World :=
  MkWorld (h_errno w) (t__enable_hook w) (h_fds w) (h_iom w) (h_states w) m (h_next w) (h_now w)
    (h_fail_errno w) (h_sys w).
Definition set_free (n : Z) (w : World) : World :=
  MkWorld (h_errno w) (t__enable_hook w) (h_fds w) (h_iom w) (h_states w) (h_closures w) n (h_now w)
    (h_fail_errno w) (h_sys w).
Definition set_sys (s : Sys) (w : World) : World :=
  MkWorld (h_errno w) (t__enable_hook w) (h_fds w) (h_iom w) (h_states w) (h_closures w) (h_next w)
    (h_now w) (h_fail_errno w) s.

(** [enable_hook]. *)
Definition enable_hook (hook : bool) (w : World) : World := set_enable_hook hook w.

(** A call with its yields. *)
Inductive co (A : Type) :=
| Done (r : res A) (w : World)
| Yielded (w : World) (k : World -> co A).
Arguments Done {A} r w.
Arguments Yielded {A} w k.

Fixpoint co_bind {A B} (m : co A) (k : A -> World -> co B) : co B :=
  match m with
  | Done (Ret a) w => k a w
  | Done (Throw e) w => Done (Throw e) w
  | Done (Undef u) w => Done (Undef u) w
  | Yielded w f => Yielded w (fun w => co_bind (f w) k)
  end.

(** Code without a yield. *)
Definition run {A B} (m : meth World A) (k : A -> World -> co B) (w : World) : co B :=
  match m w with
  | (Ret a, w) => k a w
  | (Throw e, w) => Done (Throw e) w
  | (Undef u, w) => Done (Undef u) w
  end.

Definition done {A} (a : A) (w : World) : co A := Done (Ret a) w.

(** An original function: its result, the [errno] it sets when it is -1. *)
Definition sysfun : Type := Sys -> Z * Z * Sys.

Definition call (f : sysfun) : meth World Z :=
  fun w =>
    let '(n, e, s) := f (h_sys w) in
    let w := set_sys s w in
    (Ret n, if n =? -1 then set_errno e w else w).

(** The IO manager of the thread; a null pointer is dereferenced. *)
Definition on_io {A} (m : meth (IOManager (K := K) (Q := Q)) A) : meth World A :=
  fun w =>
    match h_iom w with
    | None => (Undef NullDeref, w)
    | Some i => let (r, io) := m (iom_io i) in (r, set_iom (MkIom io (iom_timers i)) w)
    end.

Definition on_timers {A} (m : meth TimerManager A) : meth World A :=
  fun w =>
    match h_iom w with
    | None => (Undef NullDeref, w)
    | Some i => let (r, tm) := m (iom_timers i) in (r, set_iom (MkIom (iom_io i) tm) w)
    end.

Definition fresh : meth World Z := fun w => (Ret (h_next w), set_free (h_next w + 1) w).

Definition errno_is (e : Z) (w : World) : bool := h_errno w =? e.

(** ** The environment of a call *)

Section Calls.
(** The thread and its running coroutine; the uninitialised field of new contexts. *)
Context (running tid junk : Z).
(** What the kernel says of descriptors, and setting their flags. *)
Context (sys_fstat : Sys -> Z -> option bool) (sys_flags : Sys -> Z -> Z).
Context (sys_set_flags : Z -> Z -> Sys -> Sys).
(** The configured timeouts. *)
Context (tcp_connect_timeout tcp_recv_timeout tcp_send_timeout : Z).

(** [get_fd(fd)]; a result is a copy of the entity in the table. *)
Definition find_fd (fd : Z) : meth World (option FDEntity) :=
  fun w =>
    let (r, m) := get_fd (sys_fstat (h_sys w)) fd false 0 (h_fds w) in (r, set_fds m w).

(** [get_fd(fd, true)]: a new entity reads the flags of the descriptor and may set them. *)
Definition create_fd (fd : Z) : meth World (option FDEntity) :=
  fun w =>
    let fstat := sys_fstat (h_sys w) in
    let flags := sys_flags (h_sys w) fd in
    let known := match get_fd fstat fd false 0 (h_fds w) with (Ret (Some _), _) => true | _ => false end in
    let (r, m) := get_fd fstat fd true flags (h_fds w) in
    let w := set_fds m w in
    (r, if known then w else set_sys (sys_set_flags fd (new_FDEntity fstat fd flags).2 (h_sys w)) w).

(** Changing the entity of a descriptor that is in the table. *)
Definition update_fd (fd : Z) (e : FDEntity) : meth World unit :=
  fun w => let (r, m) := store fd (Some e) (h_fds w) in (r, set_fds m w).

(** [add_cond_timer] with the closure that cancels the wait of the call [state]. *)
Definition add_cancel_timer (timeout state fd status : Z) : meth World Z :=
  let! p := fresh in
  let! now := gets h_now in
  let! _ := (fun w => (Ret tt, set_closures (<[p := CancelIo state fd status]> (h_closures w)) w)) in
  on_timers (add_cond_timer p now timeout (Fun p) state false).

(** [add_timer] with the closure that schedules the running coroutine. *)
Definition add_wake_timer (interval : Z) : meth World Z :=
  let! p := fresh in
  let! now := gets h_now in
  let! _ := (fun w => (Ret tt, set_closures (<[p := ScheduleCo running tid]> (h_closures w)) w)) in
  on_timers (add_timer p now interval (Some (Fun p)) false).

(** What a closure does when a worker runs it. *)
Definition run_closure (c : closure) : meth World unit :=
  match c with
  | ScheduleCo p t =>
      on_io (fun m => let '(_, q) := schedule (JCo (Some p)) t (queue m) in
                      (Ret tt, MkIOManager (kernel m) q (m_contexts m) (m_appending_event_cnt m)))
  | CancelIo state fd status =>
      fun w =>
        match h_states w !! state with
        | None | Some true => (Ret tt, w)
        | Some false =>
            (let! _ := on_io (cancel_event fd status) in ret tt)
              (set_states (<[state := true]> (h_states w)) w)
        end
  end.

(** Running the callback of a timer: the functions it calls. *)
Fixpoint run_functions (fs : list Z) : meth World unit :=
  match fs with
  | [] => ret tt
  | f :: fs =>
      let! _ := (fun w => match h_closures w !! f with
                          | Some c => run_closure c w
                          | None => (Ret tt, w)
                          end) in
      run_functions fs
  end.

Definition run_callback (cb : callback) : meth World unit :=
  fun w =>
    run_functions (cond_timer_callback (fun s => bool_decide (is_Some (h_states w !! s))) cb) w.

(** ** [do_socket_io] *)

(** Leaving the call: its [SocketIoState] dies. *)
Definition leave (state n : Z) (w : World) : co Z :=
  Done (Ret n) (set_states (delete state (h_states w)) w).

Definition canceled (state : Z) (w : World) : bool :=
  match h_states w !! state with Some b => b | None => false end.

(** The timer of a round; without a timeout the pointer is null. *)
Definition round_timer (timeout state fd status : Z) : meth World Z :=
  if 0 <=? timeout then add_cancel_timer timeout state fd status else ret 0.

(** The loop; [continue] goes to the condition of the loop. *)
Fixpoint io_loop (fuel : nat) (fd : Z) (func : sysfun) (status timeout state : Z) (w : World) : co Z :=
  match fuel with
  | O => Done (Undef Diverges) w
  | S fuel' =>
      run (call func) (fun n w =>
        if (n =? -1) && errno_is EAGAIN w then
          run (round_timer timeout state fd status) (fun timer w =>
          run (on_io (add_event junk fd status None true running tid)) (fun added w =>
            if added : bool then
              Yielded w (fun w =>
                run (on_timers (cancel_timer timer)) (fun _ w =>
                  if canceled state w then leave state (-1) (set_errno ETIMEDOUT w)
                  else
                    let w := set_states (<[state := false]> (h_states w)) w in
                    if errno_is EINTR w || errno_is EAGAIN w
                    then io_loop fuel' fd func status timeout state w
                    else leave state n w) w)
            else
              run (on_timers (cancel_timer timer)) (fun _ w =>
                leave state (-1) (set_errno (h_fail_errno w) w)) w) w) w
        else if (n =? -1) && errno_is EINTR w then io_loop fuel' fd func status timeout state w
        else leave state n w) w
  end.

(** [int timeout = ...]: the [uint64_t] is narrowed. *)
Definition io_timeout (status : Z) (e : FDEntity) : Z :=
  if negb (Z.land status READ =? 0) then to_signed 32 (recv_timeout tcp_recv_timeout e)
  else if negb (Z.land status WRITE =? 0) then to_signed 32 (send_timeout tcp_send_timeout e)
  else -1.

Definition do_socket_io (fuel : nat) (fd : Z) (func : sysfun) (status : Z) (w : World) : co Z :=
  if negb (t__enable_hook w) then run (call func) done w
  else
    run (find_fd fd) (fun fd_entity w =>
      match fd_entity with
      | None => run (call func) done w
      | Some e =>
          if m_is_closed e then done (-1) (set_errno EBADF w)
          else if negb (m_is_socket e) || m_is_user_nonblock e then run (call func) done w
          else
            run fresh (fun state w =>
              io_loop fuel fd func status (io_timeout status e) state
                (set_states (<[state := false]> (h_states w)) w)) w
      end) w.

(** The transfers: [func] is the original with its other arguments. *)
Definition read (fuel : nat) (fildes : Z) (read_f : sysfun) := do_socket_io fuel fildes read_f READ.
Definition readv (fuel : nat) (fildes : Z) (readv_f : sysfun) := do_socket_io fuel fildes readv_f READ.
Definition recv (fuel : nat) (socket : Z) (recv_f : sysfun) := do_socket_io fuel socket recv_f READ.
Definition recvfrom (fuel : nat) (socket : Z) (recvfrom_f : sysfun) :=
  do_socket_io fuel socket recvfrom_f READ.
Definition recvmsg (fuel : nat) (socket : Z) (recvmsg_f : sysfun) := do_socket_io fuel socket recvmsg_f READ.
Definition write (fuel : nat) (fildes : Z) (write_f : sysfun) := do_socket_io fuel fildes write_f WRITE.
Definition writev (fuel : nat) (fildes : Z) (writev_f : sysfun) := do_socket_io fuel fildes writev_f WRITE.
Definition send (fuel : nat) (socket : Z) (send_f : sysfun) := do_socket_io fuel socket send_f WRITE.
Definition sendto (fuel : nat) (socket : Z) (sendto_f : sysfun) := do_socket_io fuel socket sendto_f WRITE.
Definition sendmsg (fuel : nat) (socket : Z) (sendmsg_f : sysfun) := do_socket_io fuel socket sendmsg_f WRITE.

Definition accept (fuel : nat) (socket : Z) (accept_f : sysfun) (w : World) : co Z :=
  co_bind (do_socket_io fuel socket accept_f READ w) (fun r w =>
    let fd := to_signed 32 r in
    if 0 <=? fd then run (create_fd fd) (fun _ => done fd) w else done fd w).

(** ** Sleeping *)

Definition sleep_for (interval : Z) (w : World) : co Z :=
  run (add_wake_timer interval) (fun _ w => Yielded w (done 0)) w.

(** [seconds * 1000] is an unsigned product. *)
Definition sleep (sleep_f : sysfun) (seconds : Z) (w : World) : co Z :=
  if negb (t__enable_hook w) then run (call sleep_f) done w else sleep_for (wrap 32 (seconds * 1000)) w.

Definition usleep (usleep_f : sysfun) (usec : Z) (w : World) : co Z :=
  if negb (t__enable_hook w) then run (call usleep_f) done w else sleep_for usec w.

(** Without the hook it calls itself. *)
Fixpoint nanosleep (fuel : nat) (tv_sec tv_nsec : Z) (w : World) : co Z :=
  match fuel with
  | O => Done (Undef Diverges) w
  | S fuel' =>
      if negb (t__enable_hook w) then nanosleep fuel' tv_sec tv_nsec w
      else
        match time_t_of (tv_sec * 1000), time_t_of (tv_sec * 1000 + Z.quot tv_nsec 10000000) with
        | Ret _, Ret usc => sleep_for usc w
        | Undef u, _ | _, Undef u => Done (Undef u) w
        | _, _ => Done (Undef SignedOverflow) w
        end
  end.

(** ** Descriptors *)

Definition socket (socket_f : sysfun) (w : World) : co Z :=
  if negb (t__enable_hook w) then run (call socket_f) done w
  else
    run (call socket_f) (fun fd w =>
      if fd =? -1 then done fd w
      else
        run (create_fd fd) (fun e w =>
          match e with
          | Some e => done (m_fd e) w
          | None => Done (Undef NullDeref) w
          end) w) w.

(** [getsockopt(SOL_SOCKET, SO_ERROR)]: its result and the value it stores. *)
Definition connect_result (so_error : Sys -> Z * Z * Z * Sys) (w : World) : co Z :=
  let '(n, e, err, s) := so_error (h_sys w) in
  let w := set_sys s w in
  if n =? -1 then done (-1) (set_errno e w)
  else if err =? 0 then done 0 w
  else done (-1) (set_errno err w).

(** The end of the scope of [state] in [connect]. *)
Definition drop_state {A} (state : Z) (m : co A) : co A :=
  match m with
  | Done r w => Done r (set_states (delete state (h_states w)) w)
  | Yielded w k => Yielded w k
  end.

Definition connect (sockfd : Z) (connect_f : sysfun) (so_error : Sys -> Z * Z * Z * Sys) (w : World) : co Z :=
  if negb (t__enable_hook w) then run (call connect_f) done w
  else
    run (find_fd sockfd) (fun fd_entity w =>
      match fd_entity with
      | None => done (-1) (set_errno EBADF w)
      | Some e =>
          if m_is_closed e then done (-1) (set_errno EBADF w)
          else if negb (m_is_socket e) then run (call connect_f) done w
          else if m_is_user_nonblock e then run (call connect_f) done w
          else
            run (call connect_f) (fun n w =>
              if n =? 0 then done n w
              else if negb (n =? -1) || negb (errno_is EINPROGRESS w) then done n w
              else
                run fresh (fun state w =>
                let w := set_states (<[state := false]> (h_states w)) w in
                let timeout := connect_timeout tcp_connect_timeout e in
                run (if 0 <? timeout then add_cancel_timer (to_signed 64 timeout) state sockfd WRITE else ret 0)
                  (fun timer w =>
                run (on_io (add_event junk sockfd WRITE None true running tid)) (fun added w =>
                  if added : bool then
                    Yielded w (fun w =>
                      run (on_timers (cancel_timer timer)) (fun _ w =>
                        if canceled state w then leave state (-1) (set_errno ETIMEDOUT w)
                        else drop_state state (connect_result so_error w)) w)
                  else
                    run (on_timers (cancel_timer timer)) (fun _ w =>
                      drop_state state (connect_result so_error
                        (set_states (<[state := true]> (h_states w)) w))) w) w) w) w) w
      end) w.

(** [close]: a thread without an IO manager skips the cancellation. *)
Definition close (fildes : Z) (close_f : sysfun) (w : World) : co Z :=
  if negb (t__enable_hook w) then run (call close_f) done w
  else
    run (find_fd fildes) (fun fd_entity w =>
      match fd_entity with
      | None => run (call close_f) done w
      | Some _ =>
          run (match h_iom w with Some _ => on_io (cancel_all_event fildes) | None => ret false end)
            (fun _ w =>
          run (fun w => let (r, m) := del_fd fildes (h_fds w) in (r, set_fds m w))
            (fun _ w => run (call close_f) done w) w) w
      end) w.

(** The argument of [fcntl] as the hook passes it on. *)
Inductive fcntl_arg := NoArg | IntArg (a : Z) | PtrArg (p : Z).

Definition is_one_of (c : Z) (l : list Z) : bool := existsb (Z.eqb c) l.

(** [fcntl]; [arg] is the integer or the address that was passed.  [!O_NONBLOCK] is zero. *)
Definition fcntl (fcntl_f : Z -> fcntl_arg -> sysfun) (fildes cmd arg : Z) (w : World) : co Z :=
  if cmd =? F_SETFL then
    run (find_fd fildes) (fun fd_entity w =>
      match fd_entity with
      | None => run (call (fcntl_f cmd (IntArg arg))) done w
      | Some e =>
          if negb (m_is_socket e) || m_is_closed e then run (call (fcntl_f cmd (IntArg arg))) done w
          else
            run (update_fd fildes (set_user_nonblock (negb (Z.land arg O_NONBLOCK =? 0)) e)) (fun _ w =>
              let arg := if m_is_sys_nonblock e then Z.lor arg O_NONBLOCK else Z.land arg 0 in
              run (call (fcntl_f cmd (IntArg arg))) done w) w
      end) w
  else if cmd =? F_GETFL then
    run (call (fcntl_f cmd NoArg)) (fun flag w =>
    run (find_fd fildes) (fun fd_entity w =>
      match fd_entity with
      | None => done flag w
      | Some e =>
          if negb (m_is_socket e) || m_is_closed e then done flag w
          else if m_is_user_nonblock e then done (Z.lor flag O_NONBLOCK) w
          else done (Z.ldiff flag O_NONBLOCK) w
      end) w) w
  else if is_one_of cmd [F_DUPFD; F_DUPFD_CLOEXEC; F_SETFD; F_SETOWN; F_SETSIG; F_SETLEASE; F_SETPIPE_SZ;
                         F_ADD_SEALS; F_NOTIFY]
  then run (call (fcntl_f cmd (IntArg arg))) done w
  else if is_one_of cmd [F_GETFD; F_GETOWN; F_GETSIG; F_GETLEASE; F_GETPIPE_SZ]
  then run (call (fcntl_f cmd NoArg)) done w
  else if is_one_of cmd [F_SETLK; F_SETLKW; F_GETLK; F_GETOWN_EX; F_SETOWN_EX]
  then run (call (fcntl_f cmd (PtrArg arg))) done w
  else run (call (fcntl_f cmd NoArg)) done w.

(** [ioctl]; [value] is the integer behind the argument. *)
Definition ioctl (fd request value : Z) (ioctl_f : sysfun) (w : World) : co Z :=
  if request =? FIONBIO then
    run (find_fd fd) (fun fd_entity w =>
      match fd_entity with
      | None => run (call ioctl_f) done w
      | Some e =>
          if negb (m_is_socket e) || m_is_closed e then run (call ioctl_f) done w
          else
            run (update_fd fd (set_user_nonblock (negb (value =? 0)) e)) (fun _ w =>
              run (call ioctl_f) done w) w
      end) w
  else run (call ioctl_f) done w.

Definition getsockopt (getsockopt_f : sysfun) (w : World) : co Z := run (call getsockopt_f) done w.

(** [setsockopt]; [tv_sec] and [tv_usec] are the fields of the [timeval] for a timeout. *)
Definition setsockopt (sockfd level optname tv_sec tv_usec : Z) (setsockopt_f : sysfun) (w : World) : co Z :=
  if t__enable_hook w then run (call setsockopt_f) done w
  else if (level =? SOL_SOCKET) && ((optname =? SO_RCVTIMEO) || (optname =? SO_SNDTIMEO)) then
    run (find_fd sockfd) (fun fd_entity w =>
      match fd_entity with
      | None => run (call setsockopt_f) done w
      | Some e =>
          match time_t_of (tv_sec * 1000), time_t_of (tv_sec * 1000 + Z.quot tv_usec 1000) with
          | Ret _, Ret t =>
              let e := if optname =? SO_RCVTIMEO then set_recv_timeout (wrap 64 t) e
                       else set_send_timeout (wrap 64 t) e in
              run (update_fd sockfd e) (fun _ w => run (call setsockopt_f) done w) w
          | _, _ => Done (Undef SignedOverflow) w
          end
      end) w
  else run (call setsockopt_f) done w.
End Calls.
End Hook.
Arguments Done {K Q Sys A} r w.
Arguments Yielded {K Q Sys A} w k.
