(* ===== verification/HookProps.v ===== *)
(** * Hooked system calls: what a waiting call leaves behind, and that it ends

    The theorems quantify over everything other coroutines do while a call waits ([rely]);
    that the timers, the event contexts and the callbacks keep to it is proved from their
    own theorems. *)

From stdpp Require Import base list numbers gmap.
From Stdlib Require Import Lia ZArith.
From S2P Require Import Prelude OrdSet Timer TimerProps FDManager Scheduler IOManager IOManagerProps Hook.

Section HookProps.
Context {K Q Sys : Type} `{!Epoll K} `{!TaskQueue Q} (pipe : Z).
Context (running tid junk : Z).

#[local] Abbreviation W := (World (K := K) (Q := Q) (Sys := Sys)).

(** ** The state of the library *)

Definition timers (w : W) : list Z :=
  match h_iom w with Some i => m_timers (iom_timers i) | None => [] end.
Definition timer_heap (w : W) : gmap Z Timer :=
  match h_iom w with Some i => heap (iom_timers i) | None => ∅ end.

Record iom_ok (i : Iom (K := K) (Q := Q)) (w : W) : Prop := {
  iok_io : io_ok pipe (iom_io i);
  iok_timers : timers_ok (iom_timers i);
  iok_heap p t : heap (iom_timers i) !! p = Some t -> p < h_next w }.

(** A closure that cancels is for an event of a descriptor, and for a state that was made. *)
Definition closure_ok (next : Z) (c : closure) : Prop :=
  match c with CancelIo s fd st => s < next /\ 0 <= fd /\ is_status st | ScheduleCo _ _ => True end.

Lemma closure_ok_mono n n' c : n <= n' -> closure_ok n c -> closure_ok n' c.
Proof. destruct c; cbn; [|done]. intros ? (? & ? & ?). split; [lia|done]. Qed.

(** Addresses below [h_next] only, timers with a closure run once, and a clock that does not overflow with a timeout. *)
Record hook_ok (w : W) : Prop := {
  hok_iom : exists i, h_iom w = Some i /\ iom_ok i w;
  hok_states s b : h_states w !! s = Some b -> s < h_next w;
  hok_closures p c : h_closures w !! p = Some c -> p < h_next w /\ closure_ok (h_next w) c;
  hok_oneshot p c t : h_closures w !! p = Some c -> timer_heap w !! p = Some t -> m_loop t = false;
  hok_next : 0 < h_next w;
  hok_now : 0 <= h_now w < 2 ^ 62 }.

Definition io_of (w : W) : option (IOManager (K := K) (Q := Q)) := iom_io <$> h_iom w.

(** A timer of the call whose [SocketIoState] is [s]. *)
Definition mine (s : Z) (w : W) (p : Z) : Prop := exists fd st, h_closures w !! p = Some (CancelIo s fd st).

(** No timer of the call is running. *)
Definition quiet (s : Z) (w : W) : Prop := forall p, mine s w p -> p ∉ timers w.

Definition deadline (w : W) (p : Z) : Z := next_time (timer_heap w) p.

(** What others may do while the call [s] waits: anything that keeps the components in
    order, but they do not end its state, make closures for it, start its timers or change
    their deadlines, and they cancel it only when the deadline of one of its timers is over. *)
Record rely (s : Z) (w w' : W) : Prop := {
  rely_ok : hook_ok w';
  rely_state : is_Some (h_states w !! s) -> is_Some (h_states w' !! s);
  rely_next : h_next w <= h_next w';
  rely_closures p c : h_closures w !! p = Some c -> h_closures w' !! p = Some c;
  rely_mine p : mine s w' p -> mine s w p;
  rely_timers p : mine s w p -> p ∈ timers w' -> p ∈ timers w;
  rely_now : h_now w <= h_now w';
  rely_deadline p : mine s w p -> deadline w' p = deadline w p;
  rely_canceled : h_states w !! s = Some false -> h_states w' !! s = Some true ->
    exists p, mine s w p /\ deadline w p <= h_now w' }.

(** The runs of a call: at a yield the others run. *)
Inductive runs {A} (env : W -> W -> Prop) : co A -> res A -> W -> Prop :=
| runs_done r w : runs env (Done r w) r w
| runs_yield w k w1 r w' : env w w1 -> runs env (k w1) r w' -> runs env (Yielded w k) r w'.

(** ** Steps of a call *)

Lemma run_ret {A B} (m : meth W A) (k : A -> W -> co B) w a w' : m w = (Ret a, w') -> run m k w = k a w'.
Proof. unfold run. by intros ->. Qed.

Lemma hook_ok_same w w' :
  hook_ok w -> h_iom w' = h_iom w -> h_states w' = h_states w -> h_closures w' = h_closures w ->
  h_next w' = h_next w -> h_now w' = h_now w -> hook_ok w'.
Proof.
  intros [(i & Hi & [Hio Ht Hh]) Hs Hc H1s Hn Hnow] Ei Es Ec En Ew. split; rewrite ?Es, ?Ec, ?En, ?Ew; eauto.
  - exists i. split; [congruence|]. split; [done|done|]. intros p t Hp. rewrite En. eauto.
  - unfold timer_heap. rewrite Ei. exact H1s.
Qed.

Lemma call_ok (f : sysfun) w : hook_ok w ->
  exists n e s, f (h_sys w) = (n, e, s) /\
    call f w = (Ret n, (if n =? -1 then set_errno e (set_sys s w) else set_sys s w)) /\
    hook_ok (if n =? -1 then set_errno e (set_sys s w) else set_sys s w).
Proof.
  intros Hok. unfold call. destruct (f (h_sys w)) as [[n e] s]. exists n, e, s. split; [done|]. split; [done|].
  destruct (n =? -1); by apply (hook_ok_same w).
Qed.

(** The timer of a round: one timer of the call is running, with the deadline. *)
Lemma add_cancel_timer_ok timeout s fd st w :
  hook_ok w -> s < h_next w -> 0 <= fd -> is_status st -> 0 <= timeout < 2 ^ 62 ->
  exists p w', add_cancel_timer timeout s fd st w = (Ret p, w') /\ hook_ok w' /\ p = h_next w /\
    h_closures w' = <[p := CancelIo s fd st]> (h_closures w) /\ h_states w' = h_states w /\
    h_errno w' = h_errno w /\ h_fail_errno w' = h_fail_errno w /\ h_sys w' = h_sys w /\
    io_of w' = io_of w /\ h_next w' = h_next w + 1 /\ h_now w' = h_now w /\
    (forall q, q ∈ timers w' <-> q = p \/ q ∈ timers w) /\
    (exists t, timer_heap w' !! p = Some t /\ m_next_time t = h_now w + timeout /\
      m_cb t = Some (CondFun s (Fun p)) /\ m_loop t = false) /\
    forall q, q <> p -> deadline w' q = deadline w q.
Proof.
  intros [(i & Hi & [Hio Ht Hh]) Hs Hc H1s Hn Hnow] Hsn Hfd Hstat Hto.
  unfold add_cancel_timer, fresh, gets, bind, on_timers. cbn. rewrite Hi. unfold add_cond_timer.
  destruct (add_timer_ok (h_next w) (h_now w) timeout (Some (CondFun s (Fun (h_next w)))) false (iom_timers i))
    as (tm & -> & Hok' & Hheap & Hin & _); [done|lia| |unfold sfits; lia|].
  { destruct (heap (iom_timers i) !! h_next w) as [t|] eqn:He; [|done]. apply Hh in He. lia. }
  eexists (h_next w), _. split; [done|]. split.
  { split; cbn; [|intros s' b Hb; specialize (Hs s' b Hb); lia| | |lia|done].
    - eexists. split; [done|]. split; cbn; [done..|].
      intros p t. rewrite Hheap. intros [[<- _]|[_ Hp]]%lookup_insert_Some; [lia|]. specialize (Hh p t Hp). lia.
    - intros p c [[<- <-]|[_ Hp]]%lookup_insert_Some; [split; [lia|]; cbn; split; [lia|done]|].
      destruct (Hc p c Hp) as [Hlt Hcok]. split; [lia|]. apply (closure_ok_mono (h_next w)); [lia|done].
    - intros p c t Hp. unfold timer_heap. cbn. rewrite Hheap. intros [[<- <-]|[Hne Ht']]%lookup_insert_Some; [done|].
      rewrite lookup_insert_ne in Hp by done. apply (H1s p c t Hp). unfold timer_heap. by rewrite Hi. }
  unfold io_of, timers, timer_heap. cbn. rewrite Hi. do 9 (split; [done|]). split; [exact Hin|].
  split; [eexists; rewrite Hheap, lookup_insert_eq; done|].
  intros q Hne. unfold deadline, timer_heap. cbn. rewrite Hi, Hheap, next_time_insert. by rewrite decide_False.
Qed.

(** Registering: the components other than the event contexts stay. *)
Lemma on_add_event_ok fd st w : hook_ok w -> is_status st -> 0 <= fd ->
  exists r w' m m', on_io (add_event junk fd st None true running tid) w = (Ret r, w') /\ hook_ok w' /\
    io_of w = Some m /\ io_of w' = Some m' /\
    h_closures w' = h_closures w /\ h_states w' = h_states w /\ h_errno w' = h_errno w /\
    h_fail_errno w' = h_fail_errno w /\ h_sys w' = h_sys w /\ h_next w' = h_next w /\
    h_now w' = h_now w /\ timers w' = timers w /\ timer_heap w' = timer_heap w /\
    (r = true -> reg m' fd st = Some (JCo (Some running), tid)) /\
    (r = false -> exists m', add_event junk fd st None true running tid m = (Ret false, m')).
Proof.
  intros Hok Hst Hfd. destruct (hok_iom w Hok) as (i & Hi & Hiok). destruct Hiok as [Hio Ht Hh].
  unfold on_io. rewrite Hi.
  destruct (add_event_ok pipe junk fd st None running tid (iom_io i) Hio Hst Hfd) as (r & m' & Hadd & Hio' & Heff).
  rewrite Hadd. eexists r, _, (iom_io i), m'. split; [done|].
  pose proof (hok_oneshot w Hok) as H1s'. unfold timer_heap in H1s'. rewrite Hi in H1s'. split.
  { destruct Hok as [_ Hs Hc H1s Hn Hnow]. split; [eexists; split; [done|]; by split|done..|exact H1s'|done|done]. }
  unfold io_of, timers, timer_heap. cbn. rewrite Hi. do 11 (split; [done|]).
  split; intros ->; [|by exists m']. destruct Heff as (_ & _ & wt & Hnew & Hreg). cbn in Hnew. subst wt.
  rewrite Hreg by done. by rewrite decide_True.
Qed.

Lemma cancel_heap p tm r tm' q t' :
  cancel_timer p tm = (Ret r, tm') -> heap tm' !! q = Some t' ->
  exists t, heap tm !! q = Some t /\ m_loop t' = m_loop t.
Proof.
  unfold cancel_timer. destruct (p =? 0); [intros [= <- <-]; eauto|].
  destruct (is_end (find p tm) tm); [intros [= <- <-]; eauto|]. cbn.
  destruct (heap tm !! p) as [t|] eqn:Hp; [|done].
  assert (forall tm, heap (on_timer_refresh tm) = heap tm) as Hr by done.
  intros [= <- <-]. destruct (is_begin (find p tm)); rewrite ?Hr; cbn;
    intros [[<- <-]|[_ ?]]%lookup_insert_Some; eauto.
Qed.

(** Cancelling a timer of the call. *)
Lemma on_cancel_timer_ok p w : hook_ok w ->
  exists r w', on_timers (cancel_timer p) w = (Ret r, w') /\ hook_ok w' /\
    h_closures w' = h_closures w /\ h_states w' = h_states w /\ h_errno w' = h_errno w /\
    h_fail_errno w' = h_fail_errno w /\ h_sys w' = h_sys w /\ h_next w' = h_next w /\
    io_of w' = io_of w /\ h_now w' = h_now w /\
    (forall q, deadline w' q = deadline w q) /\
    (forall q, q ∈ timers w' <-> q <> p /\ q ∈ timers w).
Proof.
  intros Hok. destruct (hok_iom w Hok) as (i & Hi & Hiok). destruct Hiok as [Hio Ht Hh].
  unfold on_timers. rewrite Hi.
  destruct (cancel_timer_ok p (iom_timers i) Ht) as (r & tm & Hc & Ht' & _ & Hnt & Hin & Hcl & _).
  rewrite Hc. eexists r, _. split; [done|]. split.
  { destruct Hok as [_ Hs Hcs H1s Hn Hnow]. split; [|done|done| |done|done].
    - eexists. split; [done|]. split; cbn; [done..|]. intros q t Hq. cbn.
      destruct (cancel_heap p (iom_timers i) r tm q t Hc Hq) as (t' & Ht'' & _). by apply Hh in Ht''.
    - unfold timer_heap in *. rewrite Hi in H1s. cbn. intros q c t Hq Ht0.
      destruct (cancel_heap p (iom_timers i) r tm q t Hc Ht0) as (t' & Ht'' & ->). eauto. }
  unfold io_of, timers, deadline, timer_heap. cbn. rewrite Hi. do 8 (split; [done|]). done.
Qed.

(** ** Every run of a socket call *)

(** The call [s] waits on the event, with a timer [p] that ends at [d]. *)
Record waiting (s fd st p d : Z) (w : W) : Prop := {
  wt_state : h_states w !! s = Some false;
  wt_closure : h_closures w !! p = Some (CancelIo s fd st);
  wt_timer : p ∈ timers w /\ exists t, timer_heap w !! p = Some t /\ m_next_time t = d /\
    m_cb t = Some (CondFun s (Fun p)) /\ m_loop t = false;
  wt_waiter : exists m, io_of w = Some m /\ reg m fd st = Some (JCo (Some running), tid) }.

(** What a blocking call is: it repeats the original function while that says EINTR, or says
    EAGAIN and another round is due; the number counts the calls of the original function that
    are left.  The call [s] began at [start]. *)
Section Blocking.
Context (env : W -> W -> Prop) (s fd : Z) (func : sysfun (Sys := Sys)) (st start timeout : Z).

(** The event cannot be registered. *)
Definition refuses (w : W) : Prop :=
  exists m m', io_of w = Some m /\ add_event junk fd st None true running tid m = (Ret false, m').

(** The original function would block in [w], and the call waits in [w1]: it is registered,
    and with a timeout it has a timer for it. *)
Record yields (w w1 : W) : Prop := {
  yd_call : func (h_sys w) = (-1, EAGAIN, h_sys w1);
  yd_now : h_now w1 = h_now w;
  yd_errno : h_errno w1 = EAGAIN;
  yd_ok : hook_ok w1;
  yd_state : h_states w1 !! s = Some false;
  yd_waiter : exists m, io_of w1 = Some m /\ reg m fd st = Some (JCo (Some running), tid);
  yd_timer : 0 <= timeout -> exists p, waiting s fd st p (h_now w + timeout) w1 }.

Inductive blocking_call : nat -> W -> res Z -> W -> Prop :=
| bc_spent w w' : blocking_call 0 w (Undef Diverges) w'
| bc_result n w x e w' : func (h_sys w) = (x, e, h_sys w') ->
    (x = -1 -> h_errno w' = e /\ e <> EAGAIN /\ e <> EINTR) -> blocking_call (S n) w (Ret x) w'
| bc_interrupted n w w1 r w' : func (h_sys w) = (-1, EINTR, h_sys w1) -> h_now w1 = h_now w ->
    blocking_call n w1 r w' -> blocking_call (S n) w r w'
| bc_refused n w w' : func (h_sys w) = (-1, EAGAIN, h_sys w') -> refuses w -> h_errno w' = h_fail_errno w' ->
    blocking_call (S n) w (Ret (-1)) w'
| bc_timeout n w w1 w2 w' : yields w w1 -> env w1 w2 -> canceled s w2 = true ->
    0 <= timeout -> start + timeout <= h_now w2 -> h_now w' = h_now w2 -> h_sys w' = h_sys w2 ->
    h_errno w' = ETIMEDOUT -> blocking_call (S n) w (Ret (-1)) w'
| bc_woken n w w1 w2 w3 r w' : yields w w1 -> env w1 w2 -> canceled s w2 = false ->
    h_errno w2 = EAGAIN \/ h_errno w2 = EINTR -> h_sys w3 = h_sys w2 -> h_now w3 = h_now w2 ->
    blocking_call n w3 r w' -> blocking_call (S n) w r w'
| bc_foreign n w w1 w2 w' : yields w w1 -> env w1 w2 -> canceled s w2 = false ->
    h_errno w2 <> EAGAIN -> h_errno w2 <> EINTR -> h_sys w' = h_sys w2 -> h_errno w' = h_errno w2 ->
    blocking_call (S n) w (Ret (-1)) w'.

(** It depends on the system, the clock and the registrations. *)
Lemma blocking_call_from n w0 w r w' : h_sys w = h_sys w0 -> h_now w = h_now w0 -> io_of w = io_of w0 ->
  blocking_call n w0 r w' -> blocking_call n w r w'.
Proof.
  intros Hs Hn Hi. assert (forall w1, yields w0 w1 -> yields w w1) as Hy.
  { intros w1 []. split; rewrite ?Hs, ?Hn; done. }
  destruct 1 as [|n w0 x e w' Hf|n w0 w1 r w' Hf|n w0 w' Hf Hr|n w0 w1 w2 w' H|n w0 w1 w2 w3 r w' H|n w0 w1 w2 w' H].
  - constructor.
  - rewrite <- Hs in Hf. by eapply bc_result.
  - rewrite <- Hs in Hf. eapply bc_interrupted; [exact Hf|congruence|done].
  - rewrite <- Hs in Hf. eapply bc_refused; [exact Hf| |done]. unfold refuses in *. by rewrite Hi.
  - apply Hy in H. by eapply bc_timeout.
  - apply Hy in H. by eapply bc_woken.
  - apply Hy in H. by eapply bc_foreign.
Qed.
End Blocking.

Definition io_post (env : W -> W -> Prop) (func : sysfun) (fuel : nat) (s fd st start timeout : Z) (w : W) (r : res Z) (w' : W)
    : Prop :=
  blocking_call env s fd func st start timeout fuel w r w' /\
  (r = Undef Diverges \/
   exists n, r = Ret n /\ hook_ok w' /\ h_states w' !! s = None /\ quiet s w').

(** The timers of the call have deadlines after the timeout. *)
Definition patient (s start timeout : Z) (w : W) : Prop :=
  start <= h_now w /\ forall p, mine s w p -> 0 <= timeout /\ start + timeout <= deadline w p.

Lemma runs_leave env env' func fuel s fd st start timeout w n w0 r w' :
  runs env (leave s n w0) r w' -> hook_ok w0 -> quiet s w0 ->
  blocking_call env' s fd func st start timeout fuel w (Ret n) (set_states (delete s (h_states w0)) w0) ->
  io_post env' func fuel s fd st start timeout w r w'.
Proof.
  intros Hr Hok Hq He. inversion Hr; subst. split; [done|]. right. eexists. split; [done|]. split; [|split].
  - destruct Hok as [(i & Hi & [? ? ?]) Hs Hc H1s Hn Hnow]. split; [|cbn; intros s' b [_ Hb]%lookup_delete_Some; eauto|done..].
    exists i. split; [done|]. by split.
  - cbn. by rewrite lookup_delete_eq.
  - done.
Qed.

Lemma hook_ok_states w b s : hook_ok w -> is_Some (h_states w !! s) ->
  hook_ok (set_states (<[s := b]> (h_states w)) w).
Proof.
  intros [(i & Hi & [? ? ?]) Hs Hc H1s Hn Hnow] [b0 Hb0]. split; [|cbn|done..].
  - exists i. split; [done|]. by split.
  - intros s' b' [[<- _]|[_ Hb]]%lookup_insert_Some; eauto.
Qed.

Lemma rely_quiet s w w' : rely s w w' -> quiet s w -> quiet s w'.
Proof. intros Hr Hq p Hm Hin. apply (Hq p); [by apply Hr|]. apply Hr; [|done]. by apply Hr. Qed.

Lemma rely_patient s start timeout w w' : rely s w w' -> patient s start timeout w -> patient s start timeout w'.
Proof.
  intros Hr [Hst Hp]. split; [pose proof (rely_now _ _ _ Hr); lia|].
  intros p Hm. apply (rely_mine _ _ _ Hr) in Hm. rewrite (rely_deadline _ _ _ Hr p Hm). auto.
Qed.

Lemma rely_refl s w : hook_ok w -> rely s w w.
Proof. intros Hok. split; [done..|lia|done|congruence]. Qed.

(** After a wake, with the timer of the round cancelled. *)
Lemma woken_ok s start timeout p w1 w2 :
  rely s w1 w2 -> (forall q, mine s w1 q -> q ∈ timers w1 -> q = p) -> h_states w1 !! s = Some false ->
  patient s start timeout w1 ->
  exists r w3, on_timers (cancel_timer p) w2 = (Ret r, w3) /\ hook_ok w3 /\ quiet s w3 /\
    is_Some (h_states w3 !! s) /\ patient s start timeout w3 /\
    (h_errno w3 = h_errno w2 /\ h_sys w3 = h_sys w2 /\ h_now w3 = h_now w2 /\ canceled s w3 = canceled s w2) /\
    (canceled s w3 = true -> 0 <= timeout /\ start + timeout <= h_now w3).
Proof.
  intros Hr Honly Hs Hpat. destruct (on_cancel_timer_ok p w2 (rely_ok _ _ _ Hr))
    as (r & w3 & Hc & Hok3 & Hcl & Hst & He & _ & Hsy & _ & _ & Hnow & Hdl & Hin).
  exists r, w3. split; [done|]. split; [done|].
  assert (forall q, mine s w3 q -> mine s w1 q) as Hmine.
  { intros q Hm. unfold mine in Hm. rewrite Hcl in Hm. by apply (rely_mine _ _ _ Hr) in Hm. }
  split; [|split; [rewrite Hst; apply Hr; by eexists|split; [|split; [unfold canceled; by rewrite Hst|]]]].
  - intros q Hm [Hne Hq]%Hin. apply Hne, Honly; [by apply Hmine|]. apply Hr; [|done]. by apply Hmine.
  - destruct (rely_patient s start timeout w1 w2 Hr Hpat) as [H1 H2]. split; [by rewrite Hnow|].
    intros q Hm. rewrite Hdl. apply H2. unfold mine in *. by rewrite Hcl in Hm.
  - unfold canceled. rewrite Hst, Hnow. destruct (h_states w2 !! s) as [[]|] eqn:Hs2; try done. intros _.
    destruct (rely_canceled _ _ _ Hr Hs Hs2) as (q & Hm & Hle). destruct Hpat as [_ Hp].
    destruct (Hp q Hm). lia.
Qed.

Lemma round_timer_ok start timeout s fd st w :
  hook_ok w -> s < h_next w -> 0 <= fd -> is_status st -> quiet s w -> timeout < 2 ^ 62 ->
  patient s start timeout w ->
  exists p w', round_timer timeout s fd st w = (Ret p, w') /\ hook_ok w' /\
    h_states w' = h_states w /\ patient s start timeout w' /\
    (forall q, mine s w' q -> q ∈ timers w' -> q = p) /\
    (h_errno w' = h_errno w /\ h_sys w' = h_sys w /\ h_now w' = h_now w /\ io_of w' = io_of w) /\
    (0 <= timeout -> h_closures w' !! p = Some (CancelIo s fd st) /\ p ∈ timers w' /\
       exists t, timer_heap w' !! p = Some t /\ m_next_time t = h_now w + timeout /\
         m_cb t = Some (CondFun s (Fun p)) /\ m_loop t = false).
Proof.
  intros Hok Hsn Hfd Hstat Hq Hto Hpat. unfold round_timer. destruct (Z.leb_spec 0 timeout).
  - destruct (add_cancel_timer_ok timeout s fd st w Hok Hsn Hfd Hstat) as
      (p & w' & Ha & Hok' & Hp & Hcl & Hst & He & _ & Hsy & Hio & _ & Hnow & Hin & (t & Ht & Hdl & Hcb & Hl) & Hother);
      [lia|]. exists p, w'. split; [done|]. split; [done|]. split; [done|].
    assert (forall q, mine s w' q -> q = p \/ mine s w q) as Hmine.
    { intros q (fd' & st' & Hm). rewrite Hcl in Hm.
      apply lookup_insert_Some in Hm as [[<- _]|[_ Hm]]; [by left|right; by eexists _, _]. }
    destruct Hpat as [H1 H2]. split; [|split; [|split; [done|]]].
    + split; [by rewrite Hnow|]. intros q [->|Hm]%Hmine.
      * unfold deadline, next_time. rewrite Ht, Hdl. lia.
      * destruct (H2 q Hm) as [Ha1 Ha2]. split; [done|]. rewrite Hother; [done|]. intros ->.
        destruct Hm as (fd' & st' & Hm). apply (hok_closures w Hok) in Hm as [Hm _]. lia.
    + intros q Hm Hqin. apply Hmine in Hm as [->|Hm]; [done|]. apply Hin in Hqin as [->|Hqin]; [done|].
      exfalso. by apply (Hq q).
    + intros _. split; [by rewrite Hcl, lookup_insert_eq|]. split; [apply Hin; by left|eauto 10].
  - exists 0, w. do 4 (split; [done|]). split; [intros q Hm Hin; exfalso; by apply (Hq q)|]. split; [done|lia].
Qed.

(** The call waits, and what it waits with. *)
Lemma yields_ok fd (func : sysfun) st timeout s (w w1 w2 w3 : W) p m' e sy :
  func (h_sys w) = (-1, e, sy) -> e = EAGAIN -> h_sys w1 = sy -> h_errno w1 = e -> h_now w1 = h_now w ->
  h_states w1 !! s = Some false ->
  h_states w2 = h_states w1 /\ (h_errno w2 = h_errno w1 /\ h_sys w2 = h_sys w1 /\ h_now w2 = h_now w1) ->
  (0 <= timeout -> h_closures w2 !! p = Some (CancelIo s fd st) /\ p ∈ timers w2 /\
     exists t, timer_heap w2 !! p = Some t /\ m_next_time t = h_now w1 + timeout /\
       m_cb t = Some (CondFun s (Fun p)) /\ m_loop t = false) ->
  hook_ok w3 -> io_of w3 = Some m' -> reg m' fd st = Some (JCo (Some running), tid) ->
  h_closures w3 = h_closures w2 /\ h_states w3 = h_states w2 /\ h_errno w3 = h_errno w2 /\ h_sys w3 = h_sys w2 /\
    h_now w3 = h_now w2 /\ timers w3 = timers w2 /\ timer_heap w3 = timer_heap w2 ->
  yields s fd func st timeout w w3.
Proof.
  intros Hf -> Hsy He Hnow Hs (Hst2 & He2 & Hsy2 & Hnow2) Ht Hok Hm Hreg (Hc3 & Hst3 & He3 & Hsy3 & Hnow3 & Htm & Hth).
  assert (h_states w3 !! s = Some false) as Hs3 by (by rewrite Hst3, Hst2).
  split; [rewrite Hf; congruence|congruence|congruence|done|done|eauto|].
  intros Hto. destruct (Ht Hto) as (Hcl & Hin & t & Hh & Hd & Hr). exists p. split; [done|by rewrite Hc3| |eauto].
  rewrite Htm, Hth. split; [done|]. exists t. split; [done|]. split; [|done]. by rewrite Hd, Hnow.
Qed.

Lemma io_loop_runs (E : W -> W -> Prop) fuel fd func st start timeout s r w' :
  is_status st -> 0 <= fd -> timeout < 2 ^ 62 -> (forall w1 w2, hook_ok w1 -> E w1 w2 -> rely s w1 w2) ->
  forall w, hook_ok w -> h_states w !! s = Some false -> quiet s w -> patient s start timeout w ->
  runs E (io_loop running tid junk fuel fd func st timeout s w) r w' -> io_post E func fuel s fd st start timeout w r w'.
Proof.
  intros Hst Hfd Hto HE. induction fuel as [|fuel IH]; intros w Hok Hs Hq Hpat Hrun.
  { inversion Hrun; subst. split; [constructor|by left]. }
  cbn [io_loop] in Hrun. destruct (call_ok func w Hok) as (n & e & sy & Hf & Hcall & Hok1).
  rewrite (run_ret _ _ _ _ _ Hcall) in Hrun. set (w1 := if n =? -1 then _ else _) in *.
  assert (h_states w1 !! s = Some false /\ quiet s w1 /\ h_sys w1 = sy /\ patient s start timeout w1 /\
    h_now w1 = h_now w /\ io_of w1 = io_of w)
    as (Hs1 & Hq1 & Hsys & Hpat1 & Hnow1 & Hio1) by (unfold w1; by destruct (n =? -1)).
  assert (n = -1 -> h_errno w1 = e) as Herr by (unfold w1; by intros ->). clearbody w1.
  destruct ((n =? -1) && errno_is EAGAIN w1) eqn:Hagain.
  - apply andb_true_iff in Hagain as [->%Z.eqb_eq Hag%Z.eqb_eq]. specialize (Herr eq_refl).
    assert (e = EAGAIN) as He by congruence.
    destruct (round_timer_ok start timeout s fd st w1 Hok1 (hok_states w1 Hok1 s false Hs1) Hfd Hst Hq1 Hto Hpat1)
      as (p & w2 & Hrt & Hok2 & Hst2 & Hpat2 & Honly & (He2 & Hsy2 & Hnow2 & Hio2) & Htimer).
    rewrite (run_ret _ _ _ _ _ Hrt) in Hrun.
    destruct (on_add_event_ok fd st w2 Hok2 Hst Hfd)
      as (a & w3 & m & m' & Hadd & Hok3 & Hm & Hm' & Hcl3 & Hst3 & He3 & _ & Hsy3 & _ & Hnow3 & Htm3 & Hhp3 & Hreg & Href).
    rewrite (run_ret _ _ _ _ _ Hadd) in Hrun.
    assert (forall q, mine s w3 q -> q ∈ timers w3 -> q = p) as Honly3
      by (unfold mine; rewrite Hcl3, Htm3; exact Honly).
    assert (h_states w3 !! s = Some false) as Hs3 by (by rewrite Hst3, Hst2).
    assert (patient s start timeout w3) as Hpat3
      by (unfold patient, mine, deadline; rewrite Hcl3, Hhp3, Hnow3; exact Hpat2).
    destruct a.
    + assert (yields s fd func st timeout w w3) as Hy by (by eapply (yields_ok fd func st timeout s w w1 w2 w3 p m' e sy); auto).
      inversion Hrun as [|? ? w4 ? ? Henv Hrun']; subst. pose proof (HE w3 w4 Hok3 Henv) as Hrely.
      destruct (woken_ok s start timeout p w3 w4 Hrely Honly3 Hs3 Hpat3)
        as (b & w5 & Hc & Hok5 & Hq5 & Hs5 & Hpat5 & (He5 & Hsy5 & Hnow5 & Hca5) & Hcan).
      rewrite (run_ret _ _ _ _ _ Hc) in Hrun'. destruct (canceled s w5) eqn:Hca.
      * eapply runs_leave; [exact Hrun'|by apply (hook_ok_same w5)|done|].
        destruct (Hcan eq_refl) as [H0 Hle]. eapply bc_timeout; [exact Hy|exact Henv|done|done|by rewrite <- Hnow5|done..].
      * destruct (errno_is EINTR _ || errno_is EAGAIN _) eqn:Hre.
        -- assert (h_errno w4 = EAGAIN \/ h_errno w4 = EINTR) as Her
             by (apply orb_true_iff in Hre as [H%Z.eqb_eq|H%Z.eqb_eq]; cbn in H; rewrite He5 in H; auto).
           destruct (IH (set_states (<[s := false]> (h_states w5)) w5)) as [Hbc Hp];
             [by apply hook_ok_states|cbn; by rewrite lookup_insert_eq|exact Hq5|exact Hpat5|exact Hrun'|].
           split; [|exact Hp]. eapply bc_woken; [exact Hy|exact Henv|done|exact Her| | |exact Hbc]; done.
        -- apply orb_false_iff in Hre as [H1%Z.eqb_neq H2%Z.eqb_neq]. cbn in H1, H2. rewrite He5 in H1, H2.
           eapply runs_leave; [exact Hrun'|by apply hook_ok_states|exact Hq5|].
           eapply bc_foreign; [exact Hy|exact Henv|done..].
    + destruct (woken_ok s start timeout p w3 w3 (rely_refl s w3 Hok3) Honly3 Hs3 Hpat3)
        as (b & w5 & Hc & Hok5 & Hq5 & Hs5 & _ & (_ & Hsy5 & _) & _).
      rewrite (run_ret _ _ _ _ _ Hc) in Hrun.
      eapply runs_leave; [exact Hrun|by apply (hook_ok_same w5)|exact Hq5|].
      eapply bc_refused; [cbn; rewrite Hf; congruence| |done]. exists m. destruct (Href eq_refl) as [mm Hmm].
      exists mm. split; [congruence|done].
  - destruct ((n =? -1) && errno_is EINTR w1) eqn:Hintr.
    + apply andb_true_iff in Hintr as [->%Z.eqb_eq Hin%Z.eqb_eq]. specialize (Herr eq_refl).
      destruct (IH w1 Hok1 Hs1 Hq1 Hpat1 Hrun) as [Hbc Hp].
      split; [|exact Hp]. eapply bc_interrupted; [|exact Hnow1|exact Hbc]. rewrite Hf. congruence.
    + eapply runs_leave; [exact Hrun|done|done|]. eapply (bc_result _ _ _ _ _ _ _ _ _ _ e); [cbn; rewrite Hf; congruence|].
      intros ->. specialize (Herr eq_refl). split; [exact Herr|]. cbn in Hagain, Hintr.
      unfold errno_is in Hagain, Hintr. rewrite Herr in Hagain, Hintr. lia.
Qed.

(** ** The components keep to it *)

Lemma rely_trans s w w1 w2 : rely s w w1 -> rely s w1 w2 -> rely s w w2.
Proof.
  intros H1 H2. split.
  - apply H2.
  - intros. by apply H2, H1.
  - pose proof (rely_next _ _ _ H1). pose proof (rely_next _ _ _ H2). lia.
  - intros. by apply H2, H1.
  - intros. by apply H1, H2.
  - intros p Hm Hin. apply H1; [done|]. apply H2; [|done]. destruct Hm as (fd & st & Hm). exists fd, st. by apply H1.
  - pose proof (rely_now _ _ _ H1). pose proof (rely_now _ _ _ H2). lia.
  - intros p Hm. rewrite (rely_deadline _ _ _ H2), (rely_deadline _ _ _ H1); [done|done|].
    destruct Hm as (fd & st & Hm). exists fd, st. by apply H1.
  - intros Hf Ht. pose proof (rely_now _ _ _ H2). destruct (h_states w1 !! s) as [[]|] eqn:Hs1.
    + destruct (rely_canceled _ _ _ H1 Hf Hs1) as (p & Hm & Hle). exists p. split; [done|lia].
    + destruct (rely_canceled _ _ _ H2 Hs1 Ht) as (p & Hm & Hle). apply (rely_mine _ _ _ H1) in Hm.
      exists p. split; [done|]. by rewrite <- (rely_deadline _ _ _ H1).
    + destruct (rely_state _ _ _ H1); [by eexists|congruence].
Qed.

(** A change of the event contexts and the queue. *)
Lemma rely_io s w i m' : hook_ok w -> h_iom w = Some i -> io_ok pipe m' ->
  rely s w (set_iom (MkIom m' (iom_timers i)) w).
Proof.
  intros Hok Hi Hio. assert (hook_ok (set_iom (MkIom m' (iom_timers i)) w)) as Hok'.
  { destruct Hok as [(i' & Hi' & [H1 H2 H3]) Hs Hc H1s Hn Hnow]. assert (i' = i) as -> by congruence.
    unfold timer_heap in H1s. rewrite Hi in H1s.
    split; [|done|done|exact H1s|done|done]. eexists. split; [done|]. by split. }
  split; unfold mine, timers, deadline, timer_heap; cbn; rewrite ?Hi; [done..|congruence].
Qed.

(** An expiry: the timers of the call end or stay, with their deadlines. *)
Lemma rely_expire s w i now cbs tm : hook_ok w -> h_iom w = Some i ->
  op_valid (OpExpire now) (iom_timers i) ->
  all_expired_cbs now [] (iom_timers i) = (Ret cbs, tm) ->
  rely s w (set_iom (MkIom (iom_io i) tm) w).
Proof.
  intros Hok Hi Hval Hex. destruct (hok_iom w Hok) as (i' & Hi' & [H1 H2 H3]).
  assert (i' = i) as -> by congruence.
  destruct (all_expired_ok now [] (iom_timers i) H2 Hval) as (tm' & Heq & Htm & _ & Hheap & Hin).
  rewrite Hex in Heq. injection Heq as _ <-.
  pose proof (hok_oneshot w Hok) as Hone. unfold timer_heap in Hone. rewrite Hi in Hone.
  assert (hook_ok (set_iom (MkIom (iom_io i) tm) w)) as Hok'.
  { destruct Hok as [_ Hs Hc _ Hn Hnow]. split; [|done|done| |done|done].
    - eexists. split; [done|]. split; cbn; [done..|]. intros p t. rewrite Hheap. destruct (decide _); [|eauto].
      intros (t' & Ht' & _)%fmap_Some. eauto.
    - unfold timer_heap. cbn. intros p c t Hp. rewrite Hheap. destruct (decide _); [|eauto].
      intros (t' & Ht' & ->)%fmap_Some. unfold expired. specialize (Hone p c t' Hp Ht'). by rewrite Hone. }
  split; [done|done|done|done|done| |cbn; lia| |cbn; congruence]; unfold timers, deadline, timer_heap; cbn; rewrite Hi.
  - intros p _ [Hp _]%Hin. done.
  - intros p Hm. unfold next_time. rewrite Hheap. destruct (decide _); [|done].
    destruct (heap (iom_timers i) !! p) as [t|] eqn:Ht; [|done]. cbn. unfold expired.
    destruct Hm as (fd & st & Hm). by rewrite (Hone p _ t Hm Ht).
Qed.

(** A change of nothing that the call looks at. *)
Lemma rely_other s w e en fds now fe sy : hook_ok w -> h_now w <= now < 2 ^ 62 ->
  rely s w (MkWorld e en fds (h_iom w) (h_states w) (h_closures w) (h_next w) now fe sy).
Proof.
  intros Hok Hnow. split; [|done..|cbn; lia|done|cbn; congruence].
  destruct Hok as [(i & Hi & [H1 H2 H3]) Hs Hc H1s Hn Hw]. split; cbn; [|done..|lia].
  exists i. split; [done|]. by split.
Qed.

(** The state of another call begins, changes or ends. *)
Lemma rely_other_states s w st : hook_ok w ->
  h_states w !! s = st !! s -> (forall s' b, st !! s' = Some b -> s' < h_next w) -> rely s w (set_states st w).
Proof.
  intros Hok Heq Hst. split; cbn; [|by rewrite Heq|done..|lia|done|congruence].
  destruct Hok as [(i & Hi & [H1 H2 H3]) Hs Hc H1s Hn Hw]. split; cbn; [|done..]. exists i. split; [done|]. by split.
Qed.

(** A closure that is run. *)
Lemma run_closure_rely s w c f : hook_ok w -> h_closures w !! f = Some c ->
  (mine s w f -> deadline w f <= h_now w) ->
  exists w', run_closure c w = (Ret tt, w') /\ rely s w w'.
Proof.
  intros Hok Hf Hdue. destruct (hok_iom w Hok) as (i & Hi & [H1 H2 H3]).
  destruct (hok_closures w Hok f c Hf) as [_ Hcok]. destruct c as [s' fd st|co t]; cbn [run_closure closure_ok] in *.
  - destruct (h_states w !! s') as [[]|] eqn:Hs'; [by eauto using rely_refl| |by eauto using rely_refl].
    unfold on_io, bind. cbn [set_states h_iom]. rewrite Hi.
    destruct Hcok as (_ & Hfd & Hst).
    destruct (cancel_event_ok pipe fd st (iom_io i) H1 Hst Hfd) as (r & m' & -> & Hio & _).
    eexists. split; [done|]. eapply rely_trans; [|apply rely_io; [|done|done]].
    2: { apply hook_ok_states; [done|]. by eexists. }
    split; [apply hook_ok_states; [done|by eexists]|..]; cbn; [|done..|lia|done|].
    + destruct (decide (s' = s)) as [->|Hne]; [by rewrite lookup_insert_eq|by rewrite lookup_insert_ne].
    + intros Hsf Hst'. destruct (decide (s' = s)) as [->|Hne]; [|rewrite lookup_insert_ne in Hst' by done; congruence].
      exists f. split; [by eexists _, _|]. apply Hdue. by eexists _, _.
  - unfold on_io. rewrite Hi. destruct (schedule (JCo (Some co)) t (queue (iom_io i))) as [b q].
    eexists. split; [done|]. apply rely_io; [done|done|]. by destruct H1.
Qed.

(** The timer an operation of the timer manager makes, and the one it is about. *)
Definition op_adds (op : timer_op) : option Z :=
  match op with OpAdd p _ _ _ _ | OpAddCond p _ _ _ _ _ => Some p | _ => None end.
Definition op_subject (op : timer_op) : option Z :=
  match op with OpAdd p _ _ _ _ | OpAddCond p _ _ _ _ _ | OpReset p _ | OpCancel p => Some p | _ => None end.

(** What the operations other than the expiry do to the timers. *)
Lemma timer_op_heap op tm r tm' : timers_ok tm -> op_valid op tm -> (forall now, op <> OpExpire now) ->
  run_timer_op op tm = (r, tm') ->
  timers_ok tm' /\
  (forall q t', heap tm' !! q = Some t' ->
     op_adds op = Some q \/ exists t, heap tm !! q = Some t /\ m_loop t' = m_loop t) /\
  (forall q, op_adds op <> Some q -> next_time (heap tm') q = next_time (heap tm) q) /\
  (forall q, q ∈ m_timers tm' -> op_subject op = Some q \/ q ∈ m_timers tm).
Proof.
  intros Hok Hval Hne Hrun. destruct (timer_op_ok op tm Hok Hval) as (tm2 & Heq & Hok2 & _).
  assert (tm2 = tm') as -> by congruence. split; [done|].
  destruct op as [p now iv cb loop|p now iv cb cond loop|p iv|p| |now]; cbn in *.
  1, 2: destruct Hval as (Hp & Hf & Hfit); unfold add_cond_timer in Heq.
  1: destruct (add_timer_ok p now iv (Some cb) loop tm) as (tm2 & E & _ & Hh & Hin & _); [done..|].
  2: destruct (add_timer_ok p now iv (Some (CondFun cond cb)) false tm) as (tm2 & E & _ & Hh & Hin & _); [done..|].
  1, 2: rewrite (bind_ret _ _ _ _ _ E) in Heq; injection Heq as <-; rewrite Hh; split; [|split];
    [intros q t' [[<- _]|[_ ?]]%lookup_insert_Some; [by left|right; eauto]
    |intros q Hq; rewrite next_time_insert, decide_False; [done|congruence]
    |intros q [->|?]%Hin; [by left|by right]].
  - destruct (reset_timer_ok p iv tm Hok Hval) as (tm2 & E & _ & Hn & Hcase).
    assert (tm2 = tm') as -> by congruence. split; [|split; [by intros; apply Hn|]].
    + intros q t' Hq. right. unfold reset_timer in E. destruct Hval as [t Ht]. rewrite Ht in E.
      destruct (m_interval t =? iv); [injection E as <-; eauto|]. injection E as <-.
      assert (forall tm1 b, heap (if b : bool then on_timer_refresh tm1 else tm1) = heap tm1) as Hr by (by intros ? []).
      rewrite Hr in Hq. destruct (is_end _ _); cbn in Hq;
        apply lookup_insert_Some in Hq as [[<- <-]|[_ ?]]; eauto.
    + intros q Hq. destruct Hcase as [[-> _]|[Hin _]]; [by right|]. apply Hin in Hq as [->|?]; [by left|by right].
  - destruct (cancel_timer_ok p tm Hok) as (r' & tm2 & E & _ & _ & Hn & Hin & _).
    rewrite (bind_ret _ _ _ _ _ E) in Heq. injection Heq as <-. split; [|split; [by intros; apply Hn|]].
    + intros q t' Hq. right. by apply (cancel_heap p tm r' tm2 q t').
    + intros q [_ ?]%Hin. by right.
  - destruct (cancel_loop_ok (m_timers tm) tm Hok eq_refl) as (tm2 & E & _ & Hnil & _ & Hh).
    unfold cancel_all_timer, bind in Heq. rewrite E in Heq. injection Heq as <-. cbn. rewrite Hnil.
    split; [|split; [|by intros q ?%elem_of_nil]].
    + intros q t'. rewrite Hh. destruct (decide _); [|eauto]. intros (t & Ht & ->)%fmap_Some. eauto.
    + intros q _. unfold next_time. rewrite Hh. destruct (decide _); [|done]. by destruct (heap tm !! q).
  - by destruct (Hne now).
Qed.

(** A timer operation of somebody else; a new timer is at a fresh address. *)
Lemma rely_timer s w i op r tm' : hook_ok w -> h_iom w = Some i ->
  op_valid op (iom_timers i) -> (forall now, op <> OpExpire now) ->
  (forall p, op_adds op = Some p -> p = h_next w) ->
  (forall p, op_subject op = Some p -> ~ mine s w p) ->
  run_timer_op op (iom_timers i) = (r, tm') ->
  rely s w (set_free (h_next w + 1) (set_iom (MkIom (iom_io i) tm') w)).
Proof.
  intros Hok Hi Hval Hne Hadd Hsub Hrun. destruct (hok_iom w Hok) as (i' & Hi' & [H1 H2 H3]).
  assert (i' = i) as -> by congruence.
  destruct (timer_op_heap op _ r tm' H2 Hval Hne Hrun) as (Htm & Hh & Hn & Hin).
  assert (forall p c, h_closures w !! p = Some c -> p < h_next w) as Hcl by (intros p c Hp; by apply (hok_closures w Hok p c)).
  pose proof (hok_oneshot w Hok) as Hone. unfold timer_heap in Hone. rewrite Hi in Hone.
  split; unfold mine, timers, deadline, timer_heap; cbn; rewrite ?Hi; try done.
  - destruct Hok as [_ Hs Hc _ Hnx Hnow]. split; cbn; [|intros s' b Hb; specialize (Hs s' b Hb); lia| | |lia|done].
    + eexists. split; [done|]. split; cbn; [done..|]. intros p t Hp.
      destruct (Hh p t Hp) as [Ha|(t0 & Ht0 & _)]; [specialize (Hadd p Ha); lia|specialize (H3 p t0 Ht0); lia].
    + intros p c Hp. destruct (Hc p c Hp) as [Hlt Hcok]. split; [lia|]. apply (closure_ok_mono (h_next w)); [lia|done].
    + unfold timer_heap. cbn. intros p c t Hp Ht. destruct (Hh p t Ht) as [Ha|(t0 & Ht0 & ->)]; [|eauto].
      specialize (Hadd p Ha). specialize (Hcl p c Hp). lia.
  - lia.
  - intros p Hm [Hs|Hp]%Hin; [|done]. by destruct (Hsub p Hs).
  - intros p (fd & st & Hm). apply Hn. intros Ha. specialize (Hadd p Ha). specialize (Hcl p _ Hm). lia.
  - congruence.
Qed.

(** A closure for a coroutine that sleeps, at a fresh address. *)
Lemma rely_closure s w co t : hook_ok w ->
  rely s w (set_free (h_next w + 1) (set_closures (<[h_next w := ScheduleCo co t]> (h_closures w)) w)).
Proof.
  intros Hok. assert (h_closures w !! h_next w = None) as Hnone.
  { destruct (h_closures w !! h_next w) as [c|] eqn:E; [|done]. apply (hok_closures w Hok) in E. lia. }
  split; unfold mine; cbn; try done.
  - destruct Hok as [(i & Hi & [H1 H2 H3]) Hs Hc H1s Hn Hnow].
    split; cbn; [|intros s' b Hb; specialize (Hs s' b Hb); lia| | |lia|done].
    + exists i. split; [done|]. split; [done..|]. intros p t' Hp. cbn. specialize (H3 p t' Hp). lia.
    + intros p c [[<- <-]|[_ Hp]]%lookup_insert_Some; [split; [lia|done]|].
      destruct (Hc p c Hp) as [Hlt Hcok]. split; [lia|]. apply (closure_ok_mono (h_next w)); [lia|done].
    + unfold timer_heap. cbn. rewrite Hi. intros p c t' Hp Ht'. specialize (H3 p t' Ht').
      rewrite lookup_insert_ne in Hp by lia. apply (H1s p c t' Hp). unfold timer_heap. by rewrite Hi.
  - lia.
  - intros p c Hp. rewrite lookup_insert_ne; [done|]. congruence.
  - intros p (fd & st & Hp). apply lookup_insert_Some in Hp as [[_ [=]]|[_ Hp]]. by eexists _, _.
  - congruence.
Qed.

(** What the others do, step by step, while the call [s] waits: any operation on the event
    contexts and any report of the kernel; an expiry of the timers; a callback that is run
    when its timer is over, however late; any operation on timers, except that the timers of
    the call are known to nobody else; waits, sleeps and timers of other coroutines; and any
    change of [errno], of the descriptor table, of the clock forwards, and of the kernel. *)
Inductive env_step (s : Z) : W -> W -> Prop :=
| env_io w i op r m' :
    h_iom w = Some i -> io_valid op (iom_io i) -> run_io junk op (iom_io i) = (Ret r, m') ->
    env_step s w (set_iom (MkIom m' (iom_timers i)) w)
| env_expire w i cbs tm :
    h_iom w = Some i -> op_valid (OpExpire (h_now w)) (iom_timers i) ->
    all_expired_cbs (h_now w) [] (iom_timers i) = (Ret cbs, tm) ->
    env_step s w (set_iom (MkIom (iom_io i) tm) w)
| env_callback w p cb w' :
    cb = Fun p \/ (exists c, cb = CondFun c (Fun p)) -> deadline w p <= h_now w ->
    run_callback cb w = (Ret tt, w') -> env_step s w w'
| env_timer w i op r tm' :
    h_iom w = Some i -> op_valid op (iom_timers i) -> (forall now, op <> OpExpire now) ->
    (forall p, op_adds op = Some p -> p = h_next w) ->
    (forall p, op_subject op = Some p -> ~ mine s w p) ->
    run_timer_op op (iom_timers i) = (r, tm') ->
    env_step s w (set_free (h_next w + 1) (set_iom (MkIom (iom_io i) tm') w))
| env_sleep w co t :
    env_step s w (set_free (h_next w + 1) (set_closures (<[h_next w := ScheduleCo co t]> (h_closures w)) w))
| env_new_call w s' fd st timeout p w' :
    s' <> s -> s' < h_next w -> 0 <= fd -> is_status st -> 0 <= timeout < 2 ^ 62 ->
    add_cancel_timer timeout s' fd st w = (Ret p, w') -> env_step s w w'
| env_states w st :
    h_states w !! s = st !! s -> (forall s' b, st !! s' = Some b -> s' < h_next w) ->
    env_step s w (set_states st w)
| env_other w e en fds now fe sy :
    h_now w <= now < 2 ^ 62 ->
    env_step s w (MkWorld e en fds (h_iom w) (h_states w) (h_closures w) (h_next w) now fe sy).

Lemma run_callback_rely s w p cb :
  hook_ok w -> cb = Fun p \/ (exists c, cb = CondFun c (Fun p)) -> (mine s w p -> deadline w p <= h_now w) ->
  exists w', run_callback cb w = (Ret tt, w') /\ rely s w w'.
Proof.
  intros Hok Hcb Hdue. unfold run_callback.
  assert (exists w', run_functions [p] w = (Ret tt, w') /\ rely s w w') as Hp.
  { cbn [run_functions]. unfold bind. destruct (h_closures w !! p) as [c|] eqn:Hc.
    - destruct (run_closure_rely s w c p Hok Hc Hdue) as (w' & -> & Hr). by exists w'.
    - exists w. split; [done|]. by apply rely_refl. }
  destruct Hcb as [->|[c ->]]; cbn [cond_timer_callback]; [done|].
  destruct (bool_decide _); [done|]. exists w. split; [done|]. by apply rely_refl.
Qed.

Lemma env_step_rely s w w' : hook_ok w -> env_step s w w' -> rely s w w'.
Proof.
  intros Hok Hstep. destruct Hstep as [w i op r m' Hi Hval Hrun|w i cbs tm Hi Hval Hex|w p cb w' Hcb Hdl Hrun
    |w i op r tm' Hi Hval Hne Hadd Hsub Hrun|w co t|w s' fd st timeout p w' Hne Hsn Hfd Hst Hto Ha|w st Heq Hlt|w e en fds now fe sy Hnow].
  - destruct (hok_iom w Hok) as (i' & Hi' & [H1 _ _]). assert (i' = i) as -> by congruence.
    apply rely_io; [done|done|]. destruct op as [fd st fn rn t|fd st|fd|fd ev]; cbn [run_io io_valid] in *.
    + destruct Hval. destruct (add_event_ok pipe junk fd st fn rn t (iom_io i) H1) as (? & ? & ? & ? & _); [done..|]. congruence.
    + destruct Hval. destruct (cancel_event_ok pipe fd st (iom_io i) H1) as (? & ? & ? & ? & _); [done..|]. congruence.
    + destruct (cancel_all_ok pipe fd (iom_io i) H1 Hval) as (? & ? & ? & ? & _). congruence.
    + destruct (handle_event_ok pipe fd ev (iom_io i) H1 Hval) as (? & Hh & ? & _). unfold bind in Hrun.
      rewrite Hh in Hrun. unfold ret in Hrun. injection Hrun as _ <-. assumption.
  - by eapply rely_expire.
  - destruct (run_callback_rely s w p cb Hok Hcb) as (w2 & Hrun2 & Hr); [done|]. congruence.
  - by eapply rely_timer.
  - by apply rely_closure.
  - destruct (add_cancel_timer_ok timeout s' fd st w Hok Hsn Hfd Hst Hto)
      as (p' & w2 & Ha2 & Hok2 & Hp & Hcl & Hsts & _ & _ & _ & _ & Hnx & Hnow & Hin & _ & Hother).
    assert (w2 = w' /\ p' = p) as [-> ->] by (split; congruence).
    assert (h_closures w !! p = None) as Hnone.
    { destruct (h_closures w !! p) as [c|] eqn:Hc; [|done]. apply (hok_closures w Hok) in Hc. lia. }
    split; unfold mine; rewrite ?Hcl, ?Hsts, ?Hnx, ?Hnow; [done|done|lia| | | |done| |congruence].
    + intros q c Hq. rewrite lookup_insert_ne; [done|]. congruence.
    + intros q (f & t & Hq). apply lookup_insert_Some in Hq as [[_ [=]]|[_ Hq]]; [congruence|]. by eexists _, _.
    + intros q (f & t & Hq) [->|Hqin]%Hin; [congruence|done].
    + intros q (f & t & Hq). apply Hother. congruence.
  - by apply rely_other_states.
  - by apply rely_other.
Qed.

Lemma env_rely s w w' : hook_ok w -> rtc (env_step s) w w' -> rely s w w'.
Proof.
  intros Hok Hsteps. induction Hsteps as [w|w w1 w2 H1 H2 IH]; [by apply rely_refl|].
  pose proof (env_step_rely s w w1 Hok H1) as Hr. eapply rely_trans; [exact Hr|]. apply IH, Hr.
Qed.

(** ** A wait ends *)

(** The kernel changes registrations it has. *)
Definition kernel_accepts (fd : Z) (w : W) : Prop :=
  forall m op ev, io_of w = Some m -> op <> EPOLL_CTL_ADD -> is_Some (interest (kernel m) fd) ->
    (epoll_ctl op fd ev (kernel m)).1 = true.

(** The context of a waiter, and what the kernel has for it. *)
Lemma registered_context fd st (m : IOManager (K := K) (Q := Q)) wt :
  io_ok pipe m -> 0 <= fd -> fd <> pipe -> reg m fd st = Some wt ->
  exists c, m_contexts m !! Z.to_nat fd = Some c /\ has c st = true /\ (statuses c =? 0) = false /\
    is_Some (interest (kernel m) fd).
Proof.
  intros Hok Hfd Hpipe Hreg. unfold reg in Hreg. destruct (Z.ltb_spec fd 0); [lia|].
  destruct (m_contexts m !! Z.to_nat fd) as [c|] eqn:Hctx; [|done]. unfold ctx_view in Hreg.
  destruct (has c st) eqn:Hhas; [|done]. exists c.
  pose proof (io_ctx pipe m Hok _ _ Hctx) as Hcok. rewrite Z2Nat.id in Hcok by lia.
  pose proof (co_kernel pipe _ _ _ Hcok Hpipe) as Hint.
  assert ((statuses c =? 0) = false) as Hnz.
  { unfold has in Hhas. destruct (Z.eqb_spec (statuses c) 0) as [He|]; [|done]. rewrite He, Z.land_0_l in Hhas. done. }
  rewrite Hnz in Hint. rewrite Hint. eauto.
Qed.

Lemma cancel_event_accepted fd st (m : IOManager (K := K) (Q := Q)) wt :
  io_ok pipe m -> is_status st -> 0 <= fd -> fd <> pipe -> reg m fd st = Some wt ->
  (forall op ev, op <> EPOLL_CTL_ADD -> is_Some (interest (kernel m) fd) ->
     (epoll_ctl op fd ev (kernel m)).1 = true) ->
  exists m', cancel_event fd st m = (Ret true, m') /\ io_ok pipe m' /\ removed fd st m m'.
Proof.
  intros Hok Hst Hfd Hpipe Hreg Hacc.
  destruct (cancel_event_ok pipe fd st m Hok Hst Hfd) as (r & m' & Hc & Hok' & Heff).
  enough (r = true) as -> by eauto. revert Hc.
  destruct (registered_context fd st m wt Hok Hfd Hpipe Hreg) as (c & Hctx & Hhas & Hnz & Hint).
  unfold cancel_event, context. pose proof (lookup_lt_Some _ _ _ Hctx) as Hlen.
  destruct (Z.leb_spec (zlen (m_contexts m)) fd) as [Hle|_]; [unfold zlen in Hle; lia|].
  destruct (Z.ltb_spec fd 0); [lia|]. rewrite Hctx, Hhas. cbn [negb].
  unfold ctl_left. destruct (epoll_ctl _ fd _ (kernel m)) as [ok k] eqn:Hctl.
  assert (ok = true) as ->.
  { change ok with (ok, k).1. rewrite <- Hctl. apply Hacc; [destruct (without (statuses c) st =? 0); discriminate|done]. }
  cbn [negb]. unfold bind, ret. match goal with |- context [trigger fd st c ?x] => destruct (trigger fd st c x) as [[c'|e|u] m1] end;
    intros Hc; by simplify_eq.
Qed.

Lemma run_cancel_closure s fd st (w : W) i r m' :
  h_iom w = Some i -> h_states w !! s = Some false -> cancel_event fd st (iom_io i) = (Ret r, m') ->
  run_closure (CancelIo s fd st) w =
  (Ret tt, set_iom (MkIom m' (iom_timers i)) (set_states (<[s := true]> (h_states w)) w)).
Proof.
  intros Hi Hs Hc. cbn [run_closure]. rewrite Hs. unfold bind, on_io. cbn [set_states h_iom]. rewrite Hi.
  by rewrite Hc.
Qed.

Lemma run_functions_one p c (w w' : W) : h_closures w !! p = Some c -> run_closure c w = (Ret tt, w') ->
  run_functions [p] w = (Ret tt, w').
Proof. intros Hc Hr. cbn [run_functions]. unfold bind. rewrite Hc, Hr. done. Qed.

Lemma waiting_expires s fd st p d w :
  hook_ok w -> waiting s fd st p d w -> d <= h_now w -> 0 <= fd -> is_status st -> fd <> pipe ->
  (forall i, h_iom w = Some i -> op_valid (OpExpire (h_now w)) (iom_timers i)) -> kernel_accepts fd w ->
  exists i cbs tm w', h_iom w = Some i /\
    all_expired_cbs (h_now w) [] (iom_timers i) = (Ret cbs, tm) /\ Some (CondFun s (Fun p)) ∈ cbs /\
    run_callback (CondFun s (Fun p)) (set_iom (MkIom (iom_io i) tm) w) = (Ret tt, w') /\
    hook_ok w' /\ canceled s w' = true /\
    exists m', io_of w' = Some m' /\ removed fd st (iom_io i) m'.
Proof.
  intros Hok [Hs Hcl (Hp & t & Ht & Hd & Hcb & Hl) (m & Hm & Hreg)] Hnow Hfd Hst Hpipe Hval Hacc.
  destruct (hok_iom w Hok) as (i & Hi & Hiok). destruct Hiok as [Hio Htm Hh].
  unfold timers, timer_heap, io_of in *. rewrite Hi in *. cbn in Hm. injection Hm as <-. specialize (Hval i eq_refl).
  destruct (all_expired_ok (h_now w) [] (iom_timers i) Htm Hval) as (tm & Hex & Htm' & _ & Hheap & Hin).
  assert (p ∈ base.filter (fun p => next_time (heap (iom_timers i)) p <= h_now w) (m_timers (iom_timers i))) as HpE.
  { apply list_elem_of_filter. split; [|done]. unfold next_time. rewrite Ht. lia. }
  pose proof (rely_expire s w i (h_now w) _ tm Hok Hi Hval Hex) as Hrel.
  destruct (cancel_event_accepted fd st (iom_io i) _ Hio Hst Hfd Hpipe Hreg) as (m' & Hc & Hio' & Hrem).
  { intros op ev Hop Hint. by apply (Hacc (iom_io i)); [unfold io_of; rewrite Hi| |]. }
  eexists i, _, tm, _. split; [done|]. split; [exact Hex|]. split.
  { apply list_elem_of_fmap. exists p. split; [|done]. by rewrite Ht. }
  unfold run_callback. cbn [cond_timer_callback set_iom h_states]. rewrite bool_decide_true by (rewrite Hs; eauto).
  split; [eapply run_functions_one; [exact Hcl|]; by apply (run_cancel_closure _ _ _ _ (MkIom (iom_io i) tm) true m')|].
  assert (is_Some (h_states (set_iom (MkIom (iom_io i) tm) w) !! s)) as Hsome by (cbn; eauto).
  split; [|split; [unfold canceled; cbn; by rewrite lookup_insert_eq|eexists; split; [done|exact Hrem]]].
  pose proof (hook_ok_states _ true s (rely_ok _ _ _ Hrel) Hsome) as Hok2.
  apply (rely_io s _ (MkIom (iom_io i) tm) m') in Hok2; [|done|exact Hio']. apply Hok2.
Qed.


(** ** The whole call *)

Section Call.
Context (sys_fstat : Sys -> Z -> option bool) (tcp_recv_timeout tcp_send_timeout : Z).

#[local] Abbreviation do_socket_io :=
  (do_socket_io running tid junk sys_fstat tcp_recv_timeout tcp_send_timeout).

(** The entity of a descriptor. *)
Definition entity_of (w : W) (fd : Z) : option FDEntity :=
  match h_fds w !! Z.to_nat fd with Some (Some e) => Some e | _ => None end.

Lemma find_fd_ok fd w : 0 <= fd -> find_fd sys_fstat fd w = (Ret (entity_of w fd), w).
Proof.
  intros Hfd. unfold find_fd, get_fd, entity_of, load, zlen.
  destruct (Z.leb_spec (Z.of_nat (length (h_fds w))) fd).
  - rewrite lookup_ge_None_2 by lia. by destruct w.
  - destruct (Z.ltb_spec fd 0); [lia|].
    destruct (lookup_lt_is_Some_2 (h_fds w) (Z.to_nat fd)) as [x Hx]; [lia|]. rewrite Hx.
    destruct x; by destruct w.
Qed.

(** The call waits when it would block: the hook is on for a socket that the user left
    blocking and that is not closed. *)
Definition waits (w : W) (fd : Z) (e : FDEntity) : Prop :=
  t__enable_hook w = true /\ entity_of w fd = Some e /\
  m_is_closed e = false /\ m_is_socket e = true /\ m_is_user_nonblock e = false.

Lemma to_signed_32_bound z : to_signed 32 z < 2 ^ 62.
Proof.
  unfold to_signed. pose proof (wrap_fits 32 z ltac:(lia)) as [_ H]. destruct (_ <? _); lia.
Qed.

Lemma io_timeout_bound st e : io_timeout tcp_recv_timeout tcp_send_timeout st e < 2 ^ 62.
Proof. unfold io_timeout. repeat case_match; try apply to_signed_32_bound. lia. Qed.

Lemma do_socket_io_waits fuel fd func st w e : 0 <= fd -> waits w fd e ->
  do_socket_io fuel fd func st w =
  io_loop running tid junk fuel fd func st (io_timeout tcp_recv_timeout tcp_send_timeout st e) (h_next w)
    (set_states (<[h_next w := false]> (h_states w)) (set_free (h_next w + 1) w)).
Proof.
  intros Hfd (Hen & He & Hcl & Hso & Hnb). unfold Hook.do_socket_io. rewrite Hen. cbn [negb].
  rewrite (run_ret _ _ _ _ _ (find_fd_ok fd w Hfd)), He, Hcl, Hso, Hnb. done.
Qed.

Lemma begin_ok w : hook_ok w ->
  let w1 := set_states (<[h_next w := false]> (h_states w)) (set_free (h_next w + 1) w) in
  hook_ok w1 /\ quiet (h_next w) w1 /\ forall p, ~ mine (h_next w) w1 p.
Proof.
  intros [(i & Hi & [Hio Ht Hh]) Hs Hc H1s Hn Hnow] w1.
  assert (forall p, ~ mine (h_next w) w1 p) as Hno.
  { intros p (fd & st & Hm). cbn in Hm. apply Hc in Hm as [_ [Hlt _]]. lia. }
  split; [|split; [intros p Hm; by destruct (Hno p)|done]].
  split; cbn; [| | |done|lia|done].
  - exists i. split; [done|]. split; [done..|]. intros p t Hp. cbn. specialize (Hh p t Hp). lia.
  - intros s b [[<- _]|[_ Hb]]%lookup_insert_Some; [lia|]. specialize (Hs s b Hb). lia.
  - intros p c Hp. destruct (Hc p c Hp) as [Hlt Hcok]. split; [lia|]. apply (closure_ok_mono (h_next w)); [lia|done].
Qed.

Lemma do_socket_io_runs fuel fd func st w e r w' :
  hook_ok w -> is_status st -> 0 <= fd -> waits w fd e ->
  runs (rtc (env_step (h_next w))) (do_socket_io fuel fd func st w) r w' ->
  io_post (rtc (env_step (h_next w))) func fuel (h_next w) fd st (h_now w)
    (io_timeout tcp_recv_timeout tcp_send_timeout st e) w r w'.
Proof.
  intros Hok Hst Hfd Hw Hrun. rewrite (do_socket_io_waits _ _ _ _ _ e) in Hrun by done.
  destruct (begin_ok w Hok) as (Hok1 & Hq1 & Hno).
  apply io_loop_runs with (start := h_now w) in Hrun as [Hbc Hp]; [|done|done|apply io_timeout_bound|..]; [|by intros; apply env_rely|exact Hok1| |exact Hq1|].
  - split; [|exact Hp]. by eapply blocking_call_from; [..|exact Hbc].
  - cbn. by rewrite lookup_insert_eq.
  - split; [done|]. intros p Hm. by destruct (Hno p).
Qed.

(** A round that waits. *)
Lemma io_loop_waits fuel fd func st timeout s w sy w1 k :
  hook_ok w -> h_states w !! s = Some false -> is_status st -> 0 <= fd -> 0 <= timeout < 2 ^ 62 ->
  func (h_sys w) = (-1, EAGAIN, sy) ->
  io_loop running tid junk (S fuel) fd func st timeout s w = Yielded w1 k ->
  (exists p, waiting s fd st p (h_now w + timeout) w1) /\ hook_ok w1 /\
  forall w2, hook_ok w2 -> canceled s w2 = true ->
    exists w3, k w2 = Done (Ret (-1)) w3 /\ h_errno w3 = ETIMEDOUT /\ h_states w3 !! s = None.
Proof.
  intros Hok Hs Hst Hfd Hto Hf Heq. cbn [io_loop] in Heq. unfold call in Heq.
  erewrite run_ret in Heq by (rewrite Hf; reflexivity). cbn [Z.eqb Pos.eqb andb errno_is h_errno set_errno] in Heq.
  assert (hook_ok (set_errno EAGAIN (set_sys sy w))) as Hok1 by (by apply (hook_ok_same w)).
  unfold round_timer in Heq. destruct (Z.leb_spec 0 timeout); [|lia].
  destruct (add_cancel_timer_ok timeout s fd st _ Hok1 (hok_states w Hok s false Hs) Hfd Hst Hto)
    as (p & w2 & Ha & Hok2 & Hp & Hcl & Hsts & _ & _ & _ & Hio & _ & Hnow & Hin & (t & Ht & Hd & Hcb & Hl) & _).
  rewrite (run_ret _ _ _ _ _ Ha) in Heq.
  destruct (on_add_event_ok fd st w2 Hok2 Hst Hfd)
    as (a & w3 & m & m' & Hadd & Hok3 & _ & Hm' & Hcl3 & Hst3 & _ & _ & _ & _ & Hnow3 & Htm3 & Hhp3 & Hreg & _).
  rewrite (run_ret _ _ _ _ _ Hadd) in Heq. destruct a.
  - injection Heq as <- <-. split; [|split; [done|]].
    + exists p. split.
      * by rewrite Hst3, Hsts.
      * by rewrite Hcl3, Hcl, lookup_insert_eq.
      * rewrite Htm3, Hhp3. split; [apply Hin; by left|]. eauto 10.
      * exists m'. split; [done|]. by apply Hreg.
    + intros w4 Hok4 Hcan. destruct (on_cancel_timer_ok p w4 Hok4) as (r & w5 & Hc & _ & _ & Hs5 & _).
      rewrite (run_ret _ _ _ _ _ Hc). unfold canceled in *. rewrite Hs5, Hcan.
      eexists. split; [done|]. split; [done|]. cbn. by rewrite lookup_delete_eq.
  - destruct (on_cancel_timer_ok p w3 Hok3) as (r & w5 & Hc & _). by rewrite (run_ret _ _ _ _ _ Hc) in Heq.
Qed.

Lemma io_loop_wakes fuel fd func st timeout s w sy w1 k :
  hook_ok w -> h_states w !! s = Some false -> is_status st -> 0 <= fd -> 0 <= timeout < 2 ^ 62 ->
  func (h_sys w) = (-1, EAGAIN, sy) ->
  io_loop running tid junk (S fuel) fd func st timeout s w = Yielded w1 k ->
  forall w2, hook_ok w2 -> h_states w2 !! s = Some false ->
    exists w3, hook_ok w3 /\ h_errno w3 = h_errno w2 /\ h_sys w3 = h_sys w2 /\
      k w2 = if (h_errno w2 =? EINTR) || (h_errno w2 =? EAGAIN)
             then io_loop running tid junk fuel fd func st timeout s w3 else leave s (-1) w3.
Proof.
  intros Hok Hs Hst Hfd Hto Hf Heq w2 Hok2 Hs2. cbn [io_loop] in Heq. unfold call in Heq.
  erewrite run_ret in Heq by (rewrite Hf; reflexivity). cbn [Z.eqb Pos.eqb andb errno_is h_errno set_errno] in Heq.
  assert (hook_ok (set_errno EAGAIN (set_sys sy w))) as Hok1 by (by apply (hook_ok_same w)).
  unfold round_timer in Heq. destruct (Z.leb_spec 0 timeout); [|lia].
  destruct (add_cancel_timer_ok timeout s fd st _ Hok1 (hok_states w Hok s false Hs) Hfd Hst Hto)
    as (p & w4 & Ha & Hok4 & _).
  rewrite (run_ret _ _ _ _ _ Ha) in Heq.
  destruct (on_add_event_ok fd st w4 Hok4 Hst Hfd) as (a & w5 & m & m' & Hadd & Hok5 & _).
  rewrite (run_ret _ _ _ _ _ Hadd) in Heq. destruct a.
  - injection Heq as _ <-. destruct (on_cancel_timer_ok p w2 Hok2) as (r & w6 & Hc & Hok6 & _ & Hs6 & He6 & _ & Hsy6 & _).
    rewrite (run_ret _ _ _ _ _ Hc). unfold canceled. rewrite Hs6, Hs2.
    exists (set_states (<[s := false]> (h_states w6)) w6).
    split; [apply hook_ok_states; [done|rewrite Hs6; eauto]|]. split; [done|]. split; [done|].
    unfold errno_is. cbn [set_states h_errno h_states]. by rewrite He6, Hs6.
  - destruct (on_cancel_timer_ok p w5 Hok5) as (r & w6 & Hc & _). by rewrite (run_ret _ _ _ _ _ Hc) in Heq.
Qed.

(** C4: Whatever other coroutines, timers and events do while it waits, a call on a blocking
    socket with the hook is a blocking call: it calls the original function again and again as
    long as that is interrupted, or would block and the call was woken from its wait in time,
    and at each wait it is registered for the event and has a timer for the timeout; it
    returns the last result of the original function, which is not [EAGAIN] or [EINTR]; or -1
    with [ETIMEDOUT], when its state was cancelled and the timeout is over since it began; or
    -1 when the event could not be registered; or -1 with the [errno] that whoever ran while it
    waited left, when that is neither [EAGAIN] nor [EINTR].  When it has not returned after
    [fuel] calls of the original function, all of them were interrupted or would block.  It has
    no undefined behaviour, and when it returns the timers, the event contexts and the states
    of the calls are in order, none of its timers is running and its state is gone. *)
Theorem socket_call_outcomes fuel fd func st w e r w' :
  hook_ok w -> is_status st -> 0 <= fd -> waits w fd e ->
  runs (rtc (env_step (h_next w))) (do_socket_io fuel fd func st w) r w' ->
  blocking_call (rtc (env_step (h_next w))) (h_next w) fd func st (h_now w)
    (io_timeout tcp_recv_timeout tcp_send_timeout st e) fuel w r w' /\
  (r = Undef Diverges \/
   exists n, r = Ret n /\ hook_ok w' /\ h_states w' !! h_next w = None /\
     forall p, mine (h_next w) w' p -> p ∉ timers w').
Proof. apply do_socket_io_runs. Qed.

(** C8: A call that waits with a timeout is woken: when the original function would block,
    the call has a timer with the deadline of the timeout and is registered for the event;
    as long as it waits, an expiry after the deadline hands out its callback, and running
    the callback takes the registration back, gives the coroutine to the scheduler, and the
    call then returns -1 with [ETIMEDOUT] (where the kernel lets the registration go). *)
Theorem waiting_call_times_out fuel fd func st w e sy w1 k :
  hook_ok w -> is_status st -> 0 <= fd -> fd <> pipe -> waits w fd e ->
  let timeout := io_timeout tcp_recv_timeout tcp_send_timeout st e in
  0 <= timeout -> func (h_sys w) = (-1, EAGAIN, sy) ->
  do_socket_io (S fuel) fd func st w = Yielded w1 k ->
  exists p, waiting (h_next w) fd st p (h_now w + timeout) w1 /\
  forall w2, hook_ok w2 -> waiting (h_next w) fd st p (h_now w + timeout) w2 ->
    h_now w + timeout <= h_now w2 -> kernel_accepts fd w2 ->
    (forall i, h_iom w2 = Some i -> op_valid (OpExpire (h_now w2)) (iom_timers i)) ->
    exists i cbs tm w3 m3 w4, h_iom w2 = Some i /\
      all_expired_cbs (h_now w2) [] (iom_timers i) = (Ret cbs, tm) /\
      Some (CondFun (h_next w) (Fun p)) ∈ cbs /\
      run_callback (CondFun (h_next w) (Fun p)) (set_iom (MkIom (iom_io i) tm) w2) = (Ret tt, w3) /\
      io_of w3 = Some m3 /\ removed fd st (iom_io i) m3 /\
      k w3 = Done (Ret (-1)) w4 /\ h_errno w4 = ETIMEDOUT.
Proof.
  intros Hok Hst Hfd Hpipe Hw timeout Hto Hf Heq. rewrite (do_socket_io_waits _ _ _ _ _ e) in Heq by done.
  destruct (begin_ok w Hok) as (Hok1 & _ & _).
  destruct (io_loop_waits fuel fd func st timeout (h_next w) _ sy w1 k Hok1) as ((p & Hp) & _ & Hk);
    [cbn; by rewrite lookup_insert_eq|done|done|split; [done|apply io_timeout_bound]|done|exact Heq|].
  exists p. split; [exact Hp|]. intros w2 Hok2 Hp2 Hdl Hacc Hval.
  destruct (waiting_expires (h_next w) fd st p _ w2 Hok2 Hp2 Hdl Hfd Hst Hpipe Hval Hacc)
    as (i & cbs & tm & w3 & Hi & Hex & Hin & Hrun & Hok3 & Hcan & m3 & Hm3 & Hrem).
  destruct (Hk w3 Hok3 Hcan) as (w4 & Hk4 & He & _).
  exists i, cbs, tm, w3, m3, w4. eauto 12.
Qed.

(** The state in which the call yields. *)
Lemma waiting_call_state fuel fd func st w e sy w1 k :
  hook_ok w -> is_status st -> 0 <= fd -> waits w fd e ->
  0 <= io_timeout tcp_recv_timeout tcp_send_timeout st e -> func (h_sys w) = (-1, EAGAIN, sy) ->
  do_socket_io (S fuel) fd func st w = Yielded w1 k ->
  hook_ok w1 /\ h_states w1 !! h_next w = Some false.
Proof.
  intros Hok Hst Hfd Hw Hto Hf Heq. rewrite (do_socket_io_waits _ _ _ _ _ e) in Heq by done.
  destruct (begin_ok w Hok) as (Hok1 & _ & _).
  destruct (io_loop_waits fuel fd func st _ (h_next w) _ sy w1 k Hok1 ltac:(cbn; by rewrite lookup_insert_eq)
    Hst Hfd (conj Hto (io_timeout_bound st e)) Hf Heq) as ((p & Hp) & Hok2 & _).
  split; [done|]. by destruct Hp.
Qed.

(** A call that is woken in time repeats the original function only when [errno] is still
    [EAGAIN] (or [EINTR]) at that moment.  [errno] belongs to the thread: when another
    coroutine of the thread left it at any other value, the woken call returns -1 with that
    value, without asking the original function again. *)
Theorem woken_call_rereads_errno fuel fd func st w e sy w1 k w2 :
  hook_ok w -> is_status st -> 0 <= fd -> waits w fd e ->
  0 <= io_timeout tcp_recv_timeout tcp_send_timeout st e -> func (h_sys w) = (-1, EAGAIN, sy) ->
  do_socket_io (S fuel) fd func st w = Yielded w1 k ->
  hook_ok w2 -> h_states w2 !! h_next w = Some false ->
  exists w3, hook_ok w3 /\ h_errno w3 = h_errno w2 /\ h_sys w3 = h_sys w2 /\
    k w2 = if (h_errno w2 =? EINTR) || (h_errno w2 =? EAGAIN)
           then io_loop running tid junk fuel fd func st
                  (io_timeout tcp_recv_timeout tcp_send_timeout st e) (h_next w) w3
           else leave (h_next w) (-1) w3.
Proof.
  intros Hok Hst Hfd Hw Hto Hf Heq Hok2 Hs2. rewrite (do_socket_io_waits _ _ _ _ _ e) in Heq by done.
  destruct (begin_ok w Hok) as (Hok1 & _ & _).
  refine (io_loop_wakes fuel fd func st _ (h_next w) _ sy w1 k Hok1 _ Hst Hfd _ Hf Heq w2 Hok2 Hs2).
  - cbn. by rewrite lookup_insert_eq.
  - split; [done|]. apply io_timeout_bound.
Qed.
End Call.
End HookProps.

(** ** An example *)

(** A run in which nobody else does anything. *)
Fixpoint run_alone {K Q Sys A} (n : nat) (m : co (K := K) (Q := Q) (Sys := Sys) A) : option (res A * World) :=
  match m, n with
  | Done r w, _ => Some (r, w)
  | Yielded w k, S n => run_alone n (k w)
  | Yielded _ _, O => None
  end.

Lemma run_alone_runs {K Q Sys A} (E : World -> World -> Prop) n (m : co (K := K) (Q := Q) (Sys := Sys) A) r w :
  run_alone n m = Some (r, w) -> runs (rtc E) m r w.
Proof.
  revert m. induction n as [|n IH]; intros [r' w'|w' k]; cbn; try done.
  - intros [= -> ->]. constructor.
  - intros [= -> ->]. constructor.
  - intros H. econstructor; [apply rtc_refl|]. by apply IH.
Qed.

Definition is_yielded {K Q Sys A} (m : co (K := K) (Q := Q) (Sys := Sys) A) : bool :=
  match m with Yielded _ _ => true | Done _ _ => false end.

Lemma is_yielded_eq {K Q Sys A} (m : co (K := K) (Q := Q) (Sys := Sys) A) :
  is_yielded m = true -> exists w k, m = Yielded w k.
Proof. destruct m; [done|]. eauto. Qed.

(** The socket 7 in the table, and a kernel whose calls give the listed outcomes. *)
Definition socket7 : FDEntity := MkFDEntity true true false true false 7 0 0 0 0.

Definition hook0 (outcomes : list (Z * Z)) : World (K := gmap Z Z) (Q := Scheduler) (Sys := list (Z * Z)) :=
  MkWorld 0 true (zrepeat 7 None ++ [Some socket7]) (Some (MkIom io0 new_TimerManager)) ∅ ∅ 1 1000 22 outcomes.

Definition next_outcome : sysfun (Sys := list (Z * Z)) :=
  fun l => match l with [] => (-1, EBADF, []) | (n, e) :: l => (n, e, l) end.

Lemma hook0_ok outcomes : hook_ok (-1) (hook0 outcomes).
Proof.
  split; cbn.
  - eexists. split; [done|]. split; [apply io0_ok|apply reach_ok, reach_new|done].
  - done.
  - done.
  - done.
  - done.
  - done.
Qed.

Lemma hook0_waits outcomes : waits (hook0 outcomes) 7 socket7.
Proof. repeat split. Qed.

#[local] Abbreviation io_call fuel st w :=
  (do_socket_io 42 3 0 (fun _ _ => Some true) 6000 6000 fuel 7 next_outcome st w).

(** A read that waits once and then gets five bytes. *)
Lemma socket_call_outcomes_witness : exists w',
  runs (rtc (env_step 0 1)) (io_call 3 READ (hook0 [(-1, EAGAIN); (5, 0)])) (Ret 5) w' /\
  blocking_call (-1) 42 3 0 (rtc (env_step 0 1)) 1 7 next_outcome READ 1000 6000 3
    (hook0 [(-1, EAGAIN); (5, 0)]) (Ret 5) w' /\
  (forall p, mine 1 w' p -> p ∉ timers w').
Proof.
  destruct (run_alone 3 (io_call 3 READ (hook0 [(-1, EAGAIN); (5, 0)]))) as [[r w']|] eqn:Hrun.
  2: { assert (bool_decide (run_alone 3 (io_call 3 READ (hook0 [(-1, EAGAIN); (5, 0)])) = None) = false) as H
         by (vm_compute; reflexivity). by rewrite Hrun in H. }
  assert (r = Ret 5) as ->.
  { change r with (default (Undef Diverges) (fst <$> Some (r, w'))). rewrite <- Hrun. vm_compute. reflexivity. }
  apply (run_alone_runs (env_step 0 1)) in Hrun. exists w'. split; [exact Hrun|].
  destruct (socket_call_outcomes (-1) 42 3 0 (fun _ _ => Some true) 6000 6000 3 7 next_outcome READ
    (hook0 [(-1, EAGAIN); (5, 0)]) socket7 (Ret 5) w' (hook0_ok _) (or_introl eq_refl) ltac:(done) (hook0_waits _) Hrun)
    as [Hbc [?|(n & [= <-] & _ & _ & Hq)]]; [done|]. split; [exact Hbc|exact Hq].
Defined.

Lemma waiting_call_times_out_witness : exists w1 k p,
  io_call 1 READ (hook0 [(-1, EAGAIN)]) = Yielded w1 k /\ waiting 42 3 1 7 READ p 7000 w1.
Proof.
  destruct (is_yielded_eq (io_call 1 READ (hook0 [(-1, EAGAIN)]))) as (w1 & k & Heq); [vm_compute; reflexivity|].
  destruct (waiting_call_times_out (-1) 42 3 0 (fun _ _ => Some true) 6000 6000 0 7 next_outcome READ
    (hook0 [(-1, EAGAIN)]) socket7 [] w1 k (hook0_ok _) (or_introl eq_refl) ltac:(done) ltac:(done) (hook0_waits _)
    ltac:(done) eq_refl Heq) as (p & Hp & _).
  exists w1, k, p. split; [exact Heq|exact Hp].
Defined.

(** The coroutine that ran in between left [errno] at 2: the woken read returns -1. *)
Lemma woken_call_rereads_errno_witness : exists w1 k w3,
  io_call 2 READ (hook0 [(-1, EAGAIN); (5, 0)]) = Yielded w1 k /\
  k (set_errno 2 w1) = Done (Ret (-1)) w3 /\ h_errno w3 = 2.
Proof.
  destruct (is_yielded_eq (io_call 2 READ (hook0 [(-1, EAGAIN); (5, 0)]))) as (w1 & k & Heq); [vm_compute; reflexivity|].
  destruct (waiting_call_state (-1) 42 3 0 (fun _ _ => Some true) 6000 6000 1 7 next_outcome READ
    (hook0 [(-1, EAGAIN); (5, 0)]) socket7 [(5, 0)] w1 k (hook0_ok _) (or_introl eq_refl) ltac:(done) (hook0_waits _)
    ltac:(done) eq_refl Heq) as [Hok1 Hs1].
  destruct (woken_call_rereads_errno (-1) 42 3 0 (fun _ _ => Some true) 6000 6000 1 7 next_outcome READ
    (hook0 [(-1, EAGAIN); (5, 0)]) socket7 [(5, 0)] w1 k (set_errno 2 w1) (hook0_ok _) (or_introl eq_refl)
    ltac:(done) (hook0_waits _) ltac:(done) eq_refl Heq) as (w3 & _ & He & _ & Hk).
  - by apply (hook_ok_same (-1) w1).
  - exact Hs1.
  - cbn [set_errno h_errno] in Hk, He. change ((2 =? EINTR) || (2 =? EAGAIN)) with false in Hk.
    exists w1, k. eexists. split; [exact Heq|]. split; [exact Hk|]. exact He.
Defined.
