(* ===== verification/HookCalls.v ===== *)
(** * Hooked system calls: sleeping, closing, descriptor flags, and examples *)

From stdpp Require Import base list numbers gmap.
From Stdlib Require Import Lia ZArith.
From S2P Require Import Prelude OrdSet Timer TimerProps FDManager Scheduler IOManager IOManagerProps Hook HookProps.

Section Calls.
Context {K Q Sys : Type} `{!Epoll K} `{!TaskQueue Q} (pipe : Z).
Context (running tid junk : Z).

#[local] Abbreviation W := (World (K := K) (Q := Q) (Sys := Sys)).

(** ** Sleeping *)

(** The coroutine sleeps: a timer that ends at [d] will schedule it, and it returns 0 in
    whatever state it is resumed. *)
Definition sleeps_until (d : Z) (m : co (K := K) (Q := Q) (Sys := Sys) Z) (w : W) : Prop :=
  exists p w1 t, m = Yielded w1 (done 0) /\ hook_ok pipe w1 /\
    h_closures w1 !! p = Some (ScheduleCo running tid) /\
    p ∈ timers w1 /\ timer_heap w1 !! p = Some t /\ m_next_time t = d /\ m_cb t = Some (Fun p) /\
    io_of w1 = io_of w.

Lemma sleep_for_ok interval w : hook_ok pipe w -> 0 <= interval < 2 ^ 62 ->
  sleeps_until (h_now w + interval) (sleep_for running tid interval w) w.
Proof.
  intros [(i & Hi & [Hio Ht Hh]) Hs Hc H1s Hn Hnow] Hto.
  unfold sleep_for, run, add_wake_timer, fresh, gets, bind, on_timers. cbn. rewrite Hi.
  destruct (add_timer_ok (h_next w) (h_now w) interval (Some (Fun (h_next w))) false (iom_timers i))
    as (tm & -> & Hok' & Hheap & Hin & _); [done|lia| |unfold sfits; lia|].
  { destruct (heap (iom_timers i) !! h_next w) as [t|] eqn:He; [|done]. apply Hh in He. lia. }
  eexists (h_next w), _, _. split; [done|]. split; [|split; [|split; [|split; [|split]]]].
  - split; cbn; [|intros s' b Hb; specialize (Hs s' b Hb); lia| | |lia|done].
    + eexists. split; [done|]. split; cbn; [done..|].
      intros p t. rewrite Hheap. intros [[<- _]|[_ Hp]]%lookup_insert_Some; [lia|]. specialize (Hh p t Hp). lia.
    + intros p c [[<- <-]|[_ Hp]]%lookup_insert_Some; [split; [lia|done]|].
      destruct (Hc p c Hp) as [Hlt Hcok]. split; [lia|]. apply (closure_ok_mono (h_next w)); [lia|done].
    + intros p c t Hp. unfold timer_heap. cbn. rewrite Hheap. intros [[<- <-]|[Hne Ht']]%lookup_insert_Some; [done|].
      rewrite lookup_insert_ne in Hp by done. apply (H1s p c t Hp). unfold timer_heap. by rewrite Hi.
  - cbn. by rewrite lookup_insert_eq.
  - unfold timers. cbn. apply Hin. by left.
  - unfold timer_heap. cbn. by rewrite Hheap, lookup_insert_eq.
  - done.
  - split; [done|]. unfold io_of. cbn. by rewrite Hi.
Qed.

(** The sleeping calls put the coroutine to sleep by one timer and give it back with 0,
    and this is how long: [sleep(n)] sleeps [1000 * n] milliseconds modulo [2^32];
    [usleep(n)] sleeps [n] milliseconds, a thousand times what was asked for;
    [nanosleep] sleeps the seconds and a tenth of the milliseconds of its nanoseconds.  When
    the hook is off, [nanosleep] calls itself and never returns. *)
Theorem sleeping_calls (w : W) (sleep_f usleep_f : sysfun) (n sec nsec : Z) :
  hook_ok pipe w -> 0 <= n < 2 ^ 32 -> 0 <= sec < 2 ^ 50 -> 0 <= nsec < 1000000000 ->
  (t__enable_hook w = true ->
     sleeps_until (h_now w + (1000 * n) mod 2 ^ 32) (sleep running tid sleep_f n w) w /\
     sleeps_until (h_now w + n) (usleep running tid usleep_f n w) w /\
     forall fuel, sleeps_until (h_now w + (1000 * sec + nsec / 10000000))
       (nanosleep running tid (S fuel) sec nsec w) w) /\
  (t__enable_hook w = false -> forall fuel, nanosleep running tid fuel sec nsec w = Done (Undef Diverges) w).
Proof.
  intros Hok Hn Hsec Hnsec. split.
  - intros Hen. unfold sleep, usleep. rewrite Hen. cbn [negb]. split; [|split].
    + unfold wrap. rewrite (Z.mul_comm n). apply sleep_for_ok; [done|].
      pose proof (Z.mod_pos_bound (1000 * n) (2 ^ 32)). lia.
    + apply sleep_for_ok; [done|lia].
    + intros fuel. cbn [nanosleep]. rewrite Hen. cbn [negb]. rewrite Z.quot_div_nonneg by lia.
      assert (0 <= nsec / 10000000 < 100) by (Z.to_euclidean_division_equations; lia).
      unfold time_t_of. rewrite !andb_true_intro by lia. rewrite (Z.mul_comm sec).
      apply sleep_for_ok; [done|lia].
  - intros Hen fuel. induction fuel as [|fuel IH]; [done|]. cbn [nanosleep]. by rewrite Hen.
Qed.

(** ** Closing *)

Context (sys_fstat : Sys -> Z -> option bool).

Lemma cancel_all_accepted fd (m : IOManager (K := K) (Q := Q)) st wt :
  io_ok pipe m -> 0 <= fd -> fd <> pipe -> is_status st -> reg m fd st = Some wt ->
  (forall op ev, op <> EPOLL_CTL_ADD -> is_Some (interest (kernel m) fd) ->
     (epoll_ctl op fd ev (kernel m)).1 = true) ->
  exists m', cancel_all_event fd m = (Ret true, m') /\ io_ok pipe m' /\ removed_all fd m m'.
Proof.
  intros Hok Hfd Hpipe Hst Hreg Hacc.
  destruct (cancel_all_ok pipe fd m Hok Hfd) as (r & m' & Hc & Hok' & Heff).
  destruct r; [by exists m'|]. exfalso. destruct Heff as [_ Hsame].
  destruct (registered_context pipe fd st m wt Hok Hfd Hpipe Hreg) as (c & Hctx & _ & Hnz & Hint).
  revert Hc. unfold cancel_all_event, context. pose proof (lookup_lt_Some _ _ _ Hctx) as Hlen.
  destruct (Z.leb_spec (zlen (m_contexts m)) fd) as [Hle|_]; [unfold zlen in Hle; lia|].
  destruct (Z.ltb_spec fd 0); [lia|]. rewrite Hctx, Hnz.
  destruct (epoll_ctl EPOLL_CTL_DEL fd NONE (kernel m)) as [ok k] eqn:Hctl.
  assert (ok = true) as -> by (change ok with (ok, k).1; rewrite <- Hctl; by apply Hacc). cbn [negb].
  unfold bind. repeat match goal with |- context [trigger_if ?a ?b ?c ?d ?e] =>
    destruct (trigger_if a b c d e) as [[?|?|?] ?] end; try discriminate.
  destruct (_ =? NONE); discriminate.
Qed.

(** C33: Closing wakes everyone who waits: when the hook is on and a coroutine is registered
    for the descriptor, [close] takes both registrations of the descriptor back, hands the
    waiters to the scheduler, forgets the descriptor and returns what the original
    [close] returns (where the kernel lets the registration go). *)
Theorem close_wakes_waiters (w : W) fd (close_f : sysfun) e st wt m :
  hook_ok pipe w -> 0 <= fd -> fd <> pipe -> t__enable_hook w = true -> entity_of w fd = Some e ->
  io_of w = Some m -> is_status st -> reg m fd st = Some wt -> kernel_accepts fd w ->
  exists n err sy w' m', close_f (h_sys w) = (n, err, sy) /\
    close sys_fstat fd close_f w = Done (Ret n) w' /\ hook_ok pipe w' /\ entity_of w' fd = None /\
    io_of w' = Some m' /\ removed_all fd m m' /\ h_sys w' = sy.
Proof.
  intros Hok Hfd Hpipe Hen He Hm Hst Hreg Hacc. destruct (hok_iom pipe w Hok) as (i & Hi & [Hio Ht Hh]).
  unfold io_of in Hm. rewrite Hi in Hm. injection Hm as <-.
  destruct (cancel_all_accepted fd (iom_io i) st wt Hio Hfd Hpipe Hst Hreg) as (m' & Hc & Hio' & Hrem).
  { intros op ev Hop Hint. by apply (Hacc (iom_io i)); [unfold io_of; rewrite Hi| |]. }
  destruct (close_f (h_sys w)) as [[n err] sy] eqn:Hcl. unfold close. rewrite Hen. cbn [negb].
  rewrite (run_ret _ _ _ _ _ (find_fd_ok sys_fstat fd w Hfd)), He, Hi.
  set (w1 := set_iom (MkIom m' (iom_timers i)) w).
  rewrite (run_ret _ _ w true w1) by (unfold on_io; rewrite Hi, Hc; done).
  unfold entity_of in He. destruct (h_fds w !! Z.to_nat fd) as [[e'|]|] eqn:Hfds; [|done..].
  pose proof (lookup_lt_Some _ _ _ Hfds) as Hlen.
  set (w2 := set_fds (<[Z.to_nat fd := None]> (h_fds w)) w1).
  rewrite (run_ret _ _ w1 tt w2).
  2: { unfold del_fd, store, zlen. cbn [w1 set_iom h_fds].
       destruct (Z.leb_spec (Z.of_nat (length (h_fds w))) fd); [lia|].
       rewrite (proj2 (Z.leb_le 0 fd)) by done. by rewrite (proj2 (Z.ltb_lt fd _)) by lia. }
  set (w3 := if n =? -1 then set_errno err (set_sys sy w2) else set_sys sy w2).
  rewrite (run_ret _ _ w2 n w3) by (unfold call; cbn [w2 w1 set_fds set_iom h_sys]; rewrite Hcl; done).
  assert (hook_ok pipe w1) as Hok1 by (apply (rely_io pipe 0 w i m'); done).
  exists n, err, sy, w3, m'. split; [done|]. split; [done|].
  split; [unfold w3; destruct (n =? -1); by apply (hook_ok_same pipe w1)|].
  unfold w3. destruct (n =? -1); (split; [unfold entity_of; cbn; by rewrite list_lookup_insert_eq|by split]).
Qed.

(** ** Descriptor flags *)

(** The kernel's flags of a descriptor, read and set by the original [fcntl]. *)
Section Flags.
Context (flags : Sys -> Z) (fcntl_f : Z -> fcntl_arg -> sysfun (Sys := Sys)).
Hypothesis getfl : forall s, exists e, fcntl_f F_GETFL NoArg s = (flags s, e, s).
Hypothesis setfl : forall s a, 0 <= a -> exists e s', fcntl_f F_SETFL (IntArg a) s = (0, e, s') /\ flags s' = a.

Lemma O_NONBLOCK_bit a : 0 <= a -> Z.land a O_NONBLOCK = if Z.testbit a 11 then O_NONBLOCK else 0.
Proof.
  intros Ha. change O_NONBLOCK with (2 ^ 11). apply Z.bits_inj'. intros n Hn. rewrite Z.land_spec, Z.pow2_bits_eqb by lia.
  destruct (Z.testbit a 11) eqn:Hb; rewrite ?Z.pow2_bits_eqb, ?Z.bits_0 by lia;
    destruct (Z.eqb_spec 11 n) as [<-|]; rewrite ?Hb, ?andb_false_r; done.
Qed.

(** The user keeps the mode he chose and the library keeps its own: after
    [fcntl(fd, F_SETFL, arg)] on a socket of the library, [fcntl(fd, F_GETFL)] reports
    [O_NONBLOCK] exactly when [arg] has it, and the other flags of [arg], while the kernel's
    descriptor stays non-blocking, so that the hooked calls never block the thread. *)
Theorem fcntl_flags_roundtrip (w : W) fd arg e :
  0 <= fd -> 0 <= arg -> entity_of w fd = Some e ->
  m_is_socket e = true -> m_is_closed e = false -> m_is_sys_nonblock e = true ->
  exists w1, fcntl sys_fstat fcntl_f fd F_SETFL arg w = Done (Ret 0) w1 /\
    Z.testbit (flags (h_sys w1)) 11 = true /\
    exists w2, fcntl sys_fstat fcntl_f fd F_GETFL 0 w1 = Done (Ret arg) w2 /\ h_sys w2 = h_sys w1.
Proof.
  intros Hfd Harg He Hso Hcl Hsys. unfold fcntl. rewrite Z.eqb_refl.
  rewrite (run_ret _ _ _ _ _ (find_fd_ok sys_fstat fd w Hfd)), He, Hso, Hcl. cbn [negb orb].
  pose proof He as He'. unfold entity_of in He'. destruct (h_fds w !! Z.to_nat fd) as [[e'|]|] eqn:Hfds; [|done..].
  injection He' as ->. pose proof (lookup_lt_Some _ _ _ Hfds) as Hlen.
  set (e1 := set_user_nonblock (negb (Z.land arg O_NONBLOCK =? 0)) e).
  set (w1 := set_fds (<[Z.to_nat fd := Some e1]> (h_fds w)) w).
  rewrite (run_ret _ _ w tt w1).
  2: { unfold update_fd, store, zlen. rewrite (proj2 (Z.leb_le 0 fd)) by done.
       by rewrite (proj2 (Z.ltb_lt fd _)) by lia. }
  rewrite Hsys. assert (0 <= Z.lor arg O_NONBLOCK) as Hlor by (by apply Z.lor_nonneg).
  destruct (setfl (h_sys w1) (Z.lor arg O_NONBLOCK) Hlor) as (er & sy & Hset & Hfl).
  rewrite (run_ret _ _ w1 0 (set_sys sy w1)) by (unfold call; rewrite Hset; done).
  eexists. split; [reflexivity|]. cbn [set_sys h_sys]. rewrite Hfl. split; [by rewrite Z.lor_spec, orb_true_r|].
  change (F_GETFL =? F_SETFL) with false. rewrite Z.eqb_refl. cbv iota.
  destruct (getfl sy) as (er2 & Hget).
  assert (call (fcntl_f F_GETFL NoArg) (set_sys sy w1) = (Ret (Z.lor arg O_NONBLOCK), set_sys sy w1)) as Hc.
  { unfold call. cbn [set_sys h_sys]. rewrite Hget, Hfl. destruct (Z.eqb_spec (Z.lor arg O_NONBLOCK) (-1)); [lia|done]. }
  rewrite (run_ret _ _ _ _ _ Hc), (run_ret _ _ _ _ _ (find_fd_ok sys_fstat fd (set_sys sy w1) Hfd)).
  unfold entity_of. cbn [set_sys w1 set_fds h_fds]. rewrite list_lookup_insert_eq by done.
  cbn [e1 set_user_nonblock m_is_socket m_is_closed m_is_user_nonblock]. rewrite Hso, Hcl. cbn [negb orb].
  exists (set_sys sy w1). rewrite (O_NONBLOCK_bit arg Harg).
  destruct (Z.testbit arg 11) eqn:Hb; cbn [Z.eqb Pos.eqb negb]; (split; [|reflexivity]); unfold done; do 2 f_equal.
  - apply Z.bits_inj'. intros n Hn. change O_NONBLOCK with (2 ^ 11). rewrite !Z.lor_spec, Z.pow2_bits_eqb by lia.
    destruct (Z.eqb_spec 11 n) as [<-|]; [by rewrite Hb|by rewrite !orb_false_r].
  - apply Z.bits_inj'. intros n Hn. change O_NONBLOCK with (2 ^ 11).
    rewrite Z.ldiff_spec, Z.lor_spec, Z.pow2_bits_eqb by lia.
    destruct (Z.eqb_spec 11 n) as [<-|]; [by rewrite Hb|by rewrite orb_false_r, andb_true_r].
Qed.
End Flags.
End Calls.

(** ** Examples *)

(** [sleep(4294968)], 49 days, ends after 704 milliseconds. *)
Lemma sleeping_calls_witness :
  sleeps_until (-1) 42 3 1704 (sleep 42 3 next_outcome 4294968 (hook0 [])) (hook0 []) /\
  sleeps_until (-1) 42 3 3000 (usleep 42 3 next_outcome 2000 (hook0 [])) (hook0 []).
Proof.
  destruct (sleeping_calls (-1) 42 3 (hook0 []) next_outcome next_outcome 4294968 0 0 (hook0_ok [])) as [H1 _];
    [done..|].
  destruct (sleeping_calls (-1) 42 3 (hook0 []) next_outcome next_outcome 2000 0 0 (hook0_ok [])) as [H2 _];
    [done..|].
  split; [apply (H1 eq_refl)|apply (H2 eq_refl)].
Defined.

(** A coroutine waits for the socket 7, another one closes it. *)
Definition hook1 : World (K := gmap Z Z) (Q := Scheduler) (Sys := list (Z * Z)) :=
  set_iom (MkIom io1 new_TimerManager) (hook0 [(0, 0)]).

Lemma hook1_ok : hook_ok (-1) hook1.
Proof. apply (rely_io (-1) 0 (hook0 [(0, 0)]) (MkIom io0 new_TimerManager) io1 (hook0_ok _) eq_refl io1_ok). Qed.

Lemma close_wakes_waiters_witness : exists w' m',
  close (fun _ _ => Some true) 7 next_outcome hook1 = Done (Ret 0) w' /\ entity_of w' 7 = None /\
  io_of w' = Some m' /\ removed_all 7 io1 m'.
Proof.
  destruct (close_wakes_waiters (-1) (fun _ _ => Some true) hook1 7 next_outcome socket7 READ (JCo (Some 42), 3) io1
    hook1_ok ltac:(done) ltac:(done) eq_refl eq_refl eq_refl (or_introl eq_refl) ltac:(vm_compute; reflexivity))
    as (n & err & sy & w' & m' & Hc & Hcl & _ & He & Hm & Hr & _).
  - intros m op ev [= <-] Hop _. destruct op; [done|vm_compute; reflexivity..].
  - injection Hc as <- <- <-. exists w', m'. split; [exact Hcl|]. split; [exact He|]. split; [exact Hm|exact Hr].
Defined.

(** A kernel that keeps the flags of one descriptor. *)
Definition flag_fcntl (cmd : Z) (arg : fcntl_arg) : sysfun (Sys := Z) :=
  fun flags => if cmd =? F_SETFL then match arg with IntArg a => (0, 0, a) | _ => (-1, 22, flags) end
               else (flags, 0, flags).

Lemma fcntl_flags_roundtrip_witness :
  let w := MkWorld (K := gmap Z Z) (Q := Scheduler) 0 true [Some socket7] None ∅ ∅ 1 1000 22 2 in
  exists w1 w2, fcntl (fun _ _ => Some true) flag_fcntl 0 F_SETFL 1026 w = Done (Ret 0) w1 /\
    fcntl (fun _ _ => Some true) flag_fcntl 0 F_GETFL 0 w1 = Done (Ret 1026) w2 /\
    Z.testbit (h_sys w1) 11 = true.
Proof.
  intros w.
  assert (forall s, exists e, flag_fcntl F_GETFL NoArg s = (s, e, s)) as Hget by (by eexists).
  assert (forall s a, 0 <= a -> exists e s', flag_fcntl F_SETFL (IntArg a) s = (0, e, s') /\ s' = a) as Hset
    by (by eexists _, _).
  destruct (fcntl_flags_roundtrip (fun _ _ => Some true) (fun s => s) flag_fcntl Hget Hset w 0 1026 socket7)
    as (w1 & H1 & Hbit & w2 & H2 & _); [done..|].
  exists w1, w2. split; [exact H1|]. split; [exact H2|exact Hbit].
Defined.
