(* ===== verification/EventLoop.v ===== *)
(** * The loop of the IO manager ([iomanager.cc]: [idle], [tickle], [on_timer_refresh], the
      destructor)

    An IO manager is a scheduler and a timer manager with the table of event contexts.  Its
    [tickle] writes into a pipe that the kernel's set watches.  [idle] waits in [epoll_wait]
    no longer than the next timer allows, schedules the callbacks of the timers that are due
    and the waiters of the reported events, and yields.  A worker in [idle] is a program
    counter; a step is one section of the source under a lock or an access to an atomic
    counter, and what happens between two steps is up to the other threads. *)

From stdpp Require Import base list numbers gmap.
From Stdlib Require Import Lia ZArith.
From S2P Require Import Prelude OrdSet Timer Scheduler IOManager Hook.

(** ** The scheduler with its pipe *)

(** The scheduler of an IO manager, and the number of bytes in the pipe. *)
Record IoQueue := MkIoQueue { q_sched : Scheduler; q_pipe : Z }.

(** The writing end blocks, so that a byte is always written. *)
Definition io_tickle (q : IoQueue) : IoQueue :=
  if 0 <? m_idle_cnt (q_sched q) then MkIoQueue (q_sched q) (q_pipe q + 1) else q.

(** [schedule] and [schedules], run to completion, with the tickle of the subclass. *)
Definition io_push (ts : list Task) (q : IoQueue) : bool * IoQueue :=
  if m_is_stopping (q_sched q) then (false, q)
  else
    let '(need, s) := push_tasks ts (q_sched q) in
    let q := MkIoQueue s (q_pipe q) in
    (true, if need && (0 <? m_idle_cnt s) then io_tickle q else q).

Definition io_schedule (j : job) (tid : Z) (q : IoQueue) : bool * IoQueue :=
  io_push [(new_Task (match j with JFnPtr f | JFn f => f | JCo _ => 0 end) j tid).1] q.

Definition io_pending (q : IoQueue) : list Task := m_tasks (q_sched q).

Lemma io_push_pending ts q b q' : io_push ts q = (b, q') ->
  io_pending q' = if b then io_pending q ++ ts else io_pending q.
Proof.
  unfold io_push, io_pending. destruct (m_is_stopping (q_sched q)); [by intros [= <- <-]|].
  unfold push_tasks. intros [= <- <-]. unfold io_tickle. by destruct (_ && _); [destruct (0 <? _)|].
Qed.

#[export] Instance io_queue : TaskQueue IoQueue.
Proof.
  refine {| schedule := io_schedule; pending := io_pending |}.
  intros j tid q q' b H. exact (io_push_pending _ _ _ _ H).
Defined.

(** What [epoll_wait] answers at the time [now]: [None] when it does not return yet, else the
    events it reports, none for a timeout or an error.  The kernel keeps the timeout: it waits
    no longer than [late] over it, which is the granularity of its clock and the delay of its
    scheduler. *)
Definition answer : Type := option (list (Z * Z)).

Definition epoll_wait_keeps (late until now : Z) (a : answer) : Prop := a = None -> now < until + late.

Section EventLoop.
Context {K : Type} {epoll : Epoll K}.
(** The reading end of the pipe, and the coroutine that is made for a callback. *)
Context (pipe_fd : Z) (co_of : option callback -> Z).

Abbreviation loop := (Iom (K := K) (Q := IoQueue)).

Definition l_sched (l : loop) : Scheduler := q_sched (queue (iom_io l)).

Definition set_queue (q : IoQueue) (l : loop) : loop :=
  let m := iom_io l in
  MkIom (MkIOManager (kernel m) q (m_contexts m) (m_appending_event_cnt m)) (iom_timers l).

Definition set_l_sched (s : Scheduler) (l : loop) : loop :=
  set_queue (MkIoQueue s (q_pipe (queue (iom_io l)))) l.

Definition on_io {A} (f : meth (IOManager (K := K) (Q := IoQueue)) A) : meth loop A :=
  fun l => let (r, m) := f (iom_io l) in (r, MkIom m (iom_timers l)).

Definition on_timers {A} (f : meth TimerManager A) : meth loop A :=
  fun l => let (r, tm) := f (iom_timers l) in (r, MkIom (iom_io l) tm).

(** ** Timers *)

(** [on_timer_refresh] of the subclass. *)
Definition io_on_timer_refresh (l : loop) : loop := set_queue (io_tickle (queue (iom_io l))) l.

(** An operation of the timer manager on an IO manager: every refresh is a tickle. *)
Definition timer_call {A} (f : meth TimerManager A) : meth loop A :=
  fun l =>
    let (r, l') := on_timers f l in
    (r, Nat.iter (Z.to_nat (refreshes (iom_timers l') - refreshes (iom_timers l))) io_on_timer_refresh l').

(** ** [idle] *)

(** Where a worker is in [idle]: before the waiting time is computed, before the counter is
    raised, in [epoll_wait] with a timeout that is over at [until], back from it with the reported events, before the test of the
    inner loop, before the expiry of timers, before their callbacks are scheduled, before the
    next event, before the test for the end, yielding, at the end. *)
Inductive idle_pc :=
| IArm
| IEnter (timeout : Z)
| IWait (until : Z)
| IBack (events : list (Z * Z))
| ITest (events : list (Z * Z))
| IExpire (events : list (Z * Z))
| ISchedule (cbs : list (option callback)) (events : list (Z * Z))
| IEvents (events : list (Z * Z))
| ICheck
| IYield
| IGone.

Definition add_idle (d : Z) (l : loop) : loop :=
  set_l_sched (set_idle (m_idle_cnt (l_sched l) + d) (l_sched l)) l.

(** The test that ends the inner loop. *)
Definition wait_ends (now : Z) (events : list (Z * Z)) (l : loop) : res bool :=
  if 0 <? zlen events then Ret true
  else
    let? left_time := next_timer_left_time now (iom_timers l) in
    Ret ((left_time <=? 0) || m_is_stopping (l_sched l)).

Definition tasks_of (cbs : list (option callback)) : list Task :=
  (fun cb => (new_Task (co_of cb) (JFn (co_of cb)) 0).1) <$> cbs.

Definition schedule_cbs (cbs : list (option callback)) (l : loop) : loop :=
  set_queue (io_push (tasks_of cbs) (queue (iom_io l))).2 l.

(** Reading until nothing is left. *)
Definition drain_pipe (l : loop) : loop := set_queue (MkIoQueue (l_sched l) 0) l.

Definition dispatch_event (fd events : Z) : meth loop unit :=
  if fd =? pipe_fd then fun l => (Ret tt, drain_pipe l) else on_io (handle_event fd events).

(** The test for the end, on the thread [tid]. *)
Definition idle_ends (tid : Z) (l : loop) : bool :=
  let s := l_sched l in
  m_is_stopping s && bool_decide (m_tasks s = []) &&
  (if m_main_thread_id s =? tid then m_thread_cnt s =? 0 else true).

(** One step at the time [now], with the answer of the kernel if the worker waits for it. *)
Definition idle_step (tid now : Z) (a : answer) (pc : idle_pc) : meth loop idle_pc :=
  match pc with
  | IArm => fun l => (let? left_time := next_timer_left_time now (iom_timers l) in Ret (IEnter (epoll_timeout left_time)), l)
  | IEnter timeout => fun l => (Ret (IWait (now + timeout)), add_idle 1 l)
  | IWait until => match a with Some events => ret (IBack events) | None => ret (IWait until) end
  | IBack events => fun l => (Ret (ITest events), add_idle (-1) l)
  | ITest events => fun l => (let? ends := wait_ends now events l in Ret (if ends : bool then IExpire events else IArm), l)
  | IExpire events => let! cbs := on_timers (all_expired_cbs now []) in ret (ISchedule cbs events)
  | ISchedule cbs events => fun l => (Ret (IEvents events), schedule_cbs cbs l)
  | IEvents [] => ret ICheck
  | IEvents ((fd, ev) :: events) => let! _ := dispatch_event fd ev in ret (IEvents events)
  | ICheck => fun l => (Ret (if idle_ends tid l then IGone else IYield), l)
  | IYield => ret IArm
  | IGone => ret IGone
  end.

(** Steps of one worker with nothing in between: at the given times with the given answers,
    and outside the wait, all at the time [now]. *)
Fixpoint idle_run (tid : Z) (moments : list (Z * answer)) (pc : idle_pc) : meth loop idle_pc :=
  match moments with
  | [] => ret pc
  | (now, a) :: moments => let! pc := idle_step tid now a pc in idle_run tid moments pc
  end.

Definition idle_steps (n : nat) (tid now : Z) (pc : idle_pc) : meth loop idle_pc :=
  idle_run tid (replicate n (now, None)) pc.

(** ** Entering and leaving [run], and the destructor *)

Definition open_hook {Sys} (w : World (K := K) (Q := IoQueue) (Sys := Sys)) := enable_hook true w.
Definition close_hook {Sys} (w : World (K := K) (Q := IoQueue) (Sys := Sys)) := enable_hook false w.

(** [close] of the three descriptors is the kernel's; the contexts are freed. *)
Definition destroy_IOManager (close_fds : K -> K) : meth loop unit :=
  let! _ := timer_call cancel_all_timer in
  fun l =>
    let m := iom_io l in
    (Ret tt, MkIom (MkIOManager (close_fds (kernel m)) (queue m) [] (m_appending_event_cnt m)) (iom_timers l)).
End EventLoop.
