(* ===== verification/EventLoopProps.v ===== *)
(** * What the loop of the IO manager does

    A round of [idle]: it asks the kernel to wait no longer than the next timer allows, and hands the callbacks
    of the timers that are due and the waiters of the reported events to the scheduler. *)

From stdpp Require Import base list numbers gmap.
From Stdlib Require Import Lia ZArith.
From S2P Require Import Prelude OrdSet Timer TimerProps Scheduler IOManager IOManagerProps Hook EventLoop.

Section Props.
Context {K : Type} {epoll : Epoll K}.
Context (pipe_fd : Z) (co_of : option callback -> Z).

Abbreviation loop := (Iom (K := K) (Q := IoQueue)).
Abbreviation IOM := (IOManager (K := K) (Q := IoQueue)).
Abbreviation steps := (idle_steps pipe_fd co_of).

Definition loop_ok (l : loop) : Prop := io_ok pipe_fd (iom_io l) /\ timers_ok (iom_timers l).

(** The kernel reports the pipe and descriptors that have a context. *)
Definition event_ok (n : Z) (e : Z * Z) : Prop := e.1 = pipe_fd \/ 0 <= e.1 < n.

(** It carries out what makes sense. *)
Definition ctl_works : Prop :=
  forall op fd ev k, op <> EPOLL_CTL_ADD -> is_Some (interest k fd) -> (epoll_ctl op fd ev k).1 = true.

Abbreviation l_pending := (fun l : loop => io_pending (queue (iom_io l))).
Abbreviation stopping := (fun l : loop => m_is_stopping (l_sched l)).

(** ** The queue *)

Lemma io_ok_queue (q : IoQueue) (m : IOM) : io_ok pipe_fd m ->
  io_ok pipe_fd (MkIOManager (kernel m) q (m_contexts m) (m_appending_event_cnt m)).
Proof. by intros []. Qed.

Lemma io_push_eq ts q : (io_push ts q).1 = negb (m_is_stopping (q_sched q)) /\
  m_is_stopping (q_sched (io_push ts q).2) = m_is_stopping (q_sched q).
Proof.
  unfold io_push. destruct (m_is_stopping (q_sched q)) eqn:E; [done|]. unfold push_tasks. cbn.
  split; [done|]. unfold io_tickle. by destruct (_ && _); [destruct (0 <? _)|].
Qed.

Lemma delivered_pending ws : forall q q' : IoQueue, delivered ws q q' ->
  m_is_stopping (q_sched q') = m_is_stopping (q_sched q) /\
  io_pending q' = io_pending q ++ (if m_is_stopping (q_sched q) then [] else task_of <$> ws).
Proof.
  induction ws as [|w ws IH]; intros q q' Hd; inversion Hd as [|? ? b ? q1 ? Hs Hd' ]; subst.
  { split; [done|]. by destruct (m_is_stopping _); rewrite app_nil_r. }
  destruct (IH q1 q' Hd') as [Hst Hp]. change (io_schedule w.1 w.2 q = (b, q1)) in Hs. unfold io_schedule in Hs.
  destruct (io_push_eq [task_of w] q) as [Hb Hq]. pose proof (io_push_pending _ _ _ _ Hs) as Hp1.
  change (io_push [task_of w] q = (b, q1)) in Hs. rewrite Hs in Hb, Hq. cbn [fst snd] in Hb, Hq.
  rewrite Hst, Hp, Hp1, Hq, Hb. split; [done|]. destruct (m_is_stopping (q_sched q)); cbn [negb]; [done|].
  by rewrite <- app_assoc.
Qed.

(** ** Events *)

(** The waiters that a list of events takes out of a registration, in order, and what is left
    of it: every event takes the waiter for what it stands for, and nothing when nobody waits
    for that or it is the pipe's. *)
Inductive woken : list (Z * Z) -> (Z -> Z -> option waiter) -> list waiter -> (Z -> Z -> option waiter) -> Prop :=
| woken_nil r r' : (forall g st, is_status st -> r' g st = r g st) -> woken [] r [] r'
| woken_none fd ev evs r r1 ws r' : fd = pipe_fd \/ r fd (real_status ev) = None ->
    (forall g st, is_status st -> r1 g st = r g st) -> woken evs r1 ws r' -> woken ((fd, ev) :: evs) r ws r'
| woken_one fd ev evs r r1 w ws r' : fd <> pipe_fd -> r fd (real_status ev) = Some w ->
    (forall g st, is_status st -> r1 g st = if decide (g = fd /\ st = real_status ev) then None else r g st) ->
    woken evs r1 ws r' -> woken ((fd, ev) :: evs) r (w :: ws) r'.

Lemma ctl_left_works fd left (m : IOM) st w : ctl_works -> io_ok pipe_fd m -> fd <> pipe_fd -> is_status st ->
  reg m fd st = Some w -> exists m1, ctl_left fd left m = (true, m1).
Proof.
  intros Hw [Hc _ _ _] Hp Hst. unfold reg. destruct (Z.ltb_spec fd 0); [done|].
  destruct (m_contexts m !! Z.to_nat fd) as [c|] eqn:Ec; [|done]. unfold ctx_view.
  destruct (has c st) eqn:Eh; [|done]. intros _. specialize (Hc _ _ Ec). rewrite Z2Nat.id in Hc by lia.
  pose proof (co_kernel _ _ _ _ Hc Hp) as Hk. unfold ctl_left.
  assert (is_Some (interest (kernel m) fd)) as Hi.
  { rewrite Hk. destruct (Z.eqb_spec (statuses c) 0) as [E|]; [|done]. unfold has in Eh. by rewrite E in Eh. }
  pose proof (Hw (if left =? 0 then EPOLL_CTL_DEL else EPOLL_CTL_MOD) fd (Z.lor EPOLLET left) (kernel m)
    ltac:(by destruct (left =? 0)) Hi) as H1.
  destruct (epoll_ctl _ _ _ _) as [ok k]. cbn in H1. subst ok. eauto.
Qed.

Lemma reg_none_status (m : IOM) fd ev : real_status ev = NONE -> reg m fd (real_status ev) = None.
Proof.
  intros ->. unfold reg. destruct (fd <? 0); [done|]. destruct (m_contexts m !! _) as [c|]; [|done].
  unfold ctx_view, has. by rewrite Z.land_0_r.
Qed.

Lemma dispatch_event_ok fd ev l : ctl_works -> loop_ok l -> event_ok (zlen (m_contexts (iom_io l))) (fd, ev) ->
  exists ws l', dispatch_event pipe_fd fd ev l = (Ret tt, l') /\ loop_ok l' /\ iom_timers l' = iom_timers l /\
    zlen (m_contexts (iom_io l')) = zlen (m_contexts (iom_io l)) /\ stopping l' = stopping l /\
    l_pending l' = l_pending l ++ (if stopping l then [] else task_of <$> ws) /\
    forall evs ws' r', woken evs (reg (iom_io l')) ws' r' ->
      woken ((fd, ev) :: evs) (reg (iom_io l)) (ws ++ ws') r'.
Proof.
  intros Hw [Hio Ht] Hev. unfold dispatch_event. destruct (Z.eqb_spec fd pipe_fd) as [->|Hp].
  { exists [], (drain_pipe l). split; [done|]. split; [split; [by apply io_ok_queue|done]|]. split; [done|].
    split; [done|]. split; [done|]. split; [by destruct (stopping l); rewrite app_nil_r|].
    intros evs ws' r' Hwo. apply (woken_none _ _ _ _ (reg (iom_io (drain_pipe l)))); [by left|done|done]. }
  destruct Hev as [Hev|Hev]; [done|]. cbn [fst] in Hev.
  destruct (handle_event_ok pipe_fd fd ev (iom_io l) Hio Hev) as (m' & E & Hio' & Hz & Hcase).
  unfold on_io. rewrite E.
  destruct Hcase as [[[Hq Hr] Hwhy]|(w & Hreg & Hdel & Hr)].
  - exists [], (MkIom m' (iom_timers l)). split; [done|]. split; [by split|]. split; [done|]. split; [done|].
    unfold l_sched. cbn [iom_io]. rewrite Hq. split; [done|].
    split; [by destruct (m_is_stopping _); rewrite app_nil_r|].
    intros evs ws' r' Hwo. eapply woken_none; [right| |exact Hwo]; [|by intros; apply Hr].
    destruct (reg (iom_io l) fd (real_status ev)) as [w|] eqn:Ereg; [|done]. exfalso.
    destruct Hwhy as [Hn|(left & m1 & Hf)]; [done|].
    destruct (real_status_cases ev) as [Hn|Hst]; [by rewrite reg_none_status in Ereg|].
    destruct (ctl_left_works fd left (iom_io l) (real_status ev) w Hw Hio Hp Hst Ereg) as [m2 Hs]. congruence.
  - destruct (delivered_pending _ _ _ Hdel) as [Hst Hpend].
    exists [w], (MkIom m' (iom_timers l)). split; [done|]. split; [by split|]. split; [done|]. split; [done|].
    split; [done|]. split; [done|]. intros evs ws' r' Hwo. by eapply woken_one.
Qed.

Lemma dispatch_events_ok tid now evs : forall l, ctl_works -> loop_ok l ->
  Forall (event_ok (zlen (m_contexts (iom_io l)))) evs ->
  exists ws l', steps (S (length evs)) tid now (IEvents evs) l = (Ret ICheck, l') /\ loop_ok l' /\
    iom_timers l' = iom_timers l /\ stopping l' = stopping l /\
    l_pending l' = l_pending l ++ (if stopping l then [] else task_of <$> ws) /\
    woken evs (reg (iom_io l)) ws (reg (iom_io l')).
Proof.
  induction evs as [|[fd ev] evs IH]; intros l Hw Hok Hev.
  { exists [], l. split; [done|]. split; [done|]. split; [done|]. split; [done|].
    split; [by destruct (stopping l); rewrite app_nil_r|by constructor]. }
  apply Forall_cons in Hev as [Hev Hevs].
  destruct (dispatch_event_ok fd ev l Hw Hok Hev) as (ws & l1 & E & Hok1 & Ht1 & Hz & Hs1 & Hp1 & Hwo).
  rewrite <- Hz in Hevs. destruct (IH l1 Hw Hok1 Hevs) as (ws' & l2 & E2 & Hok2 & Ht2 & Hs2 & Hp2 & Hwo2).
  exists (ws ++ ws'), l2. split.
  - change (length ((fd, ev) :: evs)) with (S (length evs)). remember (S (length evs)) as n eqn:Hn.
    change (steps (S n) tid now (IEvents ((fd, ev) :: evs)) l) with
      ((let! pc := idle_step pipe_fd co_of tid now None (IEvents ((fd, ev) :: evs)) in steps n tid now pc) l).
    cbn [idle_step]. rewrite Hn in *. unfold bind at 1. rewrite (bind_ret _ _ _ _ _ E). exact E2.
  - split; [done|]. split; [congruence|]. split; [congruence|]. split; [|by apply Hwo].
    rewrite Hp2, Hp1, Hs1, <- app_assoc. by destruct (stopping l); rewrite ?app_nil_r, ?fmap_app.
Qed.

(** ** A round *)

(** The timers that are due, in the order of their deadlines, and their callbacks. *)
Definition due (now : Z) (tm : TimerManager) : list Z :=
  base.filter (fun p => next_time (heap tm) p <= now) (m_timers tm).
Definition due_cbs (now : Z) (tm : TimerManager) : list (option callback) :=
  (fun p => heap tm !! p ≫= m_cb) <$> due now tm.

(** Arming and entering the wait. *)
Lemma arm_ok tid t0 t1 (l : loop) : loop_ok l -> 0 <= t0 ->
  exists timeout, idle_run pipe_fd co_of tid [(t0, None); (t1, None)] IArm l = (Ret (IWait (t1 + timeout)), add_idle 1 l) /\
    0 <= timeout <= 5000 /\
    (forall p, p ∈ m_timers (iom_timers l) -> t0 + timeout <= Z.max t0 (next_time (heap (iom_timers l)) p)) /\
    (timeout < 5000 -> exists p, p ∈ m_timers (iom_timers l) /\ next_time (heap (iom_timers l)) p <= t0 + timeout).
Proof.
  intros [_ Ht] H0. destruct (left_time_ok t0 (iom_timers l) Ht H0) as (left & E & Hleft).
  exists (epoll_timeout left). split; [unfold idle_run, idle_step, bind; by rewrite E|].
  unfold epoll_timeout. destruct Hleft as [[-> Hnone]|(Hl & (p & Hp & Hd) & Hno)].
  - rewrite Hnone. cbn. split; [lia|]. split; [by intros p ?%elem_of_nil|lia].
  - destruct (Z.ltb_spec left 0); [lia|].
    assert (forall to q, to <= left -> q ∈ m_timers (iom_timers l) ->
      t0 + to <= Z.max t0 (next_time (heap (iom_timers l)) q)) as Hb.
    { intros to q Hto Hq. destruct (Z.le_gt_cases to 0); [lia|]. specialize (Hno q (t0 + to - 1) Hq). lia. }
    destruct (Z.ltb_spec 5000 left); (split; [lia|]); (split; [intros q; apply Hb; lia|]); [lia|]. intros _. by exists p.
Qed.

(** Back from the wait: whether the round goes on. *)
Lemma back_ok tid now evs (l : loop) : loop_ok l -> 0 <= now ->
  exists ends, steps 2 tid now (IBack evs) l = (Ret (if ends : bool then IExpire evs else IArm), add_idle (-1) l) /\
    (ends = true <-> evs <> [] \/ stopping l = true \/ m_timers (iom_timers l) = [] \/
       exists p, p ∈ m_timers (iom_timers l) /\ next_time (heap (iom_timers l)) p <= now).
Proof.
  intros [_ Ht] H0. unfold idle_steps, idle_run. cbn [replicate]. unfold idle_step, bind, wait_ends.
  change (iom_timers (add_idle (-1) l)) with (iom_timers l).
  change (m_is_stopping (l_sched (add_idle (-1) l))) with (stopping l).
  destruct (Z.ltb_spec 0 (zlen evs)) as [Hz|Hz].
  { exists true. split; [done|]. split; [|done]. intros _. left. intros ->. unfold zlen in Hz. cbn in Hz. lia. }
  assert (evs = []) as -> by (destruct evs; [done|]; rewrite zlen_cons in Hz; pose proof (zlen_nonneg evs); lia).
  destruct (left_time_ok now (iom_timers l) Ht H0) as (left & E & Hleft). rewrite E. cbn [res_bind].
  exists ((left <=? 0) || stopping l). split; [done|]. rewrite orb_true_iff, Z.leb_le.
  destruct Hleft as [[-> Hnone]|(Hl & (p & Hp & Hd) & Hno)].
  - split; [|intros _; left; lia]. intros _. right. right. by left.
  - split.
    + intros [H|H]; [|by right; left]. right. right. right. exists p. split; [done|lia].
    + intros [H|[H|[H|(q & Hq & Hdue)]]]; [done|by right|rewrite H in Hp; by apply elem_of_nil in Hp|].
      left. destruct (Z.le_gt_cases left 0); [done|]. specialize (Hno q now Hq). lia.
Qed.

(** The timers and the events of a round. *)
Lemma round_serves tid now evs (l : loop) :
  ctl_works -> loop_ok l -> op_valid (OpExpire now) (iom_timers l) ->
  Forall (event_ok (zlen (m_contexts (iom_io l)))) evs ->
  exists ws l', steps (S (S (S (length evs)))) tid now (IExpire evs) l = (Ret ICheck, l') /\ loop_ok l' /\
    l_pending l' = l_pending l ++
      (if stopping l then [] else tasks_of co_of (due_cbs now (iom_timers l)) ++ (task_of <$> ws)) /\
    woken evs (reg (iom_io l)) ws (reg (iom_io l')) /\
    (forall p, p ∈ m_timers (iom_timers l') <->
       p ∈ m_timers (iom_timers l) /\ (p ∉ due now (iom_timers l) \/ loops (heap (iom_timers l)) p = true)) /\
    (forall p, heap (iom_timers l') !! p =
       if decide (p ∈ due now (iom_timers l)) then expired now <$> heap (iom_timers l) !! p
       else heap (iom_timers l) !! p).
Proof.
  intros Hw [Hio Ht] Hval Hev.
  destruct (all_expired_ok now [] (iom_timers l) Ht Hval) as (tm' & E & Ht' & _ & Hh & Hin).
  fold (due now (iom_timers l)) in E, Hh, Hin. cbn [app] in E. fold (due_cbs now (iom_timers l)) in E.
  set (cbs := due_cbs now (iom_timers l)) in *.
  set (l1 := MkIom (iom_io l) tm'). set (l2 := schedule_cbs co_of cbs l1).
  assert (loop_ok l2) as Hok2 by (split; [by apply io_ok_queue|done]).
  destruct (io_push_eq (tasks_of co_of cbs) (queue (iom_io l))) as [Hb Hst].
  assert (l_pending l2 = l_pending l ++ (if stopping l then [] else tasks_of co_of cbs)) as Hp2.
  { unfold l2, schedule_cbs, l_sched. cbn [set_queue iom_io queue l1].
    destruct (io_push _ _) as [b q] eqn:Eq. cbn [fst snd] in *. rewrite (io_push_pending _ _ _ _ Eq), Hb.
    destruct (m_is_stopping _); cbn [negb]; by rewrite ?app_nil_r. }
  destruct (dispatch_events_ok tid now evs l2 Hw Hok2 Hev) as (ws & l3 & E3 & Hok3 & Ht3 & _ & Hp3 & Hwo).
  assert (on_timers (all_expired_cbs now []) l = (Ret cbs, l1)) as Et by (unfold on_timers; by rewrite E).
  assert (stopping l2 = stopping l) as Hs2 by exact Hst.
  exists ws, l3. split; [|split; [done|]].
  - change (steps (S (S (S (length evs)))) tid now (IExpire evs) l) with
      ((let! pc := idle_step pipe_fd co_of tid now None (IExpire evs) in steps (S (S (length evs))) tid now pc) l).
    remember (S (length evs)) as n eqn:Hn. cbn [idle_step]. unfold bind at 1.
    rewrite (bind_ret _ _ _ _ _ Et). exact E3.
  - rewrite Hp3, Hp2, Hs2, Ht3. split; [|split; [exact Hwo|split; [exact Hin|exact Hh]]].
    rewrite <- app_assoc. by destruct (stopping l).
Qed.

(** C3: A round of the loop of the IO manager, with nothing in between.  The worker computes
    a timeout between 0 and 5000 milliseconds and waits; when the timeout is less than 5000
    some timer is due at its end; and the worker is back when a timer is due, as late as the
    kernel is in keeping the timeout and as the worker took from computing it to the wait.
    Back from the wait it goes on when events were reported, a timer is due, there is no timer
    or the scheduler is stopping, and else waits again.  When it goes on, all timers that are
    due and no others are taken, the looping ones set again; their callbacks and then the
    waiters of the reported events, each once and in order, become tasks of the scheduler,
    behind those that were there, or are dropped when it is stopping; the other waiters stay
    registered, and nothing goes wrong whatever the events are. *)
Theorem idle_round tid t0 t1 late now evs (l : loop) :
  ctl_works -> loop_ok l -> 0 <= t0 -> 0 <= now -> op_valid (OpExpire now) (iom_timers l) ->
  Forall (event_ok (zlen (m_contexts (iom_io l)))) evs ->
  (exists timeout, idle_run pipe_fd co_of tid [(t0, None); (t1, None)] IArm l = (Ret (IWait (t1 + timeout)), add_idle 1 l) /\
     0 <= timeout <= 5000 /\
     (timeout < 5000 -> exists p, p ∈ m_timers (iom_timers l) /\ next_time (heap (iom_timers l)) p <= t0 + timeout) /\
     (forall p t2 a, p ∈ m_timers (iom_timers l) -> epoll_wait_keeps late (t1 + timeout) t2 a ->
        Z.max t0 (next_time (heap (iom_timers l)) p) + (t1 - t0) + late <= t2 ->
        exists evs', a = Some evs' /\
          idle_run pipe_fd co_of tid [(t2, a)] (IWait (t1 + timeout)) (add_idle 1 l) = (Ret (IBack evs'), add_idle 1 l))) /\
  (exists ends, steps 2 tid now (IBack evs) l = (Ret (if ends : bool then IExpire evs else IArm), add_idle (-1) l) /\
     (ends = true <-> evs <> [] \/ stopping l = true \/ m_timers (iom_timers l) = [] \/
        exists p, p ∈ m_timers (iom_timers l) /\ next_time (heap (iom_timers l)) p <= now)) /\
  exists ws l', steps (S (S (S (length evs)))) tid now (IExpire evs) l = (Ret ICheck, l') /\ loop_ok l' /\
    l_pending l' = l_pending l ++
      (if stopping l then [] else tasks_of co_of (due_cbs now (iom_timers l)) ++ (task_of <$> ws)) /\
    woken evs (reg (iom_io l)) ws (reg (iom_io l')) /\
    (forall p, p ∈ m_timers (iom_timers l') <->
       p ∈ m_timers (iom_timers l) /\ (p ∉ due now (iom_timers l) \/ loops (heap (iom_timers l)) p = true)) /\
    (forall p, heap (iom_timers l') !! p =
       if decide (p ∈ due now (iom_timers l)) then expired now <$> heap (iom_timers l) !! p
       else heap (iom_timers l) !! p).
Proof.
  intros Hw Hok H0 Hnow Hval Hev. split; [|split; [by apply back_ok|by apply round_serves]].
  destruct (arm_ok tid t0 t1 l Hok H0) as (timeout & E & Hto & Hall & Hex).
  exists timeout. split; [exact E|]. split; [done|]. split; [done|]. intros p t2 a Hp Hk Hlate.
  specialize (Hall p Hp). destruct a as [evs'|]; [by exists evs'|]. specialize (Hk eq_refl). lia.
Qed.

(** ** Defects *)

(** While the scheduler is stopping, the callbacks of the timers that are due are taken out
    and dropped. *)
Lemma stopping_drops_callbacks cbs (l : loop) : stopping l = true -> l_pending (schedule_cbs co_of cbs l) = l_pending l.
Proof. intros Hs. unfold schedule_cbs, io_push. unfold l_sched in Hs. by rewrite Hs. Qed.
End Props.

(** ** A loop *)

Definition co0 (cb : option callback) : Z := match cb with Some (Fun i) => i | _ => 0 end.

(** A timer due at 150, one at 900, and a coroutine that waits to read from 7. *)
Definition timers0 : TimerManager :=
  (run_timer_op (OpAdd 16 100 800 (Fun 2) false) (run_timer_op (OpAdd 8 100 50 (Fun 1) false) new_TimerManager).2).2.

Definition io_start : IOManager (K := gmap Z Z) (Q := IoQueue) :=
  (run_io 0 (IoAdd 7 READ None 42 3) (new_IOManager 0 ∅ (MkIoQueue (new_Scheduler 1 false 1) 0))).2.

Definition loop0 : Iom (K := gmap Z Z) (Q := IoQueue) := MkIom io_start timers0.

Lemma gmap_ctl_works : ctl_works (K := gmap Z Z).
Proof.
  intros op fd ev k Hop [x Hx]. cbn in Hx |- *. unfold gmap_ctl. by destruct op; rewrite ?Hx.
Qed.

Lemma timers0_reach : timers_reach timers0.
Proof.
  refine (reach_step _ (OpAdd 16 100 800 (Fun 2) false) _ _ _ _ (surjective_pairing _)).
  - refine (reach_step _ (OpAdd 8 100 50 (Fun 1) false) _ _ reach_new _ (surjective_pairing _)).
    vm_compute. repeat split; discriminate.
  - vm_compute. repeat split; discriminate.
Qed.

Lemma loop0_ok : loop_ok (-1) loop0.
Proof.
  split; [|apply reach_ok, timers0_reach].
  destruct (add_event_ok (-1) 0 7 READ None 42 3 (new_IOManager 0 ∅ (MkIoQueue (new_Scheduler 1 false 1) 0)))
    as (r & m' & Heq & Hok & _); [apply new_IOManager_ok; intros; apply lookup_empty|by left|done|].
  cbn [loop0 iom_io]. unfold io_start. cbn [run_io]. by rewrite Heq.
Qed.

Lemma timers0_valid : op_valid (OpExpire 200) timers0.
Proof.
  assert (forallb (fun p => match heap timers0 !! p with Some t => (m_interval t + 200 <? 5000)
    && (0 <? m_interval t) | None => true end) (m_timers timers0) = true) as H by by vm_compute.
  rewrite forallb_forall in H. intros p t Hp Ht. specialize (H p (proj1 (list_elem_of_In _ _) Hp)).
  rewrite Ht in H. unfold sfits. lia.
Qed.

(** At 120 the worker has 30 milliseconds to the first timer; at 200 its callback and the
    reader become tasks. *)
Lemma idle_round_witness :
  idle_run (-1) co0 3 [(120, None); (121, None)] IArm loop0 = (Ret (IWait 151), add_idle 1 loop0) /\
  exists ws l', idle_steps (-1) co0 4 3 200 (IExpire [(7, EPOLLIN)]) loop0 = (Ret ICheck, l') /\
    io_pending (queue (iom_io l')) = [MkTask (Some 1) 0] ++ (task_of <$> ws) /\
    m_timers (iom_timers l') = [16].
Proof.
  destruct (idle_round (-1) co0 3 120 121 2 200 [(7, EPOLLIN)] loop0 gmap_ctl_works loop0_ok ltac:(lia) ltac:(lia) timers0_valid)
    as ((timeout & Earm & _) & _ & ws & l' & E & _ & Hp & _ & _ & _).
  { constructor; [|constructor]. right. vm_compute. split; [discriminate|reflexivity]. }
  split.
  { assert ((idle_run (-1) co0 3 [(120, None); (121, None)] IArm loop0).1 = Ret (IWait 151)) as E1
      by (vm_compute; reflexivity).
    rewrite Earm in E1. cbn [fst] in E1. rewrite Earm, E1. reflexivity. }
  exists ws, l'. split; [exact E|]. split; [rewrite Hp; vm_compute; reflexivity|].
  assert (snd (idle_steps (-1) co0 4 3 200 (IExpire [(7, EPOLLIN)]) loop0) = l') as <- by exact (f_equal snd E).
  vm_compute. reflexivity.
Defined.

(** A timer that is added after the waiting time was computed and before the thread counts as
    idle is not announced: the pipe stays empty, and the thread sleeps for five seconds over
    a timer that is due in ten milliseconds. *)
Lemma timer_overslept :
  let l0 : Iom (K := gmap Z Z) (Q := IoQueue) :=
    MkIom (new_IOManager 0 ∅ (MkIoQueue (new_Scheduler 1 false 1) 0)) new_TimerManager in
  exists l1 l2, idle_step (-1) co0 3 100 None IArm l0 = (Ret (IEnter 5000), l0) /\
    timer_call (run_timer_op (OpAdd 8 100 10 (Fun 1) false)) l0 = (Ret tt, l1) /\
    idle_step (-1) co0 3 100 None (IEnter 5000) l1 = (Ret (IWait 5100), l2) /\
    q_pipe (queue (iom_io l2)) = 0 /\ io_pending (queue (iom_io l2)) = [] /\
    next_timer_left_time 100 (iom_timers l2) = Ret 10.
Proof. eexists _, _. repeat split; vm_compute; reflexivity. Qed.
