(* ===== verification/OrdMap.v ===== *)
(** * Ordered maps

    [std::map] with a comparator: an association list in increasing order of the keys,
    searched by the comparator only.  Two keys are the same key when neither is less than
    the other; the comparators of the program compare normal forms of the keys, and the
    lemmas describe a map by what it holds for every normal form. *)

From stdpp Require Import base list numbers sets sorting.
From Stdlib Require Import Lia ZArith.
From S2P Require Import Prelude OrdSet.

Section Operations.
Context {K V : Type} (lt : K -> K -> bool).

Fixpoint map_find (k : K) (m : list (K * V)) : option (K * V) :=
  match m with
  | [] => None
  | (k', v) :: m' =>
      if lt k' k then map_find k m' else if lt k k' then None else Some (k', v)
  end.

(** [m.insert (k, v)]: an existing entry is kept. *)
Fixpoint map_insert (k : K) (v : V) (m : list (K * V)) : list (K * V) :=
  match m with
  | [] => [(k, v)]
  | (k', v') :: m' =>
      if lt k' k then (k', v') :: map_insert k v m'
      else if lt k k' then (k, v) :: m else m
  end.

(** [m[k] = v]: an existing entry keeps its key and gets the value. *)
Fixpoint map_set (k : K) (v : V) (m : list (K * V)) : list (K * V) :=
  match m with
  | [] => [(k, v)]
  | (k', v') :: m' =>
      if lt k' k then (k', v') :: map_set k v m'
      else if lt k k' then (k, v) :: m else (k', v) :: m'
  end.

Fixpoint map_erase (k : K) (m : list (K * V)) : list (K * V) :=
  match m with
  | [] => []
  | (k', v') :: m' =>
      if lt k' k then (k', v') :: map_erase k m'
      else if lt k k' then m else m'
  end.
End Operations.

Section Facts.
Context {K V N : Type} `{!EqDecision N} (norm : K -> N) (ltn : N -> N -> bool).
Context `{!StrictTotal ltn (fun _ => True)}.

#[local] Abbreviation lt := (fun a b => ltn (norm a) (norm b)).

(** What the map holds for a normal form. *)
Fixpoint holds (n : N) (m : list (K * V)) : option V :=
  match m with
  | [] => None
  | (k, v) :: m' => if decide (norm k = n) then Some v else holds n m'
  end.

Definition map_sorted (m : list (K * V)) : Prop :=
  StronglySorted (fun a b => ltn (norm a.1) (norm b.1) = true) m.

Lemma ltn_irrefl a : ltn a a = false.
Proof. by apply (st_irrefl (P := fun _ => True)). Qed.

Lemma ltn_trans a b c : ltn a b = true -> ltn b c = true -> ltn a c = true.
Proof. by apply (st_trans (P := fun _ => True)). Qed.

Lemma ltn_total a b : ltn a b = false -> ltn b a = false -> a = b.
Proof. by apply (st_total (P := fun _ => True)). Qed.

Lemma ltn_ne a b : ltn a b = true -> a <> b.
Proof. intros H ->. by rewrite ltn_irrefl in H. Qed.

(** Below the first key there is nothing. *)
Lemma holds_below n m :
  Forall (fun p => ltn n (norm p.1) = true) m -> holds n m = None.
Proof.
  induction 1 as [|[k v] m Hk _ IH]; [done|]. cbn. destruct (decide (norm k = n)) as [<-|]; [|done].
  by rewrite ltn_irrefl in Hk.
Qed.

Lemma sorted_below k v m n :
  map_sorted ((k, v) :: m) -> ltn n (norm k) = true \/ n = norm k ->
  Forall (fun p => ltn n (norm p.1) = true) m.
Proof.
  intros [Hk _]%StronglySorted_cons Hn. eapply Forall_impl; [done|]. cbn. intros p Hp.
  destruct Hn as [Hn| ->]; [by eapply ltn_trans|done].
Qed.

Lemma map_find_holds k m : map_sorted m -> snd <$> map_find lt k m = holds (norm k) m.
Proof.
  induction m as [|[k' v'] m IH]; intros Hs; cbn; [done|].
  pose proof Hs as [_ Hs']%StronglySorted_cons. destruct (ltn (norm k') (norm k)) eqn:E1.
  { destruct (decide (norm k' = norm k)) as [Heq|]; [by apply ltn_ne in E1|auto]. }
  destruct (ltn (norm k) (norm k')) eqn:E2.
  - destruct (decide (norm k' = norm k)) as [Heq|]; [by apply ltn_ne in E2|]. cbn.
    rewrite holds_below; [done|]. eapply sorted_below; [done|by left].
  - destruct (decide (norm k' = norm k)) as [|Hne]; [done|]. by destruct Hne, (ltn_total (norm k') (norm k)).
Qed.

(** An update that keeps the order: the new head is below the rest. *)
Lemma sorted_cons k v m :
  map_sorted m -> Forall (fun p => ltn (norm k) (norm p.1) = true) m -> map_sorted ((k, v) :: m).
Proof. intros. by constructor. Qed.

Lemma map_set_ok k v m : map_sorted m ->
  map_sorted (map_set lt k v m) /\
  (forall n, holds n (map_set lt k v m) = if decide (n = norm k) then Some v else holds n m) /\
  (forall n, Forall (fun p => ltn n (norm p.1) = true) m -> ltn n (norm k) = true ->
     Forall (fun p => ltn n (norm p.1) = true) (map_set lt k v m)).
Proof.
  induction m as [|[k' v'] m IH]; intros Hs; cbn.
  { split_and!; [repeat constructor| |by repeat constructor]. intros n.
    destruct (decide (norm k = n)), (decide (n = norm k)); congruence. }
  pose proof Hs as [Hk' Hs']%StronglySorted_cons. destruct (IH Hs') as (Ho & Hh & Hb).
  destruct (ltn (norm k') (norm k)) eqn:E1; [|destruct (ltn (norm k) (norm k')) eqn:E2].
  - split_and!.
    + apply sorted_cons; [done|]. by apply Hb.
    + intros n. cbn. rewrite Hh. destruct (decide (norm k' = n)) as [<-|]; [|done].
      destruct (decide (norm k' = norm k)) as [Heq|]; [by apply ltn_ne in E1|done].
    + intros n Hn Hnk. apply Forall_cons in Hn as [? ?]. constructor; [done|auto].
  - split_and!.
    + apply sorted_cons; [done|]. constructor; [done|]. eapply sorted_below; [done|by left].
    + intros n. cbn. destruct (decide (norm k = n)), (decide (n = norm k)); done || congruence.
    + intros n Hn Hnk. by constructor.
  - assert (norm k' = norm k) as Heq by (by apply ltn_total). split_and!.
    + by constructor.
    + intros n. cbn. destruct (decide (norm k' = n)), (decide (n = norm k)); congruence.
    + intros n Hn Hnk. apply Forall_cons in Hn as [? ?]. by constructor.
Qed.

Lemma map_insert_ok k v m : map_sorted m ->
  map_sorted (map_insert lt k v m) /\
  (forall n, holds n (map_insert lt k v m) =
     if decide (n = norm k) then (match holds n m with Some w => Some w | None => Some v end)
     else holds n m) /\
  (forall n, Forall (fun p => ltn n (norm p.1) = true) m -> ltn n (norm k) = true ->
     Forall (fun p => ltn n (norm p.1) = true) (map_insert lt k v m)).
Proof.
  induction m as [|[k' v'] m IH]; intros Hs; cbn.
  { split_and!; [repeat constructor| |by repeat constructor]. intros n.
    destruct (decide (norm k = n)), (decide (n = norm k)); congruence. }
  pose proof Hs as [Hk' Hs']%StronglySorted_cons. destruct (IH Hs') as (Ho & Hh & Hb).
  destruct (ltn (norm k') (norm k)) eqn:E1; [|destruct (ltn (norm k) (norm k')) eqn:E2].
  - split_and!.
    + apply sorted_cons; [done|]. by apply Hb.
    + intros n. cbn. rewrite Hh. destruct (decide (norm k' = n)) as [<-|]; [|done].
      destruct (decide (norm k' = norm k)) as [Heq|]; [by apply ltn_ne in E1|done].
    + intros n Hn Hnk. apply Forall_cons in Hn as [? ?]. constructor; [done|auto].
  - assert (holds (norm k) m = None) as Hnone
      by (apply holds_below; eapply sorted_below; [done|by left]). split_and!.
    + apply sorted_cons; [done|]. constructor; [done|]. eapply sorted_below; [done|by left].
    + intros n. cbn. destruct (decide (norm k = n)) as [<-|].
      * destruct (decide (norm k' = norm k)) as [Heq|]; [by apply ltn_ne in E2|].
        rewrite Hnone. by destruct (decide (norm k = norm k)).
      * by destruct (decide (n = norm k)).
    + intros n Hn Hnk. by constructor.
  - assert (norm k' = norm k) as Heq by (by apply ltn_total). split_and!; [done| |by intros].
    intros n. cbn. destruct (decide (norm k' = n)), (decide (n = norm k)); congruence.
Qed.

Lemma map_erase_ok k m : map_sorted m ->
  map_sorted (map_erase lt k m) /\
  (forall n, holds n (map_erase lt k m) = if decide (n = norm k) then None else holds n m) /\
  (forall n, Forall (fun p => ltn n (norm p.1) = true) m ->
     Forall (fun p => ltn n (norm p.1) = true) (map_erase lt k m)).
Proof.
  induction m as [|[k' v'] m IH]; intros Hs; cbn.
  { split_and!; [constructor| |done]. intros n. by destruct (decide (n = norm k)). }
  pose proof Hs as [Hk' Hs']%StronglySorted_cons. destruct (IH Hs') as (Ho & Hh & Hb).
  destruct (ltn (norm k') (norm k)) eqn:E1; [|destruct (ltn (norm k) (norm k')) eqn:E2].
  - split_and!.
    + apply sorted_cons; [done|]. by apply Hb.
    + intros n. cbn. rewrite Hh. destruct (decide (norm k' = n)) as [<-|]; [|done].
      destruct (decide (norm k' = norm k)) as [Heq|]; [by apply ltn_ne in E1|done].
    + intros n [? ?]%Forall_cons. constructor; auto.
  - split_and!; [done| |done]. intros n. cbn. destruct (decide (n = norm k)) as [->|]; [|done].
    destruct (decide (norm k' = norm k)) as [Heq|]; [by apply ltn_ne in E2|].
    apply holds_below. eapply sorted_below; [done|by left].
  - assert (norm k' = norm k) as Heq by (by apply ltn_total). split_and!; [done| |].
    + intros n. destruct (decide (n = norm k)) as [->|].
      * apply holds_below. eapply sorted_below; [done|by right].
      * destruct (decide (norm k' = n)); [congruence|done].
    + by intros n [? ?]%Forall_cons.
Qed.

(** ** Assignments in a row *)

Definition map_set_all (l m : list (K * V)) : list (K * V) := fold_left (fun m it => map_set lt it.1 it.2 m) l m.

Lemma holds_app n l m : holds n (l ++ m) = match holds n l with Some v => Some v | None => holds n m end.
Proof. induction l as [|[k v] l IH]; [done|]. cbn. by destruct (decide (norm k = n)). Qed.

(** The last assignment to a key counts. *)
Lemma map_set_all_ok l m : map_sorted m ->
  map_sorted (map_set_all l m) /\
  forall n, holds n (map_set_all l m) = match holds n (rev l) with Some v => Some v | None => holds n m end.
Proof.
  revert m; induction l as [|[k v] l IH]; intros m Hm; [done|]. cbn [map_set_all fold_left rev fst snd].
  destruct (map_set_ok k v m Hm) as (Hs & Hh & _). destruct (IH _ Hs) as [Hs' Hh']. split; [done|].
  intros n. rewrite Hh', holds_app, Hh. destruct (holds n (rev l)); [done|]. cbn.
  destruct (decide (norm k = n)), (decide (n = norm k)); done || congruence.
Qed.

Lemma holds_rev n m : map_sorted m -> holds n (rev m) = holds n m.
Proof.
  induction m as [|[k v] m IH]; intros Hs; [done|]. cbn [rev holds]. pose proof Hs as [_ Hm]%StronglySorted_cons.
  rewrite holds_app, IH by done. cbn. destruct (decide (norm k = n)) as [<-|]; [|by destruct (holds n m)].
  rewrite holds_below; [done|]. eapply sorted_below; [done|by right].
Qed.

(** The entries whose keys pass a test. *)
Lemma map_sorted_filter (f : K * V -> bool) m : map_sorted m -> map_sorted (List.filter f m).
Proof.
  induction m as [|it m IH]; [done|]. intros [Hk Hm]%StronglySorted_cons. cbn.
  destruct (f it); [|by apply IH]. constructor; [by apply IH|]. rewrite Forall_forall in Hk |- *.
  intros x [Hx _]%list_elem_of_In%filter_In. by apply Hk, list_elem_of_In.
Qed.

Lemma holds_filter (f : K * V -> bool) (g : N -> bool) n m : (forall k v, f (k, v) = g (norm k)) ->
  holds n (List.filter f m) = if g n then holds n m else None.
Proof.
  intros Hf. induction m as [|[k v] m IH]; [by destruct (g n)|]. cbn. rewrite Hf.
  destruct (g (norm k)) eqn:Eg; cbn; rewrite IH; destruct (decide (norm k = n)) as [<-|]; try done.
  - by rewrite Eg.
  - by rewrite Eg.
Qed.
End Facts.
