(* ===== verification/LogFormatter.v ===== *)
(** * Log patterns ([log.h], [log.cc]: levels, events, format items, [LogFormatter])

    The parser of a pattern such as ["%d{%Y-%m-%d} [%p] %m%n"] into format items, and the
    rendering of an event by them.  Positions in the pattern are [size_t] values below its
    length.  [strftime] on [localtime] depends on the time zone and is a parameter. *)

From stdpp Require Import base list numbers strings.
From Stdlib Require Import Lia ZArith.
From S2P Require Import Prelude.

(** ** Levels *)

Inductive Level := UNKNOW | DEBUG | INFO | WARN | ERROR.

#[global] Instance Level_eq_dec : EqDecision Level.
Proof. solve_decision. Defined.

Definition level_num (l : Level) : Z :=
  match l with UNKNOW => 0 | DEBUG => 1 | INFO => 2 | WARN => 3 | ERROR => 4 end.

(** [a >= b] on the enumeration. *)
Definition level_ge (a b : Level) : bool := level_num b <=? level_num a.

Definition Level_ToString (level : Level) : bytes :=
  match level with
  | DEBUG => str "DEBUG"
  | INFO => str "INFO"
  | WARN => str "WARN"
  | ERROR => str "ERROR"
  | UNKNOW => str "UNKNOW"
  end.

Definition Level_FromString (level : bytes) : Level :=
  if bool_decide (str "DEBUG" = level) then DEBUG
  else if bool_decide (str "INFO" = level) then INFO
  else if bool_decide (str "WARN" = level) then WARN
  else if bool_decide (str "ERROR" = level) then ERROR
  else UNKNOW.

(** ** Events

    The fields of an event; its logger is a reference of type [P]. *)
Record LogEvent (P : Type) := MkLogEvent {
  m_logger : P;
  e_level : Level;
  m_file : bytes;
  m_line : Z;
  m_thread_id : Z;
  m_co_id : Z;
  m_time : Z;
  m_thread_name : bytes;
  m_ss : bytes }.
Arguments MkLogEvent {P}.
Arguments m_logger {P}.
Arguments e_level {P}.
Arguments m_file {P}.
Arguments m_line {P}.
Arguments m_thread_id {P}.
Arguments m_co_id {P}.
Arguments m_time {P}.
Arguments m_thread_name {P}.
Arguments m_ss {P}.

(** [event->format(fmt, ...)]: what [vasprintf] made of the arguments, [None] when it failed
    with -1, is appended. *)
Definition event_format {P} (printed : option bytes) (e : LogEvent P) : LogEvent P :=
  match printed with
  | None => e
  | Some buf =>
      MkLogEvent (m_logger e) (e_level e) (m_file e) (m_line e) (m_thread_id e) (m_co_id e)
        (m_time e) (m_thread_name e) (m_ss e ++ buf)
  end.

(** ** Format items *)

Inductive FormatItem :=
| StringFormatItem (m_fmt : bytes)
| MessageFormatItem (m_fmt : bytes)
| LevelFormatItem (m_fmt : bytes)
| FileNameFormatItem (m_fmt : bytes)
| ThreadIdFormatItem (m_fmt : bytes)
| NewLineFormatItem (m_fmt : bytes)
| DateTimeFormatItem (m_fmt : bytes)
| LoggerNameFormatItem (m_fmt : bytes)
| LineFormatItem (m_fmt : bytes)
| TabFormatItem (m_fmt : bytes)
| CoIdFormatItem (m_fmt : bytes)
| ThreadNameFormatItem (m_fmt : bytes).

#[global] Instance FormatItem_eq_dec : EqDecision FormatItem.
Proof. solve_decision. Defined.

(** [sprintf(ms, ".%03ld", n)]: at least three characters after the dot. *)
Definition pad3 (n : Z) : bytes :=
  let sign := if n <? 0 then [45] else [] in
  let d := dec (Z.abs n) in
  46 :: sign ++ zrepeat (3 - zlen sign - zlen d) 48 ++ d.

Section Format.
(** [strftime] with the broken-down local time of a number of seconds. *)
Context (strftime_local : bytes -> Z -> bytes).

(** [DateTimeFormatItem::format]: [buf] holds 63 characters and a terminator; when the text
    does not fit its contents are not determined. *)
Definition datetime_format (m_fmt : bytes) (event_time : Z) : res bytes :=
  let time := Z.quot event_time 1000 in
  let ms := pad3 (Z.rem time 1000) in
  let buf := strftime_local m_fmt time in
  if 64 <=? zlen buf then Undef BufferOverflow else Ret (buf ++ ms).

(** What an item writes, for a logger of the given name. *)
Definition item_format {P} (i : FormatItem) (logger_name : bytes) (level : Level) (event : LogEvent P)
    : res bytes :=
  match i with
  | StringFormatItem fmt => Ret fmt
  | MessageFormatItem _ => Ret (m_ss event)
  | LevelFormatItem _ => Ret (Level_ToString level)
  | FileNameFormatItem _ => Ret (m_file event)
  | ThreadIdFormatItem _ => Ret (dec (m_thread_id event))
  | NewLineFormatItem _ => Ret [10]
  | DateTimeFormatItem fmt => datetime_format fmt (m_time event)
  | LoggerNameFormatItem _ => Ret logger_name
  | LineFormatItem _ => Ret (sdec (m_line event))
  | TabFormatItem _ => Ret [9]
  | CoIdFormatItem _ => Ret (dec (m_co_id event))
  | ThreadNameFormatItem _ => Ret (m_thread_name event)
  end.

(** [LogFormatter::format]: the items in order. *)
Fixpoint format_items {P} (items : list FormatItem) (logger_name : bytes) (level : Level)
    (event : LogEvent P) : res bytes :=
  match items with
  | [] => Ret []
  | i :: items =>
      let? a := item_format i logger_name level event in
      let? b := format_items items logger_name level event in
      Ret (a ++ b)
  end.
End Format.

(** ** The parser of patterns *)

(** [isalpha] in the C locale. *)
Definition isalpha (c : Z) : bool :=
  ((65 <=? c) && (c <=? 90)) || ((97 <=? c) && (c <=? 122)).

(** [m_pattern[i]], and [m_pattern.substr(i, n)]. *)
Definition char_at (s : bytes) (i : nat) : Z := nth i s 0.
Definition substr (s : bytes) (i n : nat) : bytes := take n (drop i s).

(** An entry of [vec]: text, format, and whether it is a directive (the 0 or 1). *)
Record entry := Entry { en_str : bytes; en_fmt : bytes; en_directive : bool }.

#[global] Instance entry_eq_dec : EqDecision entry.
Proof. solve_decision. Defined.

(** The inner loop from [n], for the directive whose [%] is at [i]: gives [n], whether
    [fmt_status] is still 1, [str] and [fmt]. *)
Fixpoint directive_loop (fuel : nat) (pat : bytes) (i n : nat) (fmt_status : bool) (fmt_begin : nat)
    (str fmt : bytes) : res (nat * bool * bytes * bytes) :=
  match fuel with
  | O => Undef Diverges
  | S fuel' =>
      if negb (n <? length pat)%nat then Ret (n, fmt_status, str, fmt)
      else
        let c := char_at pat n in
        if negb fmt_status && (negb (isalpha c) && negb (c =? 123) && negb (c =? 125))
        then Ret (n, fmt_status, substr pat (i + 1) (n - i - 1), fmt)
        else if negb fmt_status && (c =? 123)
        then directive_loop fuel' pat i (n + 1) true n (substr pat (i + 1) (n - i - 1)) fmt
        else if fmt_status && (c =? 125)
        then Ret ((n + 1)%nat, false, str, substr pat (fmt_begin + 1) (n - fmt_begin - 1))
        else
          let n := (n + 1)%nat in
          let str :=
            if (n =? length pat)%nat && bool_decide (str = []) then drop (i + 1) pat else str in
          directive_loop fuel' pat i n fmt_status fmt_begin str fmt
  end.

(** What the parser prints on standard output for a directive that is not closed. *)
Definition parse_error (pat : bytes) (i : nat) : bytes :=
  str "pattern parse error: " ++ pat ++ str " - " ++ drop i pat ++ [10].

Definition flush (nstr : bytes) (vec : list entry) : list entry :=
  if bool_decide (nstr = []) then vec else vec ++ [Entry nstr [] false].

(** The outer loop at [i]: [vec] and what was printed. *)
Fixpoint pattern_loop (fuel : nat) (pat : bytes) (i : nat) (nstr : bytes) (vec : list entry)
    (cout : bytes) : res (list entry * bytes) :=
  match fuel with
  | O => Undef Diverges
  | S fuel' =>
      if negb (i <? length pat)%nat then Ret (flush nstr vec, cout)
      else if negb (char_at pat i =? 37)
      then pattern_loop fuel' pat (i + 1) (nstr ++ [char_at pat i]) vec cout
      else if (i + 1 <? length pat)%nat && (char_at pat (i + 1) =? 37)
      then pattern_loop fuel' pat (i + 2) (nstr ++ [37]) vec cout
      else
        let? (n, fmt_status, s, fmt) :=
          directive_loop (S (length pat)) pat i (i + 1) false 0 [] [] in
        if negb fmt_status
        then pattern_loop fuel' pat (n - 1 + 1) [] (flush nstr vec ++ [Entry s fmt true]) cout
        else pattern_loop fuel' pat (i + 1) nstr
               (vec ++ [Entry (str "<<pattern_error>>") fmt false]) (cout ++ parse_error pat i)
  end.

(** [s_format_items]. *)
Definition s_format_items (tag : bytes) : option (bytes -> FormatItem) :=
  if bool_decide (tag = str "m") then Some MessageFormatItem
  else if bool_decide (tag = str "p") then Some LevelFormatItem
  else if bool_decide (tag = str "c") then Some LoggerNameFormatItem
  else if bool_decide (tag = str "t") then Some ThreadIdFormatItem
  else if bool_decide (tag = str "n") then Some NewLineFormatItem
  else if bool_decide (tag = str "d") then Some DateTimeFormatItem
  else if bool_decide (tag = str "f") then Some FileNameFormatItem
  else if bool_decide (tag = str "l") then Some LineFormatItem
  else if bool_decide (tag = str "T") then Some TabFormatItem
  else if bool_decide (tag = str "F") then Some CoIdFormatItem
  else if bool_decide (tag = str "N") then Some ThreadNameFormatItem
  else None.

Definition entry_item (e : entry) : list FormatItem :=
  if negb (en_directive e) then [StringFormatItem (en_str e)]
  else match s_format_items (en_str e) with
       | None => []
       | Some mk => [mk (en_fmt e)]
       end.

(** [LogFormatter::init]: the items, and what was printed. *)
Definition formatter_init (pat : bytes) : res (list FormatItem * bytes) :=
  let? (vec, cout) := pattern_loop (S (length pat)) pat 0 [] [] [] in
  Ret (vec ≫= entry_item, cout).

Record LogFormatter := MkLogFormatter { m_pattern : bytes; m_items : list FormatItem }.

#[global] Instance LogFormatter_eq_dec : EqDecision LogFormatter.
Proof. solve_decision. Defined.

Definition default_pattern : bytes :=
  str "%d{%Y-%m-%d %H:%M:%S} %t %N %F [%p] [%c] %f:%l %m%n".

(** The constructor: the formatter, and what was printed. *)
Definition new_LogFormatter (pattern : bytes) : res (LogFormatter * bytes) :=
  let pattern := if bool_decide (pattern = []) then default_pattern else pattern in
  let? (items, cout) := formatter_init pattern in
  Ret (MkLogFormatter pattern items, cout).
