(* ===== verification/LogFormatterProps.v ===== *)
(** * Log patterns: the parser always ends, and patterns read back what they were written from *)

From stdpp Require Import base list numbers strings.
From Stdlib Require Import Lia ZArith.
From S2P Require Import Prelude LogFormatter.

(** ** Levels *)

Lemma Level_roundtrip_ok l : Level_FromString (Level_ToString l) = l.
Proof. by destruct l. Qed.

(** ** Termination *)

Lemma directive_loop_ends pat i fuel n st b s f :
  (n <= length pat -> length pat - n < fuel ->
   exists n' st' s' f', directive_loop fuel pat i n st b s f = Ret (n', st', s', f') /\
     n <= n' <= length pat)%nat.
Proof.
  revert n st b s f. induction fuel as [|fuel IH]; intros n st b s f Hn Hf; [lia|].
  cbn [directive_loop]. destruct (Nat.ltb_spec n (length pat)) as [Hlt|]; cbn [negb]; [|naive_solver].
  assert (forall st b s f, exists n' st' s' f',
    directive_loop fuel pat i (n + 1) st b s f = Ret (n', st', s', f') /\
    (n <= n' <= length pat)%nat) as Hnext.
  { intros st' b' s' f'. destruct (IH (n + 1)%nat st' b' s' f') as (n' & ? & ? & ? & -> & ?); [lia..|].
    eauto 6 with lia. }
  repeat case_match; eauto 7 with lia.
Qed.

Lemma pattern_loop_ends pat fuel i nstr vec cout :
  (i <= length pat -> length pat - i < fuel ->
   exists r, pattern_loop fuel pat i nstr vec cout = Ret r)%nat.
Proof.
  revert i nstr vec cout. induction fuel as [|fuel IH]; intros i nstr vec cout Hi Hf; [lia|].
  cbn [pattern_loop]. destruct (Nat.ltb_spec i (length pat)) as [Hlt|]; cbn [negb]; [|eauto].
  destruct (negb (char_at pat i =? 37)); [apply IH; lia|].
  destruct (Nat.ltb_spec (i + 1) (length pat)) as [Hlt'|]; cbn [andb];
    [destruct (_ =? 37); [apply IH; lia|]|];
    (edestruct (directive_loop_ends pat i (S (length pat)) (i + 1) false 0 [] [])
      as (n' & st' & s' & f' & -> & Hb); [lia..|]); cbn;
    destruct (negb st'); apply IH; lia.
Qed.

Lemma formatter_init_ends pat : exists r, formatter_init pat = Ret r.
Proof.
  unfold formatter_init.
  destruct (pattern_loop_ends pat (S (length pat)) 0 [] [] []) as [[vec cout] ->]; [lia..|].
  cbn. eauto.
Qed.

(** ** Patterns as they are written *)

(** A literal text or a directive of letters, with a format in braces or without. *)
Inductive piece :=
| Lit (s : bytes)
| Dir (tag : bytes) (fmt : option bytes).

Definition escape (c : Z) : bytes := if c =? 37 then [37; 37] else [c].

Definition render_piece (p : piece) : bytes :=
  match p with
  | Lit s => s ≫= escape
  | Dir tag None => 37 :: tag
  | Dir tag (Some f) => 37 :: tag ++ 123 :: f ++ [125]
  end.

Definition render (ps : list piece) : bytes := ps ≫= render_piece.

Definition piece_entry (p : piece) : entry :=
  match p with
  | Lit s => Entry s [] false
  | Dir tag f => Entry tag (default [] f) true
  end.

(** The characters the inner loop takes as part of a directive. *)
Definition in_directive (c : Z) : bool := isalpha c || (c =? 123) || (c =? 125).

(** What may follow: a literal is not followed by a literal; a directive without a format is
    not followed by a text that begins with a letter or a brace. *)
Definition follows (p : piece) (ps : list piece) : Prop :=
  match p, ps with
  | Lit _, Lit _ :: _ => False
  | Dir _ None, Lit (c :: _) :: _ => in_directive c = false
  | _, _ => True
  end.

Definition piece_ok (p : piece) : Prop :=
  match p with
  | Lit s => s <> []
  | Dir tag f => tag <> [] /\ Forall (fun c => isalpha c = true) tag /\
                 Forall (fun c => c <> 125) (default [] f)
  end.

Fixpoint pieces_ok (ps : list piece) : Prop :=
  match ps with
  | [] => True
  | p :: ps => piece_ok p /\ follows p ps /\ pieces_ok ps
  end.

(** ** Scanning *)

Lemma char_at_here pre c rest : char_at (pre ++ c :: rest) (length pre) = c.
Proof. unfold char_at. by rewrite app_nth2, Nat.sub_diag by lia. Qed.

Lemma substr_mid pre s rest n i :
  i = length pre -> n = length s -> substr (pre ++ s ++ rest) i n = s.
Proof. intros -> ->. unfold substr. by rewrite drop_app_length, take_app_length. Qed.

Lemma isalpha_not c : isalpha c = true -> (c =? 123) = false /\ (c =? 125) = false /\ (c =? 37) = false.
Proof. unfold isalpha. intros. lia. Qed.

(** Letters before the end of the pattern. *)
Lemma scan_letters fuel pre tag c rest i b :
  Forall (fun c => isalpha c = true) tag -> (length (tag ++ c :: rest) < fuel)%nat ->
  exists fuel', (length (c :: rest) < fuel')%nat /\
    directive_loop fuel (pre ++ tag ++ c :: rest) i (length pre) false b [] [] =
    directive_loop fuel' (pre ++ tag ++ c :: rest) i (length (pre ++ tag)) false b [] [].
Proof.
  revert pre fuel. induction tag as [|t tag IH]; intros pre fuel Ht Hf.
  { exists fuel. by rewrite app_nil_r. }
  apply Forall_cons in Ht as [Ht Hts]. destruct fuel as [|fuel]; [simpl in Hf; lia|].
  destruct (IH (pre ++ [t]) fuel Hts ltac:(simpl in *; lia)) as (fuel' & ? & Heq).
  exists fuel'. split; [done|]. cbn [directive_loop].
  rewrite <- !app_assoc in Heq. cbn [app] in Heq |- *.
  destruct (Nat.ltb_spec (length pre) (length (pre ++ t :: tag ++ c :: rest))) as [_|Hlen];
    [|rewrite length_app in Hlen; simpl in Hlen; lia].
  cbn [negb]. rewrite char_at_here. destruct (isalpha_not t Ht) as (H1 & H2 & _).
  rewrite Ht, H1, H2. cbn [negb andb].
  destruct (Nat.eqb_spec (length pre + 1) (length (pre ++ t :: tag ++ c :: rest))) as [Hlen|_].
  { rewrite !length_app in Hlen. simpl in Hlen. rewrite length_app in Hlen. simpl in Hlen. lia. }
  cbn [andb]. rewrite length_app in Heq. cbn [length] in Heq. by rewrite Heq.
Qed.

(** Letters up to the end of the pattern. *)
Lemma scan_letters_end fuel pre tag i b :
  Forall (fun c => isalpha c = true) tag -> tag <> [] -> (length tag < fuel)%nat ->
  directive_loop fuel (pre ++ tag) i (length pre) false b [] [] =
  Ret (length (pre ++ tag), false, drop (i + 1) (pre ++ tag), []).
Proof.
  intros Ht Hne Hf. destruct (exists_last Hne) as (tag' & t & ->).
  apply Forall_app in Ht as [Ht Ht1]. apply Forall_cons in Ht1 as [Ht1 _].
  destruct (scan_letters fuel pre tag' t [] i b Ht Hf) as (fuel' & Hf' & ->).
  destruct fuel' as [|[|fuel']]; [simpl in Hf'; lia..|].
  cbn [directive_loop]. rewrite (app_assoc pre tag' [t]).
  assert (length ((pre ++ tag') ++ [t]) = length (pre ++ tag') + 1)%nat as Hl by (rewrite (length_app _ [t]); done).
  rewrite Hl. rewrite (proj2 (Nat.ltb_lt _ _)) by lia. cbn [negb]. rewrite char_at_here.
  destruct (isalpha_not t Ht1) as (H1 & H2 & _). rewrite Ht1, H1, H2. cbn [negb andb].
  rewrite Nat.eqb_refl, Nat.ltb_irrefl. cbn [negb andb]. by rewrite bool_decide_true.
Qed.

(** The format in braces. *)
Lemma scan_format fuel pre f rest i b s :
  Forall (fun c => c <> 125) f -> s <> [] -> (length (f ++ 125%Z :: rest) < fuel)%nat ->
  directive_loop fuel (pre ++ f ++ 125 :: rest) i (length pre) true b s [] =
  Ret ((length (pre ++ f) + 1)%nat, false, s,
       substr (pre ++ f ++ 125 :: rest) (b + 1) (length (pre ++ f) - b - 1)).
Proof.
  revert pre fuel. induction f as [|c f IH]; intros pre fuel Hc Hs Hf;
    (destruct fuel as [|fuel]; [simpl in Hf; lia|]); cbn [directive_loop app].
  - destruct (Nat.ltb_spec (length pre) (length (pre ++ 125 :: rest))) as [_|Hlen];
      [|rewrite length_app in Hlen; simpl in Hlen; lia].
    rewrite char_at_here, app_nil_r. done.
  - apply Forall_cons in Hc as [Hc Hcs].
    destruct (Nat.ltb_spec (length pre) (length (pre ++ c :: f ++ 125 :: rest))) as [_|Hlen];
      [|rewrite length_app in Hlen; simpl in Hlen; lia].
    rewrite char_at_here. rewrite (proj2 (Z.eqb_neq c 125)) by done. cbn [negb andb].
    rewrite (bool_decide_false (s = [])) by done. rewrite andb_false_r.
    specialize (IH (pre ++ [c]) fuel Hcs Hs ltac:(simpl in *; lia)).
    rewrite <- !app_assoc in IH. cbn [app] in IH. rewrite length_app in IH. cbn [length] in IH.
    rewrite IH. repeat f_equal; rewrite !length_app; simpl; lia.
Qed.

(** The inner loop on a directive, with what follows it. *)
Lemma directive_loop_none pre tag rest :
  tag <> [] -> Forall (fun c => isalpha c = true) tag ->
  (forall c r, rest = c :: r -> in_directive c = false) ->
  let pat := pre ++ 37 :: tag ++ rest in
  directive_loop (S (length pat)) pat (length pre) (length pre + 1) false 0 [] [] =
  Ret (length (pre ++ 37 :: tag), false, tag, []).
Proof.
  intros Hne Ht Hrest pat.
  assert (pat = (pre ++ [37]) ++ tag ++ rest) as Hp by (unfold pat; by rewrite <- app_assoc).
  assert (length pre + 1 = length (pre ++ [37%Z]))%nat as Hi by (rewrite length_app; done).
  replace (pre ++ 37 :: tag) with ((pre ++ [37]) ++ tag) by (by rewrite <- app_assoc).
  assert (length (tag ++ rest) < S (length pat))%nat as Hlen
    by (rewrite Hp, (length_app (pre ++ [37])); lia).
  rewrite Hi at 1. clearbody pat. subst pat. destruct rest as [|c rest].
  - rewrite app_nil_r in *. rewrite scan_letters_end by done.
    by rewrite Hi, drop_app_length.
  - destruct (scan_letters _ (pre ++ [37]) tag c rest (length pre) 0 Ht Hlen) as (fuel & Hf & ->).
    destruct fuel as [|fuel]; [simpl in Hf; lia|]. cbn [directive_loop].
    rewrite (proj2 (Nat.ltb_lt _ _)) by (rewrite !length_app; simpl; lia). cbn [negb].
    rewrite (app_assoc _ tag (c :: rest)), char_at_here.
    specialize (Hrest c rest eq_refl). unfold in_directive in Hrest.
    rewrite !orb_false_iff in Hrest. destruct Hrest as [[-> ->] ->]. cbn [negb andb].
    rewrite <- (app_assoc _ tag), substr_mid; [done|lia|rewrite !length_app; simpl; lia].
Qed.

Lemma directive_loop_some pre tag f rest :
  tag <> [] -> Forall (fun c => isalpha c = true) tag -> Forall (fun c => c <> 125) f ->
  let pat := pre ++ 37 :: tag ++ 123 :: f ++ 125 :: rest in
  directive_loop (S (length pat)) pat (length pre) (length pre + 1) false 0 [] [] =
  Ret (length (pre ++ 37 :: tag ++ 123 :: f ++ [125]), false, tag, f).
Proof.
  intros Hne Ht Hfm pat.
  assert (pat = (pre ++ [37]) ++ tag ++ 123 :: f ++ 125 :: rest) as Hp by (unfold pat; by rewrite <- app_assoc).
  assert (length pre + 1 = length (pre ++ [37%Z]))%nat as Hi by (rewrite length_app; done).
  assert (length (tag ++ 123%Z :: f ++ 125%Z :: rest) < S (length pat))%nat as Hlen
    by (rewrite Hp, (length_app (pre ++ [37])); lia).
  rewrite Hi at 1. clearbody pat. subst pat.
  destruct (scan_letters _ (pre ++ [37]) tag 123 (f ++ 125 :: rest) (length pre) 0 Ht Hlen)
    as (fuel & Hf & ->).
  destruct fuel as [|fuel]; [simpl in Hf; lia|]. cbn [directive_loop].
  rewrite (proj2 (Nat.ltb_lt _ _)) by (rewrite !length_app; simpl; lia). cbn [negb].
  rewrite (app_assoc _ tag (123 :: _)), char_at_here. cbn [negb andb Z.eqb Pos.eqb isalpha].
  rewrite <- (app_assoc _ tag), (substr_mid _ tag) by (rewrite ?length_app; simpl; lia).
  pose proof (scan_format fuel (((pre ++ [37]) ++ tag) ++ [123]) f rest (length pre)
    (length ((pre ++ [37]) ++ tag)) tag Hfm Hne ltac:(simpl in Hf; lia)) as Hs.
  replace (length ((pre ++ [37%Z]) ++ tag) + 1)%nat
    with (length (((pre ++ [37]) ++ tag) ++ [123])) by (rewrite (length_app _ [123]); done).
  replace ((pre ++ [37]) ++ tag ++ 123 :: f ++ 125 :: rest)
    with ((((pre ++ [37]) ++ tag) ++ [123]) ++ f ++ 125 :: rest) by (by rewrite <- !app_assoc).
  rewrite Hs, substr_mid by (rewrite !length_app; simpl; lia).
  do 4 f_equal. rewrite !length_app. simpl. rewrite !length_app. simpl. rewrite length_app. simpl. lia.
Qed.

(** ** Reading a pattern back *)

Lemma pattern_loop_lit fuel pre s rest nstr vec cout :
  (length ((s ≫= escape) ++ rest) < fuel)%nat ->
  exists fuel', (length rest < fuel')%nat /\
    pattern_loop fuel (pre ++ (s ≫= escape) ++ rest) (length pre) nstr vec cout =
    pattern_loop fuel' (pre ++ (s ≫= escape) ++ rest) (length (pre ++ (s ≫= escape)))
      (nstr ++ s) vec cout.
Proof.
  revert fuel pre nstr. induction s as [|c s IH]; intros fuel pre nstr Hf.
  { exists fuel. by rewrite !app_nil_r. }
  destruct fuel as [|fuel]; [lia|]. rewrite bind_cons in *.
  destruct (IH fuel (pre ++ escape c) (nstr ++ [c])) as (fuel' & ? & Heq).
  { rewrite <- app_assoc, length_app in Hf.
    assert (0 < length (escape c))%nat by (unfold escape; destruct (c =? 37); cbn; lia). lia. }
  exists fuel'. split; [done|]. rewrite <- !(app_assoc pre (escape c)), <- (app_assoc nstr) in Heq.
  cbn [app] in Heq. rewrite <- (app_assoc (escape c)), <- Heq. clear IH Heq Hf.
  cbn [pattern_loop].
  destruct (Z.eqb_spec c 37) as [->|Hc].
  - change (escape 37) with [37; 37]. cbn [app]. rewrite !(proj2 (Nat.ltb_lt _ _)) by (rewrite !length_app; simpl; lia). cbn [negb].
    rewrite char_at_here. cbn [Z.eqb Pos.eqb negb andb].
    replace (char_at _ (length pre + 1)) with 37; [|].
    + cbn [Z.eqb Pos.eqb]. rewrite length_app. done.
    + unfold char_at. by rewrite app_nth2, Nat.add_comm, Nat.add_sub by lia.
  - replace (escape c) with [c] by (unfold escape; by rewrite (proj2 (Z.eqb_neq c 37))). cbn [app].
    rewrite (proj2 (Nat.ltb_lt _ _)) by (rewrite !length_app; simpl; lia). cbn [negb].
    rewrite char_at_here, (proj2 (Z.eqb_neq c 37)) by done. cbn [negb]. rewrite length_app. done.
Qed.

(** The first character after a directive without format is not part of it. *)
Lemma render_head tag ps c r :
  follows (Dir tag None) ps -> pieces_ok ps -> render ps = c :: r -> in_directive c = false.
Proof.
  intros Hfo Hps Hr. destruct ps as [|p ps]; [done|]. destruct Hps as [Hok _].
  unfold render in Hr. rewrite bind_cons in Hr. destruct p as [[|x s]|t [f|]]; cbn in Hok, Hr; [done|..].
  - unfold escape in Hr. destruct (Z.eqb_spec x 37) as [->|]; by simplify_eq/=.
  - by simplify_eq/=.
  - by simplify_eq/=.
Qed.

(** The outer loop at a directive whose inner loop ends. *)
Lemma pattern_loop_dir fuel pre x rest n tag f nstr vec cout :
  isalpha x = true ->
  let pat := pre ++ 37 :: x :: rest in
  directive_loop (S (length pat)) pat (length pre) (length pre + 1) false 0 [] [] =
    Ret (n, false, tag, f) -> (0 < n)%nat ->
  pattern_loop (S fuel) pat (length pre) nstr vec cout =
  pattern_loop fuel pat n [] (flush nstr vec ++ [Entry tag f true]) cout.
Proof.
  intros Hx pat Hd Hn. destruct (isalpha_not x Hx) as (_ & _ & Hx37). cbn [pattern_loop].
  rewrite (proj2 (Nat.ltb_lt (length pre) _)) by (unfold pat; rewrite length_app; simpl; lia).
  replace (char_at pat (length pre)) with 37 by (unfold pat; by rewrite char_at_here).
  cbn [Z.eqb Pos.eqb negb].
  replace (char_at pat (length pre + 1)) with x
    by (unfold pat, char_at; by rewrite app_nth2, Nat.add_comm, Nat.add_sub by lia).
  rewrite Hx37, andb_false_r, Hd. cbn. by replace (n - 1 + 1)%nat with n by lia.
Qed.

Lemma flush_nil vec : flush [] vec = vec.
Proof. done. Qed.

Lemma flush_cons s vec : s <> [] -> flush s vec = vec ++ [Entry s [] false].
Proof. intros. unfold flush. by rewrite bool_decide_false. Qed.

Lemma pattern_loop_render ps : pieces_ok ps -> forall fuel pre nstr vec,
  (length (render ps) < fuel)%nat -> (nstr <> [] -> follows (Lit nstr) ps) ->
  pattern_loop fuel (pre ++ render ps) (length pre) nstr vec [] =
  Ret (flush nstr vec ++ (piece_entry <$> ps), []).
Proof.
  induction ps as [|p ps IH]; intros Hok fuel pre nstr vec Hf Hns.
  { destruct fuel; [lia|]. cbn [pattern_loop]. rewrite app_nil_r.
    by rewrite Nat.ltb_irrefl, fmap_nil, app_nil_r. }
  destruct Hok as (Hp & Hfo & Hok). specialize (IH Hok).
  unfold render in *. rewrite bind_cons in *. destruct p as [s|tag fm].
  - assert (nstr = []) as -> by (destruct nstr; [done|destruct (Hns ltac:(done))]).
    cbn [render_piece].
    destruct (pattern_loop_lit fuel pre s (ps ≫= render_piece) [] vec [] Hf) as (fuel' & Hf' & ->).
    rewrite (app_assoc pre), IH; [|done|by intros]. cbn [app] in Hp |- *.
    by rewrite flush_nil, flush_cons, fmap_cons, <- app_assoc.
  - destruct Hp as (Hne & Ht & Hfm). destruct tag as [|x tag]; [done|].
    destruct fuel as [|fuel]; [lia|]. pose proof (Forall_inv Ht) as Hx. cbv beta in Hx.
    assert (forall q d f', d = q ++ (ps ≫= render_piece) -> q <> [] -> (length d < S fuel)%nat ->
      pattern_loop fuel (pre ++ d) (length (pre ++ q)) [] (flush nstr vec ++ [Entry (x :: tag) f' true]) [] =
      Ret (flush nstr vec ++ Entry (x :: tag) f' true :: (piece_entry <$> ps), [])) as Hrest.
    { intros q d f' -> Hq Hl. rewrite (app_assoc pre), IH; [by rewrite flush_nil, <- app_assoc| |done].
      rewrite length_app in Hl. destruct q; [done|simpl in Hl; lia]. }
    rewrite fmap_cons. cbn [piece_entry]. destruct fm as [f|]; cbn [render_piece default app] in *.
    + rewrite (pattern_loop_dir fuel pre x _ (length (pre ++ 37 :: x :: tag ++ 123 :: f ++ [125]))
        (x :: tag) f); [|done| |rewrite length_app; simpl; lia].
      * by apply Hrest.
      * pose proof (directive_loop_some pre (x :: tag) f (ps ≫= render_piece) ltac:(done) Ht Hfm) as Hd.
        cbn [app] in Hd. by rewrite <- app_assoc; cbn [app]; rewrite <- app_assoc.
    + rewrite (pattern_loop_dir fuel pre x _ (length (pre ++ 37 :: x :: tag)) (x :: tag) []);
        [|done| |rewrite length_app; simpl; lia].
      * by apply Hrest.
      * apply (directive_loop_none pre (x :: tag) (ps ≫= render_piece)); [done..|].
        intros c r Hr. by apply (render_head (x :: tag) ps c r).
Qed.

Lemma pattern_render_ok ps : pieces_ok ps ->
  formatter_init (render ps) = Ret ((piece_entry <$> ps) ≫= entry_item, []).
Proof.
  intros Hok. unfold formatter_init.
  pose proof (pattern_loop_render ps Hok (S (length (render ps))) [] [] [] ltac:(lia) ltac:(done)) as H.
  cbn [app length] in H. by rewrite H.
Qed.

(** ** The theorems *)

(** C37: Every pattern is parsed: the constructor of the formatter returns for every string,
    also for directives that are not closed or not known, a bare percent sign at the end and
    the empty pattern, and each of the two loops needs at most one round more than the
    pattern has characters. *)
Theorem pattern_parse_ends pat :
  exists f cout, new_LogFormatter pat = Ret (f, cout) /\
    (pat <> [] -> m_pattern f = pat).
Proof.
  unfold new_LogFormatter.
  destruct (formatter_init_ends (if bool_decide (pat = []) then default_pattern else pat))
    as [[items cout] ->]. cbn. eexists _, _. split; [done|]. intros. cbn. by rewrite bool_decide_false.
Qed.

(** C28: A pattern reads back what it was written from: a sequence of literal texts, with
    every percent sign doubled, and directives of letters, with a format in braces or
    without, is parsed into one item per text and per known directive, in order and with its
    format, and nothing is reported; unknown directives leave no item. *)
Theorem pattern_roundtrip ps : pieces_ok ps ->
  formatter_init (render ps) = Ret ((piece_entry <$> ps) ≫= entry_item, []).
Proof. apply pattern_render_ok. Qed.

Lemma pattern_roundtrip_witness :
  formatter_init (str "%d{%H:%M}100%% %p: %m%n") =
  Ret ([DateTimeFormatItem (str "%H:%M"); StringFormatItem (str "100% "); LevelFormatItem [];
        StringFormatItem (str ": "); MessageFormatItem []; NewLineFormatItem []], []).
Proof.
  apply (pattern_roundtrip
    [Dir (str "d") (Some (str "%H:%M")); Lit (str "100% "); Dir (str "p") None; Lit (str ": ");
     Dir (str "m") None; Dir (str "n") None]).
  cbn. repeat split; try done; repeat constructor; done.
Defined.

(** What a letter after a directive does: it is taken as part of it, and the directive is
    dropped as unknown; a directive that is not closed is reported before the text that
    precedes it. *)
Example directive_takes_letters : formatter_init (str "%ms") = Ret ([], []).
Proof. vm_compute. reflexivity. Qed.

Example directive_not_closed :
  formatter_init (str "at %d{H") =
  Ret ([StringFormatItem (str "<<pattern_error>>"); StringFormatItem (str "at d{H")],
       str "pattern parse error: at %d{H - %d{H" ++ [10]).
Proof. vm_compute. reflexivity. Qed.

(** The fraction that follows the date is the number of seconds modulo 1000: it does not
    depend on the milliseconds of the event. *)
Lemma datetime_ignores_milliseconds strftime_local fmt s k :
  0 <= s -> 0 <= k < 1000 ->
  datetime_format strftime_local fmt (1000 * s + k) =
  datetime_format strftime_local fmt (1000 * s).
Proof.
  intros. unfold datetime_format.
  by replace (Z.quot (1000 * s + k) 1000) with (Z.quot (1000 * s) 1000)
    by (rewrite !Z.quot_div_nonneg by lia; Z.to_euclidean_division_equations; lia).
Qed.
