(* ===== verification/Log.v ===== *)
(** * Loggers ([log.h], [log.cc]: appenders, [Logger], [LoggerMgr])

    Loggers and appenders are shared objects in a store by address, and the manager maps
    names to loggers.  What a stream of the standard library was given counts as written:
    [cout] is the text given to standard output, and the stream of a file appender keeps the
    texts it was given with the file that was open. *)

From stdpp Require Import base list numbers strings gmap.
From Stdlib Require Import Lia ZArith.
From S2P Require Import Prelude LogFormatter.

(** ** State *)

(** [std::ofstream]: the file that is open, whether the stream is good, and what it wrote. *)
Record ofstream := MkOfstream {
  fs_open : option bytes;
  fs_good : bool;
  fs_out : list (bytes * bytes) }.

Record FileLogAppender := MkFileLogAppender {
  fa_formatter : LogFormatter;
  fa_level : Level;
  m_path : bytes;
  m_interval : Z;
  m_start_time : Z;
  m_end_time : Z;
  m_filestream : ofstream }.

Inductive LogAppender :=
| StdOutLogAppender (m_formatter : LogFormatter) (m_level : Level)
| FileAppender (a : FileLogAppender).

Abbreviation addr := Z.

Record Logger := MkLogger {
  m_name : bytes;
  m_level : Level;
  m_appenders : list addr }.

(** The program's loggers with what the environment gives them: the time in seconds, the
    files that can be opened, the streams that can write, and the fields of an event that is
    created now. *)
Record World := MkWorld {
  now : Z;
  can_open : bytes -> bool;
  can_write : bytes -> bool;
  ctx_thread_id : Z;
  ctx_co_id : Z;
  ctx_time : Z;
  ctx_thread_name : bytes;
  cout : bytes;
  appenders : gmap addr LogAppender;
  loggers : gmap addr Logger;
  m_logger_map : gmap bytes addr;
  next : addr }.

Definition set_cout (c : bytes) (w : World) : World :=
  MkWorld (now w) (can_open w) (can_write w) (ctx_thread_id w) (ctx_co_id w) (ctx_time w)
    (ctx_thread_name w) c (appenders w) (loggers w) (m_logger_map w) (next w).

Definition set_appenders (m : gmap addr LogAppender) (w : World) : World :=
  MkWorld (now w) (can_open w) (can_write w) (ctx_thread_id w) (ctx_co_id w) (ctx_time w)
    (ctx_thread_name w) (cout w) m (loggers w) (m_logger_map w) (next w).

Definition set_loggers (m : gmap addr Logger) (w : World) : World :=
  MkWorld (now w) (can_open w) (can_write w) (ctx_thread_id w) (ctx_co_id w) (ctx_time w)
    (ctx_thread_name w) (cout w) (appenders w) m (m_logger_map w) (next w).

Definition set_logger_map (m : gmap bytes addr) (w : World) : World :=
  MkWorld (now w) (can_open w) (can_write w) (ctx_thread_id w) (ctx_co_id w) (ctx_time w)
    (ctx_thread_name w) (cout w) (appenders w) (loggers w) m (next w).

Definition set_next (n : addr) (w : World) : World :=
  MkWorld (now w) (can_open w) (can_write w) (ctx_thread_id w) (ctx_co_id w) (ctx_time w)
    (ctx_thread_name w) (cout w) (appenders w) (loggers w) (m_logger_map w) n.

Abbreviation Event := (LogEvent addr).

Definition print (t : bytes) : meth World unit := fun w => (Ret (), set_cout (cout w ++ t) w).

(** A result as a method that does not change the state. *)
Definition lift {S A} (r : res A) : meth S A := fun s => (r, s).

(** An object behind a pointer. *)
Definition deref {A} (f : World -> gmap addr A) (p : addr) : meth World A :=
  fun w => (match f w !! p with Some a => Ret a | None => Undef NullDeref end, w).

Definition put_appender (p : addr) (a : LogAppender) : meth World unit :=
  fun w => (Ret (), set_appenders (<[p := a]> (appenders w)) w).
Definition put_logger (p : addr) (l : Logger) : meth World unit :=
  fun w => (Ret (), set_loggers (<[p := l]> (loggers w)) w).

(** [std::make_shared]. *)
Definition alloc : meth World addr := fun w => (Ret (next w), set_next (next w + 1) w).

(** ** File streams *)

(** [close()]: a stream that is not open fails. *)
Definition fs_close (fs : ofstream) : ofstream :=
  match fs_open fs with
  | None => MkOfstream None false (fs_out fs)
  | Some _ => MkOfstream None (fs_good fs) (fs_out fs)
  end.

(** [open(path, app)]: a stream that is open fails; a success clears the state. *)
Definition fs_open_file (can_open : bytes -> bool) (path : bytes) (fs : ofstream) : ofstream :=
  match fs_open fs with
  | Some p => MkOfstream (Some p) false (fs_out fs)
  | None =>
      if can_open path then MkOfstream (Some path) true (fs_out fs)
      else MkOfstream None false (fs_out fs)
  end.

(** [fs << text]: a stream that is not good writes nothing. *)
Definition fs_write (can_write : bytes -> bool) (text : bytes) (fs : ofstream) : ofstream :=
  match fs_open fs with
  | Some p =>
      if fs_good fs then
        if can_write p then MkOfstream (Some p) true (fs_out fs ++ [(p, text)])
        else MkOfstream (Some p) false (fs_out fs)
      else fs
  | None => MkOfstream None false (fs_out fs)
  end.

Section Log.
Context (strftime_local : bytes -> Z -> bytes).
(** [__FILE__] of [log.cc]. *)
Context (file_log_cc : bytes).

(** ** Appenders *)

(** The file for a time: [m_path].log.[date and hour]. *)
Definition file_name (path : bytes) (t : Z) : res bytes :=
  let buf := strftime_local (str "%Y_%m_%d_%H") t in
  if 64 <=? zlen buf then Undef BufferOverflow else Ret (path ++ str ".log." ++ buf).

Definition open_file (second : Z) (can_open : bytes -> bool) (a : FileLogAppender)
    : res (bool * FileLogAppender) :=
  let fs := m_filestream a in
  let fs := if fs_good fs then fs_close fs else fs in
  let start := second in
  let end_ := to_signed 64 (start + m_interval a) in
  let? tmp_path := file_name (m_path a) start in
  let fs := fs_open_file can_open tmp_path fs in
  Ret (fs_good fs, MkFileLogAppender (fa_formatter a) (fa_level a) (m_path a) (m_interval a) start end_ fs).

Definition new_FileLogAppender (second : Z) (can_open : bytes -> bool) (formatter : LogFormatter)
    (level : Level) (path : bytes) (interval : Z) : res FileLogAppender :=
  let start := second - Z.rem second 3600 in
  let interval := if interval <? 3600 then 3600 else interval / 3600 * 3600 in
  let? r := open_file second can_open
    (MkFileLogAppender formatter level path interval start 0 (MkOfstream None true [])) in
  Ret r.2.

Definition file_log (logger_name : bytes) (level : Level) (event : Event) (second : Z)
    (can_open can_write : bytes -> bool) (a : FileLogAppender) : res FileLogAppender :=
  if negb (level_ge level (fa_level a)) then Ret a
  else
    let? a :=
      if m_end_time a <? second then let? r := open_file second can_open a in Ret r.2 else Ret a in
    let? text := format_items strftime_local (m_items (fa_formatter a)) logger_name level event in
    Ret (MkFileLogAppender (fa_formatter a) (fa_level a) (m_path a) (m_interval a) (m_start_time a)
      (m_end_time a) (fs_write can_write text (m_filestream a))).

(** [appender->log(logger, level, event)]. *)
Definition appender_log (p : addr) (logger_name : bytes) (level : Level) (event : Event)
    : meth World unit :=
  let! a := deref appenders p in
  match a with
  | StdOutLogAppender f l =>
      if negb (level_ge level l) then ret ()
      else let! text := lift (format_items strftime_local (m_items f) logger_name level event) in
           print text
  | FileAppender fa =>
      let! w := gets (fun w => w) in
      let! fa := lift (file_log logger_name level event (now w) (can_open w) (can_write w) fa) in
      put_appender p (FileAppender fa)
  end.

(** ** Loggers *)

Definition add_appender (p : addr) (appender : addr) : meth World unit :=
  let! l := deref loggers p in
  put_logger p (MkLogger (m_name l) (m_level l) (m_appenders l ++ [appender])).

Fixpoint add_appenders (p : addr) (appenders : list addr) : meth World unit :=
  match appenders with
  | [] => ret ()
  | a :: appenders => let! _ := add_appender p a in add_appenders p appenders
  end.

(** The list without the first element that is the appender. *)
Fixpoint erase_first (a : addr) (l : list addr) : list addr :=
  match l with
  | [] => []
  | b :: l => if b =? a then l else b :: erase_first a l
  end.

Definition del_appender (p : addr) (appender : addr) : meth World unit :=
  let! l := deref loggers p in
  put_logger p (MkLogger (m_name l) (m_level l) (erase_first appender (m_appenders l))).

Fixpoint log_loop (logger_name : bytes) (level : Level) (event : Event) (ps : list addr)
    : meth World unit :=
  match ps with
  | [] => ret ()
  | p :: ps =>
      let! _ := appender_log p logger_name level event in log_loop logger_name level event ps
  end.

Definition logger_log (p : addr) (level : Level) (event : Event) : meth World unit :=
  let! l := deref loggers p in
  if negb (level_ge level (m_level l)) then ret ()
  else log_loop (m_name l) level event (m_appenders l).

Definition logger_debug (p : addr) (event : Event) : meth World unit := logger_log p DEBUG event.
Definition logger_info (p : addr) (event : Event) : meth World unit := logger_log p INFO event.
Definition logger_warn (p : addr) (event : Event) : meth World unit := logger_log p WARN event.
Definition logger_error (p : addr) (event : Event) : meth World unit := logger_log p ERROR event.

(** The destructor of [LogEventWarp]. *)
Definition event_done (event : Event) : meth World unit :=
  logger_log (m_logger event) (e_level event) event.

(** ** The manager *)

Definition get_logger_by (logger_name : bytes) : meth World addr :=
  fun w =>
    match m_logger_map w !! logger_name with
    | Some p => (Ret p, w)
    | None =>
        match m_logger_map w !! str "ROOT" with
        | Some p => (Ret p, w)
        | None => (Throw out_of_range, w)
        end
    end.

(** [TIGER_LOG_LEVEL(get_logger_by(name), level) << text] at a line of a file. *)
Definition tiger_log (name : bytes) (level : Level) (file : bytes) (line : Z) (text : bytes)
    : meth World unit :=
  let! logger := get_logger_by name in
  let! w := gets (fun w => w) in
  event_done (MkLogEvent logger level file line (ctx_thread_id w) (ctx_co_id w) (ctx_time w)
    (ctx_thread_name w) text).

Definition add_logger (p : addr) : meth World bool :=
  let! l := deref loggers p in
  let! w := gets (fun w => w) in
  match m_logger_map w !! m_name l with
  | Some _ =>
      let! _ := tiger_log (str "SYSTEM") WARN file_log_cc 590 (m_name l ++ str " logger has exist") in
      ret false
  | None => fun w => (Ret true, set_logger_map (<[m_name l := p]> (m_logger_map w)) w)
  end.

Definition del_logger (logger_name : bytes) : meth World bool :=
  fun w =>
    if bool_decide (logger_name = []) then (Ret false, w)
    else match m_logger_map w !! logger_name with
         | None => (Ret false, w)
         | Some _ => (Ret true, set_logger_map (delete logger_name (m_logger_map w)) w)
         end.

Definition make_logger (name : bytes) (level : Level) : meth World addr :=
  let! p := alloc in
  let! _ := put_logger p (MkLogger name level []) in
  ret p.

Definition make_formatter (pattern : bytes) : meth World LogFormatter :=
  let! (f, out) := lift (new_LogFormatter pattern) in
  let! _ := print out in
  ret f.

Definition make_appender (a : LogAppender) : meth World addr :=
  let! p := alloc in
  let! _ := put_appender p a in
  ret p.

(** The constructor of the manager. *)
Definition new_LoggerMgr : meth World unit :=
  let! logger := make_logger (str "ROOT") DEBUG in
  let! formatter := make_formatter [] in
  let! std_out_appender := make_appender (StdOutLogAppender formatter DEBUG) in
  let! _ := add_appender logger std_out_appender in
  let! _ := add_logger logger in
  ret ().

(** [AppenderDefine] and [LoggerDefine]. *)
Record AppenderDefine := MkAppenderDefine {
  ad_type : bytes;
  ad_level : Level;
  ad_file : bytes;
  ad_interval : Z }.

Record LoggerDefine := MkLoggerDefine {
  ld_name : bytes;
  ld_level : Level;
  ld_formater : bytes;
  ld_appenders : list AppenderDefine }.

Definition appender_to_string (d : AppenderDefine) : bytes :=
  str "[" ++ ad_type d ++ str "," ++ Level_ToString (ad_level d) ++ str "," ++ ad_file d ++ str "," ++
  sdec (ad_interval d) ++ str "]".

Definition logger_to_string (d : LoggerDefine) : bytes :=
  str "[" ++ [10; 9] ++ str "name:" ++ ld_name d ++ [10; 9] ++ str "level:" ++
  sdec (level_num (ld_level d)) ++ [10; 9] ++ str "formater:" ++ ld_formater d ++ [10; 9] ++
  str "appenders:" ++ (ld_appenders d ≫= fun it => [10; 9; 9] ++ appender_to_string it) ++
  [10] ++ str "]".

(** One appender of a definition: the interval of the definition is not passed on. *)
Definition define_appender (formatter : LogFormatter) (it : AppenderDefine) : meth World addr :=
  if bool_decide (ad_type it = str "FileLogAppender") then
    let! w := gets (fun w => w) in
    let! a := lift (new_FileLogAppender (now w) (can_open w) formatter (ad_level it) (ad_file it) 7200) in
    make_appender (FileAppender a)
  else make_appender (StdOutLogAppender formatter (ad_level it)).

Fixpoint define_appenders (logger : addr) (formatter : LogFormatter) (its : list AppenderDefine)
    : meth World unit :=
  match its with
  | [] => ret ()
  | it :: its =>
      let! a := define_appender formatter it in
      let! _ := add_appender logger a in
      define_appenders logger formatter its
  end.

Definition add_logger_def (def : LoggerDefine) : meth World bool :=
  let! logger := make_logger (ld_name def) (ld_level def) in
  let! formatter := make_formatter (ld_formater def) in
  let! _ := define_appenders logger formatter (ld_appenders def) in
  add_logger logger.

(** The loop of [add_loggers] over the definitions of the configuration. *)
Fixpoint add_logger_defs (defs : list LoggerDefine) (suc : bool) : meth World bool :=
  match defs with
  | [] => ret suc
  | it :: defs => let! b := add_logger_def it in add_logger_defs defs (b && suc)
  end.
End Log.
