(* ===== verification/LogProps.v ===== *)
(** * Loggers: events reach their appenders, files rotate, the manager finds loggers *)

From stdpp Require Import base list numbers strings gmap.
From Stdlib Require Import Lia ZArith.
From S2P Require Import Prelude LogFormatter LogFormatterProps Log.

Lemma list_bind_ext_in {A B} (f g : A -> list B) l :
  (forall x, x ∈ l -> f x = g x) -> l ≫= f = l ≫= g.
Proof.
  induction l as [|x l IH]; intros H; [done|]. rewrite !bind_cons, H, IH; [done|set_solver..].
Qed.

Section LogProps.
Context (strftime_local : bytes -> Z -> bytes).
Context (file_log_cc : bytes).

#[local] Abbreviation file_name := (file_name strftime_local).
#[local] Abbreviation open_file := (open_file strftime_local).
#[local] Abbreviation file_log := (file_log strftime_local).
#[local] Abbreviation format_items := (format_items strftime_local).

(** ** File appenders *)

(** The stream is good, and open on the file of the time the period began; the period is a
    whole number of hours, at least one. *)
Record file_ok (a : FileLogAppender) : Prop := {
  fok_interval : 3600 <= m_interval a /\ (3600 | m_interval a);
  fok_end : m_end_time a = m_start_time a + m_interval a;
  fok_good : fs_good (m_filestream a) = true;
  fok_open : exists path, file_name (m_path a) (m_start_time a) = Ret path /\
             fs_open (m_filestream a) = Some path }.

Lemma rounded_interval i :
  let i' := if i <? 3600 then 3600 else i / 3600 * 3600 in
  3600 <= i' /\ (3600 | i').
Proof.
  cbv zeta. destruct (Z.ltb_spec i 3600).
  - split; [lia|]. by exists 1.
  - split; [Z.to_euclidean_division_equations; lia|]. by exists (i / 3600).
Qed.

Lemma to_signed_id z : 0 <= z < 2 ^ 63 -> to_signed 64 z = z.
Proof.
  intros. unfold to_signed, wrap. rewrite (Z.mod_small z) by lia.
  by destruct (Z.ltb_spec z (2 ^ (64 - 1))); [|lia].
Qed.

(** Opening gives a good stream when the stream could be closed or was not open. *)
Lemma open_file_ok second can_open a path :
  0 <= second -> second + m_interval a < 2 ^ 63 ->
  3600 <= m_interval a /\ (3600 | m_interval a) ->
  (fs_open (m_filestream a) = None \/ fs_good (m_filestream a) = true) ->
  file_name (m_path a) second = Ret path -> can_open path = true ->
  exists a', open_file second can_open a = Ret (true, a') /\ file_ok a' /\
    m_start_time a' = second /\ m_interval a' = m_interval a /\ m_path a' = m_path a /\
    fa_formatter a' = fa_formatter a /\ fa_level a' = fa_level a /\
    fs_out (m_filestream a') = fs_out (m_filestream a).
Proof.
  intros H0 Hmax [Hi1 Hi2] Hst Hpath Hopen. unfold Log.open_file. rewrite Hpath. cbn [res_bind].
  destruct a as [fm lv p i st en [o g out]]; cbn in *.
  eexists. rewrite to_signed_id by lia. unfold fs_open_file, fs_close.
  destruct Hst as [-> | ->]; [destruct g|destruct o]; cbn; rewrite Hopen; cbn;
    (split; [reflexivity|]); cbn; repeat split; cbn; naive_solver.
Qed.

(** The start of the period in which a text of time [second] falls. *)
Definition period (second : Z) (a : FileLogAppender) : Z :=
  if m_end_time a <? second then second else m_start_time a.

Lemma file_log_ok name level event second can_open can_write a text path :
  file_ok a -> level_ge level (fa_level a) = true ->
  0 <= second -> second + m_interval a < 2 ^ 63 ->
  format_items (m_items (fa_formatter a)) name level event = Ret text ->
  file_name (m_path a) (period second a) = Ret path ->
  can_open path = true -> can_write path = true ->
  exists a', file_log name level event second can_open can_write a = Ret a' /\ file_ok a' /\
    m_start_time a' = period second a /\ m_interval a' = m_interval a /\
    fs_out (m_filestream a') = fs_out (m_filestream a) ++ [(path, text)].
Proof.
  intros Hok Hl H0 Hmax Htext Hpath Hopen Hwrite. unfold Log.file_log, period in *. rewrite Hl. cbn [negb].
  destruct (Z.ltb_spec (m_end_time a) second).
  - destruct (open_file_ok second can_open a path) as (a' & -> & Hok' & Hst & Hi & Hp & Hf & _ & Hout);
      [done|done|apply Hok|right; apply Hok|done|done|].
    cbn. rewrite Hf, Htext. cbn. eexists. split; [reflexivity|]. cbn.
    destruct Hok' as [[Hi1 Hi2] He Hg (path' & Hn & Ho)].
    destruct a' as [fm lv p i st en [o g out]]; cbn in *. subst. unfold fs_write; cbn.
    assert (path' = path) as -> by congruence. rewrite Hwrite. cbn. repeat split; cbn; naive_solver.
  - cbn. rewrite Htext. cbn. eexists. split; [reflexivity|]. cbn.
    destruct Hok as [[Hi1 Hi2] He Hg (path' & Hn & Ho)].
    destruct a as [fm lv p i st en [o g out]]; cbn in *. subst. unfold fs_write; cbn.
    assert (path' = path) as -> by congruence. rewrite Hwrite. cbn. repeat split; cbn; naive_solver.
Qed.

(** A stream that failed to write stays as it is: it is not closed, because it is not good,
    and it cannot be opened, because it is open.  No later text is written, also in later
    periods and when the files can be written again. *)
Lemma failed_stream_stays name level event second can_open can_write a a' p :
  fs_open (m_filestream a) = Some p -> fs_good (m_filestream a) = false ->
  file_log name level event second can_open can_write a = Ret a' ->
  m_filestream a' = m_filestream a.
Proof.
  intros Ho Hg Hlog. unfold Log.file_log, Log.open_file in Hlog.
  destruct (level_ge level (fa_level a)); cbn [negb] in Hlog; [|by simplify_eq].
  destruct a as [fm lv pa i st en [o g out]]; cbn in *; subst.
  destruct (en <? second); cbn in Hlog.
  - unfold fs_open_file in Hlog. cbn in Hlog.
    destruct (file_name pa second); cbn in Hlog; [|done..].
    destruct (format_items (m_items fm) name level event); cbn in Hlog; [|done..].
    by simplify_eq.
  - destruct (format_items (m_items fm) name level event); cbn in Hlog; [|done..].
    by simplify_eq.
Qed.

(** ** Loggers *)

(** The appender writes events of the level. *)
Definition appender_level (a : LogAppender) : Level :=
  match a with StdOutLogAppender _ l => l | FileAppender fa => fa_level fa end.
Definition appender_items (a : LogAppender) : list FormatItem :=
  match a with StdOutLogAppender f _ => m_items f | FileAppender fa => m_items (fa_formatter fa) end.

(** An appender that is ready to write the event [text] in [w]. *)
Definition ready (w : World) (name : bytes) (level : Level) (event : Event) (a : LogAppender) : Prop :=
  (exists text, format_items (appender_items a) name level event = Ret text) /\
  match a with
  | StdOutLogAppender _ _ => True
  | FileAppender fa =>
      file_ok fa /\ 0 <= now w /\ now w + m_interval fa < 2 ^ 63 /\
      exists path, file_name (m_path fa) (period (now w) fa) = Ret path /\
        can_open w path = true /\ can_write w path = true
  end.

Definition text_of (name : bytes) (level : Level) (event : Event) (a : LogAppender) : bytes :=
  match format_items (appender_items a) name level event with Ret t => t | _ => [] end.

(** What an appender gives to standard output. *)
Definition to_cout (name : bytes) (level : Level) (event : Event) (w : World) (p : addr) : bytes :=
  match appenders w !! p with
  | Some (StdOutLogAppender f l) =>
      if level_ge level l then text_of name level event (StdOutLogAppender f l) else []
  | _ => []
  end.

(** What its file got: nothing for a lower level, else the text, in the file of the period. *)
Definition file_got (name : bytes) (level : Level) (event : Event) (w : World) (a a' : LogAppender) : Prop :=
  match a, a' with
  | FileAppender fa, FileAppender fa' =>
      file_ok fa' /\ m_interval fa' = m_interval fa /\
      if level_ge level (fa_level fa) then
        m_start_time fa' = period (now w) fa /\
        exists path, file_name (m_path fa) (period (now w) fa) = Ret path /\
          fs_out (m_filestream fa') = fs_out (m_filestream fa) ++ [(path, text_of name level event a)]
      else fa' = fa
  | _, _ => a' = a
  end.

(** Only the appenders and standard output change. *)
Definition same_env (w w' : World) : Prop :=
  w' = set_cout (cout w') (set_appenders (appenders w') w).

Lemma appender_log_ok w name level event p a :
  appenders w !! p = Some a -> ready w name level event a ->
  exists w' a', appender_log strftime_local p name level event w = (Ret (), w') /\
    same_env w w' /\ cout w' = cout w ++ to_cout name level event w p /\
    appenders w' = <[p := a']> (appenders w) /\ file_got name level event w a a'.
Proof.
  intros Hp [[text Ht] Hr]. unfold appender_log, deref, bind, to_cout. rewrite Hp.
  assert (text_of name level event a = text) as Htx by (unfold text_of; by rewrite Ht).
  destruct a as [f l|fa]; cbn [appender_items] in Ht.
  - rewrite Htx. destruct (level_ge level l); cbn [negb].
    + unfold lift, print. rewrite Ht. eexists _, (StdOutLogAppender f l). split; [done|].
      cbn. rewrite insert_id by done. by destruct w.
    + eexists _, (StdOutLogAppender f l). split; [done|]. cbn.
      rewrite insert_id, app_nil_r by done. by destruct w.
  - destruct Hr as (Hok & H0 & Hmax & path & Hpath & Hopen & Hwrite). unfold gets, lift.
    destruct (level_ge level (fa_level fa)) eqn:Hl.
    + destruct (file_log_ok name level event (now w) (can_open w) (can_write w) fa text path)
        as (fa' & Hlog & Hok' & Hst & Hi & Hout); [done..|].
      rewrite Hlog. eexists _, (FileAppender fa'). split; [done|]. cbn. rewrite app_nil_r.
      split; [by destruct w|]. split; [done|]. split; [done|]. rewrite Hl, Htx. eauto 10.
    + assert (file_log name level event (now w) (can_open w) (can_write w) fa = Ret fa) as Hlog
        by (unfold Log.file_log; by rewrite Hl).
      rewrite Hlog. eexists _, (FileAppender fa). split; [done|]. cbn. rewrite app_nil_r, Hl.
      by destruct w.
Qed.

Lemma same_env_now w w' : same_env w w' -> now w' = now w /\ can_open w' = can_open w /\ can_write w' = can_write w.
Proof. intros ->. done. Qed.

Lemma ready_same w w' name level event a :
  same_env w w' -> ready w name level event a -> ready w' name level event a.
Proof. intros [Hn [Ho Hw]]%same_env_now. unfold ready. by rewrite Hn, Ho, Hw. Qed.

Lemma file_got_same w w' name level event a a' :
  same_env w w' -> file_got name level event w' a a' -> file_got name level event w a a'.
Proof. intros [Hn _]%same_env_now. unfold file_got. by rewrite Hn. Qed.

Lemma log_loop_ok name level event ps : NoDup ps -> forall w,
  (forall p, p ∈ ps -> exists a, appenders w !! p = Some a /\ ready w name level event a) ->
  exists w', log_loop strftime_local name level event ps w = (Ret (), w') /\ same_env w w' /\
    cout w' = cout w ++ (ps ≫= to_cout name level event w) /\
    forall p, if bool_decide (p ∈ ps)
      then exists a a', appenders w !! p = Some a /\ appenders w' !! p = Some a' /\
             file_got name level event w a a'
      else appenders w' !! p = appenders w !! p.
Proof.
  induction 1 as [|p ps Hnew _ IH]; intros w Hr.
  { exists w. split; [done|]. split; [by destruct w|]. split; [by rewrite app_nil_r|].
    intros p. by rewrite bool_decide_false by set_solver. }
  destruct (Hr p) as (a & Ha & Hra); [set_solver|].
  destruct (appender_log_ok w name level event p a Ha Hra) as (w1 & a1 & Hlog & Henv & Hcout & Happ & Hgot).
  assert (forall q, q <> p -> appenders w1 !! q = appenders w !! q) as Hother
    by (intros q Hq; by rewrite Happ, lookup_insert_ne).
  destruct (IH w1) as (w2 & Hlog2 & Henv2 & Hcout2 & Happ2).
  { intros q Hq. destruct (Hr q) as (b & Hb & Hrb); [set_solver|]. exists b.
    rewrite Hother by set_solver. split; [done|]. by apply (ready_same w). }
  exists w2. cbn [log_loop]. unfold bind. rewrite Hlog. split; [done|]. split.
  { unfold same_env in *. rewrite Henv2, Henv. by destruct w. }
  split.
  { rewrite Hcout2, Hcout, <- app_assoc, bind_cons. do 2 f_equal.
    apply list_bind_ext_in. intros q Hq. unfold to_cout. by rewrite Hother by set_solver. }
  intros q. specialize (Happ2 q). destruct (decide (q = p)) as [->|Hne].
  - rewrite bool_decide_false in Happ2 by done. rewrite bool_decide_true by set_solver.
    exists a, a1. rewrite Happ2, Happ, lookup_insert_eq. done.
  - destruct (decide (q ∈ ps)).
    + rewrite bool_decide_true in Happ2 by done. rewrite bool_decide_true by (by right).
      destruct Happ2 as (b & b' & Hb & Hb' & Hg). exists b, b'.
      rewrite <- Hother by done. split; [done|]. split; [done|]. by apply (file_got_same w w1).
    + rewrite bool_decide_false in Happ2 by done. rewrite bool_decide_false by (by intros [?|?]%elem_of_cons).
      by rewrite Happ2, Hother.
Qed.

(** ** The manager *)

(** Every name of the map leads to a logger of that name, and [ROOT] is there. *)
Record mgr_ok (w : World) : Prop := {
  mok_root : is_Some (m_logger_map w !! str "ROOT");
  mok_names n p : m_logger_map w !! n = Some p -> exists l, loggers w !! p = Some l /\ m_name l = n;
  mok_fresh p l : loggers w !! p = Some l -> p < next w;
  mok_fresh_app p a : appenders w !! p = Some a -> p < next w }.

Lemma get_logger_by_ok w name : mgr_ok w ->
  exists p l, get_logger_by name w = (Ret p, w) /\ loggers w !! p = Some l /\
    m_name l = if bool_decide (is_Some (m_logger_map w !! name)) then name else str "ROOT".
Proof.
  intros Hok. unfold get_logger_by. destruct (m_logger_map w !! name) as [p|] eqn:Hn.
  - destruct (mok_names w Hok name p Hn) as (l & Hl & Hm). by exists p, l.
  - destruct (mok_root w Hok) as [p Hp]. rewrite Hp.
    destruct (mok_names w Hok _ p Hp) as (l & Hl & Hm). exists p, l. split; [done|].
    by rewrite bool_decide_false by (by intros [??]).
Qed.

Lemma add_logger_new w p l : mgr_ok w -> loggers w !! p = Some l -> m_logger_map w !! m_name l = None ->
  exists w', add_logger strftime_local file_log_cc p w = (Ret true, w') /\ mgr_ok w' /\
    m_logger_map w' = <[m_name l := p]> (m_logger_map w) /\ loggers w' = loggers w.
Proof.
  intros [Hr Hn Hf Hfa] Hl Hnone. unfold add_logger, deref, gets, bind. rewrite Hl, Hnone.
  eexists. split; [done|]. cbn. split; [|done]. split; cbn; [| |done..].
  - rewrite lookup_insert_is_Some'. by right.
  - intros n q [[<- <-]|[? ?]]%lookup_insert_Some; eauto.
Qed.

Lemma del_logger_ok w name : mgr_ok w -> name <> str "ROOT" ->
  exists w', del_logger name w =
      (Ret (bool_decide (name <> []) && bool_decide (is_Some (m_logger_map w !! name))), w') /\
    mgr_ok w' /\ loggers w' = loggers w /\
    (name <> [] -> m_logger_map w' = delete name (m_logger_map w)).
Proof.
  intros Hok Hne. unfold del_logger. destruct (bool_decide_reflect (name = [])) as [->|Hnn].
  { exists w. by split. }
  rewrite (bool_decide_true (name <> [])) by done. cbn [andb].
  destruct (m_logger_map w !! name) as [p|] eqn:Hp.
  - eexists. split; [done|]. destruct Hok as [Hr Hn Hf Hfa]. split; [|done]. split; cbn; [| |done..].
    + by rewrite lookup_delete_ne.
    + intros n q [_ ?]%lookup_delete_Some. eauto.
  - exists w. rewrite bool_decide_false by (by intros [??]). split; [done|]. split; [done|]. split; [done|].
    intros _. symmetry. by apply delete_id.
Qed.

(** ** Loggers from definitions *)

(** An appender as its definition says; a file is rotated every two hours. *)
Definition built (pattern : bytes) (d : AppenderDefine) (a : LogAppender) : Prop :=
  match a with
  | StdOutLogAppender f l => ad_type d <> str "FileLogAppender" /\ l = ad_level d /\ m_pattern f = pattern
  | FileAppender fa =>
      ad_type d = str "FileLogAppender" /\ fa_level fa = ad_level d /\
      m_path fa = ad_file d /\ m_interval fa = 7200 /\ m_pattern (fa_formatter fa) = pattern
  end.

(** Addresses below [next] only. *)
Definition fresh (w : World) : Prop :=
  (forall p l, loggers w !! p = Some l -> p < next w) /\
  (forall p a, appenders w !! p = Some a -> p < next w).

Context (strftime_fits : forall t, zlen (strftime_local (str "%Y_%m_%d_%H") t) < 64).

Lemma new_FileLogAppender_returns second can_open f level path interval :
  exists fa, new_FileLogAppender strftime_local second can_open f level path interval = Ret fa /\
    fa_level fa = level /\ m_path fa = path /\ fa_formatter fa = f /\
    m_interval fa = (if interval <? 3600 then 3600 else interval / 3600 * 3600).
Proof.
  unfold new_FileLogAppender, Log.open_file, Log.file_name. cbn [m_path m_interval].
  destruct (Z.leb_spec 64 (zlen (strftime_local (str "%Y_%m_%d_%H") second))) as [Hlen|_];
    [pose proof (strftime_fits second); lia|].
  cbn [res_bind]. eexists. split; [reflexivity|]. done.
Qed.

Lemma define_appender_ok f it w : fresh w ->
  exists w' a, define_appender strftime_local f it w = (Ret (next w), w') /\
    appenders w' = <[next w := a]> (appenders w) /\ built (m_pattern f) it a /\
    loggers w' = loggers w /\ m_logger_map w' = m_logger_map w /\ next w' = next w + 1 /\ fresh w'.
Proof.
  intros [Hl Ha]. unfold define_appender, make_appender, alloc, put_appender, gets, lift, bind.
  assert (forall a, fresh (set_appenders (<[next w := a]> (appenders w)) (set_next (next w + 1) w))) as Hfr.
  { intros a. split; cbn.
    - intros p l Hp. specialize (Hl p l Hp). lia.
    - intros p b [[<- _]|[_ Hp]]%lookup_insert_Some; [lia|]. specialize (Ha p b Hp). lia. }
  destruct (bool_decide_reflect (ad_type it = str "FileLogAppender")) as [Hty|Hty].
  - destruct (new_FileLogAppender_returns (now w) (can_open w) f (ad_level it) (ad_file it) 7200)
      as (fa & -> & Hlv & Hpa & Hfm & Hi).
    eexists _, (FileAppender fa). split; [reflexivity|]. cbn. rewrite Hfm, Hi. eauto 12.
  - eexists _, (StdOutLogAppender f (ad_level it)). split; [reflexivity|]. cbn. eauto 12.
Qed.

Lemma define_appenders_ok f its : forall w p l, fresh w -> loggers w !! p = Some l ->
  exists w' qs, define_appenders strftime_local p f its w = (Ret (), w') /\ fresh w' /\
    loggers w' = <[p := MkLogger (m_name l) (m_level l) (m_appenders l ++ qs)]> (loggers w) /\
    m_logger_map w' = m_logger_map w /\ next w <= next w' /\ appenders w ⊆ appenders w' /\
    Forall2 (fun q it => exists a, appenders w' !! q = Some a /\ built (m_pattern f) it a) qs its.
Proof.
  induction its as [|it its IH]; intros w p l Hfr Hl.
  { exists w, []. cbn. rewrite app_nil_r, insert_id; [|by destruct l].
    split; [done|]. split; [done|]. split; [done|]. split; [done|]. split; [lia|]. split; [done|constructor]. }
  destruct (define_appender_ok f it w Hfr) as (w1 & a & Hd & Happ & Hb & Hlg & Hm & Hnx & Hfr1).
  set (l2 := MkLogger (m_name l) (m_level l) (m_appenders l ++ [next w])).
  set (w2 := set_loggers (<[p := l2]> (loggers w1)) w1).
  assert (fresh w2) as Hfr2.
  { destruct Hfr as [Hf1 _], Hfr1 as [Hf3 Hf4]. split; [|exact Hf4]. cbn.
    intros q lq [[<- _]|[_ Hq]]%lookup_insert_Some; [|by apply Hf3 with lq].
    specialize (Hf1 p l Hl). lia. }
  destruct (IH w2 p l2 Hfr2) as (w3 & qs & Hds & Hfr3 & Hlg3 & Hm3 & Hn3 & Hsub & Hall);
    [by cbn; rewrite lookup_insert_eq|].
  exists w3, (next w :: qs). cbn [define_appenders]. unfold bind at 1. rewrite Hd.
  unfold bind, add_appender, deref, bind, put_logger. rewrite Hlg, Hl.
  rewrite <- Hlg at 1. fold l2. fold w2. split; [done|]. split; [done|].
  cbn [l2 w2 m_name m_level m_appenders loggers set_loggers m_logger_map next appenders] in *.
  rewrite Hlg3, Hlg, insert_insert_eq, <- app_assoc. split; [done|]. split; [by rewrite Hm3|].
  split; [lia|]. split.
  - rewrite <- Hsub, Happ. apply insert_subseteq. destruct (appenders w !! next w) as [b|] eqn:Hb'; [|done].
    apply Hfr in Hb'. lia.
  - constructor; [|done]. exists a. split; [|done].
    eapply lookup_weaken; [|exact Hsub]. by rewrite Happ, lookup_insert_eq.
Qed.

Lemma make_formatter_ok pattern w : exists f out, make_formatter pattern w = (Ret f, set_cout (cout w ++ out) w) /\
  m_pattern f = if bool_decide (pattern = []) then default_pattern else pattern.
Proof.
  unfold make_formatter, lift, print, bind, new_LogFormatter.
  destruct (formatter_init_ends (if bool_decide (pattern = []) then default_pattern else pattern))
    as [[items out] ->]. cbn. eauto.
Qed.

Lemma mgr_ok_fresh w : mgr_ok w -> fresh w.
Proof. intros [_ _ H1 H2]. by split. Qed.

Lemma add_logger_def_ok def w : mgr_ok w -> m_logger_map w !! ld_name def = None ->
  exists w' p l, add_logger_def strftime_local file_log_cc def w = (Ret true, w') /\ mgr_ok w' /\
    m_logger_map w' = <[ld_name def := p]> (m_logger_map w) /\
    loggers w' !! p = Some l /\ m_name l = ld_name def /\ m_level l = ld_level def /\
    Forall2 (fun q it => exists a, appenders w' !! q = Some a /\
      built (if bool_decide (ld_formater def = []) then default_pattern else ld_formater def) it a)
      (m_appenders l) (ld_appenders def).
Proof.
  intros Hok Hnone. unfold add_logger_def. set (l0 := MkLogger (ld_name def) (ld_level def) []).
  set (w1 := set_loggers (<[next w := l0]> (loggers w)) (set_next (next w + 1) w)).
  rewrite (bind_ret _ _ _ (next w) w1) by done.
  destruct (make_formatter_ok (ld_formater def) w1) as (f & out & Hf & Hpat).
  rewrite (bind_ret _ _ _ _ _ Hf). set (w2 := set_cout (cout w1 ++ out) w1).
  assert (fresh w2) as Hfr2.
  { destruct (mgr_ok_fresh w Hok) as [Hl Ha]. split; cbn.
    - intros p l [[<- _]|[_ Hp]]%lookup_insert_Some; [lia|]. specialize (Hl p l Hp). lia.
    - intros p a Hp. specialize (Ha p a Hp). lia. }
  destruct (define_appenders_ok f (ld_appenders def) w2 (next w) l0 Hfr2)
    as (w3 & qs & Hd & Hfr3 & Hlg & Hm & Hn & Hsub & Hall); [by cbn; rewrite lookup_insert_eq|].
  rewrite (bind_ret _ _ _ _ _ Hd). cbn in Hlg, Hm, Hn, Hsub. rewrite insert_insert_eq in Hlg.
  assert (mgr_ok w3) as Hok3.
  { destruct Hfr3 as [Hf1 Hf2]. split; [by rewrite Hm; apply Hok| |done..].
    intros n p Hp. rewrite Hm in Hp. destruct (mok_names w Hok n p Hp) as (l & Hl & Hnm).
    exists l. split; [|done]. rewrite Hlg, lookup_insert_ne; [done|].
    intros Heq. apply (mok_fresh w Hok) in Hl. lia. }
  destruct (add_logger_new w3 (next w) (MkLogger (ld_name def) (ld_level def) qs) Hok3)
    as (w4 & Hadd & Hok4 & Hm4 & Hl4); [by rewrite Hlg, lookup_insert_eq|by cbn; rewrite Hm|].
  exists w4, (next w), (MkLogger (ld_name def) (ld_level def) qs).
  assert (appenders w4 = appenders w3) as Ha4.
  { unfold add_logger, deref, gets, bind in Hadd. rewrite Hlg, lookup_insert_eq in Hadd. cbn in Hadd.
    rewrite Hm, Hnone in Hadd. by simplify_eq. }
  split; [done|]. split; [done|]. cbn in Hm4. rewrite Hm4, Hm, Hl4, Hlg, lookup_insert_eq.
  do 4 (split; [done|]). rewrite Ha4. rewrite Hpat in Hall. exact Hall.
Qed.

(** A configured logger is what its definition says and is found by its name: adding a
    definition with a new name to a manager in order succeeds and keeps it in order, and
    afterwards [get_logger_by] gives, for that name, a logger with the name and the level of
    the definition and one appender per entry, in order, of the kind, level, pattern and file
    it names; the interval of a file appender is two hours, whatever the definition says.
    Every other name gives what it gave before. *)
Theorem configured_logger def w : mgr_ok w -> m_logger_map w !! ld_name def = None ->
  exists w' p l, add_logger_def strftime_local file_log_cc def w = (Ret true, w') /\ mgr_ok w' /\
    get_logger_by (ld_name def) w' = (Ret p, w') /\ loggers w' !! p = Some l /\
    m_name l = ld_name def /\ m_level l = ld_level def /\
    Forall2 (fun q it => exists a, appenders w' !! q = Some a /\
      built (if bool_decide (ld_formater def = []) then default_pattern else ld_formater def) it a)
      (m_appenders l) (ld_appenders def) /\
    forall n, n <> ld_name def -> (get_logger_by n w').1 = (get_logger_by n w).1.
Proof.
  intros Hok Hnone. destruct (add_logger_def_ok def w Hok Hnone)
    as (w' & p & l & Ha & Hok' & Hm & Hl & Hn & Hlv & Hall).
  exists w', p, l. split; [done|]. split; [done|]. split.
  { unfold get_logger_by. by rewrite Hm, lookup_insert_eq. }
  do 4 (split; [done|]). intros n Hne. unfold get_logger_by. rewrite Hm, lookup_insert_ne by done.
  rewrite lookup_insert_ne by (intros Heq; destruct (mok_root w Hok) as [? Hr]; congruence).
  by repeat case_match.
Qed.
End LogProps.

(** The manager as its constructor leaves it. *)
Lemma new_LoggerMgr_ok strftime_local file w :
  loggers w = ∅ -> appenders w = ∅ -> m_logger_map w = ∅ ->
  exists w' f, new_LoggerMgr strftime_local file w = (Ret (), w') /\ mgr_ok w' /\
    m_pattern f = default_pattern /\ appenders w' = {[ next w + 1 := StdOutLogAppender f DEBUG ]} /\
    loggers w' = {[ next w := MkLogger (str "ROOT") DEBUG [next w + 1] ]} /\
    m_logger_map w' = {[ str "ROOT" := next w ]}.
Proof.
  intros Hl Ha Hm. unfold new_LoggerMgr.
  set (w1 := set_loggers (<[next w := MkLogger (str "ROOT") DEBUG []]> (loggers w)) (set_next (next w + 1) w)).
  rewrite (bind_ret _ _ _ (next w) w1) by done.
  destruct (make_formatter_ok [] w1) as (f & out & Hf & Hpat). rewrite (bind_ret _ _ _ _ _ Hf).
  set (w2 := set_cout (cout w1 ++ out) w1).
  set (a := StdOutLogAppender f DEBUG).
  set (w3 := set_appenders (<[next w2 := a]> (appenders w2)) (set_next (next w2 + 1) w2)).
  rewrite (bind_ret _ _ _ (next w2) w3) by done.
  set (l := MkLogger (str "ROOT") DEBUG [next w2]).
  set (w4 := set_loggers (<[next w := l]> (loggers w3)) w3).
  rewrite (bind_ret _ _ _ () w4); [|unfold add_appender, deref, put_logger, bind; cbn;
    by rewrite lookup_insert_eq].
  set (w5 := set_logger_map (<[m_name l := next w]> (m_logger_map w4)) w4).
  rewrite (bind_ret _ _ _ true w5); [|unfold add_logger, deref, gets, bind; cbn -[str];
    by rewrite lookup_insert_eq; cbn -[str]; rewrite Hm, lookup_empty].
  assert (loggers w5 = {[ next w := l ]}) as Hl5 by (cbn; by rewrite Hl, insert_insert_eq).
  assert (appenders w5 = {[ next w + 1 := a ]}) as Ha5 by (cbn; by rewrite Ha).
  assert (m_logger_map w5 = {[ str "ROOT" := next w ]}) as Hm5 by (cbn -[str]; by rewrite Hm).
  assert (next w5 = next w + 1 + 1) as Hn5 by done.
  exists w5, f. clearbody w5. split; [done|].
  rewrite bool_decide_true in Hpat by done. split; [|split; [exact Hpat|split; [exact Ha5|split; [exact Hl5|exact Hm5]]]].
  split; rewrite ?Hl5, ?Ha5, ?Hm5, ?Hn5.
  - rewrite lookup_singleton_eq. eauto.
  - intros n p [<- <-]%lookup_singleton_Some. exists l. split; [apply lookup_singleton_eq|reflexivity].
  - intros p l' [<- _]%lookup_singleton_Some. lia.
  - intros p a' [<- _]%lookup_singleton_Some. lia.
Qed.

Definition world0 : World :=
  MkWorld 1700000000 (fun _ => true) (fun _ => true) 1 0 1700000000123 (str "main") [] ∅ ∅ ∅ 1.

Lemma configured_logger_witness : exists w' p l,
  (let! _ := new_LoggerMgr (fun _ _ => str "2023_11_14_22") (str "log.cc") in
   add_logger_def (fun _ _ => str "2023_11_14_22") (str "log.cc")
     (MkLoggerDefine (str "SYSTEM") INFO (str "%m%n")
       [MkAppenderDefine (str "FileLogAppender") WARN (str "sys") 86400;
        MkAppenderDefine (str "StdOutLogAppender") DEBUG [] 0])) world0 = (Ret true, w') /\
  get_logger_by (str "SYSTEM") w' = (Ret p, w') /\ loggers w' !! p = Some l /\ m_level l = INFO.
Proof.
  destruct (new_LoggerMgr_ok (fun _ _ => str "2023_11_14_22") (str "log.cc") world0 eq_refl eq_refl eq_refl)
    as (w & f & Hnew & Hok & _ & _ & _ & Hm).
  rewrite (bind_ret _ _ _ _ _ Hnew).
  edestruct (configured_logger (fun _ _ => str "2023_11_14_22") (str "log.cc")) as (w' & p & l & H);
    [reflexivity|exact Hok| |].
  2: { exists w', p, l. destruct H as (H1 & _ & H2 & H3 & _ & H4 & _). eauto. }
  rewrite Hm. apply lookup_singleton_ne. discriminate.
Defined.

(** C29: A logger delivers an event to each of its appenders once.  Below the level of the
    logger nothing happens.  Otherwise every appender whose level the event reaches gets the
    event as its formatter renders it: standard output the texts in the order of the
    appenders, a file appender one text, in the file named for the time its period began,
    where the period is renewed when it has ended; the others are left alone. *)
Theorem log_delivers strftime_local p l level event w :
  loggers w !! p = Some l -> NoDup (m_appenders l) ->
  (forall q, q ∈ m_appenders l -> exists a, appenders w !! q = Some a /\
     ready strftime_local w (m_name l) level event a) ->
  exists w', logger_log strftime_local p level event w = (Ret (), w') /\ same_env w w' /\
    if level_ge level (m_level l) then
      cout w' = cout w ++ (m_appenders l ≫= to_cout strftime_local (m_name l) level event w) /\
      forall q, if bool_decide (q ∈ m_appenders l)
        then exists a a', appenders w !! q = Some a /\ appenders w' !! q = Some a' /\
               file_got strftime_local (m_name l) level event w a a'
        else appenders w' !! q = appenders w !! q
    else w' = w.
Proof.
  intros Hl Hnd Hr. unfold logger_log, deref, bind. rewrite Hl.
  destruct (level_ge level (m_level l)); cbn [negb].
  - destruct (log_loop_ok strftime_local (m_name l) level event _ Hnd w Hr) as (w' & H1 & H2 & H3 & H4). eauto.
  - exists w. split; [done|]. split; [by destruct w|done].
Qed.

(** A console for all events and a file for warnings, whose period has ended. *)
Definition sample_file : FileLogAppender :=
  MkFileLogAppender (MkLogFormatter (str "%m%n") [MessageFormatItem []; NewLineFormatItem []]) WARN
    (str "sys") 7200 1000 8200 (MkOfstream (Some (str "sys.log." ++ [1000])) true []).

Definition sample_world : World :=
  MkWorld 9000 (fun _ => true) (fun _ => true) 1 0 9000000 (str "main") []
    {[ 1 := StdOutLogAppender (MkLogFormatter (str "[%p] %m%n")
              [StringFormatItem (str "["); LevelFormatItem []; StringFormatItem (str "] ");
               MessageFormatItem []; NewLineFormatItem []]) DEBUG;
       2 := FileAppender sample_file ]}
    {[ 3 := MkLogger (str "SYSTEM") INFO [1; 2] ]} {[ str "SYSTEM" := 3 ]} 4.

Definition sample_event : Event := MkLogEvent 3 ERROR (str "a.cc") 7 1 0 9000000 (str "main") (str "disk").

Lemma log_delivers_witness : exists w' fa,
  logger_log (fun _ t => [t]) 3 ERROR sample_event sample_world = (Ret (), w') /\
  cout w' = str "[ERROR] disk" ++ [10] /\ appenders w' !! 2 = Some (FileAppender fa) /\
  fs_out (m_filestream fa) = [(str "sys.log." ++ [9000], str "disk" ++ [10])].
Proof.
  edestruct (log_delivers (fun _ t => [t]) 3 (MkLogger (str "SYSTEM") INFO [1; 2]) ERROR sample_event sample_world)
    as (w' & Hlog & _ & Hres).
  - apply lookup_singleton_eq.
  - repeat constructor; set_solver.
  - intros q [->|[->|[]%elem_of_nil]%elem_of_cons]%elem_of_cons;
      (eexists; split; [reflexivity|]); (split; [eexists; reflexivity|]); [exact I|].
    split; [|split; [done|split; [done|eexists; split; [reflexivity|done]]]].
    constructor; cbn; [|done..|eexists; split; reflexivity].
    split; [done|]. by exists 2.
  - destruct Hres as [Hc Hq]. specialize (Hq 2). change (bool_decide _) with true in Hq.
    destruct Hq as (a & a' & Ha & Ha' & Hg). vm_compute in Ha. injection Ha as <-.
    destruct a' as [|fa]; [done|]. destruct Hg as (_ & _ & _ & path & Hp & Ho).
    exists w', fa. split; [exact Hlog|]. split; [exact Hc|]. split; [exact Ha'|].
    vm_compute in Hp. injection Hp as <-. exact Ho.
Defined.
