(* ===== verification/Config.v ===== *)
(** * Configuration ([config.h], [config.cc], the casts of [log.cc])

    Variables of many types behind one map of names, filled from a YAML tree.  The YAML
    library and [boost::lexical_cast] are interfaces; a cast that throws gives [None].  A
    variable is a shared object in a store by address, because holders keep pointers to it
    while the map may be changed to another one. *)

From stdpp Require Import base list numbers strings gmap.
From Stdlib Require Import Lia ZArith.
From S2P Require Import Prelude Util OrdSet OrdMap LogFormatter Log.

(** ** YAML trees *)

(** A node with the five types of the library. *)
Inductive Node :=
| NUndefined
| NNull
| NScalar (s : bytes)
| NSequence (l : list Node)
| NMap (l : list (Node * Node)).

(** Reading and printing text; [as_string] and [as_int] are [as<std::string>] and [as<int>].
    A node that was printed is read back; a plain text is printed as it is. *)
Class Yaml := {
  yaml_load : bytes -> option Node;
  yaml_emit : Node -> bytes;
  as_string : Node -> option bytes;
  as_int : Node -> option Z;
  defined : Node -> Prop;
  plain : bytes -> bool;
  load_emit n : defined n -> yaml_load (yaml_emit n) = Some n;
  emit_plain s : plain s = true -> yaml_emit (NScalar s) = s;
  as_string_scalar s : as_string (NScalar s) = Some s;
  as_int_scalar n : sfits 32 n -> as_int (NScalar (sdec n)) = Some n;
  as_string_undefined : as_string NUndefined = None;
  defined_null : defined NNull;
  defined_scalar s : defined (NScalar s);
  defined_sequence l : defined (NSequence l) <-> Forall defined l;
  defined_map l : defined (NMap l) <-> Forall (fun kv => defined kv.1 /\ defined kv.2) l }.

(** [boost::lexical_cast] between text and the basic types, with their order and equality. *)
Class BasicTypes := {
  basic : Type;
  #[global] basic_eq_dec :: EqDecision basic;
  bval : basic -> Type;
  #[global] bval_eq_dec b :: EqDecision (bval b);
  bval_lt b : bval b -> bval b -> bool;
  lexical_from b : bytes -> option (bval b);
  lexical_to b : bval b -> bytes }.

(** The types whose values [boost::lexical_cast] reads back from the text it wrote: integers,
    [bool], [std::string]. *)
Class LexicalLaws `{B : BasicTypes} := {
  lexical_roundtrip b v : lexical_from b (lexical_to b v) = Some v }.

(** [node.Scalar()], [node.size()], [node[i]], [node["key"]]. *)
Definition Scalar (n : Node) : bytes := match n with NScalar s => s | _ => [] end.
Definition IsMap (n : Node) : bool := match n with NMap _ => true | _ => false end.
Definition IsScalar (n : Node) : bool := match n with NScalar _ => true | _ => false end.

Definition node_size (n : Node) : nat :=
  match n with
  | NSequence l => length l
  | NMap l => length l
  | _ => 0
  end.

Fixpoint map_get (l : list (Node * Node)) (key : bytes) : Node :=
  match l with
  | [] => NUndefined
  | (NScalar k, v) :: l => if decide (k = key) then v else map_get l key
  | _ :: l => map_get l key
  end.

Definition node_at (n : Node) (i : nat) : Node :=
  match n with
  | NSequence l => nth i l NUndefined
  | NMap l => map_get l (dec (Z.of_nat i))
  | _ => NUndefined
  end.

(** A scalar has no members: the library throws. *)
Definition node_get (n : Node) (key : bytes) : option Node :=
  match n with
  | NMap l => Some (map_get l key)
  | NScalar _ => None
  | _ => Some NUndefined
  end.

Section Config.
Context `{Y : Yaml} `{B : BasicTypes}.
(** The value of a field that is not initialised. *)
Context (junk : Z).

(** ** The casts of logger definitions *)

Definition appender_of_node (it : Node) : option AppenderDefine :=
  type ← node_get it (str "type") ≫= as_string;
  level ← node_get it (str "level") ≫= as_string;
  if bool_decide (type = str "FileLogAppender") then
    file ← node_get it (str "file") ≫= as_string;
    interval ← node_get it (str "interval") ≫= as_int;
    Some (MkAppenderDefine type (Level_FromString level) file interval)
  else Some (MkAppenderDefine type (Level_FromString level) [] junk).

Definition logger_of_node (root : Node) : option LoggerDefine :=
  name ← node_get root (str "name") ≫= as_string;
  level ← node_get root (str "level") ≫= as_string;
  formater ← node_get root (str "formater") ≫= as_string;
  list ← node_get root (str "appenders");
  appenders ← mapM (fun i => appender_of_node (node_at list i)) (seq 0 (node_size list));
  Some (MkLoggerDefine name (Level_FromString level) formater appenders).

(** [LexicalCast<std::string, LoggerDefine>]. *)
Definition logger_from_string (s : bytes) : option LoggerDefine := yaml_load s ≫= logger_of_node.

Definition appender_node (a : AppenderDefine) : Node :=
  NMap ([(NScalar (str "type"), NScalar (ad_type a));
         (NScalar (str "level"), NScalar (Level_ToString (ad_level a)))] ++
        if bool_decide (ad_type a = str "FileLogAppender") then
          [(NScalar (str "file"), NScalar (ad_file a));
           (NScalar (str "interval"), NScalar (sdec (ad_interval a)))]
        else []).

Definition logger_node (v : LoggerDefine) : Node :=
  NMap ([(NScalar (str "name"), NScalar (ld_name v));
         (NScalar (str "level"), NScalar (Level_ToString (ld_level v)));
         (NScalar (str "formater"), NScalar (ld_formater v))] ++
        if bool_decide (ld_appenders v = []) then []
        else [(NScalar (str "appenders"), NSequence (appender_node <$> ld_appenders v))]).

(** [LexicalCast<LoggerDefine, std::string>]. *)
Definition logger_to_text (v : LoggerDefine) : bytes := yaml_emit (logger_node v).

(** ** Types of variables *)

Inductive ty :=
| TBasic (b : basic)
| TLoggerDefine
| TVector (t : ty)
| TList (t : ty)
| TSet (b : basic)
| TUnorderedSet (b : basic)
| TMap (t : ty)
| TUnorderedMap (t : ty).

#[global] Instance ty_eq_dec : EqDecision ty.
Proof. solve_decision. Defined.

Fixpoint denote (t : ty) : Type :=
  match t with
  | TBasic b => bval b
  | TLoggerDefine => LoggerDefine
  | TVector t | TList t => list (denote t)
  | TSet b | TUnorderedSet b => list (bval b)
  | TMap t | TUnorderedMap t => list (bytes * denote t)
  end.

(** [std::less<std::string>]. *)
Fixpoint string_less (a b : bytes) : bool :=
  match a, b with
  | [], [] => false
  | [], _ :: _ => true
  | _ :: _, [] => false
  | x :: a, y :: b => if x <? y then true else if y <? x then false else string_less a b
  end.

(** The containers as the casts fill them, element by element.  The order of an unordered
    container is that of insertion here. *)
Definition set_of {A} (lt : A -> A -> bool) (l : list A) : list A :=
  fold_left (fun s x => set_insert lt x s) l [].
Definition unordered_set_of {A} `{!EqDecision A} (l : list A) : list A :=
  fold_left (fun s x => if decide (x ∈ s) then s else s ++ [x]) l [].
Definition map_of {A} (l : list (bytes * A)) : list (bytes * A) :=
  fold_left (fun m kv => map_insert string_less kv.1 kv.2 m) l [].
Definition unordered_map_of {A} (l : list (bytes * A)) : list (bytes * A) :=
  fold_left (fun m kv => if decide (kv.1 ∈ m.*1) then m else m ++ [kv]) l [].

(** The elements of a sequence as texts, and those of a map with their keys. *)
Definition seq_texts (root : Node) : list bytes :=
  (fun i => yaml_emit (node_at root i)) <$> seq 0 (node_size root).

(** What iterating over a node gives as pairs: only a map has them. *)
Definition pairs (root : Node) : list (Node * Node) :=
  match root with NMap l => l | _ => [] end.

(** [it->second] in the iteration of a map cast: an element of a sequence is no pair, so its
    [second] is not there and printing it throws. *)
Definition iterable (root : Node) : option (list (Node * Node)) :=
  match root with
  | NSequence (_ :: _) => None
  | _ => Some (pairs root)
  end.

(** [LexicalCast<std::string, C>] for the containers, given the cast of the elements. *)
Definition vector_from_text {A} (cast : bytes -> option A) (s : bytes) : option (list A) :=
  root ← yaml_load s; mapM cast (seq_texts root).

Definition list_from_text {A} (cast : bytes -> option A) (s : bytes) : option (list A) :=
  root ← yaml_load s; mapM cast (seq_texts root).

Definition set_from_text {A} (lt : A -> A -> bool) (cast : bytes -> option A) (s : bytes)
    : option (list A) :=
  root ← yaml_load s; l ← mapM cast (seq_texts root); Some (set_of lt l).

Definition unordered_set_from_text {A} `{!EqDecision A} (cast : bytes -> option A) (s : bytes)
    : option (list A) :=
  root ← yaml_load s; l ← mapM cast (seq_texts root); Some (unordered_set_of l).

Definition map_from_text {A} (cast : bytes -> option A) (s : bytes) : option (list (bytes * A)) :=
  root ← yaml_load s;
  kvs ← iterable root;
  l ← mapM (fun kv => v ← cast (yaml_emit kv.2); Some (Scalar kv.1, v)) kvs;
  Some (map_of l).

Definition unordered_map_from_text {A} (cast : bytes -> option A) (s : bytes)
    : option (list (bytes * A)) :=
  root ← yaml_load s;
  kvs ← iterable root;
  l ← mapM (fun kv => v ← cast (Scalar kv.2); Some (Scalar kv.1, v)) kvs;
  Some (unordered_map_of l).

(** [LexicalCast<std::string, T>]. *)
Fixpoint from_text (t : ty) : bytes -> option (denote t) :=
  match t return bytes -> option (denote t) with
  | TBasic b => lexical_from b
  | TLoggerDefine => logger_from_string
  | TVector t => vector_from_text (from_text t)
  | TList t => list_from_text (from_text t)
  | TSet b => set_from_text (bval_lt b) (lexical_from b)
  | TUnorderedSet b => unordered_set_from_text (lexical_from b)
  | TMap t => map_from_text (from_text t)
  | TUnorderedMap t => unordered_map_from_text (from_text t)
  end.

(** A node that got the elements by [push_back] or by keys: null without any. *)
Definition sequence_node (l : list Node) : Node := if bool_decide (length l = 0%nat) then NNull else NSequence l.
Definition map_node (l : list (Node * Node)) : Node := if bool_decide (length l = 0%nat) then NNull else NMap l.

(** [LexicalCast<C, std::string>] for the containers. *)
Definition vector_to_text {A} (cast : A -> option bytes) (v : list A) : option bytes :=
  l ← mapM cast v; Some (yaml_emit (sequence_node (NScalar <$> l))).

Definition list_to_text {A} (cast : A -> option bytes) (v : list A) : option bytes :=
  l ← mapM cast v; Some (yaml_emit (sequence_node (NScalar <$> l))).

Definition set_to_text {A} (cast : A -> bytes) (v : list A) : option bytes :=
  Some (yaml_emit (sequence_node ((fun x => NScalar (cast x)) <$> v))).

Definition unordered_set_to_text {A} (cast : A -> bytes) (v : list A) : option bytes :=
  Some (yaml_emit (sequence_node ((fun x => NScalar (cast x)) <$> v))).

Definition map_to_text {A} (cast : A -> option bytes) (v : list (bytes * A)) : option bytes :=
  l ← mapM (fun kv => s ← cast kv.2; n ← yaml_load s; Some (NScalar kv.1, n)) v;
  Some (yaml_emit (map_node l)).

Definition unordered_map_to_text {A} (cast : A -> option bytes) (v : list (bytes * A)) : option bytes :=
  l ← mapM (fun kv => s ← cast kv.2; Some (NScalar kv.1, NScalar s)) v;
  Some (yaml_emit (map_node l)).

(** [LexicalCast<T, std::string>]. *)
Fixpoint to_text (t : ty) : denote t -> option bytes :=
  match t return denote t -> option bytes with
  | TBasic b => fun v => Some (lexical_to b v)
  | TLoggerDefine => fun v => Some (logger_to_text v)
  | TVector t => vector_to_text (to_text t)
  | TList t => list_to_text (to_text t)
  | TSet b => set_to_text (lexical_to b)
  | TUnorderedSet b => unordered_set_to_text (lexical_to b)
  | TMap t => map_to_text (to_text t)
  | TUnorderedMap t => unordered_map_to_text (to_text t)
  end.

(** ** Variables *)

Record ConfigVar := MkConfigVar {
  cv_name : bytes;
  cv_desc : bytes;
  cv_ty : ty;
  cv_val : denote cv_ty }.

Definition set_val (v : ConfigVar) (x : denote (cv_ty v)) : ConfigVar :=
  MkConfigVar (cv_name v) (cv_desc v) (cv_ty v) x.

(** [to_string]: a cast that throws gives the empty text. *)
Definition var_to_string (v : ConfigVar) : bytes :=
  match to_text (cv_ty v) (cv_val v) with Some s => s | None => [] end.

Definition var_from_string (v : ConfigVar) (s : bytes) : bool * ConfigVar :=
  match from_text (cv_ty v) s with
  | Some x => (true, set_val v x)
  | None => (false, v)
  end.

(** [os << conf]. *)
Definition var_print (v : ConfigVar) : bytes :=
  [10] ++ str "[" ++ [10] ++ cv_name v ++ str "," ++ cv_desc v ++ str "," ++ [10] ++
  var_to_string v ++ [10] ++ str "]".

(** ** The map of names *)

Record Config := MkConfig {
  vars : gmap addr ConfigVar;
  s_datas : gmap bytes addr;
  cfg_next : addr }.

Definition LookupBase (name : bytes) (c : Config) : option addr := s_datas c !! name.

(** [Lookup<T>(name)]: the pointer is null when the variable has another type. *)
Definition Lookup_find (t : ty) (name : bytes) (c : Config) : option addr :=
  match s_datas c !! name with
  | None => None
  | Some p =>
      match vars c !! p with
      | Some v => if decide (cv_ty v = t) then Some p else None
      | None => None
      end
  end.

(** [Lookup<T>(name, def, desc)]. *)
Definition Lookup (t : ty) (name : bytes) (def : denote t) (desc : bytes) : meth Config addr :=
  fun c =>
    match Lookup_find t name c with
    | Some p => (Ret p, c)
    | None =>
        if negb (IsValidName name) then (Throw invalid_argument, c)
        else
          let p := cfg_next c in
          (Ret p, MkConfig (<[p := MkConfigVar name desc t def]> (vars c)) (<[name := p]> (s_datas c)) (p + 1))
    end.

(** [list_all_member]: every node under a valid name, parents first. *)
Fixpoint list_all_member (root : Node) (prefix : bytes) : list (bytes * Node) :=
  if negb (IsValidName prefix) || bool_decide (prefix = []) then []
  else
    (prefix, root) ::
    match root with
    | NMap l =>
        (fix members (l : list (Node * Node)) : list (bytes * Node) :=
           match l with
           | [] => []
           | (k, v) :: l => list_all_member v (prefix ++ str "." ++ Scalar k) ++ members l
           end) l
    | _ => []
    end.

(** The text a node gives to a variable. *)
Definition node_text (n : Node) : bytes := if IsScalar n then Scalar n else yaml_emit n.

Fixpoint load_loop (nodes : list (bytes * Node)) (c : Config) : res Config :=
  match nodes with
  | [] => Ret c
  | (name, n) :: nodes =>
      match LookupBase name c with
      | None => load_loop nodes c
      | Some p =>
          match vars c !! p with
          | None => Undef NullDeref
          | Some v =>
              let (_, v) := var_from_string v (node_text n) in
              load_loop nodes (MkConfig (<[p := v]> (vars c)) (s_datas c) (cfg_next c))
          end
      end
  end.

(** [LoadFromYmal(name, path)]; [file] is the tree in the file, [None] when the library
    cannot read it and throws. *)
Definition LoadFromYmal (name : bytes) (file : option Node) : meth Config unit :=
  fun c =>
    match file with
    | None => (Throw runtime_error, c)
    | Some root =>
        match load_loop (list_all_member root name) c with
        | Ret c => (Ret (), c)
        | Throw e => (Throw e, c)
        | Undef u => (Undef u, c)
        end
    end.

(** ** Loggers from the configuration *)

(** [cfg->val()] of a variable that holds logger definitions. *)
Definition logger_defs (v : ConfigVar) : list LoggerDefine :=
  match cv_ty v as t return denote t -> list LoggerDefine with
  | TVector TLoggerDefine => fun x => x
  | _ => fun _ => []
  end (cv_val v).

(** A method on one half of the state. *)
Definition on_config {A} (m : meth Config A) : meth (Config * World) A :=
  fun s => let (r, c) := m s.1 in (r, (c, s.2)).
Definition on_world {A} (m : meth World A) : meth (Config * World) A :=
  fun s => let (r, w) := m s.2 in (r, (s.1, w)).

Section Loggers.
Context (strftime_local : bytes -> Z -> bytes) (file_log_cc : bytes).

(** [LoggerMgr::add_loggers(name, path)]. *)
Definition add_loggers (name : bytes) (file : option Node) : meth (Config * World) bool :=
  let! p := on_config (Lookup (TVector TLoggerDefine) (name ++ str ".log") [] (str "__logs__")) in
  let! _ := on_config (LoadFromYmal name file) in
  let! v := on_config (fun c => (match vars c !! p with Some v => Ret v | None => Undef NullDeref end, c)) in
  on_world (add_logger_defs strftime_local file_log_cc (logger_defs v) true).
End Loggers.
End Config.
