(* ===== verification/ConfigProps.v ===== *)
(** * Configuration: typed variables, exact loading, and which values survive as text *)

From stdpp Require Import base list numbers strings gmap sorting.
From Stdlib Require Import Lia ZArith.
From S2P Require Import Prelude Util OrdSet OrdMap LogFormatter LogFormatterProps Log Config.

(** ** Names *)

Lemma IsValidName_chars s : IsValidName s = true <-> Forall (fun c => mem c name_chars = true) s.
Proof.
  unfold IsValidName. induction s as [|c s IH]; [done|]. cbn [find_first_not_of]. rewrite Forall_cons.
  destruct (mem c name_chars); [|split; [done|by intros [? _]]].
  destruct (find_first_not_of s name_chars); cbn; naive_solver.
Qed.

Lemma IsValidName_app a b : IsValidName (a ++ b) = true <-> IsValidName a = true /\ IsValidName b = true.
Proof. rewrite !IsValidName_chars. apply Forall_app. Qed.

(** ** Nodes of a tree *)

Fixpoint Node_induction (P : Node -> Prop) (Hu : P NUndefined) (Hn : P NNull) (Hs : forall s, P (NScalar s))
    (Hq : forall l, Forall P l -> P (NSequence l))
    (Hm : forall l, Forall (fun kv => P kv.1 /\ P kv.2) l -> P (NMap l)) (n : Node) : P n.
Proof.
  destruct n as [| |s|l|l]; [done|done|done| |].
  - apply Hq. induction l as [|x l IH]; constructor; [|exact IH].
    apply (Node_induction P); assumption.
  - apply Hm. induction l as [|[k v] l IH]; constructor; [|exact IH].
    split; apply (Node_induction P); assumption.
Qed.

(** [n] is the node that the keys [ks] lead to. *)
Inductive reach : Node -> list bytes -> Node -> Prop :=
| reach_here n : reach n [] n
| reach_key l k v ks n : (k, v) ∈ l -> reach v ks n -> reach (NMap l) (Scalar k :: ks) n.

(** The name of the node: the prefix and the keys, with dots. *)
Definition full_name (prefix : bytes) (ks : list bytes) : bytes :=
  prefix ++ (ks ≫= fun k => str "." ++ k).

Lemma full_name_cons prefix k ks : full_name prefix (k :: ks) = full_name (prefix ++ str "." ++ k) ks.
Proof. unfold full_name. rewrite bind_cons. by rewrite <- !app_assoc. Qed.

Lemma members_in l prefix x :
  x ∈ (fix members (l : list (Node * Node)) : list (bytes * Node) :=
         match l with
         | [] => []
         | (k, v) :: l => list_all_member v (prefix ++ str "." ++ Scalar k) ++ members l
         end) l <->
  exists k v, (k, v) ∈ l /\ x ∈ list_all_member v (prefix ++ str "." ++ Scalar k).
Proof.
  induction l as [|[k v] l IH]; [split; [by intros ?%elem_of_nil|by intros (? & ? & ?%elem_of_nil & _)]|].
  rewrite elem_of_app, IH. setoid_rewrite elem_of_cons. naive_solver.
Qed.

Lemma list_all_member_in root prefix n node :
  (n, node) ∈ list_all_member root prefix <->
  prefix <> [] /\ IsValidName n = true /\ exists ks, reach root ks node /\ n = full_name prefix ks.
Proof.
  revert prefix. induction root as [| |s|l _|l IH] using Node_induction; intros prefix;
    cbn [list_all_member];
    destruct (IsValidName prefix) eqn:Hv; cbn [negb orb];
    try (split; [by intros ?%elem_of_nil|];
         intros (_ & Hn & ks & _ & ->); unfold full_name in Hn; rewrite IsValidName_app in Hn; by destruct Hn; congruence);
    (destruct (bool_decide_reflect (prefix = [])) as [->|Hne];
       [split; [by intros ?%elem_of_nil|by intros [? _]]|]).
  1-4: rewrite list_elem_of_singleton; split;
    [intros [= -> ->]; split; [done|]; split; [done|]; exists []; split; [constructor|unfold full_name; by rewrite app_nil_r]
    |intros (_ & _ & ks & Hr & ->); inversion Hr; subst; unfold full_name; by rewrite app_nil_r].
  rewrite elem_of_cons, members_in. rewrite Forall_forall in IH. split.
  - intros [[= -> ->]|(k & v & Hin & Hmem)].
    + split; [done|]. split; [done|]. exists []. split; [constructor|]. unfold full_name. by rewrite app_nil_r.
    + apply (IH _ Hin) in Hmem as (_ & Hn & ks & Hr & ->). split; [done|]. split; [done|].
      exists (Scalar k :: ks). split; [by econstructor|]. by rewrite full_name_cons.
  - intros (_ & Hn & ks & Hr & ->). inversion Hr as [|l' k v ks' n' Hin Hr']; subst.
    + left. unfold full_name. by rewrite app_nil_r.
    + right. exists k, v. split; [done|]. apply (IH _ Hin). split; [by destruct prefix|].
      rewrite full_name_cons in Hn |- *. eauto.
Qed.

Ltac casts := unfold vector_from_text, list_from_text, set_from_text, unordered_set_from_text, map_from_text,
  unordered_map_from_text, vector_to_text, list_to_text, set_to_text, unordered_set_to_text, map_to_text,
  unordered_map_to_text.

Section ConfigProps.
Context `{Y : Yaml} `{B : BasicTypes}.
Context (junk : Z).

#[local] Abbreviation from_text := (from_text junk).
#[local] Abbreviation load_loop := (load_loop junk).
#[local] Abbreviation LoadFromYmal := (LoadFromYmal junk).

(** ** The map of names *)

(** A name leads to a variable of that name; addresses are used up in order. *)
Record cfg_ok (c : Config) : Prop := {
  cok_names n p : s_datas c !! n = Some p -> exists v, vars c !! p = Some v /\ cv_name v = n;
  cok_fresh p v : vars c !! p = Some v -> p < cfg_next c }.

Lemma Lookup_ok t name def desc c : cfg_ok c -> IsValidName name = true ->
  exists p c', Lookup t name def desc c = (Ret p, c') /\ cfg_ok c' /\
    Lookup_find t name c' = Some p /\ vars c ⊆ vars c' /\
    (forall n, n <> name -> LookupBase n c' = LookupBase n c) /\
    match Lookup_find t name c with
    | Some q => p = q /\ c' = c
    | None => vars c !! p = None /\ vars c' !! p = Some (MkConfigVar name desc t def)
    end.
Proof.
  intros [Hn Hf] Hv. unfold Lookup. destruct (Lookup_find t name c) as [p|] eqn:Hl.
  { exists p, c. split; [done|]. by split. }
  rewrite Hv. cbn [negb]. eexists _, _. split; [done|].
  assert (vars c !! cfg_next c = None) as Hnone.
  { destruct (vars c !! cfg_next c) as [v|] eqn:He; [|done]. apply Hf in He. lia. }
  split; [|split; [|split; [|split; [|split]]]]; cbn [vars s_datas cfg_next].
  - split; cbn.
    + intros n p [[<- <-]|[Hne Hp]]%lookup_insert_Some.
      * eexists. by rewrite lookup_insert_eq.
      * destruct (Hn n p Hp) as (v & Hvp & Hnm). exists v. split; [|done].
        rewrite lookup_insert_ne; [done|]. intros Heq. by rewrite <- Heq, Hnone in Hvp.
    + intros p v [[<- _]|[_ Hp]]%lookup_insert_Some; [lia|]. apply Hf in Hp. lia.
  - unfold Lookup_find. cbn. rewrite !lookup_insert_eq. cbn. by rewrite decide_True.
  - by apply insert_subseteq.
  - intros n Hne. unfold LookupBase. cbn. by rewrite lookup_insert_ne.
  - done.
  - by rewrite lookup_insert_eq.
Qed.

(** ** Loading *)

(** The nodes whose name leads to [p], in the order of the document. *)
Definition nodes_for (c : Config) (p : addr) (nodes : list (bytes * Node)) : list Node :=
  omap (fun x => if decide (s_datas c !! x.1 = Some p) then Some x.2 else None) nodes.

(** The value after nodes were given: the last one that can be cast, else the old one. *)
Definition value_after (v : ConfigVar) (ns : list Node) : denote (cv_ty v) :=
  default (cv_val v) (last (omap (fun n => from_text (cv_ty v) (node_text n)) ns)).

Lemma last_cons_default {A} (x y : A) l : default x (last (y :: l)) = default y (last l).
Proof.
  revert x y. induction l as [|z l IH]; intros x y; [done|].
  change (last (y :: z :: l)) with (last (z :: l)). by rewrite !IH.
Qed.

Lemma value_after_cons v n ns :
  set_val v (value_after v (n :: ns)) =
  let v1 := (var_from_string junk v (node_text n)).2 in set_val v1 (value_after v1 ns).
Proof.
  unfold value_after, var_from_string. cbn [omap list_omap].
  destruct (from_text (cv_ty v) (node_text n)) as [x|]; cbn; [|done].
  unfold set_val. f_equal. apply last_cons_default.
Qed.

Lemma set_val_same v : set_val v (cv_val v) = v.
Proof. by destruct v. Qed.

Lemma load_loop_ok nodes : forall c, cfg_ok c ->
  exists c', load_loop nodes c = Ret c' /\ s_datas c' = s_datas c /\ cfg_next c' = cfg_next c /\
    cfg_ok c' /\
    forall p, vars c' !! p = (fun v => set_val v (value_after v (nodes_for c p nodes))) <$> vars c !! p.
Proof.
  induction nodes as [|[name n] nodes IH]; intros c Hok.
  { exists c. split; [done|]. split; [done|]. split; [done|]. split; [done|]. intros p.
    destruct (vars c !! p) as [v|]; cbn; [|done]. by rewrite set_val_same. }
  cbn [Config.load_loop]. unfold LookupBase. destruct (s_datas c !! name) as [q|] eqn:Hq.
  - destruct (cok_names c Hok name q Hq) as (v & Hv & Hnm). rewrite Hv.
    destruct (var_from_string junk v (node_text n)) as [b v1] eqn:Hfs.
    assert (cv_name v1 = cv_name v) as Hnm1
      by (unfold var_from_string in Hfs; destruct (from_text _ _); by simplify_eq).
    set (c1 := MkConfig (<[q := v1]> (vars c)) (s_datas c) (cfg_next c)).
    assert (cfg_ok c1) as Hok1.
    { destruct Hok as [Hn Hf]. split; cbn.
      - intros n' p Hp. destruct (Hn n' p Hp) as (v' & Hv' & Hn').
        destruct (decide (q = p)) as [->|]; [|by rewrite lookup_insert_ne; eauto].
        rewrite lookup_insert_eq. exists v1. split; [done|]. congruence.
      - intros p v' [[<- _]|[_ Hp]]%lookup_insert_Some; eauto. }
    destruct (IH c1 Hok1) as (c' & Hl & Hd & Hnx & Hok' & Hall).
    exists c'. split; [done|]. split; [done|]. split; [done|]. split; [done|]. intros p. rewrite Hall.
    unfold nodes_for. cbn [omap list_omap fst snd].
    destruct (decide (q = p)) as [<-|Hne]; subst c1; cbn [vars s_datas].
    + rewrite lookup_insert_eq, Hv. rewrite decide_True by done. cbn [fmap option_fmap option_map].
      rewrite value_after_cons, Hfs. done.
    + rewrite lookup_insert_ne by done. rewrite decide_False by congruence. done.
  - destruct (IH c Hok) as (c' & Hl & Hd & Hnx & Hok' & Hall). exists c'.
    split; [done|]. split; [done|]. split; [done|]. split; [done|]. intros p. rewrite Hall.
    unfold nodes_for. cbn [omap list_omap fst snd]. rewrite decide_False by congruence. done.
Qed.

(** ** Values as text *)

Lemma seq_texts_of l : seq_texts (sequence_node l) = yaml_emit <$> l.
Proof.
  unfold sequence_node. case_bool_decide as Hl; [by destruct l|].
  unfold seq_texts. cbn [node_size]. apply list_eq. intros i. rewrite !list_lookup_fmap.
  destruct (decide (i < length l)%nat) as [Hi|Hi].
  - rewrite lookup_seq_lt by done. cbn. destruct (lookup_lt_is_Some_2 l i Hi) as [x Hx]. rewrite Hx. cbn.
    by rewrite (nth_lookup_Some l i NUndefined x).
  - rewrite lookup_seq_ge by lia. rewrite lookup_ge_None_2 by lia. done.
Qed.

Lemma iterable_map l : iterable (map_node l) = Some l.
Proof. unfold map_node. case_bool_decide as Hl; [by destruct l|done]. Qed.

Lemma defined_sequence_node l : Forall defined l -> defined (sequence_node l).
Proof. intros. unfold sequence_node. case_bool_decide; [apply defined_null|by apply defined_sequence]. Qed.

Lemma defined_map_node l : Forall (fun kv => defined kv.1 /\ defined kv.2) l -> defined (map_node l).
Proof. intros. unfold map_node. case_bool_decide; [apply defined_null|by apply defined_map]. Qed.

(** Filling a container with its own elements in order. *)
Lemma set_insert_last {A} (lt : A -> A -> bool) x l :
  Forall (fun y => lt y x = true) l -> set_insert lt x l = l ++ [x].
Proof.
  intros Hl. assert (lower_bound lt x l = length l) as Hlb.
  { induction Hl as [|y l Hy _ IH]; [done|]. cbn. by rewrite Hy, IH. }
  unfold set_insert, set_find. rewrite Hlb, lookup_ge_None_2 by lia.
  by rewrite Nat.eqb_refl, take_ge, drop_ge by lia.
Qed.

Lemma map_insert_last {A} k (x : A) m :
  Forall (fun kv => string_less kv.1 k = true) m -> map_insert string_less k x m = m ++ [(k, x)].
Proof. induction 1 as [|[k' v'] m Hk _ IH]; [done|]. cbn in *. by rewrite Hk, IH. Qed.

Lemma fold_fill {A} (R : A -> A -> Prop) (f : list A -> A -> list A) l :
  (forall m x, Forall (fun y => R y x) m -> f m x = m ++ [x]) ->
  StronglySorted R l -> fold_left f l [] = l.
Proof.
  intros Hf Hs. enough (forall m, Forall (fun y => Forall (R y) l) m -> fold_left f l m = m ++ l) as H
    by (by rewrite H).
  induction Hs as [|x l Hs IH Hx]; intros m Hm; [by rewrite app_nil_r|]. cbn.
  rewrite Hf by (eapply Forall_impl; [exact Hm|]; by intros y Hy%Forall_cons; destruct Hy).
  rewrite IH, <- app_assoc; [done|]. apply Forall_app. split; [|by constructor].
  eapply Forall_impl; [exact Hm|]. by intros y [_ Hy]%Forall_cons.
Qed.

Lemma set_of_sorted {A} (lt : A -> A -> bool) l :
  StronglySorted (fun x y => lt x y = true) l -> set_of lt l = l.
Proof. apply fold_fill. intros. by apply set_insert_last. Qed.

Lemma map_of_sorted {A} (l : list (bytes * A)) :
  StronglySorted (fun x y => string_less x.1 y.1 = true) l -> map_of l = l.
Proof. apply (fold_fill (fun x y => string_less x.1 y.1 = true)). intros m [k x] Hm. by apply map_insert_last. Qed.

Lemma NoDup_sorted_ne {A} (l : list A) : NoDup l -> StronglySorted (fun x y => x <> y) l.
Proof.
  induction 1 as [|x l Hx _ IH]; constructor; [done|]. apply Forall_forall. intros y Hy ->. done.
Qed.

Lemma unordered_set_of_distinct {A} `{!EqDecision A} (l : list A) : NoDup l -> unordered_set_of l = l.
Proof.
  intros Hl%NoDup_sorted_ne. revert Hl. apply fold_fill. intros m x Hm. rewrite decide_False; [done|].
  intros Hin. rewrite Forall_forall in Hm. by apply (Hm x Hin).
Qed.

Lemma unordered_map_of_distinct {A} (l : list (bytes * A)) : NoDup l.*1 -> unordered_map_of l = l.
Proof.
  intros Hl. apply (fold_fill (fun x y => x.1 <> y.1)).
  - intros m x Hm. rewrite decide_False; [done|]. intros (y & Hy & Hin)%list_elem_of_fmap.
    rewrite Forall_forall in Hm. exact (Hm y Hin (eq_sym Hy)).
  - apply NoDup_sorted_ne in Hl. revert Hl. induction l as [|x l IH]; intros Hs; [constructor|].
    apply StronglySorted_inv in Hs as [Hs Hx]. constructor; [by apply IH|].
    change (Forall (fun y => x.1 <> y) l.*1) in Hx. rewrite Forall_fmap in Hx. exact Hx.
Qed.

(** *** Logger definitions *)

(** The fields that the text keeps: the file and the interval are written for files only,
    and the interval of other appenders is whatever the memory held. *)
Definition appender_kept (a : AppenderDefine) : Prop :=
  if bool_decide (ad_type a = str "FileLogAppender") then sfits 32 (ad_interval a)
  else ad_file a = [] /\ ad_interval a = junk.

Lemma map_get_hit k v l : map_get ((NScalar k, v) :: l) k = v.
Proof. cbn. by rewrite decide_True. Qed.

Lemma map_get_skip k key v l : k <> key -> map_get ((NScalar k, v) :: l) key = map_get l key.
Proof. intros. cbn. by rewrite decide_False. Qed.

Ltac map_get :=
  cbn [node_get mbind option_bind];
  repeat first
    [ rewrite map_get_hit
    | rewrite map_get_skip by discriminate
    | rewrite as_string_scalar
    | progress cbn [node_get mbind option_bind app] ].

Lemma appender_of_node_ok a : appender_kept a -> appender_of_node junk (appender_node a) = Some a.
Proof.
  destruct a as [ty lv fi iv]. unfold appender_kept, appender_of_node, appender_node. cbn [ad_type ad_level ad_file ad_interval].
  destruct (bool_decide_reflect (ty = str "FileLogAppender")) as [->|Hty].
  - intros Hi. cbn [app]. map_get. rewrite bool_decide_true by done. map_get.
    rewrite as_int_scalar, Level_roundtrip_ok by done. done.
  - intros [-> ->]. cbn [app]. map_get. rewrite bool_decide_false by done. by rewrite Level_roundtrip_ok.
Qed.

Lemma mapM_nth {A C} (f : A -> option C) (g : nat -> option C) l :
  (forall i x, l !! i = Some x -> g i = f x) -> mapM g (seq 0 (length l)) = mapM f l.
Proof.
  intros H. rewrite <- (list_fmap_id l) at 2.
  assert (forall k m, (forall i x, m !! i = Some x -> g (k + i)%nat = f x) ->
    mapM g (seq k (length m)) = mapM f m) as Hg.
  { intros k m. revert k. induction m as [|x m IH]; intros k Hm; [done|]. cbn [length seq mapM].
    specialize (Hm 0%nat x eq_refl) as H0. rewrite Nat.add_0_r in H0. rewrite H0. destruct (f x); cbn; [|done].
    rewrite IH; [done|]. intros i y Hy. specialize (Hm (S i) y Hy). by rewrite <- Nat.add_succ_comm in Hm. }
  rewrite list_fmap_id. by apply Hg.
Qed.

Lemma mapM_inverse {A C} (f : A -> C) (g : C -> option A) l :
  Forall (fun x => g (f x) = Some x) l -> mapM g (f <$> l) = Some l.
Proof.
  induction 1 as [|x l Hx _ IH]; [done|]. cbn. by rewrite Hx; cbn; rewrite IH.
Qed.

Lemma logger_of_node_ok d : Forall appender_kept (ld_appenders d) ->
  logger_of_node junk (logger_node d) = Some d.
Proof.
  destruct d as [nm lv fm aps]. unfold logger_of_node, logger_node. cbn [ld_name ld_level ld_formater ld_appenders].
  intros Hk. map_get. rewrite Level_roundtrip_ok.
  destruct (bool_decide_reflect (aps = [])) as [->|Hne]; [done|]. map_get. cbn [node_size].
  rewrite (mapM_nth (appender_of_node junk)); [|intros i x Hx; cbn [node_at]; by rewrite (nth_lookup_Some _ _ _ x)].
  rewrite mapM_inverse; [done|]. eapply Forall_impl; [exact Hk|]. apply appender_of_node_ok.
Qed.

(** *** Values that survive *)

Context `{LL : !LexicalLaws}.

(** What a text becomes as an element of a sequence: YAML prints it, in quotes where it needs
    them, and the print is cast. *)
Definition through (b : basic) (x : bval b) : option (bval b) := lexical_from b (yaml_emit (NScalar (lexical_to b x))).

(** A value whose text is the print of a node: all but basic values that need quotes. *)
Definition unquoted (t : ty) : denote t -> Prop :=
  match t return denote t -> Prop with
  | TBasic b => fun v => plain (lexical_to b v) = true
  | _ => fun _ => True
  end.

(** Basic values; sequences and sets of basic values that need no quotes; maps, whose values
    need no quotes either, and unordered maps, to any depth; and logger definitions. *)
Fixpoint survives (t : ty) : denote t -> Prop :=
  match t return denote t -> Prop with
  | TBasic b => fun _ => True
  | TLoggerDefine => fun d => Forall appender_kept (ld_appenders d)
  | TVector t | TList t =>
      match t return list (denote t) -> Prop with
      | TBasic b => Forall (unquoted (TBasic b))
      | _ => fun v => v = []
      end
  | TSet b => fun v => Forall (unquoted (TBasic b)) v /\ StronglySorted (fun x y => bval_lt b x y = true) v
  | TUnorderedSet b => fun v => Forall (unquoted (TBasic b)) v /\ NoDup v
  | TMap t => fun v => Forall (fun kv => unquoted t kv.2 /\ survives t kv.2) v /\
                StronglySorted (fun x y => string_less x.1 y.1 = true) v
  | TUnorderedMap t => fun v => Forall (fun kv => survives t kv.2) v /\ NoDup v.*1
  end.

(** The text of a value, as the print of a node. *)
Definition kept_by (t : ty) (v : denote t) (n : Node) : Prop :=
  defined n /\ to_text t v = Some (yaml_emit n) /\ from_text t (yaml_emit n) = Some v.

Definition kept (t : ty) (v : denote t) : Prop :=
  (exists s, to_text t v = Some s /\ from_text t s = Some v) /\ (unquoted t v -> exists n, kept_by t v n).

Lemma kept_node t v n : kept_by t v n -> kept t v.
Proof. intros Hn. split; [exists (yaml_emit n); apply Hn|by exists n]. Qed.

Lemma basic_sequence_kept {b} (v : list (bval b)) : Forall (unquoted (TBasic b)) v ->
  let n := sequence_node ((fun x => NScalar (lexical_to b x)) <$> v) in
  yaml_load (yaml_emit n) = Some n /\ mapM (lexical_from b) (seq_texts n) = Some v /\ defined n.
Proof.
  intros Hv n. assert (defined n) as Hd.
  { apply defined_sequence_node, Forall_fmap, Forall_true. intros. apply defined_scalar. }
  split; [by apply load_emit|]. split; [|done].
  unfold n. rewrite seq_texts_of, <- list_fmap_compose. apply mapM_inverse.
  eapply Forall_impl; [exact Hv|]. intros x Hp. unfold compose. by rewrite emit_plain, lexical_roundtrip.
Qed.

Lemma mapM_basic {b} (v : list (bval b)) : mapM (fun x => Some (lexical_to b x)) v = Some (lexical_to b <$> v).
Proof. induction v as [|x v IH]; [done|]. cbn in *. by rewrite IH. Qed.

Lemma sequence_kept t (v : list (denote t)) : survives (TVector t) v -> exists n, kept_by (TVector t) v n.
Proof.
  intros Hv. destruct (decide (v = [])) as [->|Hne].
  { exists NNull. split; [apply defined_null|]. split; [done|]. cbn [Config.from_text]; casts.
    by rewrite load_emit by apply defined_null. }
  destruct t as [b| | | | | | |]; cbn [survives] in Hv; try done.
  destruct (basic_sequence_kept v Hv) as (Hl & Hm & Hd). eexists. split; [exact Hd|]. split.
  - change (to_text (TVector (TBasic b)) v) with
      (l ← mapM (fun x => Some (lexical_to b x)) v; Some (yaml_emit (sequence_node (NScalar <$> l)))).
    rewrite mapM_basic. cbn. by rewrite <- list_fmap_compose.
  - cbn [Config.from_text]; casts. rewrite Hl. exact Hm.
Qed.

(** The pairs of a map, given the nodes of its values. *)
Lemma map_pairs_kept t (v : list (bytes * denote t)) (f : bytes * denote t -> option (Node * Node))
    (g : Node * Node -> option (bytes * denote t)) :
  Forall (fun kv => exists n, defined n /\ f kv = Some (NScalar kv.1, n) /\ g (NScalar kv.1, n) = Some kv) v ->
  exists l, mapM f v = Some l /\ mapM g l = Some v /\ defined (map_node l).
Proof.
  intros Hv. enough (exists l, mapM f v = Some l /\ mapM g l = Some v /\
    Forall (fun kv => defined kv.1 /\ defined kv.2) l) as (l & ? & ? & ?)
    by (exists l; eauto using defined_map_node).
  induction Hv as [|kv v (n & Hd & Hf & Hg) _ IH]; [by exists []|].
  destruct IH as (l & Hl & Hm & Hds). exists ((NScalar kv.1, n) :: l). cbn. rewrite Hf, Hg. cbn.
  rewrite Hl, Hm. cbn. split; [done|]. split; [done|]. constructor; [|done]. by split; [apply defined_scalar|].
Qed.

Lemma from_text_map t l : defined (map_node l) ->
  from_text (TMap t) (yaml_emit (map_node l)) =
  map_of <$> mapM (fun kv => v ← from_text t (yaml_emit kv.2); Some (Scalar kv.1, v)) l.
Proof.
  intros. cbn [Config.from_text]; casts. rewrite load_emit by done. cbn [mbind option_bind]. rewrite iterable_map.
  cbn [mbind option_bind]. by destruct (mapM _ l).
Qed.

Lemma from_text_unordered_map t l : defined (map_node l) ->
  from_text (TUnorderedMap t) (yaml_emit (map_node l)) =
  unordered_map_of <$> mapM (fun kv => v ← from_text t (Scalar kv.2); Some (Scalar kv.1, v)) l.
Proof.
  intros. cbn [Config.from_text]; casts. rewrite load_emit by done. cbn [mbind option_bind]. rewrite iterable_map.
  cbn [mbind option_bind]. by destruct (mapM _ l).
Qed.

Lemma survives_kept t (v : denote t) : survives t v -> kept t v.
Proof.
  induction t as [b| |t _|t _|b|b|t IH|t IH]; intros Hv; cbn [survives] in Hv.
  - split; [exists (lexical_to b v); split; [done|apply lexical_roundtrip]|].
    intros Hp. exists (NScalar (lexical_to b v)). split; [apply defined_scalar|]. cbn [to_text Config.from_text].
    by rewrite emit_plain, lexical_roundtrip.
  - apply (kept_node _ _ (logger_node v)). assert (defined (logger_node v)) as Hd.
    { unfold logger_node. apply defined_map, Forall_app. split.
      - repeat constructor; apply defined_scalar.
      - case_bool_decide; repeat constructor; [apply defined_scalar|]. apply defined_sequence, Forall_fmap, Forall_true.
        intros a. unfold compose, appender_node. apply defined_map.
        case_bool_decide; repeat constructor; apply defined_scalar. }
    split; [done|]. split; [done|]. cbn. unfold logger_from_string. rewrite load_emit by done. cbn.
    by apply logger_of_node_ok.
  - destruct (sequence_kept t v Hv) as (n & Hn). by apply (kept_node _ _ n).
  - destruct (sequence_kept t v Hv) as (n & Hn). by apply (kept_node _ _ n).
  - destruct Hv as [Hv Hs]. destruct (basic_sequence_kept v Hv) as (Hl & Hm & Hd). eapply kept_node.
    split; [exact Hd|]. cbn [to_text Config.from_text]; casts. rewrite Hl. split; [done|]. cbn. rewrite Hm. cbn.
    by rewrite set_of_sorted.
  - destruct Hv as [Hv Hs]. destruct (basic_sequence_kept v Hv) as (Hl & Hm & Hd). eapply kept_node.
    split; [exact Hd|]. cbn [to_text Config.from_text]; casts. rewrite Hl. split; [done|]. cbn. rewrite Hm. cbn.
    by rewrite unordered_set_of_distinct.
  - destruct Hv as [Hv Hs]. cbn [denote] in v.
    edestruct (map_pairs_kept t v) as (l & Hl & Hm & Hd).
    { eapply Forall_impl; [exact Hv|]. intros kv [Hq Hkv]. destruct (IH _ Hkv) as [_ (n & Hn & Ht & Hf)]; [done|]. exists n.
      split; [done|]. split.
      - cbv beta. instantiate (1 := fun kv => s ← to_text t kv.2; n ← yaml_load s; Some (NScalar kv.1, n)).
        cbv beta. rewrite Ht. cbn. by rewrite load_emit.
      - instantiate (1 := fun kv => v ← from_text t (yaml_emit kv.2); Some (Scalar kv.1, v)).
        cbn. rewrite Hf. by destruct kv. }
    apply (kept_node _ _ (map_node l)). split; [done|]. cbn [to_text]; casts. rewrite Hl. split; [done|].
    rewrite from_text_map, Hm by done. cbn. by rewrite map_of_sorted.
  - destruct Hv as [Hv Hs]. cbn [denote] in v.
    edestruct (map_pairs_kept t v) as (l & Hl & Hm & Hd).
    { eapply Forall_impl; [exact Hv|]. intros kv Hkv. destruct (IH _ Hkv) as [(s & Ht & Hf) _].
      exists (NScalar s). split; [apply defined_scalar|]. split.
      - instantiate (1 := fun kv => s ← to_text t kv.2; Some (NScalar kv.1, NScalar s)).
        cbv beta. by rewrite Ht.
      - instantiate (1 := fun kv => v ← from_text t (Scalar kv.2); Some (Scalar kv.1, v)).
        cbn. rewrite Hf. by destruct kv. }
    apply (kept_node _ _ (map_node l)). split; [done|]. cbn [to_text]; casts. rewrite Hl. split; [done|].
    rewrite from_text_unordered_map, Hm by done. cbn. by rewrite unordered_map_of_distinct.
Qed.

(** A text that is one scalar has no elements. *)
Lemma from_scalar_empty t s : from_text (TVector t) (yaml_emit (NScalar s)) = Some [].
Proof. cbn [Config.from_text]; casts. by rewrite load_emit by apply defined_scalar. Qed.

(** What reading back a sequence that was written makes of its elements. *)
Lemma from_to_vector t vs s : to_text (TVector t) vs = Some s ->
  exists l, mapM (to_text t) vs = Some l /\
    from_text (TVector t) s = mapM (fun e => from_text t (yaml_emit (NScalar e))) l.
Proof.
  cbn [to_text]; casts. destruct (mapM (to_text t) vs) as [l|]; cbn; [|done]. intros [= <-]. exists l. split; [done|].
  cbn [Config.from_text]; casts.
  rewrite load_emit by (apply defined_sequence_node, Forall_fmap, Forall_true; intros; apply defined_scalar).
  cbn. rewrite seq_texts_of, <- list_fmap_compose. clear. induction l as [|e l IH]; [done|]. cbn in *.
  by rewrite IH.
Qed.

(** ** The theorems *)

(** C24: [Lookup<T>(name, def, desc)] gives a variable of type [T]: an existing one of that
    type as it is, else a new one with the default, which from then on is the variable of
    that name.  No variable anyone holds changes, and no other name does. *)
Theorem lookup_typed t name def desc c : cfg_ok c -> IsValidName name = true ->
  exists p c' v, Lookup t name def desc c = (Ret p, c') /\ cfg_ok c' /\
    vars c' !! p = Some v /\ cv_ty v = t /\ cv_name v = name /\
    LookupBase name c' = Some p /\ vars c ⊆ vars c' /\
    (forall n, n <> name -> LookupBase n c' = LookupBase n c) /\
    (Lookup_find t name c = Some p /\ c' = c \/
     Lookup_find t name c = None /\ vars c !! p = None /\ v = MkConfigVar name desc t def).
Proof.
  intros Hok Hv. destruct (Lookup_ok t name def desc c Hok Hv) as (p & c' & Hl & Hok' & Hf & Hsub & Hoth & Hcase).
  unfold Lookup_find in Hf. destruct (s_datas c' !! name) as [q|] eqn:Hq; [|done].
  destruct (vars c' !! q) as [v|] eqn:Hvq; [|done]. destruct (decide (cv_ty v = t)) as [Ht|]; [|done].
  injection Hf as ->. destruct (cok_names c' Hok' name p Hq) as (v' & Hv' & Hn).
  assert (v' = v) as -> by congruence.
  exists p, c', v. do 8 (split; [done|]). destruct (Lookup_find t name c) as [r|].
  - destruct Hcase as [-> ->]. by left.
  - right. destruct Hcase as [? ?]. split; [done|]. split; [done|]. congruence.
Qed.

(** C23: Loading a file gives every variable what the file says and nothing else.  For a
    non-empty name the nodes considered are exactly those that the keys of nested maps lead
    to, under the name followed by the keys with dots, where this is a valid name; a
    variable gets the value of the last such node under its own name whose text its type
    can read, and keeps its value when there is none.  Names, types and the map stay. *)
Theorem load_exact name root c : cfg_ok c -> name <> [] ->
  let nodes := list_all_member root name in
  (forall n node, (n, node) ∈ nodes <->
     IsValidName n = true /\ exists ks, reach root ks node /\ n = full_name name ks) /\
  exists c', LoadFromYmal name (Some root) c = (Ret (), c') /\ cfg_ok c' /\ s_datas c' = s_datas c /\
    forall p, vars c' !! p = (fun v => set_val v (value_after v (nodes_for c p nodes))) <$> vars c !! p.
Proof.
  intros Hok Hne nodes. split.
  - intros n node. unfold nodes. rewrite list_all_member_in. naive_solver.
  - unfold Config.LoadFromYmal. destruct (load_loop_ok nodes c Hok) as (c' & Hl & Hd & _ & Hok' & Hall).
    fold nodes. rewrite Hl. eauto.
Qed.

(** C34: What the text of a value gives back.  For types whose basic values
    [boost::lexical_cast] reads back, a value written as text and read again is the same: basic
    values; sequences and sets of basic values, and maps, where the texts of basic values need
    no quotes in YAML; unordered maps with any texts; maps in maps, to any depth; and
    definitions of loggers with the fields the text has.  The condition on quotes is needed:
    what a sequence of any basic values gives back are the casts of what YAML prints for each
    of their texts, with the quotes. *)
Theorem text_roundtrip :
  (forall t (v : denote t), survives t v -> exists s, to_text t v = Some s /\ from_text t s = Some v) /\
  (forall b (v : list (bval b)), exists s, to_text (TVector (TBasic b)) v = Some s /\
     from_text (TVector (TBasic b)) s = mapM (through b) v).
Proof.
  split; [intros t v Hv; apply (survives_kept t v Hv)|]. intros b v.
  destruct (to_text (TVector (TBasic b)) v) as [s|] eqn:Es.
  - exists s. split; [done|]. destruct (from_to_vector _ _ _ Es) as (l & Hl & ->).
    change (mapM (fun x => Some (lexical_to b x)) v = Some l) in Hl. rewrite mapM_basic in Hl. injection Hl as <-.
    clear Es. induction v as [|x v IH]; [done|]. cbn in *. unfold through at 1. by rewrite IH.
  - change ((l ← mapM (fun x => Some (lexical_to b x)) v; Some (yaml_emit (sequence_node (NScalar <$> l)))) = None) in Es.
    by rewrite mapM_basic in Es.
Qed.

(** A sequence of sequences does not survive: the elements are written as texts inside
    one text, and reading gives as many sequences, all empty.  A non-empty sequence of
    logger definitions cannot be read back at all. *)
Theorem nested_sequence_lost :
  (forall t vs s, to_text (TVector (TVector t)) vs = Some s ->
     from_text (TVector (TVector t)) s = Some ((fun _ => []) <$> vs)) /\
  (forall d ds s, to_text (TVector TLoggerDefine) (d :: ds) = Some s ->
     from_text (TVector TLoggerDefine) s = None).
Proof.
  split.
  - intros t vs s (l & Hl & ->)%from_to_vector. revert vs Hl. induction l as [|e l IH]; intros vs Hl.
    + apply mapM_Some_1, Forall2_length in Hl. by destruct vs.
    + apply mapM_Some_1, Forall2_cons_inv_r in Hl as (v & vs' & Hv & Hvs & ->). cbn [mapM]. rewrite from_scalar_empty.
      cbn [mbind option_bind]. rewrite (IH vs'); [done|]. by apply mapM_Some_2.
  - intros d ds s (l & Hl & ->)%from_to_vector. destruct l as [|e l].
    { by apply mapM_Some_1, Forall2_length in Hl. }
    cbn [mapM Config.from_text]. unfold logger_from_string. rewrite load_emit by apply defined_scalar. done.
Qed.
End ConfigProps.

(** ** A concrete library, for the examples *)

Fixpoint definedb (n : Node) : bool :=
  match n with
  | NUndefined => false
  | NNull | NScalar _ => true
  | NSequence l => forallb definedb l
  | NMap l => forallb (fun kv => definedb kv.1 && definedb kv.2) l
  end.

Fixpoint node_tree (n : Node) : gen_tree bytes :=
  match n with
  | NUndefined => GenNode 0 []
  | NNull => GenNode 1 []
  | NScalar s => GenLeaf s
  | NSequence l => GenNode 2 (node_tree <$> l)
  | NMap l => GenNode 3 ((fun kv => GenNode 4 [node_tree kv.1; node_tree kv.2]) <$> l)
  end.

Fixpoint tree_node (t : gen_tree bytes) : Node :=
  match t with
  | GenLeaf s => NScalar s
  | GenNode 1 _ => NNull
  | GenNode 2 l => NSequence (tree_node <$> l)
  | GenNode 3 l => NMap ((fun t => match t with
                                   | GenNode 4 [a; b] => (tree_node a, tree_node b)
                                   | _ => (NNull, NNull)
                                   end) <$> l)
  | _ => NUndefined
  end.

Lemma tree_node_tree n : tree_node (node_tree n) = n.
Proof.
  induction n as [| |s|l IH|l IH] using Node_induction; [done..| |]; cbn; f_equal;
    rewrite <- list_fmap_compose; rewrite <- (list_fmap_id l) at 2; apply list_fmap_ext; intros i x Hx;
    apply (Forall_lookup_1 _ _ i x) in IH; try done. destruct x, IH. cbn in *. by f_equal.
Qed.

(** Scalars of printable characters are plain; other nodes are printed as one number. *)
Definition plainb (s : bytes) : bool := negb (bool_decide (s = [])) && forallb (Z.leb 32) s.

Definition plain_emit (n : Node) : bytes :=
  match n with
  | NScalar s => if plainb s then s else [-1; Z.pos (encode (node_tree n))]
  | _ => [-1; Z.pos (encode (node_tree n))]
  end.

Definition plain_load (s : bytes) : option Node :=
  if plainb s then Some (NScalar s)
  else match s with
       | [_; Z.pos p] => tree_node <$> decode p
       | _ => None
       end.

Lemma plain_load_emit n : plain_load (plain_emit n) = Some n.
Proof.
  assert (plain_load [-1; Z.pos (encode (node_tree n))] = Some n) as Hn.
  { unfold plain_load. cbn [plainb bool_decide negb andb forallb]. cbn.
    by rewrite decode_encode; cbn; rewrite tree_node_tree. }
  destruct n as [| |s| |]; try exact Hn. unfold plain_emit.
  destruct (plainb s) eqn:Hs; [|exact Hn]. unfold plain_load. by rewrite Hs.
Qed.

Definition read_int (n : Node) : option Z :=
  match n with
  | NScalar (c :: s) => Some (if c =? 45 then - undec s else undec (c :: s))
  | _ => None
  end.

Lemma read_int_sdec n : sfits 32 n -> read_int (NScalar (sdec n)) = Some n.
Proof.
  unfold sfits, sdec. intros Hn. destruct (Z.ltb_spec n 0).
  - cbn [read_int Z.eqb Pos.eqb]. rewrite undec_dec by lia. f_equal. lia.
  - destruct (dec_loop_spec 20 n [] ltac:(lia)) as (ds & Hds & Hne & Hv & Hall); [lia|].
    unfold dec. rewrite Hds, app_nil_r. destruct ds as [|d ds]; [done|].
    apply Forall_cons in Hall as [Hd _].
    cbn [read_int]. destruct (Z.eqb_spec d 45); [lia|]. by rewrite Hv.
Qed.

#[local] Instance plain_yaml : Yaml.
Proof.
  refine {| yaml_load := plain_load; yaml_emit := plain_emit;
    as_string := fun n => match n with NScalar s => Some s | _ => None end; as_int := read_int;
    defined := fun n => definedb n = true; plain := plainb |}.
  - intros n _. apply plain_load_emit.
  - intros s Hs. cbn. by rewrite Hs.
  - done.
  - apply read_int_sdec.
  - done.
  - done.
  - done.
  - intros l. cbn. rewrite <- Is_true_true, forallb_True. apply Forall_iff. intros x. apply Is_true_true.
  - intros l. cbn. rewrite <- Is_true_true, forallb_True. apply Forall_iff. intros x.
    by rewrite Is_true_true, andb_true_iff.
Defined.

(** Texts and numbers. *)
Definition text_val (b : bool) : Type := if b then bytes else Z.

Definition text_from (b : bool) : bytes -> option (text_val b) :=
  match b with
  | true => fun s => Some s
  | false => fun s =>
      if forallb (fun c => (48 <=? c) && (c <=? 57)) s && negb (bool_decide (s = []))
      then Some (undec s) else None
  end.

Definition text_to (b : bool) : text_val b -> bytes :=
  match b with true => fun s => s | false => dec end.

Definition text_lt (b : bool) : text_val b -> text_val b -> bool :=
  match b with true => string_less | false => Z.ltb end.

#[local] Instance text_val_eq_dec b : EqDecision (text_val b).
Proof. destruct b; unfold text_val; apply _. Defined.

#[local] Instance text_types : BasicTypes :=
  {| basic := bool; bval := text_val; bval_lt := text_lt; lexical_from := text_from; lexical_to := text_to |}.

Definition TText : ty := @TBasic text_types true.
Definition TNumber : ty := @TBasic text_types false.

(** The port of a server was looked up as a text, and now is as a number. *)
Definition port_config : Config :=
  MkConfig {[ 1 := MkConfigVar (str "srv.port") [] TText (str "none" : text_val true) ]} {[ str "srv.port" := 1 ]} 2.

Lemma port_config_ok : cfg_ok port_config.
Proof.
  split; cbn [port_config s_datas vars cfg_next].
  - intros n p [<- <-]%lookup_singleton_Some. eexists. split; [apply lookup_singleton_eq|reflexivity].
  - intros p v [<- _]%lookup_singleton_Some. reflexivity.
Qed.

Lemma lookup_typed_witness : exists p c' v,
  Lookup TNumber (str "srv.port") (80 : text_val false) [] port_config = (Ret p, c') /\
  vars c' !! p = Some v /\ cv_ty v = TNumber /\ vars port_config ⊆ vars c'.
Proof.
  destruct (lookup_typed TNumber (str "srv.port") (80 : text_val false) [] port_config port_config_ok eq_refl)
    as (p & c' & v & H1 & _ & H2 & H3 & _ & _ & H4 & _).
  exists p, c', v. eauto.
Defined.

(** A file with the port of the server. *)
Lemma load_exact_witness : exists c',
  LoadFromYmal 0 (str "srv") (Some (NMap [(NScalar (str "port"), NScalar (str "8080"))])) port_config =
    (Ret (), c') /\
  vars c' !! 1 = Some (MkConfigVar (str "srv.port") [] TText (str "8080" : text_val true)).
Proof.
  destruct (load_exact 0 (str "srv") (NMap [(NScalar (str "port"), NScalar (str "8080"))]) port_config
    port_config_ok ltac:(discriminate)) as [_ (c' & Hl & _ & _ & Hall)].
  exists c'. split; [exact Hl|]. rewrite Hall. reflexivity.
Defined.

Definition nested_numbers : denote (TVector (TVector TNumber)) :=
  [[1 : text_val false; 20 : text_val false]; [3 : text_val false]].

Lemma nested_sequence_lost_witness : exists s,
  to_text (TVector (TVector TNumber)) nested_numbers = Some s /\
  from_text 0 (TVector (TVector TNumber)) s = Some [[]; []].
Proof.
  eexists. split; [reflexivity|].
  exact (proj1 (nested_sequence_lost 0) TNumber nested_numbers _ eq_refl).
Defined.

(** Texts and flags, which are always read back. *)
Definition flag_val (b : bool) : Type := if b then bytes else bool.

Definition flag_from (b : bool) : bytes -> option (flag_val b) :=
  match b with
  | true => fun s => Some s
  | false => fun s => if bool_decide (s = str "1") then Some true else if bool_decide (s = str "0") then Some false else None
  end.

Definition flag_to (b : bool) : flag_val b -> bytes :=
  match b with true => fun s => s | false => fun x : bool => if x then str "1" else str "0" end.

Definition flag_lt (b : bool) : flag_val b -> flag_val b -> bool :=
  match b with true => string_less | false => fun x y : bool => negb x && y end.

#[local] Instance flag_val_eq_dec b : EqDecision (flag_val b).
Proof. destruct b; unfold flag_val; apply _. Defined.

#[local] Instance flag_types : BasicTypes :=
  {| basic := bool; bval := flag_val; bval_lt := flag_lt; lexical_from := flag_from; lexical_to := flag_to |}.

#[local] Instance flag_laws : LexicalLaws.
Proof. split. by intros [] v; [|destruct v]. Defined.

Definition TWord : ty := @TBasic flag_types true.
Definition TFlag : ty := @TBasic flag_types false.

Definition flag_lists : denote (TMap (TVector TFlag)) :=
  [(str "a", [true : flag_val false; false : flag_val false]); (str "b", [])].

(** Flags come back; an empty text in a sequence does not. *)
Lemma text_roundtrip_witness :
  (exists s, to_text (TMap (TVector TFlag)) flag_lists = Some s /\
     from_text 0 (TMap (TVector TFlag)) s = Some flag_lists) /\
  (exists s, to_text (TVector TWord) [([] : flag_val true)] = Some s /\
     from_text 0 (TVector TWord) s <> Some [([] : flag_val true)]).
Proof.
  split.
  - apply (proj1 (text_roundtrip 0) (TMap (TVector TFlag)) flag_lists). split; repeat constructor.
  - destruct (proj2 (text_roundtrip (B := flag_types) 0) true [([] : flag_val true)]) as (s & Hs & Hf).
    exists s. split; [exact Hs|]. intros E. apply (eq_trans (eq_sym Hf)) in E. discriminate E.
Defined.
