(* ===== verification/Http.v ===== *)
(** * HTTP messages ([servers/http/http.h], [servers/http/http.cc])

    Methods and status codes with the tables of the source, the case-insensitive maps of
    headers, parameters and cookies, requests and responses with their accessors, the
    parsing of parameters and the rendering of messages. *)

From stdpp Require Import base list numbers strings.
From Stdlib Require Import Lia ZArith.
From S2P Require Import Prelude Util OrdSet OrdMap.

(** ** C strings *)

(** The characters of [s.c_str()] up to the terminator. *)
Fixpoint c_chars (s : bytes) : bytes :=
  match s with
  | [] => []
  | c :: s' => if c =? 0 then [] else c :: c_chars s'
  end.

Definition tolower (c : Z) : Z := if (65 <=? c) && (c <=? 90) then c + 32 else c.

(** What [strcasecmp] compares. *)
Definition fold_case (s : bytes) : bytes := tolower <$> c_chars s.

Definition strcasecmp_eq (a b : bytes) : bool := bool_decide (fold_case a = fold_case b).

Fixpoint is_prefix (p s : bytes) : bool :=
  match p, s with
  | [], _ => true
  | x :: p', y :: s' => (x =? y) && is_prefix p' s'
  | _, [] => false
  end.

(** [strcasestr (s, p) != nullptr]. *)
Fixpoint has_substring (p s : bytes) : bool :=
  is_prefix p s ||
  match s with
  | [] => false
  | _ :: s' => has_substring p s'
  end.

Definition strcasestr (s p : bytes) : bool := has_substring (fold_case p) (fold_case s).

(** ** Methods and status codes *)

Inductive HTTPMethod :=
| DELETE
| GET
| HEAD
| POST
| PUT
| CONNECT
| OPTIONS
| TRACE
| COPY
| LOCK
| MKCOL
| MOVE
| PROPFIND
| PROPPATCH
| SEARCH
| UNLOCK
| BIND
| REBIND
| UNBIND
| ACL
| REPORT
| MKACTIVITY
| CHECKOUT
| MERGE
| MSEARCH
| NOTIFY
| SUBSCRIBE
| UNSUBSCRIBE
| PATCH
| PURGE
| MKCALENDAR
| LINK
| UNLINK
| SOURCE
| INVALID_METHOD.

#[export] Instance method_eq_dec : EqDecision HTTPMethod.
Proof. solve_decision. Defined.

(** [HTTP_METHOD_MAP], with the third column as the preprocessor makes a string of it. *)
Definition HTTP_METHOD_MAP : list (HTTPMethod * bytes) :=
  [(DELETE, str "DELETE");
   (GET, str "GET");
   (HEAD, str "HEAD");
   (POST, str "POST");
   (PUT, str "PUT");
   (CONNECT, str "CONNECT");
   (OPTIONS, str "OPTIONS");
   (TRACE, str "TRACE");
   (COPY, str "COPY");
   (LOCK, str "LOCK");
   (MKCOL, str "MKCOL");
   (MOVE, str "MOVE");
   (PROPFIND, str "PROPFIND");
   (PROPPATCH, str "PROPPATCH");
   (SEARCH, str "SEARCH");
   (UNLOCK, str "UNLOCK");
   (BIND, str "BIND");
   (REBIND, str "REBIND");
   (UNBIND, str "UNBIND");
   (ACL, str "ACL");
   (REPORT, str "REPORT");
   (MKACTIVITY, str "MKACTIVITY");
   (CHECKOUT, str "CHECKOUT");
   (MERGE, str "MERGE");
   (MSEARCH, str "M - SEARCH");
   (NOTIFY, str "NOTIFY");
   (SUBSCRIBE, str "SUBSCRIBE");
   (UNSUBSCRIBE, str "UNSUBSCRIBE");
   (PATCH, str "PATCH");
   (PURGE, str "PURGE");
   (MKCALENDAR, str "MKCALENDAR");
   (LINK, str "LINK");
   (UNLINK, str "UNLINK");
   (SOURCE, str "SOURCE")].

(** [HTTP_STATUS_MAP]: code and message. *)
Definition HTTP_STATUS_MAP : list (Z * bytes) :=
  [(100, str "Continue");
   (101, str "Switching Protocols");
   (102, str "Processing");
   (200, str "OK");
   (201, str "Created");
   (202, str "Accepted");
   (203, str "Non - Authoritative Information");
   (204, str "No Content");
   (205, str "Reset Content");
   (206, str "Partial Content");
   (207, str "Multi - Status");
   (208, str "Already Reported");
   (226, str "IM Used");
   (300, str "Multiple Choices");
   (301, str "Moved Permanently");
   (302, str "Found");
   (303, str "See Other");
   (304, str "Not Modified");
   (305, str "Use Proxy");
   (307, str "Temporary Redirect");
   (308, str "Permanent Redirect");
   (400, str "Bad Request");
   (401, str "Unauthorized");
   (402, str "Payment Required");
   (403, str "Forbidden");
   (404, str "Not Found");
   (405, str "Method Not Allowed");
   (406, str "Not Acceptable");
   (407, str "Proxy Authentication Required");
   (408, str "Request Timeout");
   (409, str "Conflict");
   (410, str "Gone");
   (411, str "Length Required");
   (412, str "Precondition Failed");
   (413, str "Payload Too Large");
   (414, str "URI Too Long");
   (415, str "Unsupported Media Type");
   (416, str "Range Not Satisfiable");
   (417, str "Expectation Failed");
   (421, str "Misdirected Request");
   (422, str "Unprocessable Entity");
   (423, str "Locked");
   (424, str "Failed Dependency");
   (426, str "Upgrade Required");
   (428, str "Precondition Required");
   (429, str "Too Many Requests");
   (431, str "Request Header Fields Too Large");
   (451, str "Unavailable For Legal Reasons");
   (500, str "Internal Server Error");
   (501, str "Not Implemented");
   (502, str "Bad Gateway");
   (503, str "Service Unavailable");
   (504, str "Gateway Timeout");
   (505, str "HTTP Version Not Supported");
   (506, str "Variant Also Negotiates");
   (507, str "Insufficient Storage");
   (508, str "Loop Detected");
   (510, str "Not Extended");
   (511, str "Network Authentication Required")].

(** The chain of [if]s the macro expands to. *)
Fixpoint first_method (test : bytes -> bool) (l : list (HTTPMethod * bytes)) : HTTPMethod :=
  match l with
  | [] => INVALID_METHOD
  | (m, s) :: l' => if test s then m else first_method test l'
  end.

Definition StringToHTTPMethod (m : bytes) : HTTPMethod :=
  first_method (fun s => bool_decide (s = c_chars m)) HTTP_METHOD_MAP.

Definition CharsToHTTPMethod (m : bytes) : HTTPMethod :=
  first_method (fun s => is_prefix s (c_chars m)) HTTP_METHOD_MAP.

(** The value of the enumerator: its position in the table. *)
Fixpoint method_index (m : HTTPMethod) (l : list (HTTPMethod * bytes)) : Z :=
  match l with
  | [] => 0
  | (m', _) :: l' => if decide (m = m') then 0 else 1 + method_index m l'
  end.

(** The bounds check lets the index one past the table through. *)
Definition HTTPMethodToString (m : HTTPMethod) : res bytes :=
  let idx := method_index m HTTP_METHOD_MAP in
  if zlen HTTP_METHOD_MAP <? idx then Ret (str "UNKNOWN")
  else
    match HTTP_METHOD_MAP !! Z.to_nat idx with
    | Some (_, s) => Ret s
    | None => Undef BufferOverflow
    end.

Fixpoint find_status (s : Z) (l : list (Z * bytes)) : bytes :=
  match l with
  | [] => str "UNKNOWN"
  | (code, msg) :: l' => if s =? code then msg else find_status s l'
  end.

Definition HTTPStatusToString (s : Z) : bytes := find_status s HTTP_STATUS_MAP.

(** ** Maps with case-insensitive keys *)

Definition CaseInsensitiveLess (lhs rhs : bytes) : bool := lex_lt (fold_case lhs) (fold_case rhs).

Abbreviation header_map := (list (bytes * bytes)).

Definition get_in (m : header_map) (key def : bytes) : bytes :=
  match map_find CaseInsensitiveLess key m with
  | None => def
  | Some (_, v) => v
  end.

Definition has_in (m : header_map) (key : bytes) : bool :=
  match map_find CaseInsensitiveLess key m with
  | None => false
  | Some _ => true
  end.

(** [CheckGetAs] and [GetAs] with the conversion of [boost::lexical_cast], which throws
    ([None]) when it fails.  [CheckGetAs] returns false on every path. *)
Definition CheckGetAs {T} (lexical_cast : bytes -> option T) (m : header_map) (key : bytes)
    (def : T) : bool * T :=
  match map_find CaseInsensitiveLess key m with
  | None => (false, def)
  | Some (_, v) =>
      match lexical_cast v with
      | Some val => (false, val)
      | None => (false, def)
      end
  end.

Definition GetAs {T} (lexical_cast : bytes -> option T) (m : header_map) (key : bytes) (def : T) : T :=
  match map_find CaseInsensitiveLess key m with
  | None => def
  | Some (_, v) => match lexical_cast v with Some val => val | None => def end
  end.

Definition crlf : bytes := [13; 10].

(** The rendering of one header line: [connection] is written separately. *)
Definition dump_header (websocket : bool) (it : bytes * bytes) : bytes :=
  if negb websocket && strcasecmp_eq it.1 (str "connection") then []
  else it.1 ++ str ": " ++ it.2 ++ crlf.

Definition dump_body (body : bytes) : bytes :=
  if bool_decide (body = []) then crlf
  else str "content-length: " ++ dec (zlen body) ++ crlf ++ crlf ++ body.

(** ** Responses *)

Module HTTPResponse.
Record t := Mk {
  m_status : Z;
  m_version : Z;
  m_close : bool;
  m_websocket : bool;
  m_body : bytes;
  m_reason : bytes;
  m_headers : header_map;
  m_cookies : list bytes }.

Definition new_response (version : Z) (close : bool) : t := Mk 200 version close false [] [] [] [].

Definition set_status (v : Z) (r : t) : t :=
  Mk v (m_version r) (m_close r) (m_websocket r) (m_body r) (m_reason r) (m_headers r) (m_cookies r).
Definition set_version (v : Z) (r : t) : t :=
  Mk (m_status r) v (m_close r) (m_websocket r) (m_body r) (m_reason r) (m_headers r) (m_cookies r).
Definition set_close (v : bool) (r : t) : t :=
  Mk (m_status r) (m_version r) v (m_websocket r) (m_body r) (m_reason r) (m_headers r) (m_cookies r).
Definition set_websocket (v : bool) (r : t) : t :=
  Mk (m_status r) (m_version r) (m_close r) v (m_body r) (m_reason r) (m_headers r) (m_cookies r).
Definition set_body (v : bytes) (r : t) : t :=
  Mk (m_status r) (m_version r) (m_close r) (m_websocket r) v (m_reason r) (m_headers r) (m_cookies r).
Definition set_reason (v : bytes) (r : t) : t :=
  Mk (m_status r) (m_version r) (m_close r) (m_websocket r) (m_body r) v (m_headers r) (m_cookies r).
Definition set_headers (v : header_map) (r : t) : t :=
  Mk (m_status r) (m_version r) (m_close r) (m_websocket r) (m_body r) (m_reason r) v (m_cookies r).

Definition get_header (key def : bytes) (r : t) : bytes := get_in (m_headers r) key def.
Definition set_header (key value : bytes) (r : t) : t :=
  set_headers (map_set CaseInsensitiveLess key value (m_headers r)) r.
Definition del_header (key : bytes) (r : t) : t :=
  if has_in (m_headers r) key
  then set_headers (map_erase CaseInsensitiveLess key (m_headers r)) r else r.

Definition set_redirect (uri : bytes) (r : t) : t :=
  set_header (str "Location") uri (set_status 302 r).

(** [expires] is the rendering of the expiry time by [Time2Str]. *)
Definition set_cookies (key val : bytes) (expired : Z) (expires path domain : bytes)
    (secure : bool) (r : t) : t :=
  let s := key ++ str "=" ++ val
    ++ (if 0 <? expired then str ";expires=" ++ expires ++ str " GMT" else [])
    ++ (if bool_decide (domain = []) then [] else str ";dlomain=" ++ domain)
    ++ (if bool_decide (path = []) then [] else str ";path=" ++ path)
    ++ (if secure then str ";secure" else []) in
  Mk (m_status r) (m_version r) (m_close r) (m_websocket r) (m_body r) (m_reason r) (m_headers r)
    (m_cookies r ++ [s]).

Definition status_line (r : t) : bytes :=
  str "HTTP/" ++ dec (Z.shiftr (m_version r) 4) ++ str "." ++ dec (Z.land (m_version r) 15)
  ++ str " " ++ dec (m_status r) ++ str " "
  ++ (if bool_decide (m_reason r = []) then HTTPStatusToString (m_status r) else m_reason r) ++ crlf.

Definition dump (r : t) : bytes :=
  status_line r
  ++ flat_map (dump_header (m_websocket r)) (m_headers r)
  ++ flat_map (fun it => str "Set-Cookie: " ++ it ++ crlf) (m_cookies r)
  ++ (if m_websocket r then []
      else str "connection: " ++ (if m_close r then str "close" else str "keep-alive") ++ crlf)
  ++ dump_body (m_body r).
End HTTPResponse.

(** ** Requests *)

(** [str.find (c, pos)]; [None] is [npos]. *)
Fixpoint find_from (c pos : Z) (s : bytes) : option Z :=
  match s with
  | [] => None
  | x :: s' =>
      if (pos <=? 0) && (x =? c) then Some 0 else Z.succ <$> find_from c (pos - 1) s'
  end.

(** [PARSE_PARAM]: the loop at position [pos]; the values are percent-encoded, not
    decoded. *)
Fixpoint parse_param (fuel : nat) (s : bytes) (flag : Z) (trim : bytes -> bytes) (pos : Z)
    (m : header_map) : res header_map :=
  match fuel with
  | O => Undef Diverges
  | S fuel' =>
      match find_from 61 pos s with
      | None => Ret m
      | Some key =>
          let stop := find_from flag key s in
          let v := match stop with
                   | None => zdrop (key + 1) s
                   | Some p => slice (key + 1) (p - key - 1) s
                   end in
          let m := map_insert CaseInsensitiveLess (trim (slice pos (key - pos) s))
                     (UrlEncode v true) m in
          match stop with
          | None => Ret m
          | Some p => parse_param fuel' s flag trim (p + 1) m
          end
      end
  end.

Definition PARSE_PARAM (s : bytes) (flag : Z) (trim : bytes -> bytes) (m : header_map)
    : res header_map :=
  parse_param (S (length s)) s flag trim 0 m.

Module HTTPRequest.
Record t := Mk {
  m_method : HTTPMethod;
  m_version : Z;
  m_close : bool;
  m_websocket : bool;
  m_parser_param_flag : Z;
  m_path : bytes;
  m_query : bytes;
  m_fragment : bytes;
  m_body : bytes;
  m_headers : header_map;
  m_params : header_map;
  m_cookies : header_map }.

Definition new_request (version : Z) (close : bool) : t :=
  Mk GET version close false 0 (str "/") [] [] [] [] [] [].

Definition set_method (v : HTTPMethod) (r : t) : t :=
  Mk v (m_version r) (m_close r) (m_websocket r) (m_parser_param_flag r) (m_path r) (m_query r)
    (m_fragment r) (m_body r) (m_headers r) (m_params r) (m_cookies r).
Definition set_version (v : Z) (r : t) : t :=
  Mk (m_method r) v (m_close r) (m_websocket r) (m_parser_param_flag r) (m_path r) (m_query r)
    (m_fragment r) (m_body r) (m_headers r) (m_params r) (m_cookies r).
Definition set_close (v : bool) (r : t) : t :=
  Mk (m_method r) (m_version r) v (m_websocket r) (m_parser_param_flag r) (m_path r) (m_query r)
    (m_fragment r) (m_body r) (m_headers r) (m_params r) (m_cookies r).
Definition set_websocket (v : bool) (r : t) : t :=
  Mk (m_method r) (m_version r) (m_close r) v (m_parser_param_flag r) (m_path r) (m_query r)
    (m_fragment r) (m_body r) (m_headers r) (m_params r) (m_cookies r).
Definition set_parser_param_flag (v : Z) (r : t) : t :=
  Mk (m_method r) (m_version r) (m_close r) (m_websocket r) v (m_path r) (m_query r)
    (m_fragment r) (m_body r) (m_headers r) (m_params r) (m_cookies r).
Definition set_path (v : bytes) (r : t) : t :=
  Mk (m_method r) (m_version r) (m_close r) (m_websocket r) (m_parser_param_flag r) v (m_query r)
    (m_fragment r) (m_body r) (m_headers r) (m_params r) (m_cookies r).
Definition set_query (v : bytes) (r : t) : t :=
  Mk (m_method r) (m_version r) (m_close r) (m_websocket r) (m_parser_param_flag r) (m_path r) v
    (m_fragment r) (m_body r) (m_headers r) (m_params r) (m_cookies r).
Definition set_fragment (v : bytes) (r : t) : t :=
  Mk (m_method r) (m_version r) (m_close r) (m_websocket r) (m_parser_param_flag r) (m_path r)
    (m_query r) v (m_body r) (m_headers r) (m_params r) (m_cookies r).
Definition set_body (v : bytes) (r : t) : t :=
  Mk (m_method r) (m_version r) (m_close r) (m_websocket r) (m_parser_param_flag r) (m_path r)
    (m_query r) (m_fragment r) v (m_headers r) (m_params r) (m_cookies r).
Definition set_headers (v : header_map) (r : t) : t :=
  Mk (m_method r) (m_version r) (m_close r) (m_websocket r) (m_parser_param_flag r) (m_path r)
    (m_query r) (m_fragment r) (m_body r) v (m_params r) (m_cookies r).
Definition set_params (v : header_map) (r : t) : t :=
  Mk (m_method r) (m_version r) (m_close r) (m_websocket r) (m_parser_param_flag r) (m_path r)
    (m_query r) (m_fragment r) (m_body r) (m_headers r) v (m_cookies r).
Definition set_cookies (v : header_map) (r : t) : t :=
  Mk (m_method r) (m_version r) (m_close r) (m_websocket r) (m_parser_param_flag r) (m_path r)
    (m_query r) (m_fragment r) (m_body r) (m_headers r) (m_params r) v.

Definition get_header (key def : bytes) (r : t) : bytes := get_in (m_headers r) key def.
Definition has_header (key : bytes) (r : t) : bool := has_in (m_headers r) key.
Definition del_header (key : bytes) (r : t) : t :=
  set_headers (map_erase CaseInsensitiveLess key (m_headers r)) r.
Definition set_header (key val : bytes) (r : t) : t :=
  set_headers (map_set CaseInsensitiveLess key val (m_headers r)) r.

Definition init (r : t) : t :=
  let conn := get_header (str "connection") [] r in
  if bool_decide (conn = []) then r
  else set_close (negb (strcasecmp_eq conn (str "keep-alive"))) r.

Definition flag_set (bit : Z) (r : t) : bool := negb (Z.land (m_parser_param_flag r) bit =? 0).
Definition set_flag (bit : Z) (r : t) : t :=
  set_parser_param_flag (Z.lor (m_parser_param_flag r) bit) r.

Definition init_query_param (r : t) : res t :=
  if flag_set 1 r then Ret r
  else
    let? m := PARSE_PARAM (m_query r) 38 id (m_params r) in
    Ret (set_flag 1 (set_params m r)).

Definition init_body_param (r : t) : res t :=
  if flag_set 2 r then Ret r
  else if negb (strcasestr (get_header (str "content-type") [] r)
                  (str "application/x-www-form-urlencoded"))
  then Ret (set_flag 2 r)
  else
    let? m := PARSE_PARAM (m_body r) 38 id (m_params r) in
    Ret (set_flag 2 (set_params m r)).

Definition whitespace : bytes := [32; 9; 13; 10].

Definition init_cookies (r : t) : res t :=
  if flag_set 4 r then Ret r
  else
    let cookie := get_header (str "cookie") [] r in
    if bool_decide (cookie = []) then Ret (set_flag 4 r)
    else
      let? m := PARSE_PARAM cookie 59 (fun s => Trim s whitespace) (m_cookies r) in
      Ret (set_flag 4 (set_cookies m r)).

Definition init_param (r : t) : res t :=
  let? r := init_query_param r in
  let? r := init_body_param r in
  init_cookies r.

Definition get_params (r : t) : res (header_map * t) :=
  let? r := init_query_param r in
  let? r := init_body_param r in
  Ret (m_params r, r).

Definition get_param (key def : bytes) (r : t) : res (bytes * t) :=
  let? (m, r) := get_params r in Ret (get_in m key def, r).
Definition has_param (key : bytes) (r : t) : res (bool * t) :=
  let? (m, r) := get_params r in Ret (has_in m key, r).
Definition del_param (key : bytes) (r : t) : t :=
  set_params (map_erase CaseInsensitiveLess key (m_params r)) r.
Definition set_param (key val : bytes) (r : t) : t :=
  set_params (map_set CaseInsensitiveLess key val (m_params r)) r.

Definition get_cookies (r : t) : res (header_map * t) :=
  let? r := init_cookies r in Ret (m_cookies r, r).
Definition get_cookie (key def : bytes) (r : t) : res (bytes * t) :=
  let? (m, r) := get_cookies r in Ret (get_in m key def, r).
Definition has_cookie (key : bytes) (r : t) : res (bool * t) :=
  let? (m, r) := get_cookies r in Ret (has_in m key, r).
(** The cookie is erased when it is not there. *)
Definition del_cookie (key : bytes) (r : t) : t :=
  if has_in (m_cookies r) key then r
  else set_cookies (map_erase CaseInsensitiveLess key (m_cookies r)) r.
Definition set_cookie (key val : bytes) (r : t) : t :=
  set_cookies (map_set CaseInsensitiveLess key val (m_cookies r)) r.

Definition dump (r : t) : res bytes :=
  let? method := HTTPMethodToString (m_method r) in
  Ret (method ++ str " " ++ m_path r
    ++ (if bool_decide (m_query r = []) then [] else str "?") ++ m_query r
    ++ (if bool_decide (m_fragment r = []) then [] else str "#") ++ m_fragment r
    ++ str " HTTP/" ++ dec (Z.shiftr (m_version r) 4) ++ str "." ++ dec (Z.land (m_version r) 15)
    ++ crlf
    ++ (if m_websocket r then []
        else str "Connection: " ++ (if m_close r then str "close" else str "keep-alive") ++ crlf)
    ++ flat_map (dump_header (m_websocket r)) (m_headers r)
    ++ (if bool_decide (m_cookies r = []) then []
        else str "Set-Cookie: " ++ [10]
          ++ flat_map (fun it => [9] ++ it.1 ++ str ":" ++ it.2 ++ [10]) (m_cookies r))
    ++ dump_body (m_body r)).
End HTTPRequest.
