(* ===== verification/HttpProps.v ===== *)
(** * HTTP messages: the theorems

    The header maps are maps on names up to case, methods print and parse back, and what
    the parsing of parameters makes of a well-formed query. *)

From stdpp Require Import base list numbers strings sets sorting.
From Stdlib Require Import Lia ZArith.
From S2P Require Import Prelude Util OrdSet OrdMap Http.

(** ** Header maps *)

Definition headers_sorted (m : header_map) : Prop := map_sorted fold_case lex_lt m.

Definition same_name (a b : bytes) : bool := bool_decide (fold_case a = fold_case b).

Lemma get_in_holds m key def :
  headers_sorted m -> get_in m key def = default def (holds fold_case (fold_case key) m).
Proof.
  intros Hs. unfold get_in. rewrite <- (map_find_holds fold_case lex_lt key m Hs).
  unfold CaseInsensitiveLess. by destruct (map_find _ key m) as [[k v]|].
Qed.

Lemma has_in_holds m key :
  headers_sorted m -> has_in m key = bool_decide (is_Some (holds fold_case (fold_case key) m)).
Proof.
  intros Hs. unfold has_in. rewrite <- (map_find_holds fold_case lex_lt key m Hs).
  unfold CaseInsensitiveLess. by destruct (map_find _ key m) as [[k v]|].
Qed.

Lemma set_in m key val k def :
  headers_sorted m ->
  headers_sorted (map_set CaseInsensitiveLess key val m) /\
  get_in (map_set CaseInsensitiveLess key val m) k def =
    (if same_name k key then val else get_in m k def) /\
  has_in (map_set CaseInsensitiveLess key val m) k = same_name k key || has_in m k.
Proof.
  intros Hs. destruct (map_set_ok fold_case lex_lt key val m Hs) as (Hs' & Hh & _).
  split; [done|]. rewrite !get_in_holds, !has_in_holds by done.
  unfold CaseInsensitiveLess, same_name. rewrite !Hh.
  destruct (decide (fold_case k = fold_case key)) as [E|E].
  - rewrite (bool_decide_true (fold_case k = _)) by done. split; [done|].
    by rewrite bool_decide_true by (by eexists).
  - by rewrite (bool_decide_false (fold_case k = _)) by done.
Qed.

Lemma erase_in m key k def :
  headers_sorted m ->
  headers_sorted (map_erase CaseInsensitiveLess key m) /\
  get_in (map_erase CaseInsensitiveLess key m) k def =
    (if same_name k key then def else get_in m k def) /\
  has_in (map_erase CaseInsensitiveLess key m) k = negb (same_name k key) && has_in m k.
Proof.
  intros Hs. destruct (map_erase_ok fold_case lex_lt key m Hs) as (Hs' & Hh & _).
  split; [done|]. rewrite !get_in_holds, !has_in_holds by done.
  unfold CaseInsensitiveLess, same_name. rewrite !Hh.
  destruct (decide (fold_case k = fold_case key)) as [E|E].
  - rewrite (bool_decide_true (fold_case k = _)) by done. split; [done|].
    rewrite bool_decide_false; [done|]. by intros [].
  - by rewrite (bool_decide_false (fold_case k = _)) by done.
Qed.

(** the headers of a request are a map on names up to case: after [set_header] every
    spelling of the name finds the value and every other name what it found before, after
    [del_header] no spelling finds anything, and the map stays ordered; the same holds of
    the headers of a response. *)
Theorem headers_case_insensitive (r : HTTPRequest.t) (q : HTTPResponse.t) (key val k def : bytes) :
  headers_sorted (HTTPRequest.m_headers r) -> headers_sorted (HTTPResponse.m_headers q) ->
  (let r' := HTTPRequest.set_header key val r in
   headers_sorted (HTTPRequest.m_headers r') /\
   HTTPRequest.get_header k def r' =
     (if same_name k key then val else HTTPRequest.get_header k def r) /\
   HTTPRequest.has_header k r' = same_name k key || HTTPRequest.has_header k r) /\
  (let r' := HTTPRequest.del_header key r in
   headers_sorted (HTTPRequest.m_headers r') /\
   HTTPRequest.get_header k def r' =
     (if same_name k key then def else HTTPRequest.get_header k def r) /\
   HTTPRequest.has_header k r' = negb (same_name k key) && HTTPRequest.has_header k r) /\
  (let q' := HTTPResponse.set_header key val q in
   headers_sorted (HTTPResponse.m_headers q') /\
   HTTPResponse.get_header k def q' =
     (if same_name k key then val else HTTPResponse.get_header k def q)) /\
  (let q' := HTTPResponse.del_header key q in
   headers_sorted (HTTPResponse.m_headers q') /\
   HTTPResponse.get_header k def q' =
     (if same_name k key then def else HTTPResponse.get_header k def q)).
Proof.
  intros Hr Hq. cbn zeta. split; [|split; [|split]].
  - exact (set_in (HTTPRequest.m_headers r) key val k def Hr).
  - exact (erase_in (HTTPRequest.m_headers r) key k def Hr).
  - by destruct (set_in (HTTPResponse.m_headers q) key val k def Hq) as (? & ? & _).
  - unfold HTTPResponse.del_header. destruct (has_in (HTTPResponse.m_headers q) key) eqn:Hh.
    + by destruct (erase_in (HTTPResponse.m_headers q) key k def Hq) as (? & ? & _).
    + split; [done|]. unfold HTTPResponse.get_header. rewrite get_in_holds by done.
      rewrite has_in_holds in Hh by done. unfold same_name.
      destruct (decide (fold_case k = fold_case key)) as [E|E].
      * rewrite bool_decide_true, E by done.
        destruct (holds fold_case (fold_case key) _); [|done].
        by rewrite bool_decide_true in Hh by (by eexists).
      * by rewrite bool_decide_false by done.
Qed.

Lemma headers_case_insensitive_witness :
  let r := HTTPRequest.set_header (str "Content-Type") (str "text/html") (HTTPRequest.new_request 17 true) in
  HTTPRequest.get_header (str "CONTENT-TYPE") [] (HTTPRequest.set_header (str "content-type") (str "a/b") r)
  = str "a/b".
Proof.
  intros r. refine (proj1 (proj2 (proj1 (headers_case_insensitive r (HTTPResponse.new_response 17 true)
    (str "content-type") (str "a/b") (str "CONTENT-TYPE") [] _ _)))).
  - vm_compute. repeat constructor.
  - constructor.
Defined.

(** ** Methods *)

(** A method prints as a string that both parsers read back, for every method of the
    table; the enumerator after the last one is not covered: [HTTPMethodToString] reads
    past the table, since its check admits an index equal to the size. *)
Theorem method_roundtrip (m : HTTPMethod) :
  match HTTPMethodToString m with
  | Ret s => StringToHTTPMethod s = m /\ CharsToHTTPMethod s = m
  | Throw _ => False
  | Undef u => m = INVALID_METHOD /\ u = BufferOverflow
  end.
Proof. destruct m; vm_compute; by split. Qed.

(** ** Parameters *)

Lemma find_from_skip c pre l :
  find_from c (zlen pre) (pre ++ l) = Z.add (zlen pre) <$> find_from c 0 l.
Proof.
  induction pre as [|x pre IH]; cbn [app find_from]; [zlen_nil; by destruct (find_from c 0 l)|].
  rewrite zlen_cons. pose proof (zlen_nonneg pre). destruct (Z.leb_spec (1 + zlen pre) 0); [lia|].
  cbn [andb]. replace (1 + zlen pre - 1) with (zlen pre) by lia. rewrite IH.
  destruct (find_from c 0 l); cbn; [|done]. f_equal. lia.
Qed.

Lemma find_from_neg c i l : i <= 0 -> find_from c i l = find_from c 0 l.
Proof.
  revert i. induction l as [|x l IH]; intros i Hi; [done|]. cbn [find_from].
  destruct (Z.leb_spec i 0), (Z.leb_spec 0 0); [|lia..]. cbn [andb].
  destruct (x =? c); [done|]. by rewrite (IH (i - 1)), (IH (0 - 1)) by lia.
Qed.

Lemma find_from_hit c a b : c ∉ a -> find_from c 0 (a ++ c :: b) = Some (zlen a).
Proof.
  induction a as [|x a IH]; intros Hn; cbn [app find_from]; cbn [Z.leb Z.compare andb].
  - by rewrite Z.eqb_refl.
  - apply not_elem_of_cons in Hn as [Hx Hn]. destruct (Z.eqb_spec x c); [congruence|].
    rewrite find_from_neg, IH by (done || lia). cbn. rewrite zlen_cons. f_equal. lia.
Qed.

Lemma find_from_none c a : c ∉ a -> find_from c 0 a = None.
Proof.
  induction a as [|x a IH]; intros Hn; [done|]. cbn [find_from].
  apply not_elem_of_cons in Hn as [Hx Hn]. destruct (Z.eqb_spec x c); [congruence|]. cbn.
  by rewrite find_from_neg, IH by (done || lia).
Qed.

(** A query: [name=value] pairs separated by [flag]. *)
Fixpoint render (flag : Z) (kvs : list (bytes * bytes)) : bytes :=
  match kvs with
  | [] => []
  | [(k, v)] => k ++ 61 :: v
  | (k, v) :: kvs' => k ++ 61 :: v ++ flag :: render flag kvs'
  end.

Definition pair_ok (flag : Z) (kv : bytes * bytes) : Prop := (61 ∉ kv.1) /\ (flag ∉ kv.2).

Definition insert_pairs (trim : bytes -> bytes) (kvs : list (bytes * bytes)) (m : header_map)
    : header_map :=
  fold_left (fun m kv => map_insert CaseInsensitiveLess (trim kv.1) (UrlEncode kv.2 true) m) kvs m.

Lemma slice_mid (pre k post : bytes) : slice (zlen pre) (zlen k) (pre ++ k ++ post) = k.
Proof.
  unfold slice. rewrite zdrop_app_r by lia. rewrite Z.sub_diag, zdrop_0.
  rewrite ztake_app_l by lia. by apply ztake_all.
Qed.

Lemma parse_param_ok flag trim kvs fuel pre m :
  flag <> 61 -> Forall (pair_ok flag) kvs -> (length kvs < fuel)%nat ->
  parse_param fuel (pre ++ render flag kvs) flag trim (zlen pre) m = Ret (insert_pairs trim kvs m).
Proof.
  intros Hf Hok. revert fuel pre m. induction Hok as [|[k v] kvs [Hk Hv] Hok IH];
    intros [|fuel] pre m Hfuel; cbn [length] in Hfuel; try lia; cbn [parse_param].
  { rewrite find_from_skip. done. }
  cbn in Hk, Hv.
  assert (exists post, render flag ((k, v) :: kvs) = k ++ 61 :: v ++ post /\
    ((kvs = [] /\ post = []) \/ post = flag :: render flag kvs)) as (post & Hrn & Hpost).
  { destruct kvs as [|kv kvs]; [exists []|exists (flag :: render flag (kv :: kvs))].
    - cbn. rewrite app_nil_r. auto.
    - split; [done|by right]. }
  rewrite Hrn. rewrite find_from_skip, find_from_hit by done. cbn [fmap option_fmap option_map].
  replace (zlen pre + zlen k) with (zlen (pre ++ k)) by (by zlist).
  rewrite (app_assoc pre k). rewrite find_from_skip.
  assert (slice (zlen pre) (zlen (pre ++ k) - zlen pre) ((pre ++ k) ++ 61 :: v ++ post) = k) as ->.
  { rewrite zlen_app. replace (zlen pre + zlen k - zlen pre) with (zlen k) by lia.
    rewrite <- app_assoc. apply slice_mid. }
  assert ((pre ++ k) ++ 61 :: v ++ post = ((pre ++ k) ++ [61]) ++ v ++ post) as Hsplit
    by (by rewrite <- (app_assoc _ [61])).
  destruct Hpost as [[-> ->]| ->].
  - rewrite find_from_none.
    + cbn [fmap option_fmap option_map]. rewrite Hsplit, app_nil_r.
      replace (zlen (pre ++ k) + 1) with (zlen ((pre ++ k) ++ [61])) by (by zlist).
      rewrite zdrop_app_r, Z.sub_diag, zdrop_0 by lia. done.
    + rewrite app_nil_r. apply not_elem_of_cons. split; [done|done].
  - assert (find_from flag 0 (61 :: v ++ flag :: render flag kvs) = Some (1 + zlen v)) as ->.
    { rewrite <- zlen_cons with (a := 61). apply (find_from_hit flag (61 :: v)).
      apply not_elem_of_cons. by split. }
    cbn [fmap option_fmap option_map].
    assert (slice (zlen (pre ++ k) + 1) (zlen (pre ++ k) + (1 + zlen v) - zlen (pre ++ k) - 1)
      ((pre ++ k) ++ 61 :: v ++ flag :: render flag kvs) = v) as ->.
    { rewrite Hsplit. replace (zlen (pre ++ k) + 1) with (zlen ((pre ++ k) ++ [61])) by (by zlist).
      replace (zlen (pre ++ k) + (1 + zlen v) - zlen (pre ++ k) - 1) with (zlen v) by lia.
      apply slice_mid. }
    replace ((pre ++ k) ++ 61 :: v ++ flag :: render flag kvs)
      with (((pre ++ k) ++ [61] ++ v ++ [flag]) ++ render flag kvs)
      by (rewrite <- !app_assoc; done).
    replace (zlen (pre ++ k) + (1 + zlen v) + 1) with (zlen ((pre ++ k) ++ [61] ++ v ++ [flag]))
      by (zlist; lia).
    apply IH. lia.
Qed.

Lemma render_length flag kvs : (length kvs <= length (render flag kvs))%nat.
Proof.
  induction kvs as [|[k v] [|kv kvs] IH]; [done| |]; cbn [render length] in *.
  - rewrite length_app. cbn. lia.
  - rewrite !length_app. cbn [length]. rewrite length_app. cbn [length]. lia.
Qed.

(** the parsing of a query (or form body, or cookie header) enters every pair of a
    well-formed one, in order, keeping the first of two equal names; but the values it
    enters are percent-encoded once more instead of decoded. *)
Theorem params_parsed (flag : Z) (trim : bytes -> bytes) (kvs : list (bytes * bytes))
    (m : header_map) :
  flag <> 61 -> Forall (pair_ok flag) kvs ->
  PARSE_PARAM (render flag kvs) flag trim m = Ret (insert_pairs trim kvs m).
Proof.
  intros Hf Hok. unfold PARSE_PARAM. pose proof (render_length flag kvs).
  apply (parse_param_ok flag trim kvs _ []); [done|done|lia].
Qed.

Lemma params_parsed_witness :
  PARSE_PARAM (str "q=a%20b&lang=en") 38 id [] =
  Ret (insert_pairs id [(str "q", str "a%20b"); (str "lang", str "en")] []) /\
  get_in (insert_pairs id [(str "q", str "a%20b"); (str "lang", str "en")] []) (str "q") []
    = str "a%2520b".
Proof.
  split; [|vm_compute; reflexivity].
  apply (params_parsed 38 id [(str "q", str "a%20b"); (str "lang", str "en")] []); [done|].
  repeat constructor; cbn -[str]; intros Hin%list_elem_of_In; vm_compute in Hin; tauto || lia.
Defined.
