(* ===== verification/Address.v ===== *)
(** * Addresses ([address.h], [address.cc])

    Socket addresses as the structures of the platform hold them: ports and addresses in
    network order, so that their fields are values of the host's byte order.  The
    resolver and the interface list are parameters. *)

From stdpp Require Import base list numbers strings.
From Stdlib Require Import Lia ZArith.
From S2P Require Import Prelude Endian OrdSet ByteArray Hash Http.

(** ** Bit utilities *)

(** The loop of [CountBytes] on a value of at most [fuel] bits. *)
Fixpoint count_loop (fuel : nat) (value r : Z) : res Z :=
  if value =? 0 then Ret r
  else
    match fuel with
    | O => Undef Diverges
    | S fuel' => count_loop fuel' (Z.land value (value - 1)) (r + 1)
    end.

Definition CountBytes (w : nat) (value : Z) : res Z := count_loop w value 0.

(** [(1 << (sizeof (T) * 8 - bits)) - 1] in [int], converted to [T] of [w] bits. *)
Definition CreateMask (w bits : Z) : res Z :=
  let n := wrap 64 (w - bits) in
  if 32 <=? n then Undef ShiftRange
  else if 31 <=? n then Undef SignedOverflow
  else Ret (wrap w (2 ^ n - 1)).

(** [~v] at [w] bits. *)
Definition bnot (w v : Z) : Z := 2 ^ w - 1 - v.

(** ** Data *)

Definition AF_UNSPEC : Z := 0.
Definition AF_UNIX : Z := 1.
Definition AF_INET : Z := 2.
Definition AF_INET6 : Z := 10.

Record sockaddr_in := MkIn { sin_port : Z; s_addr : Z; sin_zero : bytes }.
Record sockaddr_in6 :=
  MkIn6 { sin6_port : Z; sin6_flowinfo : Z; s6_addr : bytes; sin6_scope_id : Z }.
(** The Unix structure with [m_len], the length that [UnixAddress] keeps beside it. *)
Record sockaddr_un := MkUn { sun_path : bytes; m_len : Z }.

(** A [sockaddr], by its family. *)
Inductive sockaddr :=
| SaIn (a : sockaddr_in)
| SaIn6 (a : sockaddr_in6)
| SaOther (family : Z) (sa_data : bytes).

Inductive Address :=
| IPv4Address (m_addr : sockaddr_in)
| IPv6Address (m_addr : sockaddr_in6)
| UnixAddress (m_addr : sockaddr_un)
| UnknownAddress (family : Z) (sa_data : bytes).

Definition sun_path_size : Z := 108.
Definition sun_path_offset : Z := 2.

Section Host.
Context (host : endian).

(** [Address::Create]; null gives null. *)
Definition Create (addr : option sockaddr) : option Address :=
  match addr with
  | None => None
  | Some (SaIn a) => Some (IPv4Address a)
  | Some (SaIn6 a) => Some (IPv6Address a)
  | Some (SaOther f d) => Some (UnknownAddress f d)
  end.

Definition get_family (a : Address) : Z :=
  match a with
  | IPv4Address _ => AF_INET
  | IPv6Address _ => AF_INET6
  | UnixAddress _ => AF_UNIX
  | UnknownAddress f _ => f
  end.

(** The [get_addr_len()] bytes at [get_addr()], for a length that does not run past the
    structure. *)
Definition addr_bytes (a : Address) : bytes :=
  match a with
  | IPv4Address m =>
      mem_of host 2 AF_INET ++ mem_of host 2 (sin_port m) ++ mem_of host 4 (s_addr m) ++ sin_zero m
  | IPv6Address m =>
      mem_of host 2 AF_INET6 ++ mem_of host 2 (sin6_port m) ++ mem_of host 4 (sin6_flowinfo m)
      ++ s6_addr m ++ mem_of host 4 (sin6_scope_id m)
  | UnixAddress m => ztake (m_len m) (mem_of host 2 AF_UNIX ++ sun_path m)
  | UnknownAddress f d => mem_of host 2 f ++ d
  end.

(** [memcmp], as the sign of its result. *)
Fixpoint memcmp (n : nat) (a b : bytes) : comparison :=
  match n, a, b with
  | S n', x :: a', y :: b' =>
      if x <? y then Lt else if y <? x then Gt else memcmp n' a' b'
  | _, _, _ => Eq
  end.

Definition addr_lt (a b : Address) : bool :=
  let x := addr_bytes a in
  let y := addr_bytes b in
  match memcmp (Nat.min (length x) (length y)) x y with
  | Eq => (length x <? length y)%nat
  | Lt => true
  | Gt => false
  end.

Definition addr_eq (a b : Address) : bool :=
  let x := addr_bytes a in
  let y := addr_bytes b in
  (length x =? length y)%nat && match memcmp (length x) x y with Eq => true | _ => false end.

Definition addr_ne (a b : Address) : bool := negb (addr_eq a b).

(** ** IPv4 *)

Definition zero_IPv4 : sockaddr_in := MkIn 0 0 (zrepeat 8 0).

Definition new_IPv4 (addr port : Z) : sockaddr_in :=
  MkIn (bswap_on_little_endian host 2 port) addr (zrepeat 8 0).

(** [inet_pton] gives the stored address, or fails. *)
Definition IPv4_Create (inet_pton : bytes -> option Z) (addr : bytes) (port : Z)
    : option sockaddr_in :=
  match inet_pton addr with
  | None => None
  | Some a => Some (MkIn (bswap_on_little_endian host 2 port) a (zrepeat 8 0))
  end.

Definition IPv4_get_port (m : sockaddr_in) : Z := bswap_on_little_endian host 2 (sin_port m).
Definition IPv4_set_port (v : Z) (m : sockaddr_in) : sockaddr_in :=
  MkIn (bswap_on_little_endian host 2 v) (s_addr m) (sin_zero m).

Definition IPv4_insert (m : sockaddr_in) : bytes :=
  let addr := bswap_on_little_endian host 4 (s_addr m) in
  dec (Z.land (Z.shiftr addr 24) 255) ++ str "." ++ dec (Z.land (Z.shiftr addr 16) 255) ++ str "."
  ++ dec (Z.land (Z.shiftr addr 8) 255) ++ str "." ++ dec (Z.land addr 255)
  ++ str ":" ++ dec (IPv4_get_port m).

Definition IPv4_broadcast_address (prefix_len : Z) (m : sockaddr_in) : res (option sockaddr_in) :=
  if 32 <? prefix_len then Ret None
  else
    let? mask := CreateMask 32 prefix_len in
    Ret (Some (MkIn (sin_port m)
      (Z.lor (s_addr m) (bswap_on_little_endian host 4 mask)) (sin_zero m))).

Definition IPv4_network_address (prefix_len : Z) (m : sockaddr_in) : res (option sockaddr_in) :=
  if 32 <? prefix_len then Ret None
  else
    let? mask := CreateMask 32 prefix_len in
    Ret (Some (MkIn (sin_port m)
      (Z.land (s_addr m) (bswap_on_little_endian host 4 (bnot 32 mask))) (sin_zero m))).

Definition IPv4_subnet_mask (prefix_len : Z) : res sockaddr_in :=
  let? mask := CreateMask 32 prefix_len in
  Ret (MkIn 0 (bnot 32 (bswap_on_little_endian host 4 mask)) (zrepeat 8 0)).

(** ** IPv6 *)

Definition zero_IPv6 : sockaddr_in6 := MkIn6 0 0 (zrepeat 16 0) 0.

(** The constructor from an address leaves the address zero. *)
Definition new_IPv6 (addr : bytes) (port : Z) : sockaddr_in6 :=
  MkIn6 (bswap_on_little_endian host 2 port) 0 (zrepeat 16 0) 0.

Definition IPv6_Create (inet_pton : bytes -> option bytes) (addr : bytes) (port : Z)
    : option sockaddr_in6 :=
  match inet_pton addr with
  | None => None
  | Some a => Some (MkIn6 (bswap_on_little_endian host 2 port) 0 a 0)
  end.

Definition IPv6_get_port (m : sockaddr_in6) : Z := bswap_on_little_endian host 2 (sin6_port m).
Definition IPv6_set_port (v : Z) (m : sockaddr_in6) : sockaddr_in6 :=
  MkIn6 (bswap_on_little_endian host 2 v) (sin6_flowinfo m) (s6_addr m) (sin6_scope_id m).

(** [s6_addr[i] = f (s6_addr[i])]; there are sixteen bytes. *)
Definition set_s6 (i : Z) (f : Z -> Z) (a : bytes) : res bytes :=
  match a !! Z.to_nat i with
  | Some b => Ret (<[Z.to_nat i := f b]> a)
  | None => Undef BufferOverflow
  end.

Definition with_s6 (a : bytes) (m : sockaddr_in6) : sockaddr_in6 :=
  MkIn6 (sin6_port m) (sin6_flowinfo m) a (sin6_scope_id m).

Definition IPv6_broadcast_address (prefix_len : Z) (m : sockaddr_in6) : res sockaddr_in6 :=
  let i := prefix_len / 8 in
  let? mask := CreateMask 8 (prefix_len mod 8) in
  let? a := set_s6 i (fun b => Z.lor b mask) (s6_addr m) in
  Ret (with_s6 (ztake (i + 1) a ++ zrepeat (15 - i) 255) m).

Definition IPv6_network_address (prefix_len : Z) (m : sockaddr_in6) : res sockaddr_in6 :=
  let i := prefix_len / 8 in
  let? mask := CreateMask 8 (prefix_len mod 8) in
  let? a := set_s6 i (fun b => Z.land b mask) (s6_addr m) in
  Ret (with_s6 (ztake (i + 1) a ++ zrepeat (15 - i) 0) m).

Definition IPv6_subnet_mask (prefix_len : Z) : res sockaddr_in6 :=
  let i := prefix_len / 8 in
  let? mask := CreateMask 8 (prefix_len mod 8) in
  let? a := set_s6 i (fun _ => bnot 8 mask) (zrepeat 16 0) in
  Ret (with_s6 (zrepeat i 255 ++ zdrop i a) zero_IPv6).

(** [os << std::hex << v]. *)
Fixpoint hex_num (fuel : nat) (v : Z) (acc : bytes) : bytes :=
  match fuel with
  | O => acc
  | S fuel' =>
      let acc := hex_digit (v mod 16) :: acc in
      if v <? 16 then acc else hex_num fuel' (v / 16) acc
  end.

(** The groups of [insert], with their index, the group before and whether the run of
    zeros was already abbreviated. *)
Fixpoint insert_groups (i : nat) (prev : Z) (used_zero : bool) (gs : list Z) : bytes * bool :=
  match gs with
  | [] => ([], used_zero)
  | g :: gs' =>
      if (g =? 0) && negb used_zero then insert_groups (S i) g used_zero gs'
      else
        let elide := negb (i =? 0)%nat && (prev =? 0) && negb used_zero in
        let '(rest, used) := insert_groups (S i) g (used_zero || elide) gs' in
        ((if elide then str ":" else []) ++ (if (i =? 0)%nat then [] else str ":")
         ++ hex_num 4 g [] ++ rest, used)
  end.

(** The eight groups of the address in host order. *)
Fixpoint groups (a : bytes) : list Z :=
  match a with
  | x :: y :: a' => (x * 256 + y) :: groups a'
  | _ => []
  end.

Definition IPv6_insert (m : sockaddr_in6) : bytes :=
  let gs := groups (s6_addr m) in
  let '(body, used) := insert_groups 0 0 false gs in
  str "[" ++ body
  ++ (if negb used && (default 0 (last gs) =? 0) then str "::" else [])
  ++ str "]" ++ dec (IPv6_get_port m).

(** ** Unix *)

Definition new_Unix : sockaddr_un :=
  MkUn (zrepeat sun_path_size 0) (sun_path_offset + (sun_path_size - 1)).

(** The constructor from a path. *)
Definition Unix_of_path (path : bytes) : res sockaddr_un :=
  let len := wrap 32 (zlen path + 1) in
  let len :=
    match path with
    | [] => len
    | c :: _ => if c =? 0 then len else wrap 32 (len - 1)
    end in
  if sun_path_size <? len then Throw logic_error
  else Ret (MkUn (splice 0 (ztake len (path ++ [0])) (zrepeat sun_path_size 0))
              (len + sun_path_offset)).

Definition set_addr_len (len : Z) (m : sockaddr_un) : sockaddr_un := MkUn (sun_path m) len.

Definition get_path (m : sockaddr_un) : res bytes :=
  match sun_path m with
  | c :: rest =>
      if (sun_path_offset <? m_len m) && (c =? 0)
      then
        if sun_path_size - 1 <? m_len m - sun_path_offset - 1 then Undef BufferOverflow
        else Ret (str "\0" ++ ztake (m_len m - sun_path_offset - 1) rest)
      else c_str (sun_path m)
  | [] => Undef BufferOverflow
  end.

(** ** Unknown families, printing *)

Definition new_Unknown (family : Z) : Address := UnknownAddress (wrap 16 family) (zrepeat 14 0).

(** [insert] of each class, and [to_string]. *)
Definition insert (a : Address) : res bytes :=
  match a with
  | IPv4Address m => Ret (IPv4_insert m)
  | IPv6Address m => Ret (IPv6_insert m)
  | UnixAddress m => get_path m
  | UnknownAddress f _ => Ret (str "[UnknownAddress family:" ++ dec f ++ str "]")
  end.

Definition to_string (a : Address) : res bytes := insert a.

(** ** Looking up *)

(** [memchr]: the position of the first occurrence. *)
Definition memchr (c : Z) (s : bytes) : option Z := find_from c 0 s.

(** The node and the service that [Lookup] passes on: [service] is a pointer into the
    host string. *)
Definition split_host (h : bytes) : bytes * option bytes :=
  let '(node, service) :=
    match h with
    | c :: rest =>
        if c =? 91 then
          match memchr 93 rest with
          | Some e =>
              (ztake e rest,
               match zdrop (e + 1) rest with
               | d :: s => if d =? 58 then Some s else None
               | [] => None
               end)
          | None => ([], None)
          end
        else ([], None)
    | [] => ([], None)
    end in
  let '(node, service) :=
    if bool_decide (node = []) then
      match memchr 58 h with
      | None => (node, None)
      | Some i =>
          let s := zdrop i h in
          match memchr 58 (zdrop 1 s) with
          | None => (ztake i h, Some (zdrop 1 s))
          | Some _ => (node, Some s)
          end
      end
    else (node, service) in
  (if bool_decide (node = []) then h else node, service).

Section Resolver.
(** [getaddrinfo] on node and service (the hints are fixed): an error, or the list. *)
Context (getaddrinfo : bytes -> option bytes -> option (list sockaddr)).

Definition Lookup (r : list Address) (h : bytes) : bool * list Address :=
  let '(node, service) := split_host h in
  match getaddrinfo (c_chars node) (c_chars <$> service) with
  | None => (false, r)
  | Some results =>
      let r := r ++ omap (fun a => Create (Some a)) results in
      (negb (bool_decide (r = [])), r)
  end.

Definition LookupAny (h : bytes) : option Address :=
  let '(ok, r) := Lookup [] h in if ok then head r else None.

Definition is_ip (a : Address) : bool :=
  match a with IPv4Address _ | IPv6Address _ => true | _ => false end.

Definition IPAddress_LookupAny (h : bytes) : option Address :=
  let '(ok, r) := Lookup [] h in
  if ok then head (base.filter (fun a => is_ip a = true) r) else None.
End Resolver.

(** ** Interfaces *)

(** An entry of [getifaddrs]; the netmask is the memory that the code casts. *)
Record ifaddr :=
  MkIf { ifa_name : bytes; ifa_addr : option sockaddr; ifa_netmask : option bytes }.

Fixpoint count_all (l : bytes) : res Z :=
  match l with
  | [] => Ret 0
  | b :: l' => let? n := CountBytes 8 b in let? m := count_all l' in Ret (n + m)
  end.

Definition sa_family (a : sockaddr) : Z :=
  match a with SaIn _ => AF_INET | SaIn6 _ => AF_INET6 | SaOther f _ => f end.

(** The [n] bytes at offset [off] of the netmask. *)
Definition netmask_bytes (off n : Z) (m : option bytes) : res bytes :=
  match m with
  | None => Undef NullDeref
  | Some bs => if zlen bs <? off + n then Undef BufferOverflow else Ret (slice off n bs)
  end.

(** The address of an entry with its prefix length; none for another family. *)
Definition interface_entry (a : sockaddr) (netmask : option bytes) : res (option (Address * Z)) :=
  match a with
  | SaIn a =>
      let? net := netmask_bytes 4 4 netmask in
      let? p := CountBytes 32 (of_mem host net) in
      Ret (Some (IPv4Address a, p))
  | SaIn6 a =>
      let? net := netmask_bytes 8 16 netmask in
      let? p := count_all net in
      Ret (Some (IPv6Address a, p))
  | SaOther _ _ => Ret None
  end.

(** The loop over the interfaces.  The multimap [r] is its list of entries in the order
    of insertion, which [equal_range] keeps among equal keys. *)
Fixpoint interfaces (family : Z) (l : list ifaddr) (r : list (bytes * (Address * Z)))
    : res (list (bytes * (Address * Z))) :=
  match l with
  | [] => Ret r
  | x :: l' =>
      match ifa_addr x with
      | None => Undef NullDeref
      | Some a =>
          if negb (family =? AF_UNSPEC) && negb (family =? sa_family a) then interfaces family l' r
          else
            let? entry := interface_entry a (ifa_netmask x) in
            interfaces family l'
              (match entry with Some e => r ++ [(ifa_name x, e)] | None => r end)
      end
  end.

Definition InterfaceAddresses (getifaddrs : option (list ifaddr))
    (r : list (bytes * (Address * Z))) (family : Z) : res (bool * list (bytes * (Address * Z))) :=
  match getifaddrs with
  | None => Ret (false, r)
  | Some l => let? r := interfaces family l r in Ret (negb (bool_decide (r = [])), r)
  end.

Definition InterfaceAddresses_of (getifaddrs : option (list ifaddr)) (r : list (Address * Z))
    (iface : bytes) (family : Z) : res (bool * list (Address * Z)) :=
  if bool_decide (iface = []) || bool_decide (iface = str "*") then
    Ret (true,
      r ++ (if (family =? AF_INET) || (family =? AF_UNSPEC) then [(IPv4Address zero_IPv4, 0)] else [])
      ++ (if (family =? AF_INET6) || (family =? AF_UNSPEC)
          then [(IPv6Address zero_IPv6, 0)] else []))
  else
    let? (ok, rs) := InterfaceAddresses getifaddrs [] family in
    if ok then
      Ret (negb (bool_decide (rs = [])), r ++ (snd <$> base.filter (fun p => p.1 = iface) rs))
    else Ret (false, r).
End Host.
