(* ===== verification/AddressProps.v ===== *)
(** * Properties of the addresses

    Subnets of both families as arithmetic on the address in host order, the prefix length
    read back from a netmask, paths of Unix addresses, the forms of a host string. *)

From stdpp Require Import base list numbers strings.
From Stdlib Require Import Lia ZArith.
From S2P Require Import Prelude Endian OrdSet ByteArray Hash Http HttpProps Address.

(** ** Swapping bytes moves bits *)

Lemma byte_testbit_high b j : is_byte b -> 8 <= j -> Z.testbit b j = false.
Proof.
  intros Hb Hj. destruct (Z.eq_dec b 0) as [->|]; [apply Z.bits_0|].
  apply Z.bits_above_log2; [unfold is_byte in Hb; lia|].
  apply Z.lt_le_trans with 8; [|done]. apply Z.log2_lt_pow2; unfold is_byte in Hb; simpl; lia.
Qed.

Lemma le_val_testbit bs i : Forall is_byte bs -> 0 <= i ->
  Z.testbit (le_val bs) i = Z.testbit (nth (Z.to_nat (i / 8)) bs 0) (i mod 8).
Proof.
  intros Hbs. revert i. induction Hbs as [|b bs Hb _ IH]; intros i Hi.
  { rewrite Z.bits_0. destruct (Z.to_nat (i / 8)); simpl; by rewrite Z.bits_0. }
  cbn [le_val]. replace (b + 256 * le_val bs) with (Z.lor b (Z.shiftl (le_val bs) 8)).
  2: { rewrite lor_low_high by (done || lia). lia. }
  rewrite Z.lor_spec. destruct (Z.lt_ge_cases i 8) as [Hlt|Hge].
  - rewrite Z.shiftl_spec_low, orb_false_r by lia.
    by rewrite Z.div_small, Z.mod_small by lia.
  - rewrite byte_testbit_high, orb_false_l, Z.shiftl_spec, IH by (done || lia).
    replace (i / 8) with (Z.succ ((i - 8) / 8)) by (Z.to_euclidean_division_equations; lia).
    rewrite Z2Nat.inj_succ by (Z.to_euclidean_division_equations; lia). cbn [nth].
    f_equal. Z.to_euclidean_division_equations; lia.
Qed.

Lemma bswap_testbit n v i : 0 <= i < 8 * Z.of_nat n ->
  Z.testbit (bswap n v) i = Z.testbit v (8 * (Z.of_nat n - 1 - i / 8) + i mod 8).
Proof.
  intros Hi. unfold bswap.
  assert (0 <= i / 8 < Z.of_nat n) as Hq by (Z.to_euclidean_division_equations; lia).
  pose proof (Z.mod_pos_bound i 8 ltac:(lia)) as Hr.
  rewrite le_val_testbit by (eauto with tiger || lia).
  set (j := 8 * _ + _).
  assert (Z.testbit v j = Z.testbit (wrap (8 * Z.of_nat n) v) j) as ->.
  { unfold wrap. rewrite Z.mod_pow2_bits_low by lia. done. }
  rewrite <- le_val_le_bytes, le_val_testbit by (eauto using le_bytes_ok || lia).
  replace (j mod 8) with (i mod 8) by (Z.to_euclidean_division_equations; lia).
  f_equal. unfold reverse. rewrite <- rev_alt.
  rewrite rev_nth by (rewrite length_le_bytes; lia). rewrite length_le_bytes. f_equal.
  Z.to_euclidean_division_equations; lia.
Qed.

(** An operation on bits commutes with the conversion between host and network order. *)
Lemma bswap_bitwise n (f : bool -> bool -> bool) (op : Z -> Z -> Z) x y :
  (forall a b i, 0 <= i < 8 * Z.of_nat n ->
     Z.testbit (op a b) i = f (Z.testbit a i) (Z.testbit b i)) ->
  fits (8 * Z.of_nat n) (op (bswap n x) (bswap n y)) ->
  bswap n (op x y) = op (bswap n x) (bswap n y).
Proof.
  intros Hop Hf. apply Z.bits_inj'. intros i Hi.
  destruct (Z.lt_ge_cases i (8 * Z.of_nat n)) as [Hlt|Hge].
  - pose proof (Z.mod_pos_bound i 8 ltac:(lia)) as Hr.
    assert (0 <= i / 8 < Z.of_nat n) by (Z.to_euclidean_division_equations; lia).
    rewrite Hop, !bswap_testbit, Hop by lia. done.
  - pose proof (bswap_fits n (op x y)) as Hl.
    by rewrite <- (wrap_small _ _ Hl), <- (wrap_small _ _ Hf); unfold wrap;
      rewrite !Z.mod_pow2_bits_high by lia.
Qed.

Lemma bnot_testbit w v i : 0 <= i < w -> Z.testbit (bnot w v) i = negb (Z.testbit v i).
Proof.
  intros Hi. unfold bnot. rewrite <- Z.lnot_spec by lia.
  rewrite <- (Z.mod_pow2_bits_low (2 ^ w - 1 - v) w), <- (Z.mod_pow2_bits_low (Z.lnot v) w) by lia.
  f_equal. replace (2 ^ w - 1 - v) with (Z.lnot v + 1 * 2 ^ w) by (unfold Z.lnot; lia).
  by rewrite Z.mod_add by lia.
Qed.

Lemma bnot_fits w v : fits w v -> fits w (bnot w v).
Proof. unfold fits, bnot. lia. Qed.

Lemma fits_bits w v : 0 <= w -> 0 <= v -> (forall i, w <= i -> Z.testbit v i = false) -> fits w v.
Proof.
  intros Hw Hv H. unfold fits.
  assert (v = v mod 2 ^ w) as ->; [|apply Z.mod_pos_bound; lia].
  apply Z.bits_inj'. intros i Hi. destruct (Z.lt_ge_cases i w).
  - by rewrite Z.mod_pow2_bits_low by lia.
  - by rewrite Z.mod_pow2_bits_high, H by lia.
Qed.

Lemma fits_high w v i : fits w v -> 0 <= w <= i -> Z.testbit v i = false.
Proof. intros Hf Hi. rewrite <- (wrap_small w v Hf). by apply Z.mod_pow2_bits_high. Qed.

Lemma land_fits w a b : 0 <= w -> fits w a -> fits w b -> fits w (Z.land a b).
Proof.
  intros Hw Ha Hb. apply fits_bits; [done|apply Z.land_nonneg; left; apply Ha|].
  intros i Hi. rewrite Z.land_spec, (fits_high w a) by (done || lia). done.
Qed.

Lemma lor_fits w a b : 0 <= w -> fits w a -> fits w b -> fits w (Z.lor a b).
Proof.
  intros Hw Ha Hb. apply fits_bits; [done|apply Z.lor_nonneg; split; [apply Ha|apply Hb]|].
  intros i Hi. by rewrite Z.lor_spec, (fits_high w a), (fits_high w b) by (done || lia).
Qed.

(** The value in host order of a stored 32-bit field. *)
Abbreviation hostv host := (bswap_on_little_endian host 4).

Section HostOrder.
Context (host : endian).

Lemma hostv_fits v : fits 32 v -> fits 32 (hostv host v).
Proof. intros Hv. destruct host; [apply (bswap_fits 4)|done]. Qed.

Lemma hostv_hostv v : fits 32 v -> hostv host (hostv host v) = v.
Proof.
  intros Hv. destruct host; [|done]. change (bswap 4 (bswap 4 v) = v).
  rewrite bswap_bswap. by apply wrap_small.
Qed.

Lemma hostv_land a b : fits 32 a -> fits 32 b ->
  hostv host (Z.land a b) = Z.land (hostv host a) (hostv host b).
Proof.
  intros. destruct host; [|done]. apply (bswap_bitwise 4 andb); [intros; apply Z.land_spec|].
  apply land_fits; [lia|apply (bswap_fits 4)..].
Qed.

Lemma hostv_lor a b : fits 32 a -> fits 32 b ->
  hostv host (Z.lor a b) = Z.lor (hostv host a) (hostv host b).
Proof.
  intros. destruct host; [|done]. apply (bswap_bitwise 4 orb); [intros; apply Z.lor_spec|].
  apply lor_fits; [lia|apply (bswap_fits 4)..].
Qed.

Lemma hostv_bnot a : fits 32 a -> hostv host (bnot 32 a) = bnot 32 (hostv host a).
Proof.
  intros. destruct host; [|done].
  apply (bswap_bitwise 4 (fun x _ => negb x) (fun x _ => bnot 32 x) a 0).
  - intros. by apply bnot_testbit.
  - apply bnot_fits, (bswap_fits 4).
Qed.
End HostOrder.

(** ** Masks *)

Lemma CreateMask_ok w bits : 0 <= w < 2 ^ 32 -> 0 <= bits <= w -> w - bits < 31 ->
  CreateMask w bits = Ret (2 ^ (w - bits) - 1).
Proof.
  intros Hw Hb Hd. unfold CreateMask. rewrite (wrap_small 64) by (unfold fits; lia).
  destruct (Z.leb_spec 32 (w - bits)); [lia|]. destruct (Z.leb_spec 31 (w - bits)); [lia|].
  f_equal. apply wrap_small. unfold fits.
  pose proof (Z.pow_le_mono_r 2 (w - bits) w). pose proof (Z.pow_pos_nonneg 2 (w - bits)). lia.
Qed.

(** Clearing and setting the low [k] bits. *)
Lemma land_mask w k v : 0 <= k <= w -> fits w v ->
  Z.land v (bnot w (2 ^ k - 1)) = v - v mod 2 ^ k.
Proof.
  intros Hk Hv. replace (Z.land v _) with (Z.ldiff v (Z.ones k)).
  - rewrite Z.ldiff_ones_r by lia. rewrite Z.shiftr_div_pow2, Z.shiftl_mul_pow2 by lia.
    pose proof (Z.div_mod v (2 ^ k)). lia.
  - apply Z.bits_inj'. intros i Hi. rewrite Z.ldiff_spec, Z.land_spec.
    destruct (Z.lt_ge_cases i w); [|by rewrite (fits_high w v) by (done || lia)].
    rewrite bnot_testbit by lia. do 2 f_equal. f_equal. rewrite Z.ones_equiv. lia.
Qed.

Lemma lor_mask k v : 0 <= k -> Z.lor v (2 ^ k - 1) = v - v mod 2 ^ k + (2 ^ k - 1).
Proof.
  intros Hk. replace (2 ^ k - 1) with (Z.ones k) by (rewrite Z.ones_equiv; lia).
  pose proof (Z.add_lor_land v (Z.ones k)) as H. rewrite Z.land_ones in H by lia. lia.
Qed.

(** ** IPv4 subnets *)

(** The bits of a mask, in either order, are as many as its prefix. *)
Definition prefix_read_back (host : endian) (n : Z) : bool :=
  match CountBytes 32 (bnot 32 (hostv host (2 ^ (32 - n) - 1))) with
  | Ret p => p =? n
  | _ => false
  end.

Lemma prefix_read_back_all host : forallb (prefix_read_back host) (seqZ 0 33) = true.
Proof. destruct host; vm_compute; reflexivity. Qed.

Lemma prefix_read_back_ret host n : prefix_read_back host n = true ->
  CountBytes 32 (bnot 32 (hostv host (2 ^ (32 - n) - 1))) = Ret n.
Proof.
  unfold prefix_read_back. generalize (CountBytes 32 (bnot 32 (hostv host (2 ^ (32 - n) - 1)))).
  intros [p| |] H; [|discriminate H..]. f_equal. by apply Z.eqb_eq.
Qed.

Lemma prefix_of_mask host n : 0 <= n <= 32 ->
  CountBytes 32 (bnot 32 (hostv host (2 ^ (32 - n) - 1))) = Ret n.
Proof.
  intros Hn. apply prefix_read_back_ret. pose proof (prefix_read_back_all host) as H.
  rewrite forallb_forall in H. apply H. rewrite <- list_elem_of_In, elem_of_seqZ. lia.
Qed.

(** IPv4 subnets: for a prefix of 2 to 32 bits [network_address] clears the host bits of
    the address, [broadcast_address] sets them, both keep the port, and [subnet_mask] is the
    mask of that prefix, whose bits [CountBytes] counts back; the values are in host order,
    on hosts of either byte order.  A prefix over 32 gives no address.  The shifts for the
    prefixes 0 and 1 are undefined. *)
Theorem ipv4_subnet (host : endian) (m : sockaddr_in) (n : Z) :
  fits 32 (s_addr m) -> 0 <= n < 2 ^ 32 ->
  let v := hostv host (s_addr m) in
  let h := 2 ^ (32 - n) in
  (2 <= n <= 32 -> exists net bc mask,
     IPv4_network_address host n m = Ret (Some net) /\
     IPv4_broadcast_address host n m = Ret (Some bc) /\
     IPv4_subnet_mask host n = Ret mask /\
     hostv host (s_addr net) = v - v mod h /\
     hostv host (s_addr bc) = v - v mod h + (h - 1) /\
     hostv host (s_addr mask) = 2 ^ 32 - h /\
     sin_port net = sin_port m /\ sin_port bc = sin_port m /\ sin_port mask = 0 /\
     CountBytes 32 (s_addr mask) = Ret n) /\
  (32 < n -> IPv4_network_address host n m = Ret None /\ IPv4_broadcast_address host n m = Ret None) /\
  (n = 0 -> IPv4_network_address host n m = Undef ShiftRange) /\
  (n = 1 -> IPv4_network_address host n m = Undef SignedOverflow).
Proof.
  intros Hs Hn v h. split; [|split].
  - intros Hp. set (k := 2 ^ (32 - n) - 1).
    assert (fits 32 k) as Hk.
    { unfold k, fits. pose proof (Z.pow_le_mono_r 2 (32 - n) 32).
      pose proof (Z.pow_pos_nonneg 2 (32 - n)). lia. }
    unfold IPv4_network_address, IPv4_broadcast_address, IPv4_subnet_mask.
    destruct (Z.ltb_spec 32 n); [lia|]. rewrite CreateMask_ok by lia. cbn [res_bind]. fold k.
    do 3 eexists. do 3 (split; [reflexivity|]). cbn [s_addr sin_port].
    pose proof (hostv_fits host). pose proof bnot_fits.
    rewrite hostv_land, hostv_lor, (hostv_bnot _ (hostv host k)), !hostv_hostv by auto.
    unfold k. rewrite land_mask, lor_mask by (auto || lia).
    split; [done|]. split; [done|]. split; [unfold bnot, h; lia|].
    do 3 (split; [done|]).
    apply prefix_of_mask. lia.
  - intros Hg. unfold IPv4_network_address, IPv4_broadcast_address.
    by destruct (Z.ltb_spec 32 n); [|lia].
  - split; intros ->; reflexivity.
Qed.

Lemma ipv4_subnet_witness :
  exists net bc mask,
    let m := MkIn 80 (hostv LITTLE_ENDIAN 3232235877) [] in
    IPv4_network_address LITTLE_ENDIAN 24 m = Ret (Some net) /\
    IPv4_broadcast_address LITTLE_ENDIAN 24 m = Ret (Some bc) /\
    IPv4_subnet_mask LITTLE_ENDIAN 24 = Ret mask /\
    hostv LITTLE_ENDIAN (s_addr net) = 3232235776.
Proof.
  destruct (proj1 (ipv4_subnet LITTLE_ENDIAN (MkIn 80 (hostv LITTLE_ENDIAN 3232235877) []) 24
    ltac:(by vm_compute) ltac:(by vm_compute)) ltac:(lia))
    as (net & bc & mask & H1 & H2 & H3 & H4 & _).
  exists net, bc, mask. split; [exact H1|]. split; [exact H2|]. split; [exact H3|].
  rewrite H4. reflexivity.
Defined.

(** ** IPv6 subnets *)

Lemma le_val_app a b : le_val (a ++ b) = le_val a + 2 ^ (8 * zlen a) * le_val b.
Proof.
  induction a as [|x a IH]; [change (2 ^ (8 * zlen [])) with 1; cbn [app le_val]; lia|].
  cbn [app le_val]. rewrite IH, zlen_cons.
  replace (8 * (1 + zlen a)) with (8 + 8 * zlen a) by lia.
  rewrite Z.pow_add_r by zlen_lia. lia.
Qed.

Lemma be_val_app a b : be_val (a ++ b) = be_val a * 2 ^ (8 * zlen b) + be_val b.
Proof.
  unfold be_val. rewrite reverse_app, le_val_app. unfold zlen. rewrite length_reverse. lia.
Qed.

Lemma be_val_bound bs : Forall is_byte bs -> 0 <= be_val bs < 2 ^ (8 * zlen bs).
Proof.
  intros H. unfold be_val. replace (zlen bs) with (zlen (reverse bs)) by (unfold zlen; by rewrite length_reverse).
  by apply le_val_bound, Forall_reverse.
Qed.

Lemma be_val_singleton b : be_val [b] = b.
Proof. cbn. lia. Qed.

Lemma be_val_ones k : 0 <= k -> be_val (zrepeat k 255) = 2 ^ (8 * k) - 1.
Proof.
  intros Hk. unfold zrepeat. rewrite <- (Z2Nat.id k) at 2 by done. clear Hk.
  induction (Z.to_nat k) as [|n IH]; [done|].
  rewrite replicate_S_end, be_val_app, IH, be_val_singleton. change (zlen [255]) with 1.
  rewrite Nat2Z.inj_succ, Z.mul_succ_r, (Z.pow_add_r 2 _ 8) by lia.
  change (2 ^ (8 * 1)) with 256. change (2 ^ 8) with 256. lia.
Qed.

Lemma be_val_zeros k : be_val (zrepeat k 0) = 0.
Proof.
  unfold zrepeat. induction (Z.to_nat k) as [|n IH]; [done|].
  rewrite replicate_S_end, be_val_app, IH. done.
Qed.

(** An address around the byte at which the prefix of [n] bits ends. *)
Lemma s6_split (a : bytes) i : zlen a = 16 -> 0 <= i < 16 -> exists pre b post,
  a = pre ++ b :: post /\ zlen pre = i /\ zlen post = 15 - i.
Proof.
  intros Ha Hi. exists (ztake i a).
  destruct (zdrop i a) as [|b post] eqn:E.
  - apply (f_equal zlen) in E. rewrite zlen_zdrop in E by lia. change (zlen []) with 0 in E. lia.
  - exists b, post. split; [by rewrite <- E, ztake_zdrop|]. split; [apply zlen_ztake; lia|].
    apply (f_equal zlen) in E. rewrite zlen_zdrop, zlen_cons in E by lia. lia.
Qed.

Lemma set_s6_at f pre b post : set_s6 (zlen pre) f (pre ++ b :: post) = Ret (pre ++ f b :: post).
Proof.
  unfold set_s6, zlen. rewrite Nat2Z.id.
  rewrite list_lookup_middle, insert_app_r_alt, Nat.sub_diag by done. done.
Qed.

(** The low part of an address that ends [r] bits before the byte [b] does. *)
Lemma mod_at P b Q r K : 0 <= r <= 8 -> 0 <= b -> 0 <= Q < 2 ^ K -> 0 <= K ->
  ((P * 256 + b) * 2 ^ K + Q) mod 2 ^ (r + K) = b mod 2 ^ r * 2 ^ K + Q.
Proof.
  intros Hr Hb HQ HK. symmetry.
  pose proof (Z.div_mod b (2 ^ r)). pose proof (Z.mod_pos_bound b (2 ^ r)).
  pose proof (Z.pow_pos_nonneg 2 r). pose proof (Z.pow_pos_nonneg 2 K).
  assert (256 = 2 ^ r * 2 ^ (8 - r)) as E by (rewrite <- Z.pow_add_r by lia; by replace (r + (8 - r)) with 8 by lia).
  apply Z.mod_unique_pos with (P * 2 ^ (8 - r) + b / 2 ^ r); rewrite Z.pow_add_r by lia; [nia|].
  rewrite E. nia.
Qed.

Section Ipv6.
(** The prefix of [n] bits ends [r] bits before the end of byte [i]. *)
Context (n i r : Z) (Hi : 0 <= i < 16) (Hr : 1 <= r <= 8) (Hn : n = 8 * i + (8 - r)).

Lemma ipv6_byte : n / 8 = i.
Proof. subst n. Z.to_euclidean_division_equations; lia. Qed.

Lemma ipv6_mask : CreateMask 8 (n mod 8) = Ret (2 ^ r - 1).
Proof.
  replace (n mod 8) with (8 - r) by (subst n; Z.to_euclidean_division_equations; lia).
  rewrite CreateMask_ok by lia. by replace (8 - (8 - r)) with r by lia.
Qed.

(** The address after byte [i] became [b'] and the bytes after it [tail]. *)
Lemma ipv6_value pre (b' : Z) tail : zlen tail = 15 - i ->
  be_val (pre ++ b' :: tail) = (be_val pre * 256 + b') * 2 ^ (8 * (15 - i)) + be_val tail.
Proof.
  intros Ht. rewrite (app_assoc pre [b'] tail : pre ++ b' :: tail = _).
  rewrite !be_val_app, be_val_singleton, Ht. done.
Qed.

Lemma ipv6_cut pre (b' : Z) (post tail : bytes) : zlen pre = i ->
  ztake (i + 1) (pre ++ b' :: post) ++ tail = pre ++ b' :: tail.
Proof.
  intros Hp. rewrite ztake_app_r by lia. replace (i + 1 - zlen pre) with 1 by lia.
  by rewrite <- app_assoc.
Qed.

Context (m : sockaddr_in6) (pre : bytes) (b : Z) (post : bytes).
Context (Hm : s6_addr m = pre ++ b :: post) (Hpre : zlen pre = i) (Hpost : zlen post = 15 - i).
Context (Hok : Forall is_byte (s6_addr m)).

Lemma ipv6_broadcast_eq : IPv6_broadcast_address n m =
  Ret (with_s6 (pre ++ Z.lor b (2 ^ r - 1) :: zrepeat (15 - i) 255) m).
Proof.
  unfold IPv6_broadcast_address. rewrite ipv6_mask, ipv6_byte, Hm. cbn [res_bind].
  rewrite <- Hpre at 1. rewrite set_s6_at. cbn [res_bind]. by rewrite ipv6_cut.
Qed.

Lemma ipv6_network_eq : IPv6_network_address n m =
  Ret (with_s6 (pre ++ Z.land b (2 ^ r - 1) :: zrepeat (15 - i) 0) m).
Proof.
  unfold IPv6_network_address. rewrite ipv6_mask, ipv6_byte, Hm. cbn [res_bind].
  rewrite <- Hpre at 1. rewrite set_s6_at. cbn [res_bind]. by rewrite ipv6_cut.
Qed.

Lemma ipv6_subnet_mask_eq : IPv6_subnet_mask n =
  Ret (with_s6 (zrepeat i 255 ++ bnot 8 (2 ^ r - 1) :: zrepeat (15 - i) 0) zero_IPv6).
Proof.
  unfold IPv6_subnet_mask. rewrite ipv6_mask, ipv6_byte. cbn [res_bind].
  replace (zrepeat 16 0) with (zrepeat i 0 ++ 0 :: zrepeat (15 - i) 0).
  2: { unfold zrepeat. change (0 :: replicate ?k 0) with (replicate (S k) 0).
       rewrite <- replicate_add. f_equal. lia. }
  rewrite <- (zlen_zrepeat i 0) at 1 by lia. rewrite set_s6_at. cbn [res_bind].
  rewrite zdrop_app_r by (rewrite zlen_zrepeat; lia). rewrite zlen_zrepeat, Z.sub_diag by lia.
  done.
Qed.

Lemma ipv6_bytes : is_byte b /\ 0 <= be_val post < 2 ^ (8 * (15 - i)).
Proof.
  rewrite Hm in Hok. apply Forall_app in Hok as [_ Ho]. inversion Ho; subst.
  split; [done|]. rewrite <- Hpost. by apply be_val_bound.
Qed.

Lemma ipv6_low k : 0 <= k <= 8 ->
  be_val (s6_addr m) mod 2 ^ (k + 8 * (15 - i)) = b mod 2 ^ k * 2 ^ (8 * (15 - i)) + be_val post.
Proof.
  intros Hk. rewrite Hm, ipv6_value by done. pose proof ipv6_bytes as [Hb Hq].
  apply mod_at; unfold is_byte in Hb; lia.
Qed.
End Ipv6.

(** IPv6 subnets: for a prefix of 0 to 127 bits [subnet_mask] is the mask of that prefix
    and [broadcast_address] sets the host bits of the address and keeps its port; the prefix
    128 writes past the address.  [network_address] clears the bytes after the one in which
    the prefix ends, but in that byte it clears the bits of the prefix and keeps the host
    bits. *)
Theorem ipv6_subnet (m : sockaddr_in6) (n : Z) :
  Forall is_byte (s6_addr m) -> zlen (s6_addr m) = 16 -> 0 <= n < 128 ->
  let v := be_val (s6_addr m) in
  let h := 2 ^ (128 - n) in
  exists net bc mask,
    IPv6_network_address n m = Ret net /\
    IPv6_broadcast_address n m = Ret bc /\
    IPv6_subnet_mask n = Ret mask /\
    be_val (s6_addr bc) = v - v mod h + (h - 1) /\
    be_val (s6_addr mask) = 2 ^ 128 - h /\
    sin6_port bc = sin6_port m /\ sin6_port mask = 0 /\
    be_val (s6_addr net) =
      v - v mod 2 ^ (128 - 8 * (n / 8)) + (v mod h - v mod 2 ^ (120 - 8 * (n / 8))) /\
    IPv6_subnet_mask 128 = Undef BufferOverflow.
Proof.
  intros Hb Hl Hn v h.
  set (i := n / 8). set (r := 8 - n mod 8).
  assert (0 <= i < 16 /\ 1 <= r <= 8 /\ n = 8 * i + (8 - r)) as (Hi & Hr & Hd)
    by (unfold i, r; Z.to_euclidean_division_equations; lia).
  destruct (s6_split (s6_addr m) i Hl Hi) as (pre & b & post & Hm & Hpre & Hpost).
  pose proof (ipv6_low i Hi m pre b post Hm Hpre Hpost Hb) as Hlow.
  pose proof (Hlow r ltac:(lia)) as Hh. pose proof (Hlow 8 ltac:(lia)) as H8.
  pose proof (Hlow 0 ltac:(lia)) as H0. clear Hlow.
  replace (r + 8 * (15 - i)) with (128 - n) in Hh by lia.
  replace (8 + 8 * (15 - i)) with (128 - 8 * i) in H8 by lia.
  replace (0 + 8 * (15 - i)) with (120 - 8 * i) in H0 by lia.
  pose proof (ipv6_bytes i Hi m pre b post Hm Hpre Hpost Hb) as [Hbb Hq].
  do 3 eexists. split; [by eapply ipv6_network_eq|]. split; [by eapply ipv6_broadcast_eq|].
  split; [by eapply ipv6_subnet_mask_eq|]. cbn [with_s6 s6_addr sin6_port].
  rewrite !(ipv6_value i) by (apply zlen_zrepeat; lia).
  rewrite be_val_zeros, !be_val_ones, lor_mask by lia.
  fold v in Hh, H8, H0. fold h in Hh. rewrite Hh, H8, H0. unfold v.
  rewrite Hm, (ipv6_value i) by done.
  assert (h = 2 ^ r * 2 ^ (8 * (15 - i))) as -> by (unfold h; rewrite <- Z.pow_add_r by lia; f_equal; lia).
  replace (Z.land b (2 ^ r - 1)) with (b mod 2 ^ r)
    by (rewrite <- Z.land_ones, Z.ones_equiv by lia; f_equal; lia).
  rewrite (Z.mod_small b (2 ^ 8)) by done. rewrite Z.mod_1_r.
  assert (2 ^ 128 = 2 ^ (8 * i) * 256 * 2 ^ (8 * (15 - i))) as E
    by (change 256 with (2 ^ 8); rewrite <- !Z.pow_add_r by lia; f_equal; lia).
  split; [ring|]. split; [unfold bnot; rewrite E; change (2 ^ 8) with 256; ring|].
  do 2 (split; [done|]). split; [ring|]. reflexivity.
Qed.

Lemma ipv6_subnet_witness :
  exists net bc mask,
    let m := MkIn6 0 0 (zrepeat 16 171) 0 in
    IPv6_network_address 20 m = Ret net /\ IPv6_broadcast_address 20 m = Ret bc /\
    IPv6_subnet_mask 20 = Ret mask /\ s6_addr mask = [255; 255; 240] ++ zrepeat 13 0 /\
    be_val (s6_addr mask) = 2 ^ 128 - 2 ^ 108.
Proof.
  destruct (ipv6_subnet (MkIn6 0 0 (zrepeat 16 171) 0) 20) as (net & bc & mask & H1 & H2 & H3 & _ & H4 & _).
  { by apply Forall_replicate. }
  { reflexivity. }
  { lia. }
  exists net, bc, mask. split; [exact H1|]. split; [exact H2|]. split; [exact H3|].
  split; [|exact H4]. vm_compute in H3. by injection H3 as <-.
Defined.

(** ** Unix paths *)

Lemma c_str_terminated s rest : 0 ∉ s -> c_str (s ++ 0 :: rest) = Ret s.
Proof.
  induction s as [|c s IH]; intros Hn; [done|]. apply not_elem_of_cons in Hn as [Hc Hn].
  cbn. destruct (Z.eqb_spec c 0); [congruence|]. by rewrite IH.
Qed.

Lemma c_str_unterminated s : 0 ∉ s -> c_str s = Undef BufferOverflow.
Proof.
  induction s as [|c s IH]; intros Hn; [done|]. apply not_elem_of_cons in Hn as [Hc Hn].
  cbn. destruct (Z.eqb_spec c 0); [congruence|]. by rewrite IH.
Qed.

Lemma zrepeat_cons {A} k (a : A) : 0 < k -> zrepeat k a = a :: zrepeat (k - 1) a.
Proof.
  intros Hk. unfold zrepeat. replace (Z.to_nat k) with (S (Z.to_nat (k - 1))) by lia. done.
Qed.

Lemma zdrop_zrepeat {A} i k (a : A) : 0 <= i <= k -> zdrop i (zrepeat k a) = zrepeat (k - i) a.
Proof. intros Hi. unfold zdrop, zrepeat. rewrite drop_replicate. f_equal. lia. Qed.

(** The constructor on a path in the file system, and on an abstract name. *)
Lemma Unix_of_path_file p : p <> [] -> 0 ∉ p -> zlen p <= 108 ->
  Unix_of_path p = Ret (MkUn (p ++ zrepeat (108 - zlen p) 0) (zlen p + 2)).
Proof.
  intros Hne Hn Hl. pose proof (zlen_nonneg p). unfold Unix_of_path.
  rewrite (wrap_small 32) by (unfold fits; lia). destruct p as [|c p]; [done|].
  apply not_elem_of_cons in Hn as [Hc Hn]. destruct (Z.eqb_spec c 0); [congruence|].
  rewrite Z.add_simpl_r, (wrap_small 32) by (unfold fits; lia).
  unfold sun_path_size, sun_path_offset. destruct (Z.ltb_spec 108 (zlen (c :: p))); [lia|].
  do 2 f_equal. unfold splice. rewrite ztake_app_l, (ztake_all _ (c :: p)), ztake_0 by lia.
  by rewrite zdrop_zrepeat by lia.
Qed.

Lemma Unix_of_path_abstract name : zlen name <= 106 ->
  Unix_of_path (0 :: name) = Ret (MkUn (0 :: name ++ zrepeat (107 - zlen name) 0) (zlen name + 4)).
Proof.
  intros Hl. pose proof (zlen_nonneg name). unfold Unix_of_path. rewrite zlen_cons.
  rewrite (wrap_small 32) by (unfold fits; lia). rewrite Z.eqb_refl.
  unfold sun_path_size, sun_path_offset. destruct (Z.ltb_spec 108 (1 + zlen name + 1)); [lia|].
  do 2 f_equal; [|lia]. unfold splice. rewrite ztake_0, ztake_all by zlen_lia.
  rewrite zdrop_zrepeat by zlen_lia. cbn [app]. f_equal. rewrite <- app_assoc. f_equal.
  rewrite (zrepeat_cons (107 - zlen name)) by lia. cbn [app]. do 2 f_equal. zlen_lia.
Qed.

(** Unix addresses: the path of an address made from a path of at most 107 bytes without
    a null byte is that path, and the address is the family and the path; 108 bytes leave
    no room for the terminator, and [get_path] reads past the structure; a longer path
    throws [logic_error].  An abstract name is printed after [\0] with the null byte that
    the constructor counted. *)
Theorem unix_path (host : endian) (p : bytes) :
  p <> [] -> 0 ∉ p -> zlen p < 2 ^ 32 - 1 ->
  (zlen p <= 107 -> exists m, Unix_of_path p = Ret m /\ get_path m = Ret p /\
     addr_bytes host (UnixAddress m) = mem_of host 2 AF_UNIX ++ p) /\
  (zlen p = 108 -> exists m, Unix_of_path p = Ret m /\ get_path m = Undef BufferOverflow) /\
  (108 < zlen p -> Unix_of_path p = Throw logic_error) /\
  (zlen p <= 106 -> exists m, Unix_of_path (0 :: p) = Ret m /\
     get_path m = Ret (str "\0" ++ p ++ [0])).
Proof.
  intros Hne Hn Hl. pose proof (zlen_nonneg p).
  assert (forall tail len, get_path (MkUn (p ++ tail) len) = c_str (p ++ tail)) as Hget.
  { intros. unfold get_path. destruct p as [|c p]; [done|]. apply not_elem_of_cons in Hn as [Hc Hn].
    cbn [sun_path app m_len]. destruct (Z.eqb_spec c 0); [congruence|]. by rewrite andb_false_r. }
  split; [|split; [|split]].
  - intros Hs. eexists. split; [by apply Unix_of_path_file; [..|lia]|].
    rewrite Hget, zrepeat_cons by lia. split; [by apply c_str_terminated|].
    cbn [addr_bytes m_len sun_path]. rewrite ztake_app_r by zlen_lia. f_equal.
    rewrite zlen_mem_of, ztake_app_l by lia. apply ztake_all. lia.
  - intros Hs. eexists. split; [by apply Unix_of_path_file; [..|lia]|].
    rewrite Hget, Hs, app_nil_r. by apply c_str_unterminated.
  - intros Hs. unfold Unix_of_path. rewrite (wrap_small 32) by (unfold fits; lia).
    destruct p as [|c p]; [done|]. apply not_elem_of_cons in Hn as [Hc _].
    destruct (Z.eqb_spec c 0); [congruence|].
    rewrite Z.add_simpl_r, (wrap_small 32) by (unfold fits; lia).
    unfold sun_path_size. by destruct (Z.ltb_spec 108 (zlen (c :: p))); [|lia].
  - intros Hs. eexists. split; [by apply Unix_of_path_abstract|].
    unfold get_path, sun_path_offset, sun_path_size. cbn [sun_path m_len].
    destruct (Z.ltb_spec 2 (zlen p + 4)); [|lia]. cbn [Z.eqb andb].
    destruct (Z.ltb_spec (108 - 1) (zlen p + 4 - 2 - 1)); [lia|].
    f_equal. f_equal. rewrite ztake_app_r by lia. f_equal.
    rewrite zrepeat_cons by lia. by replace (zlen p + 4 - 2 - 1 - zlen p) with 1 by lia.
Qed.

Lemma unix_path_witness :
  exists m, Unix_of_path (str "/tmp/t.sock") = Ret m /\ get_path m = Ret (str "/tmp/t.sock").
Proof.
  destruct (unix_path LITTLE_ENDIAN (str "/tmp/t.sock")) as [H _].
  { discriminate. }
  { by apply (bool_decide_unpack _). }
  { reflexivity. }
  destruct H as (m & H1 & H2 & _); [discriminate|]. exists m. split; [exact H1|exact H2].
Defined.

(** ** Host strings *)

Lemma ztake_prefix {A} (a b : list A) : ztake (zlen a) (a ++ b) = a.
Proof. rewrite ztake_app_l, ztake_all by lia. done. Qed.

Lemma zdrop_prefix {A} (a b : list A) : zdrop (zlen a) (a ++ b) = b.
Proof. rewrite zdrop_app_r, Z.sub_diag by lia. done. Qed.

Lemma split_bracketed v6 rest : v6 <> [] -> 93 ∉ v6 ->
  split_host (str "[" ++ v6 ++ 93 :: rest) =
  (v6, match rest with d :: s => if d =? 58 then Some s else None | [] => None end).
Proof.
  intros Hne Hn. unfold split_host, memchr. cbn [str app]. change (_ =? 91) with true.
  cbn match. rewrite find_from_hit, ztake_prefix by done.
  replace (zdrop (zlen v6 + 1) (v6 ++ 93 :: rest)) with rest.
  - rewrite (bool_decide_eq_false_2 (v6 = [])) by done. cbn match.
    by rewrite (bool_decide_eq_false_2 (v6 = [])) by done.
  - rewrite <- zdrop_zdrop, zdrop_prefix by zlen_lia. done.
Qed.

(** A host that does not start with a bracket is split at its colon. *)
Lemma split_plain h : head h <> Some 91 -> split_host h =
  let '(node, service) :=
    match memchr 58 h with
    | None => ([], None)
    | Some i =>
        match memchr 58 (zdrop 1 (zdrop i h)) with
        | None => (ztake i h, Some (zdrop 1 (zdrop i h)))
        | Some _ => ([], Some (zdrop i h))
        end
    end in
  (if bool_decide (node = []) then h else node, service).
Proof.
  intros Hh. unfold split_host. destruct h as [|c h]; [done|].
  destruct (Z.eqb_spec c 91) as [->|]; [done|]. done.
Qed.

(** The forms of a host: an address in brackets with or without a service, a name with
    a service, a name alone.  A string with two colons and no brackets, a bare IPv6 address,
    is looked up whole, but with everything from its first colon as the service. *)
Theorem host_forms (node s t : bytes) :
  node <> [] -> 93 ∉ node -> 58 ∉ s ->
  split_host (str "[" ++ node ++ str "]:" ++ s) = (node, Some s) /\
  split_host (str "[" ++ node ++ str "]") = (node, None) /\
  (head node <> Some 91 -> 58 ∉ node ->
     split_host (node ++ str ":" ++ s) = (node, Some s) /\
     split_host node = (node, None) /\
     split_host (node ++ str ":" ++ s ++ str ":" ++ t) =
       (node ++ str ":" ++ s ++ str ":" ++ t, Some (str ":" ++ s ++ str ":" ++ t))).
Proof.
  intros Hne Hb Hs. split; [by apply (split_bracketed node (58 :: s))|].
  split; [by apply (split_bracketed node [])|]. intros Hh Hc.
  assert (forall k, head (node ++ k) <> Some 91) as Hk by (destruct node; [done|]; intros; exact Hh).
  change (str ":") with [58]. cbn [app]. split; [|split].
  - rewrite split_plain by apply Hk. unfold memchr. rewrite (find_from_hit 58 node s) by done.
    rewrite zdrop_prefix, ztake_prefix. change (zdrop 1 (58 :: s)) with s.
    by rewrite find_from_none, bool_decide_eq_false_2 by done.
  - rewrite split_plain by done. unfold memchr. by rewrite find_from_none by done.
  - rewrite split_plain by apply Hk. unfold memchr.
    rewrite (find_from_hit 58 node (s ++ 58 :: t)), zdrop_prefix by done.
    change (zdrop 1 (58 :: s ++ 58 :: t)) with (s ++ 58 :: t). by rewrite find_from_hit by done.
Qed.

Lemma host_forms_witness :
  split_host (str "[::1]:80") = (str "::1", Some (str "80")) /\
  split_host (str "localhost:80") = (str "localhost", Some (str "80")).
Proof.
  split.
  - apply (host_forms (str "::1") (str "80") []); by apply (bool_decide_unpack _).
  - apply (host_forms (str "localhost") (str "80") []); by apply (bool_decide_unpack _).
Defined.

(** ** The order of addresses *)

Lemma memcmp_lex x y :
  (match memcmp (Nat.min (length x) (length y)) x y with
   | Eq => (length x <? length y)%nat
   | Lt => true
   | Gt => false
   end) = lex_lt x y.
Proof.
  revert y. induction x as [|a x IH]; intros [|b y]; [done..|].
  cbn [length Nat.min memcmp lex_lt]. destruct (a <? b); [done|]. destruct (b <? a); [done|].
  apply IH.
Qed.

Lemma memcmp_eq x y : length x = length y -> memcmp (length x) x y = Eq -> x = y.
Proof.
  revert y. induction x as [|a x IH]; intros [|b y] Hl; try done. cbn.
  destruct (Z.ltb_spec a b); [done|]. destruct (Z.ltb_spec b a); [done|].
  intros He. f_equal; [lia|]. apply IH; [by injection Hl|done].
Qed.

Lemma addr_lt_lex host a b : addr_lt host a b = lex_lt (addr_bytes host a) (addr_bytes host b).
Proof. apply memcmp_lex. Qed.

Lemma memcmp_refl n x : memcmp n x x = Eq.
Proof. revert x. induction n as [|n IH]; intros [|a x]; [done..|]. cbn. by rewrite Z.ltb_irrefl. Qed.

Lemma addr_eq_bytes host a b :
  addr_eq host a b = true <-> addr_bytes host a = addr_bytes host b.
Proof.
  unfold addr_eq. rewrite andb_true_iff, Nat.eqb_eq. split.
  - intros [Hl He]. apply memcmp_eq; [done|]. by destruct (memcmp _ _ _).
  - intros E. rewrite E. split; [done|]. by rewrite memcmp_refl.
Qed.

(** The comparison of addresses is a strict order on their bytes, as ordered containers
    require: irreflexive and transitive; two addresses neither of which is less are equal by
    [operator==], which is equality of the bytes; and [operator!=] is its negation. *)
Theorem addr_order (host : endian) (a b c : Address) :
  addr_lt host a a = false /\
  (addr_lt host a b = true -> addr_lt host b c = true -> addr_lt host a c = true) /\
  (addr_lt host a b = false -> addr_lt host b a = false -> addr_eq host a b = true) /\
  (addr_eq host a b = true <-> addr_bytes host a = addr_bytes host b) /\
  addr_ne host a b = negb (addr_eq host a b).
Proof.
  rewrite !addr_lt_lex, addr_eq_bytes. pose proof lex_total as [Hi Ht Htot].
  split; [by apply Hi|]. split; [intros; by eapply Ht|]. split; [intros; by apply Htot|].
  done.
Qed.

Lemma addr_order_witness :
  let a p := IPv4Address (new_IPv4 LITTLE_ENDIAN 16777343 p) in
  addr_lt LITTLE_ENDIAN (a 80) (a 443) = true /\ addr_lt LITTLE_ENDIAN (a 443) (a 8080) = true /\
  addr_lt LITTLE_ENDIAN (a 80) (a 8080) = true.
Proof.
  intros a. split; [vm_compute; reflexivity|]. split; [vm_compute; reflexivity|].
  apply (proj1 (proj2 (addr_order LITTLE_ENDIAN (a 80) (a 443) (a 8080)))); vm_compute; reflexivity.
Defined.
