(* ===== verification/Uri.v ===== *)
(** * URIs ([uri.h], the functions at the end of [uri.rl])

    The members of a URI, its accessors, the address of its host and its printing.  The
    parser [URI::Create] is in [UriParser]. *)

From stdpp Require Import base list numbers strings.
From Stdlib Require Import Lia ZArith.
From S2P Require Import Prelude Endian Address.

Record URI := MkURI {
  m_scheme : bytes; m_user : bytes; m_host : bytes; m_port : Z;
  m_path : bytes; m_query : bytes; m_fragment : bytes }.

Definition new_URI : URI := MkURI [] [] [] 0 [] [] [].

Definition get_path (u : URI) : bytes := if bool_decide (m_path u = []) then str "/" else m_path u.

Definition get_port (u : URI) : Z :=
  if negb (m_port u =? 0) then m_port u
  else if bool_decide (m_scheme u = str "wss") || bool_decide (m_scheme u = str "https") then 443
  else if bool_decide (m_scheme u = str "ws") || bool_decide (m_scheme u = str "http") then 80
  else m_port u.

Definition is_default_port (u : URI) : bool :=
  if m_port u =? 0 then true
  else if bool_decide (m_scheme u = str "wss") || bool_decide (m_scheme u = str "https") then m_port u =? 80
  else if bool_decide (m_scheme u = str "ws") || bool_decide (m_scheme u = str "http") then m_port u =? 443
  else false.

(** [operator<<], of a URI and of a pointer to one. *)
Definition uri_insert (u : URI) : bytes :=
  m_scheme u ++ str "://"
  ++ m_user u ++ (if bool_decide (m_user u = []) then [] else str "@")
  ++ m_host u ++ (if is_default_port u then [] else str ":" ++ sdec (m_port u))
  ++ m_path u ++ (if bool_decide (m_query u = []) then [] else str "?") ++ m_query u
  ++ (if bool_decide (m_fragment u = []) then [] else str "#") ++ m_fragment u.

(** [to_string] prints [this], which is a plain pointer: the text of the address. *)
Definition uri_to_string (pointer_text : bytes) (u : URI) : bytes := pointer_text.

Section Resolving.
Context (host : endian) (getaddrinfo : bytes -> option bytes -> option (list sockaddr)).

(** [set_port] of an address; the port is cut to 16 bits. *)
Definition ip_set_port (port : Z) (a : Address) : Address :=
  match a with
  | IPv4Address m => IPv4Address (IPv4_set_port host (wrap 16 port) m)
  | IPv6Address m => IPv6Address (IPv6_set_port host (wrap 16 port) m)
  | _ => a
  end.

(** [IPAddress::LookupAny(h)] with its port set. *)
Definition lookup_with_port (h : bytes) (port : Z) : option Address :=
  ip_set_port port <$> IPAddress_LookupAny getaddrinfo h.

Definition create_address (u : URI) : option Address := lookup_with_port (m_host u) (get_port u).
End Resolving.

(** ** Properties *)

Section Props.
Context (host : endian) (getaddrinfo : bytes -> option bytes -> option (list sockaddr)).

(** The address of a URI is an IP address with the port of the URI, whichever of the two
    families the resolver gives. *)
Lemma create_address_port u a : create_address host getaddrinfo u = Some a ->
  (exists m, a = IPv4Address m /\ IPv4_get_port host m = wrap 16 (get_port u)) \/
  (exists m, a = IPv6Address m /\ IPv6_get_port host m = wrap 16 (get_port u)).
Proof.
  unfold create_address, lookup_with_port, IPAddress_LookupAny. destruct (Lookup _ _ _) as [ok r].
  destruct ok; [|done]. destruct (head _) as [x|] eqn:E; [|done]. intros [= <-].
  assert (is_ip x = true) as Hx.
  { assert (x ∈ base.filter (fun a => is_ip a = true) r) as Hin; [|by apply list_elem_of_filter in Hin as [Hin _]].
    destruct (base.filter _ r) as [|y l]; [done|]. injection E as <-. left. }
  assert (forall v, bswap_on_little_endian host 2 (bswap_on_little_endian host 2 (wrap 16 v)) = wrap 16 v) as Hs.
  { intros v. unfold bswap_on_little_endian. destruct host; [|done].
    change (bswap 2 (bswap 2 (wrap 16 v)) = wrap 16 v). rewrite bswap_bswap. apply wrap_small, wrap_fits. lia. }
  destruct x; try done; [left|right]; (eexists; split; [reflexivity|]); apply Hs.
Qed.

(** The ports that are left out of the printed URI are those of the other kind of scheme:
    port 80 of [https] and 443 of [http], while the usual ones are printed. *)
Lemma printed_port_wrong u : m_user u = [] -> m_query u = [] -> m_fragment u = [] -> m_path u = [] ->
  (m_scheme u = str "https" -> m_port u = 80 -> uri_insert u = str "https://" ++ m_host u) /\
  (m_scheme u = str "https" -> m_port u = 443 -> uri_insert u = str "https://" ++ m_host u ++ str ":443").
Proof.
  intros Hu Hq Hf Hp. unfold uri_insert, is_default_port. rewrite Hu, Hq, Hf, Hp.
  split; intros Hs Hn; rewrite Hs, Hn; cbn; by rewrite ?app_nil_r.
Qed.
End Props.
