(* ===== verification/Ragel.v ===== *)
(** * State machines of Ragel

    The grammars of the sources ([uri.rl], [http_request_parser.rl], [http_response_parser.rl])
    are regular expressions with actions; Ragel makes deterministic machines of them.  Here an
    expression is data, and the machine runs on sets of what is left of it: after a character,
    the partial derivatives.  The actions of all alternatives that take part in a transition
    are executed, in the order in which the expression embeds them, also those of alternatives
    that fail later.

    Embedding operators: [>] is [Enter], on the transitions out of the start; [%] is [Leave],
    on the transitions out of a final state into what follows and, when the expression as a
    whole is at its end, at the end of the input; [@] is [Finish], on the transitions into a
    final state.

    Guarded concatenations put priorities on transitions: [r :> s] is [guarded n r s], where
    the transitions of [r] have priority 0 and those out of the start of [s] priority 1, and
    [r :>> s] is [finish_guarded n r s], where the transitions into a final state of [s] have
    priority 1.  Of two transitions on a character that have priorities of the same name [n]
    the lower one is not taken. *)

From stdpp Require Import base list numbers sorting.
From Stdlib Require Import Lia ZArith.
From S2P Require Import Prelude.

(** ** Expressions *)

(** A character class is a list of ranges. *)
Definition cls : Type := list (Z * Z).

Inductive re (A : Type) :=
| Eps
| Cls (l : cls)
| Cat (r s : re A)
| Alt (r s : re A)
| Star (r : re A)
| Enter (a : A) (r : re A)
| Leave (a : A) (r : re A)
| Finish (a : A) (r : re A)
| Low (n : Z) (r : re A)
| High (n : Z) (r : re A)
| HighFinish (n : Z) (r : re A).
Arguments Eps {A}.
Arguments Cls {A} l.
Arguments Cat {A} r s.
Arguments Alt {A} r s.
Arguments Star {A} r.
Arguments Enter {A} a r.
Arguments Leave {A} a r.
Arguments Finish {A} a r.
Arguments Low {A} n r.
Arguments High {A} n r.
Arguments HighFinish {A} n r.

(** Equality by comparison, which runs fast. *)
Fixpoint cls_eqb (l m : cls) : bool :=
  match l, m with
  | [], [] => true
  | (a, b) :: l, (c, d) :: m => if a =? c then if b =? d then cls_eqb l m else false else false
  | _, _ => false
  end.

Lemma cls_eqb_spec l m : cls_eqb l m = true <-> l = m.
Proof.
  split; [|intros <-; induction l as [|[a b] l IH]; cbn; by rewrite ?Z.eqb_refl].
  revert m; induction l as [|[a b] l IH]; intros [|[c d] m] H; cbn in H; try done.
  destruct (Z.eqb_spec a c); [|done]. destruct (Z.eqb_spec b d); [|done]. subst. f_equal. auto.
Qed.

Fixpoint re_eqb {A} `{!EqDecision A} (r s : re A) : bool :=
  match r, s with
  | Eps, Eps => true
  | Cls l, Cls l' => cls_eqb l l'
  | Cat r1 r2, Cat s1 s2 | Alt r1 r2, Alt s1 s2 => if re_eqb r1 s1 then re_eqb r2 s2 else false
  | Star r, Star s => re_eqb r s
  | Low n r, Low m s | High n r, High m s | HighFinish n r, HighFinish m s =>
      if n =? m then re_eqb r s else false
  | Enter a r, Enter b s | Leave a r, Leave b s | Finish a r, Finish b s => if bool_decide (a = b) then re_eqb r s else false
  | _, _ => false
  end.

Lemma re_eqb_spec {A} `{!EqDecision A} (r s : re A) : re_eqb r s = true <-> r = s.
Proof.
  split.
  - revert s; induction r; intros [] H; cbn in H; try done;
      repeat match type of H with (if ?b then _ else _) = _ => destruct b eqn:?; [|done] end;
      f_equal; auto; first [by eapply bool_decide_eq_true|by apply cls_eqb_spec|by apply Z.eqb_eq].
  - intros <-. induction r; cbn; rewrite ?IHr1, ?IHr2, ?IHr, ?bool_decide_eq_true_2, ?Z.eqb_refl; try done.
    by apply cls_eqb_spec.
Qed.

#[export] Instance re_eq_dec {A} `{!EqDecision A} : EqDecision (re A).
Proof.
  intros r s. destruct (re_eqb r s) eqn:E; [left|right].
  - by apply re_eqb_spec.
  - intros H. apply re_eqb_spec in H. by rewrite E in H.
Defined.

Definition in_cls (c : Z) (l : cls) : bool := existsb (fun x => (fst x <=? c) && (c <=? snd x)) l.

(** Notations of the grammars. *)
Definition chr {A} (c : Z) : re A := Cls [(c, c)].
Definition chars (s : bytes) : cls := (fun c => (c, c)) <$> s.

Fixpoint lit {A} (s : bytes) : re A :=
  match s with
  | [] => Eps
  | [c] => chr c
  | c :: s => Cat (chr c) (lit s)
  end.

Definition opt {A} (r : re A) : re A := Alt r Eps.
Definition plus {A} (r : re A) : re A := Cat r (Star r).

Fixpoint rep {A} (n : nat) (r : re A) : re A :=
  match n with
  | O => Eps
  | S O => r
  | S n => Cat r (rep n r)
  end.

(** [r{n,m}] with [k = m - n]. *)
Fixpoint rep_opt {A} (k : nat) (r : re A) : re A :=
  match k with
  | O => Eps
  | S k => opt (Cat r (rep_opt k r))
  end.

(** At least [n] times. *)
Definition rep_least {A} (n : nat) (r : re A) : re A := Cat (rep n r) (Star r).

Definition guarded {A} (n : Z) (r s : re A) : re A := Cat (Low n r) (High n s).
Definition finish_guarded {A} (n : Z) (r s : re A) : re A := Cat (Low n r) (HighFinish n s).

Definition rep_between {A} (n k : nat) (r : re A) : re A := Cat (rep n r) (rep_opt k r).

Fixpoint alts {A} (l : list (re A)) : re A :=
  match l with
  | [] => Eps
  | [r] => r
  | r :: l => Alt r (alts l)
  end.

Fixpoint cats {A} (l : list (re A)) : re A :=
  match l with
  | [] => Eps
  | [r] => r
  | r :: l => Cat r (cats l)
  end.

(** ** The order of the actions *)

(** Every embedding gets a number: entering actions before what is inside, the others
    after. *)
Fixpoint number {A} (r : re A) (n : Z) : re (Z * A) * Z :=
  match r with
  | Eps => (Eps, n)
  | Cls l => (Cls l, n)
  | Cat r s => let (r, n) := number r n in let (s, n) := number s n in (Cat r s, n)
  | Alt r s => let (r, n) := number r n in let (s, n) := number s n in (Alt r s, n)
  | Star r => let (r, n) := number r n in (Star r, n)
  | Enter a r => let (r, m) := number r (n + 1) in (Enter (n, a) r, m)
  | Leave a r => let (r, m) := number r n in (Leave (m, a) r, m + 1)
  | Finish a r => let (r, m) := number r n in (Finish (m, a) r, m + 1)
  | Low p r => let (r, n) := number r n in (Low p r, n)
  | High p r => let (r, n) := number r n in (High p r, n)
  | HighFinish p r => let (r, n) := number r n in (HighFinish p r, n)
  end.

(** ** Transitions *)

Section Machine.
Context {A : Type} `{!EqDecision A}.

Abbreviation acts := (list (Z * A)).
Abbreviation item := (re (Z * A)).

Fixpoint nullable (r : item) : bool :=
  match r with
  | Eps => true
  | Cls _ => false
  | Cat r s => nullable r && nullable s
  | Alt r s => nullable r || nullable s
  | Star _ => true
  | Enter _ r | Leave _ r | Finish _ r | Low _ r | High _ r | HighFinish _ r => nullable r
  end.

(** The leaving actions of an expression that can end here. *)
Fixpoint outs (r : item) : acts :=
  match r with
  | Eps | Cls _ => []
  | Cat r s => if nullable r && nullable s then outs r ++ outs s else []
  | Alt r s => outs r ++ outs s
  | Star r => outs r
  | Enter _ r | Finish _ r | Low _ r | High _ r | HighFinish _ r => outs r
  | Leave a r => if nullable r then outs r ++ [a] else []
  end.

(** What is left of a part, with what follows or what is around it; after the end of a part
    nothing of it matters. *)
Definition then_ (r s : item) : item := match r with Eps => s | _ => Cat r s end.
Definition around (w : item -> item) (r : item) : item := match r with Eps => Eps | _ => w r end.

(** A transition has its actions and its priorities by name, and what is left. *)
Abbreviation trans := (list (Z * A) * list (Z * Z) * item)%type.

Definition t_acts (x : trans) : acts := fst (fst x).
Definition t_prios (x : trans) : list (Z * Z) := snd (fst x).
Definition add_acts (l : acts) (x : trans) : trans := (l ++ t_acts x, t_prios x, snd x).
Definition add_last (a : Z * A) (x : trans) : trans := (t_acts x ++ [a], t_prios x, snd x).
Definition add_prio (p : Z * Z) (x : trans) : trans := (t_acts x, p :: t_prios x, snd x).
Definition to (f : item -> item) (x : trans) : trans := (fst x, f (snd x)).

(** The transitions on a character. *)
Fixpoint pd (c : Z) (r : item) : list trans :=
  match r with
  | Eps => []
  | Cls l => if in_cls c l then [([], [], Eps)] else []
  | Cat r s =>
      (to (fun r => then_ r s) <$> pd c r) ++
      (if nullable r then add_acts (outs r) <$> pd c s else [])
  | Alt r s => pd c r ++ pd c s
  | Star r => to (fun x => then_ x (Star r)) <$> pd c r
  | Enter a r => add_acts [a] <$> pd c r
  | Leave a r => to (Leave a) <$> pd c r
  | Finish a r => (fun x => to (around (Finish a)) (if nullable (snd x) then add_last a x else x)) <$> pd c r
  | Low n r => (fun x => to (around (Low n)) (add_prio (n, 0) x)) <$> pd c r
  | High n r => add_prio (n, 1) <$> pd c r
  | HighFinish n r =>
      (fun x => to (around (HighFinish n)) (if nullable (snd x) then add_prio (n, 1) x else x)) <$> pd c r
  end.

(** A transition that another one takes precedence of. *)
Definition beaten (y x : trans) : bool :=
  existsb (fun p => existsb (fun q => if fst p =? fst q then snd p <? snd q else false) (t_prios y)) (t_prios x).

Definition taken (ts : list trans) : list trans :=
  base.filter (fun x => existsb (fun y => beaten y x) ts = false) ts.

(** ** The machine *)

(** Actions in their order, each embedding once. *)
Fixpoint insert_act (x : Z * A) (l : acts) : acts :=
  match l with
  | [] => [x]
  | y :: l => if fst x <? fst y then x :: y :: l else if fst x =? fst y then y :: l else y :: insert_act x l
  end.

Definition in_order (l : acts) : list A := snd <$> foldr insert_act [] l.

Fixpoint nub (l : list item) : list item :=
  match l with
  | [] => []
  | r :: l => if bool_decide (r ∈ l) then nub l else r :: nub l
  end.

Definition step (c : Z) (st : list item) : list A * list item :=
  let ts := taken (flat_map (pd c) st) in
  (in_order (flat_map t_acts ts), nub (snd <$> ts)).

Definition final (st : list item) : bool := existsb nullable st.

(** The actions at the end of the input. *)
Definition at_eof (st : list item) : list A := in_order (flat_map outs st).

(** A run over the input from a position: the actions with their positions, and the state at
    the end, [None] for the error state. *)
Fixpoint scan (st : list item) (pos : Z) (s : bytes) : list (Z * A) * option (list item) :=
  match s with
  | [] => ([], Some st)
  | c :: s =>
      match step c st with
      | (_, []) => ([], None)
      | (l, st) => let (tr, e) := scan st (pos + 1) s in (((fun a => (pos, a)) <$> l) ++ tr, e)
      end
  end.
End Machine.

(** ** Places

    Facts about a machine that hold for all inputs of a shape are checked by evaluation: a
    place is a set of items that a state may have and a set of items that it has, and every
    character of a class leads from one place to another, with the same actions. *)

Fixpoint members (l : cls) : list Z :=
  match l with
  | [] => []
  | (a, b) :: l => seqZ a (b - a + 1) ++ members l
  end.

Lemma in_members c l : in_cls c l = true -> c ∈ members l.
Proof.
  induction l as [|[a b] l IH]; [done|]. cbn. intros [H|H]%orb_true_iff; apply elem_of_app; [left|right; auto].
  apply elem_of_seqZ. lia.
Qed.

Section Places.
Context {A : Type} `{!EqDecision A}.
Abbreviation item := (re (Z * A)).

Lemma nub_elem (r : item) l : r ∈ nub l <-> r ∈ l.
Proof.
  induction l as [|x l IH]; [done|]. cbn. rewrite elem_of_cons. case_bool_decide.
  - rewrite IH. split; [by right|by intros [->|]].
  - by rewrite elem_of_cons, IH.
Qed.

Lemma nub_NoDup (l : list item) : NoDup (nub l).
Proof.
  induction l as [|x l IH]; [constructor|]. cbn. case_bool_decide as E; [done|]. constructor; [|done]. by rewrite nub_elem.
Qed.

(** The actions of a transition are a set that is put in order. *)
Abbreviation before := (fun x y : Z * A => fst x < fst y).

Lemma insert_act_elem x (l : list (Z * A)) y :
  (forall z, z ∈ l -> fst z = fst x -> z = x) -> y ∈ insert_act x l <-> y = x \/ y ∈ l.
Proof.
  induction l as [|z l IH]; intros Hf; cbn; [by rewrite elem_of_cons|].
  assert (forall z', z' ∈ l -> fst z' = fst x -> z' = x) as Hf' by (intros; apply Hf; [by right|done]).
  destruct (Z.ltb_spec (fst x) (fst z)); [by rewrite !elem_of_cons|]. destruct (Z.eqb_spec (fst x) (fst z)).
  - rewrite elem_of_cons, (Hf z) by (done || left). tauto.
  - rewrite !elem_of_cons, IH by done. tauto.
Qed.

Lemma insert_act_sorted x (l : list (Z * A)) : StronglySorted before l -> StronglySorted before (insert_act x l).
Proof.
  induction 1 as [|z l Hs IH Hz]; cbn; [repeat constructor|].
  destruct (Z.ltb_spec (fst x) (fst z)).
  - repeat constructor; [done..|]. eapply Forall_impl; [exact Hz|]. cbn. lia.
  - destruct (Z.eqb_spec (fst x) (fst z)); constructor; [done..|].
    clear IH. induction Hz as [|y l Hy Hz IH]; cbn; [constructor; [cbn; lia|constructor]|].
    inv Hs. destruct (_ <? _); [constructor; [cbn; lia|by constructor]|].
    destruct (_ =? _); constructor; auto.
Qed.

Lemma sorted_keys (l : list (Z * A)) x y : StronglySorted before l -> x ∈ l -> y ∈ l -> fst x = fst y -> x = y.
Proof.
  induction 1 as [|z l Hs IH Hz]; intros Hx Hy E; [inv Hx|].
  rewrite Forall_forall in Hz.
  apply elem_of_cons in Hx as [->|Hx], Hy as [->|Hy]; auto;
    [apply Hz in Hy; cbn in Hy; lia|apply Hz in Hx; cbn in Hx; lia].
Qed.

Lemma sorted_same (l k : list (Z * A)) : StronglySorted before l -> StronglySorted before k ->
  (forall x, x ∈ l <-> x ∈ k) -> l = k.
Proof.
  assert (forall l : list (Z * A), StronglySorted before l -> NoDup l) as Hnd.
  { induction 1 as [|x m Hs IH Hx]; constructor; [|done]. intros Hin. rewrite Forall_forall in Hx.
    specialize (Hx x Hin). cbn in Hx. lia. }
  intros Hl Hk E. apply (StronglySorted_unique_strong before); [|done..|].
  - intros x y _ _ H1 H2. cbn in *. lia.
  - apply NoDup_Permutation; auto.
Qed.

Definition ordered (l : list (Z * A)) : list (Z * A) := foldr insert_act [] l.

Lemma ordered_sorted l : StronglySorted before (ordered l).
Proof. induction l; [constructor|]. by apply insert_act_sorted. Qed.

Lemma ordered_eq N l : StronglySorted before N -> (forall x, x ∈ l <-> x ∈ N) -> ordered l = N.
Proof.
  intros HN H. apply sorted_same; [apply ordered_sorted|done|]. intros x. rewrite <-H.
  assert (forall z, z ∈ l -> z ∈ N) as Hl by (intros; by apply H). clear H.
  revert x. induction l as [|y l IH]; [done|]. intros x. cbn. rewrite elem_of_cons.
  assert (forall x, x ∈ ordered l <-> x ∈ l) as IH' by (intros; apply IH; intros; apply Hl; by right).
  rewrite insert_act_elem; [by rewrite IH'|].
  intros z Hz E. apply (sorted_keys N); [done|apply Hl; right; by apply IH'|apply Hl; left|done].
Qed.

(** The transitions depend on a character only by the classes it is in. *)
Fixpoint classes (r : re (Z * A)) : list cls :=
  match r with
  | Eps => []
  | Cls l => [l]
  | Cat r s | Alt r s => classes r ++ classes s
  | Star r | Enter _ r | Leave _ r | Finish _ r | Low _ r | High _ r | HighFinish _ r => classes r
  end.

Definition agree (G : list cls) (c d : Z) : bool := forallb (fun l => Bool.eqb (in_cls c l) (in_cls d l)) G.

Lemma agree_spec G c d : agree G c d = true <-> forall l, l ∈ G -> in_cls c l = in_cls d l.
Proof.
  unfold agree. rewrite forallb_forall. setoid_rewrite eqb_true_iff. by setoid_rewrite list_elem_of_In.
Qed.

Lemma pd_agree c d (r : re (Z * A)) : (forall l, l ∈ classes r -> in_cls c l = in_cls d l) -> pd c r = pd d r.
Proof.
  induction r; cbn; intros H; try done;
    rewrite ?IHr1, ?IHr2, ?IHr by (intros l' Hl'; apply H; rewrite ?elem_of_app; auto); try done.
  by rewrite (H l (list_elem_of_here _ _)).
Qed.

(** The classes of some states, each once. *)
Fixpoint add_classes (l G : list cls) : list cls :=
  match l with
  | [] => G
  | x :: l => add_classes l (if existsb (cls_eqb x) G then G else x :: G)
  end.

Lemma add_classes_elem x l G : x ∈ l \/ x ∈ G -> x ∈ add_classes l G.
Proof.
  revert G; induction l as [|y l IH]; intros G; cbn; [by intros [H|H]; [inv H|]|].
  intros [H|H]; apply IH.
  - apply elem_of_cons in H as [->|H]; [right|by left].
    destruct (existsb _ G) eqn:E; [|left].
    apply existsb_exists in E as (z & Hz & ->%cls_eqb_spec). by apply list_elem_of_In.
  - right. destruct (existsb _ G); [done|by right].
Qed.

Lemma classes_agree (X : list item) r c d :
  r ∈ X -> agree (add_classes (flat_map classes X) []) c d = true -> pd c r = pd d r.
Proof.
  rewrite agree_spec. intros Hr H. apply pd_agree. intros l Hl. apply H, add_classes_elem. left.
  apply list_elem_of_In, in_flat_map. exists r. split; by apply list_elem_of_In.
Qed.

(** One character for all that agree. *)
Fixpoint representatives (G : list cls) (cs : list Z) : list Z :=
  match cs with
  | [] => []
  | c :: cs => let l := representatives G cs in if existsb (agree G c) l then l else c :: l
  end.

Lemma representatives_all G cs c : c ∈ cs -> exists d, d ∈ representatives G cs /\ agree G c d = true.
Proof.
  assert (forall c, agree G c c = true) as Hrefl by (intros; by apply agree_spec).
  induction cs as [|c' cs IH]; intros H; [inv H|]. cbn. destruct (existsb (agree G c') _) eqn:E.
  - apply elem_of_cons in H as [->|H]; [|auto].
    apply existsb_exists in E as (d & Hd & Hag). exists d. split; [by apply list_elem_of_In|done].
  - apply elem_of_cons in H as [->|H]; [exists c'; split; [left|done]|].
    destruct (IH H) as (d & Hd & Hag). exists d. split; [by right|done].
Qed.

(** *** Edges between places *)

Record place := Place { may : list item; must : list item }.

Definition at_place (P : place) (st : list item) : Prop := st ⊆ may P /\ must P ⊆ st.

Definition edge (P : place) (l : cls) (acts : list A) (Q : place) : Prop :=
  forall st c, at_place P st -> in_cls c l = true -> exists st', step c st = (acts, st') /\ st' <> [] /\ at_place Q st'.

Definition subset_check {B} `{!EqDecision B} (l k : list B) : bool := forallb (fun x => bool_decide (x ∈ k)) l.

Lemma subset_check_spec {B} `{!EqDecision B} (l k : list B) : subset_check l k = true <-> l ⊆ k.
Proof.
  unfold subset_check. rewrite forallb_forall. setoid_rewrite bool_decide_eq_true.
  split; intros H x Hx; apply H; by apply list_elem_of_In.
Qed.

(** What the items that a state has determine, those that it may have do not change. *)
Definition bounded_check {B} `{!EqDecision B} (most least : list B) (N : list B) : bool :=
  subset_check most N && subset_check N least.

(** The transitions that states of a place may take and those that they take; the others are
    beaten by what the states have. *)
Definition unbeaten (P : place) (c : Z) (x : list (Z * A) * list (Z * Z) * item) : bool :=
  negb (existsb (fun y => beaten y x) (flat_map (pd c) (may P))).
Definition most (P : place) (c : Z) := List.filter (unbeaten P c) (flat_map (pd c) (may P)).
Definition least (P : place) (c : Z) := List.filter (unbeaten P c) (flat_map (pd c) (must P)).

(** On one character, and on a class. *)
Definition edge_at (P : place) (acts : list A) (Q : place) (c : Z) : bool :=
  let all := flat_map (pd c) (may P) in
  let some := flat_map (pd c) (must P) in
  let ok := fun x => negb (existsb (fun y => beaten y x) all) in
  let most := List.filter ok all in
  let least := List.filter ok some in
  let N := ordered (flat_map t_acts least) in
  forallb (fun x => if ok x then true else existsb (fun y => beaten y x) some) all &&
  bool_decide (snd <$> N = acts) && bool_decide (must Q <> []) &&
  bounded_check (flat_map t_acts most) (flat_map t_acts least) N &&
  subset_check (snd <$> most) (may Q) && subset_check (must Q) (snd <$> least).

Definition edge_check (P : place) (l : cls) (acts : list A) (Q : place) : bool :=
  forallb (edge_at P acts Q) (representatives (add_classes (flat_map classes (may P)) []) (members l)).

Lemma flat_map_mono {B C} (f : B -> list C) l k : l ⊆ k -> flat_map f l ⊆ flat_map f k.
Proof.
  intros H x. rewrite !list_elem_of_In, !in_flat_map. intros (y & Hy & Hx). exists y.
  split; [|done]. apply list_elem_of_In, H. by apply list_elem_of_In.
Qed.

Lemma list_fmap_mono {B C} (f : B -> C) (l k : list B) : l ⊆ k -> f <$> l ⊆ f <$> k.
Proof. intros H x. rewrite !list_elem_of_fmap. intros (y & -> & Hy). exists y. auto. Qed.

(** A list between two lists gives the ordered list that both give. *)
Lemma bounded_ordered (most l least : list (Z * A)) :
  bounded_check most least (ordered least) = true -> l ⊆ most -> least ⊆ l -> ordered l = ordered least.
Proof.
  intros [H1%subset_check_spec H2%subset_check_spec]%andb_true_iff Hm Hl.
  apply ordered_eq; [apply ordered_sorted|]. intros x. split; [intros; by apply H1, Hm|intros; by apply Hl, H2].
Qed.

(** What is taken of transitions between two lists. *)
Lemma taken_between (all ts some : list (list (Z * A) * list (Z * Z) * item)) :
  let ok := fun x => negb (existsb (fun y => beaten y x) all) in
  forallb (fun x => if ok x then true else existsb (fun y => beaten y x) some) all = true ->
  ts ⊆ all -> some ⊆ ts ->
  taken ts ⊆ List.filter ok all /\ List.filter ok some ⊆ taken ts.
Proof.
  intros ok Hc Hall Hsome. rewrite forallb_forall in Hc.
  assert (forall (l k : list (list (Z * A) * list (Z * Z) * item)) x, l ⊆ k ->
    existsb (fun y => beaten y x) l = true -> existsb (fun y => beaten y x) k = true) as Hmono.
  { intros l k x Hs. rewrite !existsb_exists. intros (y & Hy & Hb). exists y. split; [|done].
    apply list_elem_of_In, Hs. by apply list_elem_of_In. }
  assert (forall l x, x ∈ List.filter ok l <-> x ∈ l /\ ok x = true) as Hf
    by (intros l x; by rewrite !list_elem_of_In, filter_In).
  split; intros x; unfold taken; rewrite list_elem_of_filter, Hf.
  - intros [Hn Hx]. split; [by apply Hall|]. specialize (Hc x ltac:(by apply list_elem_of_In, Hall)).
    destruct (ok x); [done|]. by rewrite (Hmono some ts x Hsome Hc) in Hn.
  - intros [Hx Hok]. split; [|by apply Hsome]. unfold ok in Hok. apply negb_true_iff in Hok.
    destruct (existsb (fun y => beaten y x) ts) eqn:E; [|done]. by rewrite (Hmono ts all x Hall E) in Hok.
Qed.

Lemma edge_at_ok P acts Q c st : edge_at P acts Q c = true -> at_place P st ->
  exists st', step c st = (acts, st') /\ st' <> [] /\ at_place Q st'.
Proof.
  unfold edge_at. cbv zeta. intros H [Hmay Hmust].
  rewrite !andb_true_iff, !bool_decide_eq_true, !subset_check_spec in H.
  destruct H as (((((Htk & Hacts) & Hne) & Hb) & Hq) & Hq').
  unfold step.
  destruct (taken_between _ (flat_map (pd c) st) _ Htk) as [Ht1 Ht2]; [by apply flat_map_mono..|].
  cbv zeta. eexists. split; [f_equal|split; [|split]].
  - unfold in_order. change (foldr insert_act [] ?l) with (ordered l).
    by rewrite (bounded_ordered _ _ _ Hb) by (by apply flat_map_mono).
  - destruct (must Q) as [|r m]; [done|]. intros En.
    assert (r ∈ nub (snd <$> taken (flat_map (pd c) st))) as Hin; [|rewrite En in Hin; inv Hin].
    rewrite nub_elem. apply (list_fmap_mono snd _ _ Ht2), Hq'. left.
  - intros r Hr. rewrite nub_elem in Hr. apply Hq. exact (list_fmap_mono snd _ _ Ht1 r Hr).
  - intros r Hr. rewrite nub_elem. exact (list_fmap_mono snd _ _ Ht2 r (Hq' r Hr)).
Qed.

Lemma edge_by_check P l acts Q : edge_check P l acts Q = true -> edge P l acts Q.
Proof.
  unfold edge_check. rewrite forallb_forall. intros H st c' Hst Hc.
  destruct (representatives_all (add_classes (flat_map classes (may P)) []) (members l) c' (in_members c' l Hc)) as (c & Hc' & Hag).
  destruct (edge_at_ok P acts Q c st (H c ltac:(by apply list_elem_of_In)) Hst) as (st' & E & Hst').
  exists st'. split; [|done]. rewrite <-E. unfold step.
  assert (flat_map (pd c') st = flat_map (pd c) st) as ->; [|done].
  assert (forall r, r ∈ st -> pd c' r = pd c r) as Hpd by (intros r Hr; eapply classes_agree; [by apply (proj1 Hst)|done]).
  clear E Hst. induction st as [|r st IH]; [done|]. cbn. rewrite Hpd by left. f_equal.
  apply IH. intros; apply Hpd. by right.
Qed.

(** The states of a place are final, with the same actions at the end of the input. *)
Definition ends_check (P : place) (acts : list A) : bool :=
  let N := ordered (flat_map outs (must P)) in
  existsb nullable (must P) && bool_decide (snd <$> N = acts) &&
  bounded_check (flat_map outs (may P)) (flat_map outs (must P)) N.

Definition ends (P : place) (acts : list A) : Prop := forall st, at_place P st -> final st = true /\ at_eof st = acts.

Lemma ends_by_check P acts : ends_check P acts = true -> ends P acts.
Proof.
  unfold ends_check. rewrite !andb_true_iff, bool_decide_eq_true. intros [[Hf Ha] Hb] st [Hmay Hmust]. split.
  - apply existsb_exists in Hf as (r & Hr & Hn). apply existsb_exists. exists r. split; [|done].
    apply list_elem_of_In, Hmust. by apply list_elem_of_In.
  - unfold at_eof, in_order. change (foldr insert_act [] ?l) with (ordered l).
    by rewrite (bounded_ordered _ _ _ Hb) by (by apply flat_map_mono).
Qed.

(** The items that are reached with some characters, and a place after a character. *)
Fixpoint explore (fuel : nat) (cs : list Z) (todo seen : list item) : list item :=
  match fuel, todo with
  | S fuel, r :: todo =>
      if bool_decide (r ∈ seen) then explore fuel cs todo seen
      else explore fuel cs (flat_map (fun c => snd <$> pd c r) cs ++ todo) (r :: seen)
  | _, _ => seen
  end.

Definition after (c : Z) (P : place) : place :=
  Place (nub (snd <$> most P c)) (nub (snd <$> least P c)).

(** ** Words between places *)

Definition shift (pos : Z) (tr : list (Z * A)) : list (Z * A) := (fun x => (pos + fst x, snd x)) <$> tr.

(** From every state of [X] the word [w] leads into [Y], with the actions [tr] at their
    offsets in the word. *)
Definition covers (X : place) (w : bytes) (tr : list (Z * A)) (Y : place) : Prop :=
  forall st pos, at_place X st -> exists st', scan st pos w = (shift pos tr, Some st') /\ at_place Y st'.

Lemma shift_app pos l k : shift pos (l ++ k) = shift pos l ++ shift pos k.
Proof. apply fmap_app. Qed.

Lemma shift_shift i j l : shift i (shift j l) = shift (i + j) l.
Proof. unfold shift. rewrite <-list_fmap_compose. apply list_fmap_ext. intros ? [p a] _. cbn. by rewrite Z.add_assoc. Qed.

Lemma shift_here pos (l : list A) : shift pos ((fun a => (0, a)) <$> l) = (fun a => (pos, a)) <$> l.
Proof. unfold shift. rewrite <-list_fmap_compose. apply list_fmap_ext. intros ? a _. cbn. by rewrite Z.add_0_r. Qed.

Lemma scan_app (st : list item) pos w s : scan st pos (w ++ s) =
  match scan st pos w with
  | (tr, Some st') => let (tr', e) := scan st' (pos + zlen w) s in (tr ++ tr', e)
  | (tr, None) => (tr, None)
  end.
Proof.
  revert st pos; induction w as [|c w IH]; intros st pos; cbn [scan app].
  - change (zlen []) with 0. rewrite Z.add_0_r. by destruct (scan st pos s).
  - destruct (step c st) as [l [|r st']]; [done|]. rewrite IH, zlen_cons, Z.add_assoc.
    destruct (scan (r :: st') (pos + 1) w) as [tr [st1|]]; [|done].
    destruct (scan st1 _ s). by rewrite app_assoc.
Qed.

Lemma covers_nil X : covers X [] [] X.
Proof. intros st pos Hst. exists st. done. Qed.

Lemma covers_cons X l acts Y c w tr V : edge X l acts Y -> in_cls c l = true -> covers Y w tr V ->
  covers X (c :: w) (((fun a => (0, a)) <$> acts) ++ shift 1 tr) V.
Proof.
  intros He Hc Hw st pos Hst. destruct (He st c Hst Hc) as (st1 & Hs & Hne & H1).
  destruct (Hw st1 (pos + 1) H1) as (st' & E & Hst'). exists st'. split; [|done].
  cbn [scan]. rewrite Hs. destruct st1; [done|]. by rewrite E, shift_app, shift_here, shift_shift.
Qed.

Lemma covers_quiet X l Y c w V : edge X l [] Y -> in_cls c l = true -> covers Y w [] V -> covers X (c :: w) [] V.
Proof. intros He Hc Hw. exact (covers_cons X l [] Y c w [] V He Hc Hw). Qed.

(** A class that leads back, without actions. *)
Lemma covers_loop X l w : edge X l [] X -> forallb (fun c => in_cls c l) w = true -> covers X w [] X.
Proof.
  intros He. induction w as [|c w IH]; intros Hw; [apply covers_nil|].
  cbn [forallb] in Hw. apply andb_true_iff in Hw as [Hc Hw]. exact (covers_quiet _ _ _ _ _ _ He Hc (IH Hw)).
Qed.

(** A first character, or byte in percent encoding, leads from [X] to [Y]. *)
Definition hex_digits : cls := [(48, 57); (65, 70); (97, 102)].

Definition leads (X : place) (l : cls) (acts : list A) (Y : place) : Prop :=
  edge X l acts Y /\ exists X1 X2, edge X [(37, 37)] acts X1 /\ edge X1 hex_digits [] X2 /\ edge X2 hex_digits [] Y.

(** The places in between are what some digits reach. *)
Definition leads_check (X : place) (l : cls) (acts : list A) (Y : place) : bool :=
  let X1 := after 37 X in
  let X2 := after 97 X1 in
  edge_check X l acts Y && edge_check X [(37, 37)] acts X1 && edge_check X1 hex_digits [] X2 && edge_check X2 hex_digits [] Y.

Lemma leads_by_check X l acts Y : leads_check X l acts Y = true -> leads X l acts Y.
Proof.
  unfold leads_check. rewrite !andb_true_iff. intros [[[E1 E2] E3] E4].
  split; [by apply edge_by_check|]. eexists _, _. repeat split; by eapply edge_by_check.
Qed.

(** Characters of a class and bytes in percent encoding. *)
Fixpoint spelled (l : cls) (w : bytes) : bool :=
  match w with
  | [] => true
  | c :: w' =>
      if c =? 37 then
        match w' with
        | a :: b :: w' => if in_cls a hex_digits then if in_cls b hex_digits then spelled l w' else false else false
        | _ => false
        end
      else if in_cls c l then spelled l w' else false
  end.

(** A first character with the actions of the edge, and what follows it; the first character
    may have to be of a smaller class. *)
Lemma covers_first_of X l k acts Y c w V : leads X l acts Y -> spelled k (c :: w) = true ->
  (in_cls c k = true -> in_cls c l = true) ->
  (forall w', spelled k w' = true -> (length w' <= length w)%nat -> covers Y w' [] V) ->
  covers X (c :: w) ((fun a => (0, a)) <$> acts) V.
Proof.
  intros [Hl (X1 & X2 & H0 & H1 & H2)] Hw Hk Hrest. cbn [spelled] in Hw.
  rewrite <-(app_nil_r ((fun a => (0, a)) <$> acts)). destruct (c =? 37) eqn:E.
  - destruct w as [|a [|b w]]; [done..|]. destruct (in_cls a hex_digits) eqn:Ea; [|done].
    destruct (in_cls b hex_digits) eqn:Eb; [|done].
    apply (covers_cons X _ _ _ c _ [] V H0); [by apply Z.eqb_eq in E as ->|].
    apply (covers_quiet X1 _ _ a _ V H1 Ea), (covers_quiet X2 _ _ b _ V H2 Eb), Hrest; [done|cbn; lia].
  - destruct (in_cls c k) eqn:Ec; [|done]. apply (covers_cons X _ _ _ c _ [] V Hl (Hk eq_refl)), Hrest; [done|lia].
Qed.

Lemma covers_first X l acts Y c w V : leads X l acts Y -> spelled l (c :: w) = true ->
  (forall w', spelled l w' = true -> (length w' <= length w)%nat -> covers Y w' [] V) ->
  covers X (c :: w) ((fun a => (0, a)) <$> acts) V.
Proof. intros Hl Hw Hrest. by apply (covers_first_of X l l acts Y c w V). Qed.

Lemma covers_words X l w : leads X l [] X -> spelled l w = true -> covers X w [] X.
Proof.
  intros Hl. remember (length w) as n eqn:En. assert (length w <= n)%nat as Hn by lia. clear En. revert w Hn.
  induction n as [|n IH]; intros w Hn Hw; (destruct w as [|c w]; [apply covers_nil|]); [cbn in Hn; lia|].
  apply (covers_first X l [] X c w X Hl Hw). intros w' Hw' Hlen. apply IH; [cbn in Hn; lia|done].
Qed.

(** A word that is not empty, with actions on its first character. *)
Lemma covers_word X l acts Y w : leads X l acts Y -> leads Y l [] Y -> w <> [] -> spelled l w = true ->
  covers X w ((fun a => (0, a)) <$> acts) Y.
Proof.
  intros Hl Hloop Hne Hw. destruct w as [|c w]; [done|]. eapply covers_first; [done..|].
  intros w' Hw' _. by eapply covers_words.
Qed.

(** A given word: the actions and the place after it. *)
Definition acts_on (c : Z) (P : place) : list A := snd <$> ordered (flat_map t_acts (least P c)).

Fixpoint chain (X : place) (w : bytes) : option (list (Z * A) * place) :=
  match w with
  | [] => Some ([], X)
  | c :: w =>
      if edge_at X (acts_on c X) (after c X) c then
        match chain (after c X) w with
        | Some (tr, Y) => Some (((fun a => (0, a)) <$> acts_on c X) ++ shift 1 tr, Y)
        | None => None
        end
      else None
  end.

Definition within (X Y : place) : bool := subset_check (may X) (may Y) && subset_check (must Y) (must X).

Definition chain_check (X : place) (w : bytes) (tr : list (Z * A)) (Y : place) : bool :=
  match chain X w with
  | Some (tr', Y') => bool_decide (tr' = tr) && within Y' Y
  | None => false
  end.

Lemma edge_by_char P c acts Q : edge_at P acts Q c = true -> edge P [(c, c)] acts Q.
Proof.
  intros H st c' Hst Hc. assert (c' = c) as -> by (cbn in Hc; lia). by eapply edge_at_ok.
Qed.

Lemma in_single c : in_cls c [(c, c)] = true.
Proof. unfold in_cls. cbn. by rewrite !Z.leb_refl. Qed.

Lemma chain_covers X w tr Y : chain X w = Some (tr, Y) -> covers X w tr Y.
Proof.
  revert X tr; induction w as [|c w IH]; intros X tr H; cbn [chain] in H.
  - injection H as <- <-. apply covers_nil.
  - destruct (edge_at X _ _ _) eqn:E; [|done]. destruct (chain (after c X) w) as [[tr' Y']|] eqn:Ec; [|done].
    injection H as <- <-. eapply covers_cons; [by apply edge_by_char|apply in_single|by apply IH].
Qed.

Lemma covers_by_check X w tr Y : chain_check X w tr Y = true -> covers X w tr Y.
Proof.
  unfold chain_check. destruct (chain X w) as [[tr' Y']|] eqn:E; [|done].
  rewrite andb_true_iff, bool_decide_eq_true. intros [-> Hw] st pos Hst.
  destruct (chain_covers _ _ _ _ E st pos Hst) as (st' & Hs & [Hmay Hmust]). exists st'. split; [done|].
  apply andb_true_iff in Hw as [H1%subset_check_spec H2%subset_check_spec].
  split; [by etransitivity|by etransitivity].
Qed.
End Places.
Arguments place : clear implicits.
