(* ===== verification/UriParser.v ===== *)
(** * The parser of URIs ([uri.rl])

    The grammar of the source with its actions, and [URI::Create].  Numbers without quotes in
    the grammar ([1 digit{2}], [2 [0-4] digit]) are characters with these codes. *)

From stdpp Require Import base list numbers strings.
From Stdlib Require Import Lia ZArith.
From S2P Require Import Prelude Ragel Uri.

(** ** Actions *)

Inductive uri_action :=
| marku | markh | save_scheme | save_port | save_user | save_host | save_path | save_query | save_fragment.

#[export] Instance uri_action_eq_dec : EqDecision uri_action.
Proof. solve_decision. Defined.

(** The URI that is filled, and [mark], a position in the text or null. *)
Definition parsing : Type := URI * option Z.

(** [std::string(mark, fpc - mark)]. *)
Definition marked (text : bytes) (mark fpc : Z) : bytes := slice mark (fpc - mark) text.

(** [atoi(mark)]; what does not fit is undefined. *)
Fixpoint leading_digits (s : bytes) : bytes :=
  match s with
  | c :: s => if (48 <=? c) && (c <=? 57) then c :: leading_digits s else []
  | [] => []
  end.

Definition atoi (s : bytes) : res Z :=
  let n := undec (leading_digits s) in
  if n <? 2 ^ 31 then Ret n else Undef SignedOverflow.

Definition set_scheme (v : bytes) (u : URI) : URI :=
  MkURI v (m_user u) (m_host u) (m_port u) (m_path u) (m_query u) (m_fragment u).
Definition set_user (v : bytes) (u : URI) : URI :=
  MkURI (m_scheme u) v (m_host u) (m_port u) (m_path u) (m_query u) (m_fragment u).
Definition set_host (v : bytes) (u : URI) : URI :=
  MkURI (m_scheme u) (m_user u) v (m_port u) (m_path u) (m_query u) (m_fragment u).
Definition set_uri_port (v : Z) (u : URI) : URI :=
  MkURI (m_scheme u) (m_user u) (m_host u) v (m_path u) (m_query u) (m_fragment u).
Definition set_uri_path (v : bytes) (u : URI) : URI :=
  MkURI (m_scheme u) (m_user u) (m_host u) (m_port u) v (m_query u) (m_fragment u).
Definition set_uri_query (v : bytes) (u : URI) : URI :=
  MkURI (m_scheme u) (m_user u) (m_host u) (m_port u) (m_path u) v (m_fragment u).
Definition set_uri_fragment (v : bytes) (u : URI) : URI :=
  MkURI (m_scheme u) (m_user u) (m_host u) (m_port u) (m_path u) (m_query u) v.

(** The actions that save when there is a mark. *)
Definition save (set : bytes -> URI -> URI) (text : bytes) (fpc : Z) (x : parsing) : res parsing :=
  Ret (match snd x with Some m => set (marked text m fpc) (fst x) | None => fst x end, None).

Definition do_action (text : bytes) (fpc : Z) (a : uri_action) (x : parsing) : res parsing :=
  match a with
  | marku | markh => Ret (fst x, Some fpc)
  | save_scheme =>
      match snd x with
      | Some m => Ret (set_scheme (marked text m fpc) (fst x), None)
      | None => Undef NullDeref
      end
  | save_port =>
      match snd x with
      | Some m =>
          if m =? fpc then Ret (fst x, None)
          else let? port := atoi (zdrop m text) in Ret (set_uri_port port (fst x), None)
      | None => Undef NullDeref
      end
  | save_user => save set_user text fpc x
  | save_host => save set_host text fpc x
  | save_path => save set_uri_path text fpc x
  | save_query => save set_uri_query text fpc x
  | save_fragment => save set_uri_fragment text fpc x
  end.

Fixpoint do_actions (text : bytes) (l : list (Z * uri_action)) (x : parsing) : res parsing :=
  match l with
  | [] => Ret x
  | (fpc, a) :: l => let? x := do_action text fpc a x in do_actions text l x
  end.

(** ** The grammar *)

Module Grammar.
Definition alpha : cls := [(65, 90); (97, 122)].
Definition digit : cls := [(48, 57)].
Definition xdigit : cls := [(48, 57); (65, 70); (97, 102)].
Definition sub_delims : cls := chars (str "!$&'()*+,;=").
Definition unreserved : cls := alpha ++ digit ++ chars (str "-._~").
Definition not_ascii : cls := [(128, 255)].

Abbreviation g := (re uri_action).

Definition pct_encoded : g := cats [chr 37; Cls xdigit; Cls xdigit].
Definition scheme : g :=
  Leave save_scheme (Enter marku (Cat (Cls alpha) (Star (Cls (alpha ++ digit ++ chars (str "+-.")))))).
Definition user : g := Star (Alt (Cls (unreserved ++ sub_delims ++ chars (str ":"))) pct_encoded).
Definition dec_octet : g :=
  alts [Cls digit; Cat (Cls [(49, 57)]) (Cls digit); Cat (chr 1) (rep 2 (Cls digit));
        cats [chr 2; Cls [(48, 52)]; Cls digit]; Cat (lit (str "25")) (Cls [(48, 53)])].
Definition ip_v4 : g := cats [dec_octet; chr 46; dec_octet; chr 46; dec_octet; chr 46; dec_octet].
Definition h16 : g := rep_between 1 3 (Cls xdigit).
Definition h16c : g := Cat h16 (chr 58).
Definition ls32 : g := Alt (cats [h16; chr 58; h16]) ip_v4.
Definition ip_v6 : g :=
  alts [Cat (rep 6 h16c) ls32;
        cats [lit (str "::"); rep 5 h16c; ls32];
        cats [opt h16; lit (str "::"); rep 4 h16c; ls32];
        cats [opt (Cat (rep 1 h16c) h16); lit (str "::"); rep 3 h16c; ls32];
        cats [opt (Cat (rep 2 h16c) h16); lit (str "::"); rep 2 h16c; ls32];
        cats [opt (Cat (rep 3 h16c) h16); lit (str "::"); rep 1 h16c; ls32];
        cats [opt (Cat (rep 4 h16c) h16); lit (str "::"); ls32];
        cats [opt (Cat (rep 5 h16c) h16); lit (str "::"); h16];
        Cat (opt (Cat (rep 6 h16c) h16)) (lit (str "::"))].
Definition ip_future : g :=
  cats [chr 118; plus (Cls xdigit); chr 46; plus (Cls (unreserved ++ sub_delims ++ chars (str ":")))].
Definition ip_literal : g := cats [chr 91; Alt ip_v6 ip_future; chr 93].
Definition reg_name : g := Star (Alt (Cls (unreserved ++ sub_delims)) pct_encoded).
Definition host : g := alts [ip_literal; ip_v4; reg_name].
Definition port : g := Star (Cls digit).
Definition authority : g :=
  Enter markh
    (cats [opt (Cat (Leave save_user user) (chr 64));
           Leave save_host (Enter markh host);
           opt (Cat (chr 58) (Leave save_port (Enter markh port)))]).
Definition pchar : g := Alt (Cls (not_ascii ++ unreserved ++ sub_delims ++ chars (str ":@"))) pct_encoded.
(** [pchar - ":"]. *)
Definition pchar_nc : g := Alt (Cls (not_ascii ++ unreserved ++ sub_delims ++ chars (str "@"))) pct_encoded.
Definition segment : g := Star pchar.
Definition segment_nz : g := plus pchar.
Definition segment_nz_nc : g := plus pchar_nc.
Definition slash_segment : g := Cat (chr 47) segment.
Definition path_abempty : g := Cat (opt slash_segment) (Star slash_segment).
Definition path_absolute : g := Cat (chr 47) (opt (Cat segment_nz (Star slash_segment))).
Definition path_noscheme : g := Cat segment_nz_nc (Star slash_segment).
Definition path_rootless : g := Cat segment_nz (Star slash_segment).
Definition query_chars : g := Star (alts [pchar; chr 47; chr 63]).
Definition query : g := Leave save_query (Enter marku query_chars).
Definition fragment : g := Leave save_fragment (Enter marku query_chars).
Definition hier_part : g :=
  alts [cats [lit (str "//"); authority; Leave save_path (Enter markh path_abempty)];
        path_absolute; path_rootless; Eps].
Definition relative_part : g :=
  alts [cats [lit (str "//"); authority; path_abempty]; path_absolute; path_noscheme; Eps].
Definition suffix : g := Cat (opt (Cat (chr 63) query)) (opt (Cat (chr 35) fragment)).
Definition relative_ref : g := Cat relative_part suffix.
Definition uri : g := cats [scheme; chr 58; hier_part; suffix].
Definition uri_reference : g := Alt uri relative_ref.

End Grammar.

Definition uri_parser : list (re (Z * uri_action)) := [fst (number Grammar.uri_reference 0)].

(** ** [URI::Create] *)

Definition URI_Create (uri_str : bytes) : res (option URI) :=
  let (tr, e) := scan uri_parser 0 uri_str in
  let? x := do_actions uri_str tr (new_URI, None) in
  match e with
  | None => Ret None
  | Some st =>
      if final st then
        let? x := do_actions uri_str ((fun a => (zlen uri_str, a)) <$> at_eof st) x in
        Ret (Some (fst x))
      else Ret None
  end.
