(* ===== verification/Socket.v ===== *)
(** * Sockets ([socket.h], [socket.cc])

    A socket object with its descriptor, its state and its addresses, and the TLS socket on
    top of it.  The system calls and the TLS library are an interface; a call that waits is
    one call of it.  The descriptor table is that of [FDManager]: what the methods look up and
    change in it, and what the hooked [accept] puts into it, is modelled here; the other calls
    may change it in any way. *)

From stdpp Require Import base list numbers strings.
From Stdlib Require Import Lia ZArith.
From S2P Require Import Prelude Endian FDManager Address.

Definition SOCK_STREAM : Z := 1.
Definition SOCK_DGRAM : Z := 2.
Definition SOL_SOCKET : Z := 1.
Definition SO_REUSEADDR : Z := 2.
Definition SO_ERROR : Z := 4.
Definition IPPROTO_TCP : Z := 6.
Definition TCP_NODELAY : Z := 1.
Definition READ : Z := 1.
Definition WRITE : Z := 4.

(** The system calls on a state [N]; a result of -1 (or non-zero, for the option calls) is a
    failure, and a call that receives gives the bytes it stored. *)
Class Net (N : Type) := {
  net_errno : N -> Z;
  net_fds : N -> FDManager;
  net_set_fds : FDManager -> N -> N;
  (** what [fstat] says of a descriptor, and its flags *)
  net_fstat : N -> Z -> option bool;
  net_flags : N -> Z -> Z;
  net_set_flags : Z -> Z -> N -> N;
  net_socket : Z -> Z -> Z -> N -> Z * N;
  net_setsockopt : Z -> Z -> Z -> Z -> N -> Z * N;
  net_getsockopt : Z -> Z -> Z -> N -> Z * Z * N;
  (** the address for a structure of the family, [None] for a failure *)
  net_getsockname : Z -> Z -> N -> option Address * N;
  net_getpeername : Z -> Z -> N -> option Address * N;
  net_connect : Z -> Address -> N -> Z * N;
  net_bind : Z -> Address -> N -> Z * N;
  net_listen : Z -> Z -> N -> Z * N;
  (** the original function, called by the hook until it does not block *)
  net_accept : Z -> N -> Z * N;
  net_close : Z -> N -> Z * N;
  net_send : Z -> bytes -> Z -> N -> Z * N;
  net_sendto : Z -> bytes -> Z -> Address -> N -> Z * N;
  net_sendmsg : Z -> list bytes -> Z -> option Address -> N -> Z * N;
  net_recv : Z -> Z -> Z -> N -> Z * bytes * N;
  net_recvfrom : Z -> Z -> Z -> Z -> N -> Z * bytes * N;
  net_recvmsg : Z -> list Z -> Z -> N -> Z * bytes * N;
  net_cancel_event : Z -> Z -> N -> bool * N;
  net_cancel_all : Z -> N -> bool * N }.

(** ** State *)

Record Socket := MkSocket {
  m_sock : Z;
  m_family : Z;
  m_type : Z;
  m_protocol : Z;
  m_is_connected : bool;
  m_local_addr : option Address;
  m_remote_addr : option Address }.

Definition new_Socket (family type protocol : Z) : Socket :=
  MkSocket (-1) family type protocol false None None.

Definition set_sock (x : Z) (s : Socket) : Socket :=
  MkSocket x (m_family s) (m_type s) (m_protocol s) (m_is_connected s) (m_local_addr s) (m_remote_addr s).
Definition set_connected (b : bool) (s : Socket) : Socket :=
  MkSocket (m_sock s) (m_family s) (m_type s) (m_protocol s) b (m_local_addr s) (m_remote_addr s).
Definition set_local (a : option Address) (s : Socket) : Socket :=
  MkSocket (m_sock s) (m_family s) (m_type s) (m_protocol s) (m_is_connected s) a (m_remote_addr s).
Definition set_remote (a : option Address) (s : Socket) : Socket :=
  MkSocket (m_sock s) (m_family s) (m_type s) (m_protocol s) (m_is_connected s) (m_local_addr s) a.

Definition is_connected (s : Socket) : bool := m_is_connected s.
Definition is_valid (s : Socket) : bool := negb (m_sock s =? -1).

(** [dump] and [to_string]; an address is printed with its [insert]. *)
Definition sock_dump (host : endian) (s : Socket) : res bytes :=
  let? l := match m_local_addr s with
            | Some a => let? x := Address.insert host a in Ret (str " localAddr:" ++ x)
            | None => Ret []
            end in
  let? r := match m_remote_addr s with
            | Some a => let? x := Address.insert host a in Ret (str " remoteAddr:" ++ x)
            | None => Ret []
            end in
  Ret (str "[Socket sock:" ++ sdec (m_sock s) ++
       str " connected:" ++ (if m_is_connected s then str "1" else str "0") ++
       str " family:" ++ sdec (m_family s) ++ str " type:" ++ sdec (m_type s) ++
       str " protocol:" ++ sdec (m_protocol s) ++ l ++ r ++ str "]").

(** [get_addr_len()]. *)
Definition get_addr_len (a : Address) : Z :=
  match a with
  | IPv4Address _ => 16
  | IPv6Address _ => 28
  | UnixAddress u => m_len u
  | UnknownAddress _ _ => 16
  end.

Section Socket.
Context {N : Type} `{!Net N}.

(** A method of a socket, with the system. *)
Abbreviation sock A := (meth (Socket * N) A).

Definition on_net {A} (f : N -> A * N) : sock A :=
  fun st => let (a, n) := f st.2 in (Ret a, (st.1, n)).
Definition get_self : sock Socket := fun st => (Ret st.1, st).
Definition upd (f : Socket -> Socket) : sock unit := fun st => (Ret tt, (f st.1, st.2)).

(** [SingletonFDManager::Instance()->get_fd(fd)]. *)
Definition find_entity (fd : Z) : sock (option FDEntity) :=
  fun st => let (r, m) := get_fd (fun _ => None) fd false 0 (net_fds st.2) in
            (r, (st.1, net_set_fds m st.2)).

(** A change of the entity a descriptor has in the table. *)
Definition put_entity (fd : Z) (e : FDEntity) : sock unit :=
  fun st => let (r, m) := store fd (Some e) (net_fds st.2) in (r, (st.1, net_set_fds m st.2)).

(** [get_fd(fd, true)]: a new entity reads the flags of the descriptor and may set them. *)
Definition create_entity (fd : Z) : sock (option FDEntity) :=
  fun st =>
    let n := st.2 in
    let known := match get_fd (net_fstat n) fd false 0 (net_fds n) with (Ret (Some _), _) => true | _ => false end in
    let (r, m) := get_fd (net_fstat n) fd true (net_flags n fd) (net_fds n) in
    let n := net_set_fds m n in
    (r, (st.1, if known then n else net_set_flags fd (new_FDEntity (net_fstat n) fd (net_flags n fd)).2 n)).

(** The hooked [accept]: a descriptor that was accepted gets an entity. *)
Definition hook_accept (socket : Z) : sock Z :=
  let! fd := on_net (net_accept socket) in
  if 0 <=? fd then let! _ := create_entity fd in ret fd else ret fd.

(** ** Options and addresses *)

Definition set_option (level optname val : Z) : sock bool :=
  let! s := get_self in
  let! rt := on_net (net_setsockopt (m_sock s) level optname val) in
  ret (rt =? 0).

(** [get_option] with an integer: whether it succeeded, and the value. *)
Definition get_option (level optname : Z) : sock (bool * Z) :=
  let! s := get_self in
  let! (rt, v) := (fun st => let '(rt, v, n) := net_getsockopt (m_sock st.1) level optname st.2 in
                             (Ret (rt, v), (st.1, n))) in
  ret (rt =? 0, v).

Definition init_sock : sock unit :=
  let! s := get_self in
  let! _ := set_option SOL_SOCKET SO_REUSEADDR 1 in
  if (m_type s =? SOCK_STREAM) && negb (m_family s =? AF_UNIX) then
    let! _ := set_option IPPROTO_TCP TCP_NODELAY 1 in ret tt
  else ret tt.

Definition new_sock : sock unit :=
  let! s := get_self in
  let! fd := on_net (net_socket (m_family s) (m_type s) (m_protocol s)) in
  let! _ := upd (set_sock fd) in
  if negb (fd =? -1) then init_sock else ret tt.

(** An address that could not be read is not kept. *)
Definition init_local_address : sock Address :=
  let! s := get_self in
  match m_local_addr s with
  | Some a => ret a
  | None =>
      let! a := on_net (net_getsockname (m_sock s) (m_family s)) in
      match a with
      | None => ret (UnknownAddress (m_family s) (zrepeat 14 0))
      | Some a => let! _ := upd (set_local (Some a)) in ret a
      end
  end.

Definition init_remote_address : sock Address :=
  let! s := get_self in
  match m_remote_addr s with
  | Some a => ret a
  | None =>
      let! a := on_net (net_getpeername (m_sock s) (m_family s)) in
      match a with
      | None => ret (UnknownAddress (m_family s) (zrepeat 14 0))
      | Some a => let! _ := upd (set_remote (Some a)) in ret a
      end
  end.

Definition get_local_addr : sock Address :=
  let! s := get_self in
  match m_local_addr s with Some a => ret a | None => init_local_address end.

Definition get_remote_addr : sock Address :=
  let! s := get_self in
  match m_remote_addr s with Some a => ret a | None => init_remote_address end.

Definition get_error : sock Z :=
  let! (ok, err) := get_option SOL_SOCKET SO_ERROR in
  if negb ok then (fun st => (Ret (net_errno st.2), st)) else ret err.

(** The timeouts are those of the descriptor's entity; [uint64_t] and [int64_t] convert. *)
Definition get_send_timeout (tcp_send_timeout : Z) : sock Z :=
  let! s := get_self in
  let! e := find_entity (m_sock s) in
  match e with
  | Some e => ret (to_signed 64 (FDManager.send_timeout tcp_send_timeout e))
  | None => ret (-1)
  end.

Definition sock_set_send_timeout (timeout : Z) : sock unit :=
  let! s := get_self in
  let! e := find_entity (m_sock s) in
  match e with
  | Some e => put_entity (m_sock s) (set_send_timeout (wrap 64 timeout) e)
  | None => ret tt
  end.

Definition get_recv_timeout (tcp_recv_timeout : Z) : sock Z :=
  let! s := get_self in
  let! e := find_entity (m_sock s) in
  match e with
  | Some e => ret (to_signed 64 (FDManager.recv_timeout tcp_recv_timeout e))
  | None => ret (-1)
  end.

Definition sock_set_recv_timeout (timeout : Z) : sock unit :=
  let! s := get_self in
  let! e := find_entity (m_sock s) in
  match e with
  | Some e => put_entity (m_sock s) (set_recv_timeout (wrap 64 timeout) e)
  | None => ret tt
  end.

(** ** Connections *)

(** [init(sock)]: a socket object takes over a descriptor of the table. *)
Definition sock_init (fd : Z) : sock bool :=
  let! e := find_entity fd in
  match e with
  | Some e =>
      if FDManager.m_is_socket e && negb (m_is_closed e) then
        let! _ := upd (set_sock fd) in
        let! _ := upd (set_connected true) in
        let! _ := init_sock in
        let! _ := init_local_address in
        let! _ := init_remote_address in
        ret true
      else ret false
  | None => ret false
  end.

Definition sock_close : sock bool :=
  let! s := get_self in
  if negb (is_connected s) && (m_sock s =? -1) then ret true
  else
    let! _ := upd (set_connected false) in
    if negb (m_sock s =? -1) then
      let! _ := on_net (net_close (m_sock s)) in
      let! _ := upd (set_sock (-1)) in
      ret true
    else ret true.

(** The default of [timeout_ms]. *)
Definition no_timeout : Z := 2 ^ 64 - 1.

(** Making the descriptor when there is none: whether there is one. *)
Definition ensure_sock : sock bool :=
  let! s := get_self in
  if is_valid s then ret true
  else
    let! _ := new_sock in
    let! s := get_self in
    ret (is_valid s).

(** A different family is logged, and the call goes on. *)
Definition sock_connect (addr : Address) (timeout_ms : Z) : sock bool :=
  let! ok := ensure_sock in
  if negb ok then ret false
  else
    let! s := get_self in
    let! _ :=
      if timeout_ms =? no_timeout then ret tt
      else
        let! e := find_entity (m_sock s) in
        match e with
        | Some e => put_entity (m_sock s) (set_connect_timeout timeout_ms e)
        | None => ret tt
        end in
    let! rt := on_net (net_connect (m_sock s) addr) in
    if negb (rt =? 0) then
      let! _ := sock_close in ret false
    else
      let! _ := upd (set_connected true) in
      let! _ := init_local_address in
      let! _ := init_remote_address in
      ret true.

Definition sock_reconnect (timeout_ms : Z) : sock bool :=
  let! s := get_self in
  match m_remote_addr s with
  | None => ret false
  | Some a =>
      let! _ := upd (set_local None) in
      sock_connect a timeout_ms
  end.

Definition sock_bind (addr : Address) : sock bool :=
  let! ok := ensure_sock in
  if negb ok then ret false
  else
    let! s := get_self in
    if negb (get_family addr =? m_family s) then ret false
    else
      let! rt := on_net (net_bind (m_sock s) addr) in
      if negb (rt =? 0) then ret false
      else let! _ := init_local_address in ret true.

Definition sock_listen (backlog : Z) : sock bool :=
  let! s := get_self in
  if negb (is_valid s) then ret false
  else
    let! rt := on_net (net_listen (m_sock s) backlog) in
    ret (rt =? 0).

(** [accept]: the object for the new connection, if any.  When [init] fails the object is
    destroyed without the descriptor, which stays open. *)
Definition sock_accept : sock (option Socket) :=
  let! s := get_self in
  let! fd := hook_accept (m_sock s) in
  if fd =? -1 then ret None
  else
    fun st =>
      match sock_init fd (new_Socket (m_family s) (m_type s) (m_protocol s), st.2) with
      | (Ret true, (conn, n)) => (Ret (Some conn), (st.1, n))
      | (Ret false, (_, n)) => (Ret None, (st.1, n))
      | (Throw e, (_, n)) => (Throw e, (st.1, n))
      | (Undef u, (_, n)) => (Undef u, (st.1, n))
      end.

(** ** Creation *)

Definition create (family type : Z) (n : N) : res Socket * N := (Ret (new_Socket family type 0), n).

(** A datagram socket has its descriptor from the start and counts as connected. *)
Definition create_dgram (family : Z) (n : N) : res Socket * N :=
  match (let! _ := new_sock in upd (set_connected true)) (new_Socket family SOCK_DGRAM 0, n) with
  | (Ret _, (s, n)) => (Ret s, n)
  | (Throw e, (_, n)) => (Throw e, n)
  | (Undef u, (_, n)) => (Undef u, n)
  end.

Definition CreateTCP (address : Address) : N -> res Socket * N := create (get_family address) SOCK_STREAM.
Definition CreateUDP (address : Address) : N -> res Socket * N := create_dgram (get_family address).
Definition CreateTCPSocket : N -> res Socket * N := create AF_INET SOCK_STREAM.
Definition CreateUDPSocket : N -> res Socket * N := create_dgram AF_INET.
Definition CreateTCPSocket6 : N -> res Socket * N := create AF_INET6 SOCK_STREAM.
Definition CreateUDPSocket6 : N -> res Socket * N := create_dgram AF_INET6.
Definition CreateUnixTCPSocket : N -> res Socket * N := create AF_UNIX SOCK_STREAM.
Definition CreateUnixUDPSocket : N -> res Socket * N := create AF_UNIX SOCK_DGRAM.

(** ** Transfers *)

(** What a call stored in a buffer of [cap] bytes: more does not fit. *)
Definition stored (cap : Z) (b : bytes) : res bytes :=
  if cap <? zlen b then Undef BufferOverflow else Ret b.

Definition sock_send (buffer : bytes) (flags : Z) : sock Z :=
  let! s := get_self in
  if is_connected s then
    let! n := on_net (net_send (m_sock s) buffer flags) in ret (to_signed 32 n)
  else ret (-1).

Definition sock_send_iov (buffers : list bytes) (flags : Z) : sock Z :=
  let! s := get_self in
  if is_connected s then
    let! n := on_net (net_sendmsg (m_sock s) buffers flags None) in ret (to_signed 32 n)
  else ret (-1).

Definition sock_send_to (buffer : bytes) (to : Address) (flags : Z) : sock Z :=
  let! s := get_self in
  if is_connected s then
    let! n := on_net (net_sendto (m_sock s) buffer flags to) in ret (to_signed 32 n)
  else ret (-1).

Definition sock_send_to_iov (buffers : list bytes) (to : Address) (flags : Z) : sock Z :=
  let! s := get_self in
  if is_connected s then
    let! n := on_net (net_sendmsg (m_sock s) buffers flags (Some to)) in ret (to_signed 32 n)
  else ret (-1).

(** A call that receives: its result and the bytes, into buffers of [cap] bytes in all. *)
Definition receive (cap : Z) (f : Z -> N -> Z * bytes * N) : sock (Z * bytes) :=
  let! s := get_self in
  if is_connected s then
    fun st =>
      let '(n, b, net) := f (m_sock s) st.2 in
      match stored cap b with
      | Ret b => (Ret (to_signed 32 n, b), (st.1, net))
      | Throw e => (Throw e, (st.1, net))
      | Undef u => (Undef u, (st.1, net))
      end
  else ret (-1, []).

Definition sock_recv (len flags : Z) : sock (Z * bytes) :=
  receive len (fun fd => net_recv fd len flags).

(** The total size of buffers. *)
Definition total (lens : list Z) : Z := foldr Z.add 0 lens.

Definition sock_recv_iov (lens : list Z) (flags : Z) : sock (Z * bytes) :=
  receive (total lens) (fun fd => net_recvmsg fd lens flags).

(** The inner [len], the length of the address, hides the length of the buffer. *)
Definition sock_recv_from (len : Z) (from : Address) (flags : Z) : sock (Z * bytes) :=
  receive len (fun fd => net_recvfrom fd (get_addr_len from) flags (get_addr_len from)).

Definition sock_recv_from_iov (lens : list Z) (from : Address) (flags : Z) : sock (Z * bytes) :=
  receive (total lens) (fun fd => net_recvmsg fd lens flags).

(** ** Waking *)

Definition cancel_read : sock bool :=
  let! s := get_self in on_net (net_cancel_event (m_sock s) READ).
Definition cancel_write : sock bool :=
  let! s := get_self in on_net (net_cancel_event (m_sock s) WRITE).
Definition cancel_accept : sock bool :=
  let! s := get_self in on_net (net_cancel_event (m_sock s) READ).
Definition sock_cancel_all : sock bool :=
  let! s := get_self in on_net (net_cancel_all (m_sock s)).
End Socket.

(** ** TLS sockets *)

(** The calls of the TLS library; objects are addresses. *)
Class Ssl (N : Type) := {
  SSL_CTX_new : bool -> N -> option Z * N;
  SSL_new : option Z -> N -> option Z * N;
  SSL_set_fd : Z -> Z -> N -> Z * N;
  SSL_accept : Z -> N -> Z * N;
  SSL_connect : Z -> N -> Z * N;
  SSL_write : Z -> bytes -> Z -> N -> Z * N;
  SSL_read : Z -> Z -> N -> Z * bytes * N;
  SSL_CTX_use_certificate_chain_file : Z -> bytes -> N -> Z * N;
  SSL_CTX_use_PrivateKey_file : Z -> bytes -> N -> Z * N;
  SSL_CTX_check_private_key : Z -> N -> Z * N }.

Record SSLSocket := MkSSLSocket {
  ssl_base : Socket;
  m_ctx : option Z;
  m_ssl : option Z }.

Definition new_SSLSocket (family type protocol : Z) : SSLSocket :=
  MkSSLSocket (new_Socket family type protocol) None None.

Section SSL.
Context {N : Type} `{!Net N} `{!Ssl N}.

Abbreviation ssl A := (meth (SSLSocket * N) A).

(** A method of the base class. *)
Definition on_base {A} (m : meth (Socket * N) A) : ssl A :=
  fun st => let '(r, (s, n)) := m (ssl_base st.1, st.2) in
            (r, (MkSSLSocket s (m_ctx st.1) (m_ssl st.1), n)).
Definition ssl_self : ssl SSLSocket := fun st => (Ret st.1, st).
Definition on_ssl_net {A} (f : N -> A * N) : ssl A :=
  fun st => let (a, n) := f st.2 in (Ret a, (st.1, n)).

(** A library call on an object; a null pointer is dereferenced. *)
Definition with_ptr {A} (p : option Z) (f : Z -> N -> A * N) : ssl A :=
  match p with
  | Some x => on_ssl_net (f x)
  | None => fun st => (Undef NullDeref, st)
  end.

Definition set_ctx (c : option Z) : ssl unit :=
  fun st => (Ret tt, (MkSSLSocket (ssl_base st.1) c (m_ssl st.1), st.2)).
Definition set_ssl (p : option Z) : ssl unit :=
  fun st => (Ret tt, (MkSSLSocket (ssl_base st.1) (m_ctx st.1) p, st.2)).

(** A new TLS object for the descriptor, and the handshake. *)
Definition handshake (shake : Z -> N -> Z * N) : ssl bool :=
  let! s := ssl_self in
  let! p := on_ssl_net (SSL_new (m_ctx s)) in
  let! _ := set_ssl p in
  let! _ := with_ptr p (fun x => SSL_set_fd x (m_sock (ssl_base s))) in
  let! r := with_ptr p shake in
  ret (r =? 1).

Definition ssl_init (fd : Z) : ssl bool :=
  let! v := on_base (sock_init fd) in
  if v : bool then handshake SSL_accept else ret false.

Definition ssl_connect (addr : Address) (timeout_ms : Z) : ssl bool :=
  let! v := on_base (sock_connect addr timeout_ms) in
  if v : bool then
    let! c := on_ssl_net (SSL_CTX_new true) in
    let! _ := set_ctx c in
    handshake SSL_connect
  else ret false.

Definition ssl_bind (addr : Address) : ssl bool := on_base (sock_bind addr).
Definition ssl_listen (backlog : Z) : ssl bool := on_base (sock_listen backlog).
Definition ssl_close : ssl bool := on_base sock_close.

(** [accept]; an object whose handshake fails is destroyed, which closes its descriptor. *)
Definition ssl_accept : ssl (option SSLSocket) :=
  let! s := ssl_self in
  let b := ssl_base s in
  let! fd := on_base (hook_accept (m_sock b)) in
  if fd =? -1 then ret None
  else
    fun st =>
      let conn := MkSSLSocket (new_Socket (m_family b) (m_type b) (m_protocol b)) (m_ctx s) None in
      match ssl_init fd (conn, st.2) with
      | (Ret true, (conn, n)) => (Ret (Some conn), (st.1, n))
      | (Ret false, (conn, n)) => let '(_, (_, n)) := sock_close (ssl_base conn, n) in (Ret None, (st.1, n))
      | (Throw e, (_, n)) => (Throw e, (st.1, n))
      | (Undef u, (_, n)) => (Undef u, (st.1, n))
      end.

Definition ssl_CreateTCP (address : Address) : SSLSocket := new_SSLSocket (get_family address) SOCK_STREAM 0.
Definition ssl_CreateTCPSocket : SSLSocket := new_SSLSocket AF_INET SOCK_STREAM 0.
Definition ssl_CreateTCPSocket6 : SSLSocket := new_SSLSocket AF_INET6 SOCK_STREAM 0.

Definition ssl_send (buffer : bytes) : ssl Z :=
  let! s := ssl_self in
  match m_ssl s with
  | Some x => on_ssl_net (SSL_write x buffer (to_signed 32 (zlen buffer)))
  | None => ret (-1)
  end.

(** [int] sums; overflow is undefined. *)
Definition int_of (z : Z) : ssl Z :=
  fun st => (if z <? 2 ^ 31 then Ret z else Undef SignedOverflow, st).

Fixpoint ssl_send_loop (x : Z) (buffers : list bytes) (sum : Z) : ssl Z :=
  match buffers with
  | [] => ret sum
  | b :: buffers =>
      let! tmp := on_ssl_net (SSL_write x b (to_signed 32 (zlen b))) in
      if tmp <=? 0 then ret tmp
      else
        let! sum := int_of (sum + tmp) in
        if negb (tmp =? to_signed 32 (zlen b)) then ret sum else ssl_send_loop x buffers sum
  end.

Definition ssl_send_iov (buffers : list bytes) : ssl Z :=
  let! s := ssl_self in
  match m_ssl s with
  | Some x => ssl_send_loop x buffers 0
  | None => ret (-1)
  end.

(** The calls for datagrams fail an assertion. *)
Definition ssl_send_to : ssl Z := fun st => (Undef AssertFail, st).
Definition ssl_recv_from : ssl Z := fun st => (Undef AssertFail, st).

(** [SSL_read] into a buffer of [cap] bytes. *)
Definition ssl_read_into (p : option Z) (cap len : Z) : ssl (Z * bytes) :=
  match p with
  | None => fun st => (Undef NullDeref, st)
  | Some x =>
      fun st =>
        let '(n, b, net) := SSL_read x (to_signed 32 len) st.2 in
        match stored cap b with
        | Ret b => (Ret (n, b), (st.1, net))
        | Throw e => (Throw e, (st.1, net))
        | Undef u => (Undef u, (st.1, net))
        end
  end.

(** [recv] asks for the context and uses the TLS object. *)
Definition ssl_recv (len : Z) : ssl (Z * bytes) :=
  let! s := ssl_self in
  match m_ctx s with
  | Some _ => ssl_read_into (m_ssl s) len len
  | None => ret (-1, [])
  end.

(** The loop over the buffers reads [buffers->iov_len], the length of the first. *)
Fixpoint ssl_recv_loop (p : option Z) (first : Z) (lens : list Z) (sum : Z) (got : list bytes)
    : ssl (Z * list bytes) :=
  match lens with
  | [] => ret (sum, got)
  | len :: lens =>
      let! (tmp, b) := ssl_read_into p len first in
      if tmp <=? 0 then ret (tmp, got ++ [b])
      else
        let! sum := int_of (sum + tmp) in
        if negb (tmp =? to_signed 32 len) then ret (sum, got ++ [b])
        else ssl_recv_loop p first lens sum (got ++ [b])
  end.

Definition ssl_recv_iov (lens : list Z) : ssl (Z * list bytes) :=
  let! s := ssl_self in
  match m_ssl s with
  | Some x => ssl_recv_loop (Some x) (default 0 (head lens)) lens 0 []
  | None => ret (-1, [])
  end.

(** [load_certificates]: the context is replaced first. *)
Definition load_certificates (cert_file key_file : bytes) : ssl bool :=
  let! c := on_ssl_net (SSL_CTX_new false) in
  let! _ := set_ctx c in
  let! r := with_ptr c (fun x => SSL_CTX_use_certificate_chain_file x cert_file) in
  if negb (r =? 1) then ret false
  else
    let! r := with_ptr c (fun x => SSL_CTX_use_PrivateKey_file x key_file) in
    if negb (r =? 1) then ret false
    else
      let! r := with_ptr c SSL_CTX_check_private_key in
      ret (r =? 1).
End SSL.
