(* ===== verification/SocketProps.v ===== *)
(** * Descriptors of sockets: who owns which

    The open descriptors as a ghost set of the system, the laws of the calls over it, and
    the accounting: over any use of any number of socket objects, the open descriptors are
    those the objects own, those of the rest of the process, and those that [accept] loses. *)

From stdpp Require Import base list numbers gmap sets.
From Stdlib Require Import Lia ZArith.
From S2P Require Import Prelude Endian FDManager FDManagerProps Address Socket.

(** What a call that makes a descriptor does to the open ones. *)
Definition gives_fd (r : Z) (before after : gset Z) : Prop :=
  (r = -1 /\ after = before) \/ (0 <= r /\ (r ∉ before) /\ after = {[r]} ∪ before).

(** The table has a live socket for [fd]. *)
Definition registered (fd : Z) (m : FDManager) : Prop :=
  exists e, (get_fd (fun _ => None) fd false 0 m).1 = Ret (Some e) /\
    FDManager.m_is_socket e = true /\ m_is_closed e = false.

Class NetLaws (N : Type) `{!Net N} := {
  opens : N -> gset Z;
  fds_set n m : net_fds (net_set_fds m n) = m;
  fds_opens n m : opens (net_set_fds m n) = opens n;
  flags_fds fd f n : net_fds (net_set_flags fd f n) = net_fds n;
  flags_opens fd f n : opens (net_set_flags fd f n) = opens n;
  socket_opens f t p n : gives_fd (net_socket f t p n).1 (opens n) (opens (net_socket f t p n).2);
  accept_opens fd n : gives_fd (net_accept fd n).1 (opens n) (opens (net_accept fd n).2);
  close_opens fd n : opens (net_close fd n).2 = opens n ∖ {[fd]};
  setsockopt_opens fd l o v n : opens (net_setsockopt fd l o v n).2 = opens n;
  getsockopt_opens fd l o n : opens (net_getsockopt fd l o n).2 = opens n;
  getsockname_opens fd f n : opens (net_getsockname fd f n).2 = opens n;
  getpeername_opens fd f n : opens (net_getpeername fd f n).2 = opens n;
  connect_opens fd a n : opens (net_connect fd a n).2 = opens n;
  bind_opens fd a n : opens (net_bind fd a n).2 = opens n;
  listen_opens fd b n : opens (net_listen fd b n).2 = opens n;
  send_opens fd b f n : opens (net_send fd b f n).2 = opens n;
  sendto_opens fd b f a n : opens (net_sendto fd b f a n).2 = opens n;
  sendmsg_opens fd b f a n : opens (net_sendmsg fd b f a n).2 = opens n;
  recv_opens fd l f n : opens (net_recv fd l f n).2 = opens n;
  recvfrom_opens fd l f a n : opens (net_recvfrom fd l f a n).2 = opens n;
  recvmsg_opens fd l f n : opens (net_recvmsg fd l f n).2 = opens n;
  cancel_event_opens fd e n : opens (net_cancel_event fd e n).2 = opens n;
  cancel_all_opens fd n : opens (net_cancel_all fd n).2 = opens n }.

(** Where a descriptor is bound and whether it listens, and the calls on it. *)
Class BindLaws (N : Type) `{!Net N} `{!NetLaws N} := {
  endpoint : N -> Z -> option Address * bool;
  socket_endpoint f t p n g : g ∈ opens n -> endpoint (net_socket f t p n).2 g = endpoint n g;
  setsockopt_endpoint fd l o v n g : endpoint (net_setsockopt fd l o v n).2 g = endpoint n g;
  getsockname_endpoint fd f n g : endpoint (net_getsockname fd f n).2 g = endpoint n g;
  bind_endpoint fd a n : (net_bind fd a n).1 = 0 -> (endpoint (net_bind fd a n).2 fd).1 = Some a;
  bind_others fd a n g : g <> fd -> endpoint (net_bind fd a n).2 g = endpoint n g;
  listen_endpoint fd b n : (net_listen fd b n).1 = 0 ->
    endpoint (net_listen fd b n).2 fd = ((endpoint n fd).1, true);
  listen_others fd b n g : g <> fd -> endpoint (net_listen fd b n).2 g = endpoint n g;
  close_others fd n g : g <> fd -> endpoint (net_close fd n).2 g = endpoint n g }.

Create HintDb net.
#[export] Hint Resolve setsockopt_opens getsockopt_opens getsockname_opens getpeername_opens
  connect_opens bind_opens listen_opens send_opens sendto_opens sendmsg_opens recv_opens
  recvfrom_opens recvmsg_opens cancel_event_opens cancel_all_opens : net.

(** ** One object *)

Section Owner.
Context {N : Type} `{!Net N} `{!NetLaws N}.

Abbreviation sock A := (meth (Socket * N) A).

(** The descriptor an object owns. *)
Definition owned (s : Socket) : gset Z := if m_sock s =? -1 then ∅ else {[m_sock s]}.

(** The open descriptors are those of the object and [R], the others. *)
Definition accounted (R : gset Z) (st : Socket * N) : Prop :=
  opens st.2 = owned st.1 ∪ R /\ owned st.1 ## R /\ -1 <= m_sock st.1.

Definition live (R : gset Z) (st : Socket * N) : Prop := accounted R st /\ m_sock st.1 <> -1.

(** What holds after a method: [Q] when it returned, [F] when it did not. *)
Definition triple {A} (F P : Socket * N -> Prop) (m : sock A) (Q : A -> Socket * N -> Prop) : Prop :=
  forall st, P st -> match m st with (Ret a, st') => Q a st' | (_, st') => F st' end.

Lemma triple_bind {A B} F P (m : sock A) Q (k : A -> sock B) Q' :
  triple F P m Q -> (forall a, triple F (Q a) (k a) Q') -> triple F P (bind m k) Q'.
Proof.
  intros Hm Hk st HP. specialize (Hm st HP). unfold bind.
  destruct (m st) as [[a|e|u] st']; [by apply Hk|done..].
Qed.

Lemma triple_ret {A} F P (a : A) (Q : A -> Socket * N -> Prop) : (forall st, P st -> Q a st) -> triple F P (ret a) Q.
Proof. intros H st HP. by apply H. Qed.

Lemma triple_weaken {A} F (P P' : Socket * N -> Prop) (m : sock A) (Q Q' : A -> Socket * N -> Prop) :
  triple F P m Q -> (forall st, P' st -> P st) -> (forall a st, Q a st -> Q' a st) -> triple F P' m Q'.
Proof.
  intros Hm HP HQ st H. specialize (Hm st (HP st H)).
  destruct (m st) as [[a|e|u] st']; [by apply HQ|done..].
Qed.

Lemma triple_keep {A} F P (a : A) : triple F P (ret a) (fun _ => P).
Proof. by intros st HP. Qed.

(** The properties that only depend on the open descriptors and on the object's own. *)
Definition stable (P : Socket * N -> Prop) : Prop :=
  forall s s' n n', m_sock s' = m_sock s -> opens n' = opens n -> P (s, n) -> P (s', n').

Lemma stable_accounted R : stable (accounted R).
Proof. intros s s' n n' E E'. unfold accounted, owned. cbn. by rewrite E, E'. Qed.

Lemma stable_live R : stable (live R).
Proof. intros s s' n n' E E' [H H']. split; [by eapply stable_accounted|by cbn in *; rewrite E]. Qed.

Lemma triple_net {A} F P (f : N -> A * N) :
  stable P -> (forall n, opens (f n).2 = opens n) -> triple F P (on_net f) (fun _ => P).
Proof.
  intros HP Hf [s n] H. unfold on_net. cbn. specialize (Hf n).
  destruct (f n) as [a n']. exact (HP s s n n' eq_refl Hf H).
Qed.

Lemma triple_upd F P f :
  stable P -> (forall s, m_sock (f s) = m_sock s) -> triple F P (upd f) (fun _ => P).
Proof. intros HP Hf [s n] H. exact (HP s (f s) n n (Hf s) eq_refl H). Qed.

Lemma triple_entity F P fd :
  stable P -> (forall st, P st -> F st) -> triple F P (find_entity fd) (fun _ => P).
Proof.
  intros HP HR [s n] H. unfold find_entity. cbn.
  destruct (get_fd _ fd false 0 (net_fds n)) as [r m].
  pose proof (HP s s n (net_set_fds m n) eq_refl (fds_opens n m) H) as H'.
  destruct r; [done|by apply HR..].
Qed.

Lemma triple_put F P fd e :
  stable P -> (forall st, P st -> F st) -> triple F P (put_entity fd e) (fun _ => P).
Proof.
  intros HP HR [s n] H. unfold put_entity. cbn.
  destruct (store fd (Some e) (net_fds n)) as [r m].
  pose proof (HP s s n (net_set_fds m n) eq_refl (fds_opens n m) H) as H'.
  destruct r; [done|by apply HR..].
Qed.

(** ** The methods *)

Lemma triple_method {A} R (m : sock A) :
  triple (accounted R) (accounted R) m (fun _ => accounted R) -> forall st, accounted R st -> accounted R (m st).2.
Proof. intros H st HR. specialize (H st HR). by destruct (m st) as [[a|e|u] st']. Qed.

Lemma accounted_live R st : live R st -> accounted R st.
Proof. by intros []. Qed.
Hint Resolve stable_accounted stable_live accounted_live : net.

Lemma triple_after_self {B} F (P : Socket * N -> Prop) (k : Socket -> sock B) Q :
  (forall s, triple F P (k s) Q) -> triple F P (bind get_self k) Q.
Proof. intros H [s n] HP. by apply H. Qed.

Ltac step :=
  match goal with
  | |- triple _ _ (bind get_self _) _ => apply triple_after_self; intros
  | |- triple _ _ (bind _ _) _ => eapply triple_bind; [|intros]
  | |- triple _ _ (on_net _) _ => apply triple_net
  | |- triple _ _ (upd _) _ => apply triple_upd
  | |- triple _ _ (find_entity _) _ => apply triple_entity
  | |- triple _ _ (put_entity _ _) _ => apply triple_put
  | |- triple _ _ (ret _) _ => apply triple_keep
  | |- triple _ _ (if ?b then _ else _) _ => destruct b
  | |- triple _ _ (match ?b with _ => _ end) _ => destruct b
  | |- _ => solve [eauto with net]
  end.

Lemma set_option_ok F P l o v : stable P -> triple F P (set_option l o v) (fun _ => P).
Proof. intros HP. unfold set_option. repeat step. Qed.
Hint Resolve set_option_ok : net.

Lemma init_sock_ok F P : stable P -> triple F P init_sock (fun _ => P).
Proof. intros HP. unfold init_sock. repeat step. Qed.

Lemma init_local_ok F P : stable P -> triple F P init_local_address (fun _ => P).
Proof. intros HP. unfold init_local_address. repeat step. Qed.

Lemma init_remote_ok F P : stable P -> triple F P init_remote_address (fun _ => P).
Proof. intros HP. unfold init_remote_address. repeat step. Qed.
Hint Resolve init_sock_ok init_local_ok init_remote_ok : net.

Lemma get_option_ok F P l o : stable P -> triple F P (get_option l o) (fun _ => P).
Proof.
  intros HP. unfold get_option. step. eapply triple_bind with (Q := fun _ => P).
  2: { intros []. step. }
  intros [self n] H. cbn.
  pose proof (getsockopt_opens (m_sock self) l o n) as E.
  destruct (net_getsockopt (m_sock self) l o n) as [[rt v] n']. exact (HP self self n n' eq_refl E H).
Qed.
Hint Resolve get_option_ok : net.

Lemma get_error_ok F P : stable P -> triple F P get_error (fun _ => P).
Proof. intros HP. unfold get_error. repeat step. by intros st H. Qed.

Lemma get_addr_ok F P : stable P ->
  triple F P get_local_addr (fun _ => P) /\ triple F P get_remote_addr (fun _ => P).
Proof. intros HP. unfold get_local_addr, get_remote_addr. split; repeat step. Qed.

Lemma owned_gives R s n r n' : accounted R (s, n) -> m_sock s = -1 ->
  gives_fd r (opens n) (opens n') -> accounted R (set_sock r s, n').
Proof.
  intros (E & D & _) Hs Hg. unfold accounted, owned in *. cbn in *. rewrite Hs in E. cbn in E.
  destruct Hg as [[-> E']|(Hr & Hf & E')]; rewrite E', E.
  - cbn. set_solver by lia.
  - rewrite E in Hf. destruct (Z.eqb_spec r (-1)); [lia|]. set_solver by lia.
Qed.

Lemma new_sock_ok F R :
  triple F (fun st => accounted R st /\ m_sock st.1 = -1) new_sock (fun _ => accounted R).
Proof.
  intros [s n] [H Hs]. unfold new_sock, get_self, bind at 1. cbn [fst].
  unfold bind at 1, on_net. cbn [fst snd].
  pose proof (socket_opens (m_family s) (m_type s) (m_protocol s) n) as Hg.
  destruct (net_socket _ _ _ n) as [r n']. cbn in Hg.
  pose proof (owned_gives R s n r n' H Hs Hg) as H'.
  unfold bind, upd. cbn [fst snd]. destruct (negb (r =? -1)); [|done].
  by apply (init_sock_ok F (accounted R) (stable_accounted R)).
Qed.

Lemma close_accounted R s n : accounted R (s, n) -> m_sock s <> -1 ->
  accounted R (set_sock (-1) s, (net_close (m_sock s) n).2).
Proof.
  intros (E & D & _) Hs. unfold accounted, owned in *. cbn in *. rewrite close_opens, E.
  destruct (Z.eqb_spec (m_sock s) (-1)); [done|]. set_solver by lia.
Qed.

Lemma sock_close_ok F R : triple F (accounted R) sock_close (fun _ st => accounted R st /\ m_sock st.1 = -1).
Proof.
  intros [s n] H. unfold sock_close, get_self, bind at 1. cbn [fst].
  destruct (Z.eqb_spec (m_sock s) (-1)) as [E|E].
  - destruct (negb (is_connected s)); cbn; [done|]. split; [|done].
    by eapply stable_accounted; [..|exact H].
  - rewrite andb_false_r. cbn [negb]. unfold bind, upd, on_net. cbn [fst snd].
    pose proof (close_accounted R s n H E) as H'.
    destruct (net_close (m_sock s) n) as [r n']. cbn in *. done.
Qed.

Lemma ensure_sock_ok F R :
  triple F (accounted R) ensure_sock (fun b st => if b : bool then live R st else accounted R st).
Proof.
  intros [s n] H. unfold ensure_sock, get_self, bind at 1. cbn [fst].
  unfold is_valid at 1. destruct (Z.eqb_spec (m_sock s) (-1)) as [E|E]; [|done].
  cbn [negb]. pose proof (new_sock_ok F R (s, n) (conj H E)) as H'. unfold bind.
  destruct (new_sock (s, n)) as [[[]|e|u] [s' n']]; [|done..]. cbn. unfold is_valid.
  destruct (Z.eqb_spec (m_sock s') (-1)); done.
Qed.

(** A method that starts by making a descriptor. *)
Lemma triple_ensure F R (k : sock bool) (Q : bool -> Socket * N -> Prop) :
  (forall st, accounted R st -> Q false st) ->
  triple F (live R) k Q ->
  triple F (accounted R) (let! ok := ensure_sock in if negb ok then ret false else k) Q.
Proof.
  intros HQ Hk. eapply triple_bind; [apply ensure_sock_ok|]. intros []; cbn [negb]; [done|].
  apply triple_ret. intros st H. by apply HQ.
Qed.

Lemma sock_connect_ok R a t : triple (accounted R) (accounted R) (sock_connect a t) (fun _ => accounted R).
Proof.
  unfold sock_connect. apply triple_ensure; [done|].
  eapply triple_weaken with (P := live R) (Q := fun _ => accounted R); [|done..].
  apply triple_after_self. intros s. eapply triple_bind with (Q := fun _ => live R).
  { repeat step. }
  intros _. eapply triple_bind with (Q := fun _ => live R); [repeat step|]. intros rt.
  destruct (negb (rt =? 0)).
  - eapply triple_weaken with (P := accounted R) (Q := fun _ => accounted R); [|eauto with net|done].
    eapply triple_bind; [apply sock_close_ok|]. intros ?. apply triple_ret. by intros st [].
  - eapply triple_weaken with (P := live R) (Q := fun _ => live R); [|done|eauto with net]. repeat step.
Qed.

Lemma sock_reconnect_ok R t : triple (accounted R) (accounted R) (sock_reconnect t) (fun _ => accounted R).
Proof.
  unfold sock_reconnect. step. destruct (m_remote_addr s); [|step]. step; [repeat step|].
  apply sock_connect_ok.
Qed.

Lemma sock_bind_ok F R a :
  triple F (accounted R) (sock_bind a) (fun b st => if b : bool then live R st else accounted R st).
Proof.
  unfold sock_bind. apply triple_ensure; [done|]. apply triple_after_self. intros s.
  destruct (negb (get_family a =? m_family s)); [apply triple_ret; eauto with net|].
  step; [repeat step|]. destruct (negb (a0 =? 0)); [apply triple_ret; eauto with net|].
  step; [repeat step|]. by apply triple_ret.
Qed.

Lemma bind_keeps R a : triple (accounted R) (accounted R) (sock_bind a) (fun _ => accounted R).
Proof. eapply triple_weaken; [apply sock_bind_ok|done|by intros [] ? H; [apply H|]]. Qed.

Lemma sock_listen_ok F P b : stable P -> triple F P (sock_listen b) (fun _ => P).
Proof. intros HP. unfold sock_listen. repeat step. Qed.

Lemma receive_accounts R c f :
  (forall fd n, opens (f fd n).2 = opens n) -> triple (accounted R) (accounted R) (receive c f) (fun _ => accounted R).
Proof.
  intros Hf. unfold receive. step. destruct (is_connected s); [|step].
  intros [self n] H. cbn. specialize (Hf (m_sock s) n).
  destruct (f (m_sock s) n) as [[r b] n']. cbn in Hf.
  pose proof (stable_accounted R self self n n' eq_refl Hf H). by destruct (stored c b).
Qed.

(** [init] for a fresh object that takes over an open descriptor: it does when the table has a
    live socket for it, and else changes nothing. *)
Lemma sock_init_ok R f t p fd n : 0 <= fd -> fd ∉ R -> opens n = {[fd]} ∪ R ->
  match sock_init fd (new_Socket f t p, n) with
  | (Ret true, st') => live R st'
  | (_, st') => opens st'.2 = opens n /\ ~ registered fd (net_fds n)
  end.
Proof.
  intros Hfd HR HN. unfold sock_init, bind at 1, find_entity, registered. cbn [fst snd].
  destruct (get_fd _ fd false 0 (net_fds n)) as [[[e|]|ex|u] m]; cbn [fst].
  2-4: cbn; rewrite fds_opens; split; [done|by intros (? & ? & _)].
  destruct (FDManager.m_is_socket e && negb (m_is_closed e)) eqn:Hsc.
  2: { cbn. rewrite fds_opens. split; [done|]. intros (e' & [= <-] & Hs & Hc). by rewrite Hs, Hc in Hsc. }
  set (st := (set_connected true (set_sock fd (new_Socket f t p)), net_set_fds m n)).
  assert (triple (fun _ => False) (live R) (let! _ := init_sock in let! _ := init_local_address in
            let! _ := init_remote_address in ret true) (fun b st => b = true /\ live R st)) as H.
  { do 3 (step; [repeat step|]). by apply triple_ret. }
  assert (live R st) as Hl.
  { split; [|cbn; lia]. unfold accounted, owned. cbn. rewrite fds_opens, HN.
    destruct (Z.eqb_spec fd (-1)); [lia|]. set_solver by lia. }
  specialize (H st Hl). change ((let! _ := upd (set_sock fd) in let! _ := upd (set_connected true) in let! _ := init_sock in
    let! _ := init_local_address in let! _ := init_remote_address in ret true) (new_Socket f t p, net_set_fds m n))
    with ((let! _ := init_sock in let! _ := init_local_address in let! _ := init_remote_address in ret true) st).
  destruct (bind init_sock _ st) as [[b|ex|u] st']; [|done..]. by destruct H as [-> H].
Qed.

(** The hooked [accept] on a descriptor that is a socket for [fstat] and has no entity yet. *)
Definition described (fd : Z) (n : N) : Prop :=
  net_fstat n fd = Some true /\ entity (net_fds n) fd = None /\ ~ short_growth (net_fds n) fd.

Lemma get_fd_entity fstat fd flags m : 0 <= fd -> entity m fd = None -> ~ short_growth m fd ->
  exists m', get_fd fstat fd true flags m = (Ret (Some (new_FDEntity fstat fd flags).1), m') /\
    entity m' fd = Some (new_FDEntity fstat fd flags).1.
Proof.
  intros Hfd He Hg. destruct (add_fd_ok fstat fd flags m Hfd) as [_ H]. destruct (H Hg) as (m' & E & Hm').
  exists m'. split; [|by rewrite Hm', decide_True]. unfold get_fd. destruct (Z.leb_spec (zlen m) fd); [done|].
  by rewrite load_ok, He by lia.
Qed.

Lemma entity_registered fd m e : 0 <= fd -> entity m fd = Some e ->
  FDManager.m_is_socket e = true -> m_is_closed e = false -> registered fd m.
Proof.
  intros Hfd He Hs Hc. exists e. split; [|done]. unfold get_fd.
  destruct (Z.leb_spec (zlen m) fd) as [Hle|]; [|by rewrite load_ok, He by lia].
  exfalso. unfold entity in He. destruct (Z.ltb_spec fd 0); [lia|].
  by rewrite lookup_ge_None_2 in He by (unfold zlen in Hle; lia).
Qed.

Lemma create_entity_ok s n fd : 0 <= fd ->
  exists r n', create_entity fd (s, n) = (r, (s, n')) /\ opens n' = opens n /\
    (described fd n -> registered fd (net_fds n') /\ exists e, r = Ret e).
Proof.
  intros Hfd. unfold create_entity. cbn [fst snd].
  set (known := match get_fd (net_fstat n) fd false 0 (net_fds n) with (Ret (Some _), _) => true | _ => false end).
  destruct (get_fd (net_fstat n) fd true (net_flags n fd) (net_fds n)) as [r m] eqn:E.
  eexists r, _. split; [done|].
  assert (forall f, opens (if known then net_set_fds m n else net_set_flags fd f (net_set_fds m n)) = opens n) as Ho
    by (intros f; destruct known; rewrite ?flags_opens; apply fds_opens).
  split; [apply Ho|]. intros (Hf & He & Hg). destruct (get_fd_entity (net_fstat n) fd (net_flags n fd) _ Hfd He Hg) as (m' & E' & Hm').
  rewrite E in E'. injection E' as -> ->. split; [|eauto].
  assert (forall f, net_fds (if known then net_set_fds m' n else net_set_flags fd f (net_set_fds m' n)) = m') as Hfds
    by (intros f; destruct known; rewrite ?flags_fds; apply fds_set).
  rewrite Hfds. eapply entity_registered; [done|exact Hm'|..]; unfold new_FDEntity, init; cbn; rewrite Hf;
    by destruct (Z.land _ _ =? 0).
Qed.

(** ** Any number of objects *)

(** The methods a program calls on a socket. *)
Inductive sop :=
  | OConnect (a : Address) (t : Z) | OReconnect (t : Z) | OBind (a : Address) | OListen (b : Z) | OClose
  | OSend (b : bytes) (f : Z) | OSendIov (b : list bytes) (f : Z)
  | OSendTo (b : bytes) (a : Address) (f : Z) | OSendToIov (b : list bytes) (a : Address) (f : Z)
  | ORecv (l f : Z) | ORecvIov (l : list Z) (f : Z)
  | ORecvFrom (l : Z) (a : Address) (f : Z) | ORecvFromIov (l : list Z) (a : Address) (f : Z)
  | OSetOption (l o v : Z) | OGetOption (l o : Z) | OGetError | OLocal | ORemote
  | OSetSendTimeout (t : Z) | OSetRecvTimeout (t : Z) | OGetSendTimeout (d : Z) | OGetRecvTimeout (d : Z)
  | OCancelRead | OCancelWrite | OCancelAccept | OCancelAll.

Definition forget {A} (m : sock A) : sock unit := let! _ := m in ret tt.

Definition run_sop (o : sop) : sock unit :=
  match o with
  | OConnect a t => forget (sock_connect a t)
  | OReconnect t => forget (sock_reconnect t)
  | OBind a => forget (sock_bind a)
  | OListen b => forget (sock_listen b)
  | OClose => forget sock_close
  | OSend b f => forget (sock_send b f)
  | OSendIov b f => forget (sock_send_iov b f)
  | OSendTo b a f => forget (sock_send_to b a f)
  | OSendToIov b a f => forget (sock_send_to_iov b a f)
  | ORecv l f => forget (sock_recv l f)
  | ORecvIov l f => forget (sock_recv_iov l f)
  | ORecvFrom l a f => forget (sock_recv_from l a f)
  | ORecvFromIov l a f => forget (sock_recv_from_iov l a f)
  | OSetOption l o v => forget (set_option l o v)
  | OGetOption l o => forget (get_option l o)
  | OGetError => forget get_error
  | OLocal => forget get_local_addr
  | ORemote => forget get_remote_addr
  | OSetSendTimeout t => sock_set_send_timeout t
  | OSetRecvTimeout t => sock_set_recv_timeout t
  | OGetSendTimeout d => forget (get_send_timeout d)
  | OGetRecvTimeout d => forget (get_recv_timeout d)
  | OCancelRead => forget cancel_read
  | OCancelWrite => forget cancel_write
  | OCancelAccept => forget cancel_accept
  | OCancelAll => forget sock_cancel_all
  end.

Lemma forget_ok {A} R (m : sock A) : triple (accounted R) (accounted R) m (fun _ => accounted R) ->
  triple (accounted R) (accounted R) (forget m) (fun _ => accounted R).
Proof. intros H. eapply triple_bind; [exact H|]. intros a. apply triple_keep. Qed.

Lemma close_keeps R : triple (accounted R) (accounted R) sock_close (fun _ => accounted R).
Proof. eapply triple_weaken; [apply sock_close_ok|done|by intros ? ? []]. Qed.

Lemma run_sop_ok R o : triple (accounted R) (accounted R) (run_sop o) (fun _ => accounted R).
Proof.
  destruct (get_addr_ok (accounted R) (accounted R) (stable_accounted R)) as [H1 H2].
  destruct o; cbn [run_sop]; try apply forget_ok;
    eauto using sock_connect_ok, sock_reconnect_ok, bind_keeps, close_keeps, get_error_ok with net;
    try (apply receive_accounts; intros; auto with net; fail);
    unfold sock_listen, sock_send, sock_send_iov, sock_send_to, sock_send_to_iov, sock_set_send_timeout,
      sock_set_recv_timeout, get_send_timeout, get_recv_timeout, cancel_read, cancel_write, cancel_accept,
      sock_cancel_all; repeat step.
Qed.

(** The descriptors of the objects of a program. *)
Definition fds (l : list Socket) : list Z :=
  omap (fun s => if m_sock s =? -1 then None else Some (m_sock s)) l.

Definition world : Type := list Socket * N.

(** A program creates objects, calls their methods, accepts connections and drops objects,
    whose destructor closes them.  The list in front are the descriptors that were lost, by an
    [accept] that opened one and returned no object.  [P] restricts the calls of [accept]. *)
Inductive wstep (P : Z -> N -> Prop) : list Z * world -> list Z * world -> Prop :=
  | w_create lost l n f t p : wstep P (lost, (l, n)) (lost, (l ++ [new_Socket f t p], n))
  | w_dgram lost l n f s n' : create_dgram f n = (Ret s, n') -> wstep P (lost, (l, n)) (lost, (l ++ [s], n'))
  | w_op lost l l' n s o r s' n' : run_sop o (s, n) = (r, (s', n')) ->
      wstep P (lost, (l ++ s :: l', n)) (lost, (l ++ s' :: l', n'))
  | w_accept lost l l' n s c s' n' : P (m_sock s) n -> sock_accept (s, n) = (Ret (Some c), (s', n')) ->
      wstep P (lost, (l ++ s :: l', n)) (lost, ((l ++ s' :: l') ++ [c], n'))
  | w_lose lost l l' n s r s' n' : P (m_sock s) n -> sock_accept (s, n) = (r, (s', n')) -> (forall c, r <> Ret (Some c)) ->
      wstep P (lost, (l ++ s :: l', n)) (lost ++ elements (opens n' ∖ opens n), (l ++ s' :: l', n'))
  | w_destroy lost l l' n s r s' n' : sock_close (s, n) = (r, (s', n')) ->
      wstep P (lost, (l ++ s :: l', n)) (lost, (l ++ l', n')).

(** Every descriptor that is accepted is a socket for [fstat] and has no entity yet. *)
Definition accepts_described (fd : Z) (n : N) : Prop :=
  forall r n', net_accept fd n = (r, n') -> r <> -1 -> described r n'.

(** The descriptors of the objects are different, and with [B] they are the open ones. *)
Definition books (B : gset Z) (w : world) : Prop :=
  NoDup (fds w.1) /\ list_to_set (fds w.1) ## B /\ opens w.2 = list_to_set (fds w.1) ∪ B /\
  Forall (fun s => -1 <= m_sock s) w.1.

Definition rest (B : gset Z) (l : list Socket) : gset Z := list_to_set (fds l) ∪ B.

Lemma owned_fds s : owned s = list_to_set (fds [s]).
Proof. unfold owned, fds. cbn. destruct (m_sock s =? -1); cbn; set_solver. Qed.

Lemma fds_app l l' : fds (l ++ l') = fds l ++ fds l'.
Proof. apply omap_app. Qed.

Lemma fds_one_nodup s : NoDup (fds [s]).
Proof. unfold fds. cbn. destruct (m_sock s =? -1); [constructor|apply NoDup_singleton]. Qed.

(** The books of a world, seen from one of its objects. *)
Lemma books_focus B l s l' n :
  books B (l ++ s :: l', n) <->
  accounted (rest B (l ++ l')) (s, n) /\ NoDup (fds (l ++ l')) /\
  list_to_set (fds (l ++ l')) ## B /\ Forall (fun s => -1 <= m_sock s) (l ++ l').
Proof.
  unfold books, accounted, rest. rewrite owned_fds. cbn [fst snd].
  change (s :: l') with ([s] ++ l'). rewrite !fds_app, !list_to_set_app_L, !NoDup_app, !Forall_app, Forall_singleton.
  pose proof (fds_one_nodup s). set_solver.
Qed.

Lemma books_add B l s n n' : books B (l, n) -> accounted (opens n) (s, n') -> books B (l ++ [s], n').
Proof.
  intros (H1 & H2 & H3 & H4) H. apply books_focus. rewrite app_nil_r. unfold rest.
  cbn [fst snd] in *. rewrite <- H3. done.
Qed.

(** What a step of one object among others does to the books. *)
Lemma books_step B l s l' n s' n' :
  (forall R, accounted R (s, n) -> accounted R (s', n')) ->
  books B (l ++ s :: l', n) -> books B (l ++ s' :: l', n').
Proof. rewrite !books_focus. intros H (H1 & H2). eauto. Qed.

Lemma create_dgram_ok f n s n' : create_dgram f n = (Ret s, n') -> accounted (opens n) (s, n').
Proof.
  unfold create_dgram, bind.
  assert (accounted (opens n) (new_Socket f SOCK_DGRAM 0, n)) as H.
  { unfold accounted, owned. cbn. set_solver by lia. }
  pose proof (new_sock_ok (fun _ => False) (opens n) _ (conj H eq_refl)) as H'.
  destruct (new_sock _) as [[[]|e|u] [s1 n1]]; [|discriminate..]. cbn. intros [= <- <-].
  by eapply (stable_accounted _ s1).
Qed.

Lemma registered_outside fd n R : gives_fd fd R (opens n) -> fd <> -1 ->
  0 <= fd /\ (fd ∉ R) /\ opens n = {[fd]} ∪ R.
Proof. by intros [[-> _]|H]. Qed.

(** [accept] keeps the listening object and gives one that owns the new descriptor; without
    one it may have opened a descriptor, but not when that was described. *)
Lemma sock_accept_ok s n r s' n' : sock_accept (s, n) = (r, (s', n')) -> s' = s /\
  match r with
  | Ret (Some c) => live (opens n) (c, n')
  | _ => (opens n' = opens n \/ exists fd, 0 <= fd /\ (fd ∉ opens n) /\ opens n' = {[fd]} ∪ opens n) /\
      (accepts_described (m_sock s) n -> opens n' = opens n)
  end.
Proof.
  unfold sock_accept, get_self, bind at 1. cbn [fst]. unfold bind at 1, hook_accept, bind at 1, on_net. cbn [fst snd].
  pose proof (accept_opens (m_sock s) n) as Hg. unfold accepts_described.
  destruct (net_accept (m_sock s) n) as [fd n1]. cbn [fst snd] in Hg.
  destruct (Z.leb_spec 0 fd) as [Hfd|Hfd].
  2: { destruct Hg as [[-> E]|[? _]]; [|lia]. cbn. intros [= <- <- <-]. split; [done|]. split; [by left|done]. }
  destruct (registered_outside fd n1 (opens n) Hg ltac:(lia)) as (H1 & H2 & H3).
  destruct (create_entity_ok s n1 fd Hfd) as (r1 & n2 & E & Ho & Hreg). unfold bind. rewrite E.
  assert (opens n2 = opens n \/ exists fd, 0 <= fd /\ (fd ∉ opens n) /\ opens n2 = {[fd]} ∪ opens n) as Hlost
    by (right; exists fd; by rewrite Ho, H3).
  destruct r1 as [e|e|u].
  2, 3: intros [= <- <- <-]; (split; [done|]); (split; [done|]); intros Hd;
    destruct (Hreg (Hd fd n1 eq_refl ltac:(lia))) as (_ & ? & ?); done.
  unfold ret at 1. destruct (Z.eqb_spec fd (-1)); [lia|]. cbn [fst snd]. rewrite <- Ho in H3.
  pose proof (sock_init_ok (opens n) (m_family s) (m_type s) (m_protocol s) fd n2 H1 H2 H3) as H.
  destruct (sock_init fd _) as [[[]|e'|u] [c n3]]; intros [= <- <- <-]; (split; [done|]); [exact H|..];
    destruct H as [H Hn]; cbn [snd] in H; (split; [by rewrite H|]); intros Hd;
    destruct (Hreg (Hd fd n1 eq_refl ltac:(lia))) as (? & _); done.
Qed.

(** The lost descriptors count as open. *)
Definition all_books (B : gset Z) (x : list Z * world) : Prop :=
  books (list_to_set x.1 ∪ B) x.2 /\ list_to_set x.1 ## B /\ NoDup x.1.

Lemma wstep_books P B x x' : wstep P x x' -> all_books B x -> all_books B x'.
Proof.
  intros [lost l n f t p|lost l n f s n' H|lost l l' n s o r s' n' H|lost l l' n s c s' n' _ H
    |lost l l' n s r s' n' _ H Hr|lost l l' n s r s' n' H] (HB & Hd & Hn); unfold all_books; cbn [fst snd] in *.
  - split; [|done]. eapply books_add; [exact HB|]. unfold accounted, owned. cbn. set_solver by lia.
  - split; [|done]. eapply books_add; [exact HB|]. by eapply create_dgram_ok.
  - split; [|done]. eapply books_step; [|exact HB]. intros R HR.
    pose proof (triple_method R _ (run_sop_ok R o) _ HR) as H'. by rewrite H in H'.
  - split; [|done]. apply sock_accept_ok in H as [-> Hc]. eapply books_add; [exact HB|apply Hc].
  - apply sock_accept_ok in H as [-> Hc].
    assert (opens n' = opens n \/ exists fd, 0 <= fd /\ (fd ∉ opens n) /\ opens n' = {[fd]} ∪ opens n) as Ho
      by (destruct r as [[c|]|e|u]; [by destruct (Hr c)|apply Hc..]).
    assert (opens n' ∖ opens n ## opens n /\ opens n' = (opens n' ∖ opens n) ∪ opens n) as [H1 H2].
    { split; [set_solver|]. rewrite difference_union_L. destruct Ho as [->|(fd & _ & _ & ->)]; set_solver. }
    destruct HB as (B1 & B2 & B3 & B4). cbn [fst snd] in *. unfold books. cbn [fst snd].
    rewrite list_to_set_app_L, list_to_set_elements_L, NoDup_app. rewrite B3 in H1, H2 at 2. split_and!; try done.
    + set_solver.
    + rewrite H2. rewrite B3 at 1. set_solver.
    + set_solver.
    + intros y Hy Hy'%elem_of_elements. set_solver.
    + apply NoDup_elements.
  - split; [|done]. apply books_focus in HB as (HR & H1 & H2 & H3).
    pose proof (sock_close_ok (fun _ => False) _ _ HR) as Hc. rewrite H in Hc.
    destruct r; [|done..]. destruct Hc as [(E & _) Hs]. unfold owned in E. cbn [fst snd] in *.
    rewrite Hs, Z.eqb_refl, union_empty_l_L in E. done.
Qed.

Lemma steps_books P B x x' : rtc (wstep P) x x' -> all_books B x -> all_books B x'.
Proof. induction 1 as [|w1 w2 w3 Hs Hr IH]; [done|]. intros HB. by eapply IH, wstep_books. Qed.

Lemma described_lost x x' : rtc (wstep accepts_described) x x' -> x'.1 = x.1.
Proof.
  induction 1 as [|x1 x2 x3 Hs _ IH]; [done|]. rewrite IH. clear IH.
  destruct Hs as [| | | |lost l l' n s r s' n' HP H Hr|]; try done. cbn [fst].
  apply sock_accept_ok in H as [_ Hc].
  assert (opens n' = opens n) as -> by (destruct r as [[c|]|e|u]; [by destruct (Hr c)|by apply Hc..]).
  rewrite difference_diag_L, elements_empty. apply app_nil_r.
Qed.

(** C5: Over every program that creates sockets, calls their methods in any order and with
    any outcome of the system calls, accepts connections and drops objects, the open
    descriptors are those that were open before, one different descriptor for each object that
    has one, and those that an [accept] lost: nothing is closed twice or closed for somebody
    else.  A descriptor is lost only by an [accept] whose descriptor the table does not take
    for a live socket; when every accepted descriptor is a socket for [fstat], has no entity
    left over and fits the table, nothing is lost. *)
Theorem descriptors_accounted n0 lost l n :
  rtc (wstep (fun _ _ => True)) ([], ([], n0)) (lost, (l, n)) ->
  opens n = list_to_set (fds l) ∪ (list_to_set lost ∪ opens n0) /\ NoDup (fds l) /\ NoDup lost /\
  list_to_set (fds l) ## opens n0 /\ list_to_set lost ## opens n0 /\ list_to_set (fds l) ## (list_to_set lost : gset Z) /\
  (rtc (wstep accepts_described) ([], ([], n0)) (lost, (l, n)) -> lost = []).
Proof.
  intros H. assert (all_books (opens n0) ([], ([], n0))) as HB.
  { unfold all_books, books. cbn. split_and!; [constructor|set_solver|set_solver|constructor|set_solver|constructor]. }
  destruct (steps_books _ _ _ _ H HB) as ((H1 & H2 & H3 & _) & H4 & H5). cbn [fst snd] in *.
  split_and!; try done; [set_solver|set_solver|]. intros Hd. by apply described_lost in Hd.
Qed.

(** ** What the calls do to the endpoints *)

Section Endpoints.
Context {bl : BindLaws N}.

(** The descriptor [g] belongs to somebody else and keeps its endpoint. *)
Definition stays (g : Z) (e : option Address * bool) (st : Socket * N) : Prop :=
  g <> -1 /\ g ∈ opens st.2 /\ m_sock st.1 <> g /\ endpoint st.2 g = e.

Lemma stays_net {A} F g e (f : N -> A * N) : (forall n, opens (f n).2 = opens n) ->
  (forall n, endpoint (f n).2 g = endpoint n g) -> triple F (stays g e) (on_net f) (fun _ => stays g e).
Proof.
  intros Ho He [s n] (H0 & H1 & H2 & H3). unfold on_net. cbn [fst snd]. specialize (Ho n). specialize (He n).
  destruct (f n) as [a n']. cbn [snd] in *. unfold stays. cbn [fst snd]. by rewrite Ho, He.
Qed.

Lemma triple_self {B} F (P : Socket * N -> Prop) (k : Socket -> sock B) Q :
  (forall s, triple F (fun st => P st /\ st.1 = s) (k s) Q) -> triple F P (bind get_self k) Q.
Proof. intros H [s n] HP. by apply H. Qed.

(** A call on the object's own descriptor. *)
Lemma stays_own {A} F g e s (f : N -> A * N) :
  (forall n, m_sock s <> g -> opens (f n).2 = opens n \/ opens (f n).2 = opens n ∖ {[m_sock s]}) ->
  (forall n, g <> m_sock s -> endpoint (f n).2 g = endpoint n g) ->
  triple F (fun st => stays g e st /\ st.1 = s) (on_net f) (fun _ => stays g e).
Proof.
  intros Ho He [s' n] [(H0 & H1 & H2 & H3) Hs]. unfold on_net. cbn [fst snd] in *. subst s'.
  specialize (Ho n H2). specialize (He n (not_eq_sym H2)). destruct (f n) as [a n']. cbn [snd] in *.
  unfold stays. cbn [fst snd]. rewrite He. destruct Ho as [-> | ->]; set_solver.
Qed.

Lemma stays_upd F g e f : (forall s, m_sock (f s) = m_sock s) -> triple F (stays g e) (upd f) (fun _ => stays g e).
Proof. intros Hf [s n] (H0 & H1 & H2 & H3). unfold stays. cbn in *. by rewrite Hf. Qed.

Lemma set_option_stays F g e l o v : triple F (stays g e) (set_option l o v) (fun _ => stays g e).
Proof.
  unfold set_option. step. step; [|step]. apply stays_net; intros; [apply setsockopt_opens|apply setsockopt_endpoint].
Qed.

Lemma init_local_stays F g e : triple F (stays g e) init_local_address (fun _ => stays g e).
Proof.
  unfold init_local_address. step. destruct (m_local_addr s); [step|]. eapply triple_bind.
  - apply stays_net; intros; [apply getsockname_opens|apply getsockname_endpoint].
  - intros [a|]; [|step]. eapply triple_bind; [by apply stays_upd|]. intros. step.
Qed.

Lemma init_sock_stays F g e : triple F (stays g e) init_sock (fun _ => stays g e).
Proof.
  unfold init_sock. step. eapply triple_bind; [apply set_option_stays|]. intros ?. destruct (_ && _); [|step].
  eapply triple_bind; [apply set_option_stays|]. intros ?. step.
Qed.

Lemma ensure_stays F g e : triple F (stays g e) ensure_sock (fun _ => stays g e).
Proof.
  unfold ensure_sock. step. destruct (is_valid s); [step|]. eapply triple_bind with (Q := fun _ => stays g e).
  2: { intros _. apply triple_after_self. intros s'. step. }
  intros [s' n] (H0 & H1 & H2 & H3). unfold new_sock, bind at 1, get_self. cbn [fst]. unfold bind at 1, on_net. cbn [fst snd] in *.
  pose proof (socket_opens (m_family s') (m_type s') (m_protocol s') n) as Hg.
  pose proof (socket_endpoint (m_family s') (m_type s') (m_protocol s') n g H1) as He.
  destruct (net_socket _ _ _ n) as [r n']. cbn [fst snd] in *. unfold bind at 1, upd. cbn [fst snd].
  assert (stays g e (set_sock r s', n')) as Hst.
  { unfold stays. cbn. rewrite He. destruct Hg as [[-> ->]|(Hr & Hf & ->)]; split_and!; try done; [set_solver|].
    by intros ->. }
  destruct (negb (r =? -1)); [by apply init_sock_stays|done].
Qed.

Lemma sock_bind_stays F g e addr : triple F (stays g e) (sock_bind addr) (fun _ => stays g e).
Proof.
  unfold sock_bind. eapply triple_bind; [apply ensure_stays|]. intros []; cbn [negb]; [|step].
  apply triple_self. intros s. destruct (negb _); [apply triple_ret; by intros ? []|].
  eapply triple_bind; [apply stays_own; intros; [left; apply bind_opens|by apply bind_others]|].
  intros rt. destruct (negb _); [step|]. eapply triple_bind; [apply init_local_stays|]. intros ?. step.
Qed.

Lemma sock_listen_stays F g e b : triple F (stays g e) (sock_listen b) (fun _ => stays g e).
Proof.
  unfold sock_listen. apply triple_self. intros s. destruct (negb _); [apply triple_ret; by intros ? []|].
  eapply triple_bind; [apply stays_own; intros; [left; apply listen_opens|by apply listen_others]|].
  intros ?. step.
Qed.

Lemma sock_close_stays F g e : triple F (stays g e) sock_close (fun _ => stays g e).
Proof.
  unfold sock_close. intros [s n] (H0 & H1 & H2 & H3). unfold bind at 1, get_self. cbn [fst snd] in *.
  destruct (_ && _); [done|]. unfold bind, upd, on_net, ret. cbn [fst snd].
  pose proof (close_opens (m_sock s) n) as Ho. pose proof (close_others (m_sock s) n g (not_eq_sym H2)) as He.
  destruct (negb _); [|done]. cbn [fst snd]. destruct (net_close (m_sock s) n) as [r n']. cbn [fst snd] in *.
  unfold stays. cbn. rewrite He, Ho. split_and!; [done|set_solver|by apply not_eq_sym|done].
Qed.

(** A socket that was bound has the address. *)
Lemma sock_bind_bound addr : triple (fun _ => True) (fun _ => True) (sock_bind addr)
  (fun ok st => ok = true -> (endpoint st.2 (m_sock st.1)).1 = Some addr).
Proof.
  unfold sock_bind. eapply (triple_bind _ _ _ (fun _ _ => True)).
  { intros st _. by destruct (ensure_sock st) as [[]]. }
  intros [] [s n] _; [|done]. cbn [negb]. unfold bind at 1, get_self. cbn [fst].
  destruct (negb (get_family addr =? m_family s)); [done|]. unfold bind at 1, on_net. cbn [fst snd].
  pose proof (bind_endpoint (m_sock s) addr n) as He. destruct (net_bind (m_sock s) addr n) as [rt n1]. cbn [fst snd] in *.
  destruct (Z.eqb_spec rt 0) as [Hr|]; [|done]. cbn [negb]. specialize (He Hr).
  unfold init_local_address, bind, get_self, on_net, upd, ret. cbn [fst snd].
  destruct (m_local_addr s); [done|]. cbn [fst snd].
  pose proof (getsockname_endpoint (m_sock s) (m_family s) n1 (m_sock s)) as Hg.
  destruct (net_getsockname (m_sock s) (m_family s) n1) as [[a|] n2]; cbn [fst snd] in *; intros _; cbn; by rewrite Hg.
Qed.

(** A socket that listens still has it. *)
Lemma sock_listen_listens b a : triple (fun _ => True) (fun st => (endpoint st.2 (m_sock st.1)).1 = a) (sock_listen b)
  (fun ok st => ok = true -> endpoint st.2 (m_sock st.1) = (a, true)).
Proof.
  intros [s n] <-. unfold sock_listen, bind, get_self, on_net, ret. cbn [fst snd].
  destruct (negb (is_valid s)); [done|]. cbn [fst snd]. pose proof (listen_endpoint (m_sock s) b n) as He.
  destruct (net_listen (m_sock s) b n) as [r n']. cbn [fst snd] in *. intros ->%Z.eqb_eq. by apply He.
Qed.
End Endpoints.

(** ** Connecting *)

Lemma init_sock_runs s n : exists n', init_sock (s, n) = (Ret tt, (s, n')).
Proof.
  unfold init_sock, set_option, get_self, on_net, bind, ret. cbn [fst snd].
  destruct (net_setsockopt (m_sock s) SOL_SOCKET SO_REUSEADDR 1 n) as [r1 n1]. cbn [fst snd].
  destruct (_ && _); [|by exists n1].
  cbn [fst snd].
  destruct (net_setsockopt (m_sock s) IPPROTO_TCP TCP_NODELAY 1 n1) as [r2 n2]. by exists n2.
Qed.

Lemma init_local_runs s n : exists a l n', init_local_address (s, n) = (Ret a, (set_local l s, n')).
Proof.
  unfold init_local_address, get_self, on_net, upd, bind, ret. cbn [fst snd].
  destruct (m_local_addr s) as [a|] eqn:E.
  - exists a, (Some a), n. by destruct s; cbn in *; subst.
  - cbn [fst snd]. destruct (net_getsockname (m_sock s) (m_family s) n) as [[a|] n'].
    + by exists a, (Some a), n'.
    + exists (UnknownAddress (m_family s) (zrepeat 14 0)), None, n'. by destruct s; cbn in *; subst.
Qed.

Lemma init_remote_runs s n : exists a l n', init_remote_address (s, n) = (Ret a, (set_remote l s, n')) /\
  forall old, m_remote_addr s = Some old -> l = Some old.
Proof.
  unfold init_remote_address, get_self, on_net, upd, bind, ret. cbn [fst snd].
  destruct (m_remote_addr s) as [a|] eqn:E.
  - exists a, (Some a), n. split; [by destruct s; cbn in *; subst|done].
  - cbn [fst snd]. destruct (net_getpeername (m_sock s) (m_family s) n) as [[a|] n'].
    + by exists a, (Some a), n'.
    + exists (UnknownAddress (m_family s) (zrepeat 14 0)), None, n'.
      split; [by destruct s; cbn in *; subst|done].
Qed.

Lemma ensure_sock_runs s n : -1 <= m_sock s ->
  exists s' n', ensure_sock (s, n) = (Ret (is_valid s'), (s', n')) /\ -1 <= m_sock s' /\
    m_is_connected s' = m_is_connected s /\ m_remote_addr s' = m_remote_addr s /\
    (m_sock s' = -1 -> m_sock s = -1).
Proof.
  intros Hs. unfold ensure_sock, get_self, bind at 1. cbn [fst].
  destruct (is_valid s) eqn:E; [by exists s, n; unfold ret; rewrite E|].
  unfold is_valid in E. unfold new_sock, get_self, on_net, upd, bind. cbn [fst snd].
  pose proof (socket_opens (m_family s) (m_type s) (m_protocol s) n) as Hg.
  destruct (net_socket _ _ _ n) as [r n1]. cbn [fst snd] in *.
  assert (-1 <= r) as Hr by (destruct Hg as [[-> _]|[? _]]; lia).
  destruct (init_sock_runs (set_sock r s) n1) as [n2 E2].
  assert (m_sock s = -1) as Es by (destruct (Z.eqb_spec (m_sock s) (-1)); done).
  destruct (negb (r =? -1)); [rewrite E2; by exists (set_sock r s), n2|by exists (set_sock r s), n1].
Qed.

(** The timeout is stored when the table knows the descriptor. *)
Lemma set_timeout_runs s n t : 0 <= m_sock s ->
  exists n', (if t =? no_timeout then ret tt
              else let! e := find_entity (m_sock s) in
                   match e with
                   | Some e => put_entity (m_sock s) (set_connect_timeout t e)
                   | None => ret tt
                   end) (s, n) = (Ret tt, (s, n')).
Proof.
  intros Hs. destruct (t =? no_timeout); [by exists n|].
  unfold bind, find_entity, put_entity, get_fd, load, store. cbn [fst snd].
  destruct (Z.leb_spec (zlen (net_fds n)) (m_sock s)); cbn [fst snd]; [by eexists|].
  destruct (Z.ltb_spec (m_sock s) 0); [lia|].
  destruct (lookup_lt_is_Some_2 (net_fds n) (Z.to_nat (m_sock s))) as [e Ee]; [unfold zlen in *; lia|].
  rewrite Ee. destruct e as [e|]; cbn [fst snd]; [|by eexists].
  rewrite fds_set. destruct (Z.leb_spec 0 (m_sock s)); [|lia].
  destruct (Z.ltb_spec (m_sock s) (zlen (net_fds n))); [by eexists|lia].
Qed.

Lemma sock_close_runs s n : exists n', sock_close (s, n) =
  (Ret true, (if negb (is_connected s) && (m_sock s =? -1) then s else set_sock (-1) (set_connected false s), n')).
Proof.
  unfold sock_close, get_self, bind at 1, on_net, upd, bind, ret. cbn [fst snd].
  destruct (negb (is_connected s) && (m_sock s =? -1)); [by exists n|].
  destruct (Z.eqb_spec (m_sock s) (-1)) as [E|E]; cbn [negb].
  - exists n. by destruct s; cbn in *; subst.
  - cbn [fst snd set_connected m_sock]. destruct (net_close (m_sock s) n) as [r n']. by exists n'.
Qed.

Lemma sock_connect_ok_runs s n a t : -1 <= m_sock s ->
  exists b s' n', sock_connect a t (s, n) = (Ret b, (s', n')) /\
    (b = true -> 0 <= m_sock s' /\ is_connected s' = true /\
       forall old, m_remote_addr s = Some old -> m_remote_addr s' = Some old) /\
    (b = false -> m_sock s' = -1 /\ m_remote_addr s' = m_remote_addr s /\
       (is_connected s' = true -> is_connected s = true /\ m_sock s = -1)).
Proof.
  intros Hs. destruct (ensure_sock_runs s n Hs) as (s1 & n1 & E1 & Hs1 & Hc1 & Hr1 & Hv).
  unfold sock_connect. rewrite (bind_ret _ _ _ _ _ E1).
  unfold is_valid. destruct (Z.eqb_spec (m_sock s1) (-1)) as [Es|Es]; cbn [negb].
  { exists false, s1, n1. unfold is_connected. rewrite Hc1. by split_and!; [done|done|auto]. }
  rewrite (bind_ret _ _ _ s1 (s1, n1)) by done.
  destruct (set_timeout_runs s1 n1 t) as [n2 E2]; [lia|]. rewrite (bind_ret _ _ _ _ _ E2).
  unfold bind at 1, on_net. cbn [fst snd]. destruct (net_connect (m_sock s1) a n2) as [rt n3].
  destruct (rt =? 0); cbn [negb].
  - unfold upd. set (s2 := set_connected true s1).
    destruct (init_local_runs s2 n3) as (a1 & l1 & n4 & E4).
    destruct (init_remote_runs (set_local l1 s2) n4) as (a2 & l2 & n5 & E5 & H5).
    exists true, (set_remote l2 (set_local l1 s2)), n5.
    rewrite (bind_ret _ _ _ tt (s2, n3)) by done. rewrite (bind_ret _ _ _ _ _ E4), (bind_ret _ _ _ _ _ E5).
    split; [done|]. split; [|done]. intros _. split; [cbn; lia|]. split; [done|].
    intros old Ho. apply H5. cbn. by rewrite Hr1.
  - destruct (sock_close_runs s1 n3) as [n4 E4]. rewrite (bind_ret _ _ _ _ _ E4).
    assert ((m_sock s1 =? -1) = false) as -> by (by apply Z.eqb_neq). rewrite andb_false_r.
    by exists false, (set_sock (-1) (set_connected false s1)), n4.
Qed.

(** C35: [connect] always returns.  A failure leaves no descriptor and keeps the peer for
    [reconnect]; a success leaves a connected socket with a descriptor, but when the object
    was connected before, it goes on reporting the old peer, whatever the new one is. *)
Theorem connect_outcome s n a t : -1 <= m_sock s ->
  exists b s' n', sock_connect a t (s, n) = (Ret b, (s', n')) /\
    (b = true -> 0 <= m_sock s' /\ is_connected s' = true /\
       forall old, m_remote_addr s = Some old ->
         m_remote_addr s' = Some old /\ (get_remote_addr (s', n')).1 = Ret old) /\
    (b = false -> m_sock s' = -1 /\ m_remote_addr s' = m_remote_addr s /\
       (is_connected s' = true -> is_connected s = true /\ m_sock s = -1)).
Proof.
  intros Hs. destruct (sock_connect_ok_runs s n a t Hs) as (b & s' & n' & E & Ht & Hf).
  exists b, s', n'. split; [done|]. split; [|done]. intros Hb.
  destruct (Ht Hb) as (H1 & H2 & H3). do 2 (split; [done|]). intros old Ho.
  specialize (H3 old Ho). split; [done|].
  unfold get_remote_addr, get_self, bind. cbn [fst]. by rewrite H3.
Qed.

(** ** Receiving *)

Lemma receive_runs s (n : N) c (f : Z -> N -> Z * bytes * N) : zlen (f (m_sock s) n).1.2 <= c ->
  exists r b n', receive c f (s, n) = (Ret (r, b), (s, n')) /\ zlen b <= Z.max 0 c.
Proof.
  intros H. unfold receive, get_self, bind. cbn [fst]. destruct (is_connected s).
  - cbn [fst snd]. destruct (f (m_sock s) n) as [[r b] n']. cbn [fst snd] in H. unfold stored.
    destruct (Z.ltb_spec c (zlen b)); [lia|]. exists (to_signed 32 r), b, n'. split; [done|lia].
  - exists (-1), [], n. split; [done|]. unfold zlen. cbn [length]. lia.
Qed.

(** C40: When the system stores at most the bytes it is asked for, [recv] stays within its
    buffers; [recv_from], which asks for the length of the address and not of the buffer,
    does so only for a buffer at least that long, and overruns a shorter one as soon as a
    datagram is longer than it. *)
Theorem receives_fit s (n : N) :
  (forall fd l f (n : N), zlen (net_recv fd l f n).1.2 <= Z.max 0 l) ->
  (forall fd l f (n : N), zlen (net_recvmsg fd l f n).1.2 <= Z.max 0 (total l)) ->
  (forall fd l f a (n : N), zlen (net_recvfrom fd l f a n).1.2 <= Z.max 0 l) ->
  (forall l f, 0 <= l -> exists r b n', sock_recv l f (s, n) = (Ret (r, b), (s, n')) /\ zlen b <= l) /\
  (forall l f, 0 <= total l ->
     exists r b n', sock_recv_iov l f (s, n) = (Ret (r, b), (s, n')) /\ zlen b <= total l) /\
  (forall l a f, 0 <= get_addr_len a <= l ->
     exists r b n', sock_recv_from l a f (s, n) = (Ret (r, b), (s, n')) /\ zlen b <= l) /\
  (forall l a f, is_connected s = true ->
     l < zlen (net_recvfrom (m_sock s) (get_addr_len a) f (get_addr_len a) n).1.2 ->
     (sock_recv_from l a f (s, n)).1 = Undef BufferOverflow).
Proof.
  intros H1 H2 H3. split_and!.
  - intros l f Hl. destruct (receive_runs s n l (fun fd => net_recv fd l f)) as (r & b & n' & E & Hb).
    { specialize (H1 (m_sock s) l f n). lia. }
    exists r, b, n'. split; [exact E|lia].
  - intros l f Hl.
    destruct (receive_runs s n (total l) (fun fd => net_recvmsg fd l f)) as (r & b & n' & E & Hb).
    { specialize (H2 (m_sock s) l f n). lia. }
    exists r, b, n'. split; [exact E|lia].
  - intros l a f Hl.
    destruct (receive_runs s n l (fun fd => net_recvfrom fd (get_addr_len a) f (get_addr_len a)))
      as (r & b & n' & E & Hb).
    { specialize (H3 (m_sock s) (get_addr_len a) f (get_addr_len a) n). lia. }
    exists r, b, n'. split; [exact E|lia].
  - intros l a f Hc Hl. unfold sock_recv_from, receive, get_self, bind. cbn [fst]. rewrite Hc. cbn [fst snd].
    destruct (net_recvfrom _ _ _ _ n) as [[r b] n']. cbn [fst snd] in Hl. unfold stored.
    by rewrite (proj2 (Z.ltb_lt _ _) Hl).
Qed.
End Owner.

(** ** A system that satisfies the laws *)

(** Descriptors are numbered; a connection and a datagram are always there. *)
Record Sys := MkSys {
  sys_next : Z;
  sys_open : gset Z;
  sys_fds : FDManager;
  sys_ends : gmap Z (option Address * bool) }.

Definition sys_end (n : Sys) (fd : Z) : option Address * bool := default (None, false) (sys_ends n !! fd).

Definition sys_set_end (fd : Z) (e : option Address * bool) (n : Sys) : Sys :=
  MkSys (sys_next n) (sys_open n) (sys_fds n) (<[fd := e]> (sys_ends n)).

Definition sys_entity : FDEntity := MkFDEntity true true false true false 0 0 0 0 0.

(** The original [accept]: the table stays as it is. *)
Definition sys_accept (n : Sys) : Z * Sys :=
  if decide (0 <= sys_next n /\ (sys_next n ∉ sys_open n)) then
    (sys_next n, MkSys (sys_next n + 1) ({[sys_next n]} ∪ sys_open n) (sys_fds n) (sys_ends n))
  else (-1, n).

Definition sys_make (n : Sys) : Z * Sys :=
  if decide (0 <= sys_next n /\ (sys_next n ∉ sys_open n)) then
    (sys_next n, MkSys (sys_next n + 1) ({[sys_next n]} ∪ sys_open n)
       (<[Z.to_nat (sys_next n) := Some sys_entity]> (sys_fds n ++ zrepeat (sys_next n + 1) None)) (sys_ends n))
  else (-1, n).

#[export] Instance sys_net : Net Sys := {|
  net_errno _ := 0;
  net_fds := sys_fds;
  net_set_fds m n := MkSys (sys_next n) (sys_open n) m (sys_ends n);
  net_fstat n fd := if decide (fd ∈ sys_open n) then Some true else None;
  net_flags _ _ := 0;
  net_set_flags _ _ n := n;
  net_socket _ _ _ := sys_make;
  net_setsockopt _ _ _ _ n := (0, n);
  net_getsockopt _ _ _ n := (0, 0, n);
  net_getsockname _ _ n := (None, n);
  net_getpeername _ _ n := (None, n);
  net_connect _ _ n := (0, n);
  net_bind fd a n := (0, sys_set_end fd (Some a, (sys_end n fd).2) n);
  net_listen fd _ n := (0, sys_set_end fd ((sys_end n fd).1, true) n);
  net_accept _ := sys_accept;
  net_close fd n := (0, MkSys (sys_next n) (sys_open n ∖ {[fd]}) (sys_fds n) (delete fd (sys_ends n)));
  net_send _ b _ n := (zlen b, n);
  net_sendto _ b _ _ n := (zlen b, n);
  net_sendmsg _ b _ _ n := (zlen (concat b), n);
  net_recv _ l _ n := (Z.min 8 (Z.max 0 l), zrepeat (Z.min 8 (Z.max 0 l)) 7, n);
  net_recvfrom _ l _ _ n := (Z.min 8 (Z.max 0 l), zrepeat (Z.min 8 (Z.max 0 l)) 7, n);
  net_recvmsg _ _ _ n := (0, [], n);
  net_cancel_event _ _ n := (false, n);
  net_cancel_all _ n := (false, n) |}.

Lemma sys_make_gives n : gives_fd (sys_make n).1 (sys_open n) (sys_open (sys_make n).2).
Proof. unfold sys_make. destruct (decide _) as [[? ?]|?]; [by right|by left]. Qed.

Lemma sys_accept_gives n : gives_fd (sys_accept n).1 (sys_open n) (sys_open (sys_accept n).2).
Proof. unfold sys_accept. destruct (decide _) as [[? ?]|?]; [by right|by left]. Qed.

#[export] Instance sys_laws : NetLaws Sys.
Proof.
  refine {| opens := sys_open |}; intros; try reflexivity;
    solve [apply sys_make_gives | apply sys_accept_gives].
Defined.

#[export] Instance sys_bind_laws : BindLaws Sys.
Proof.
  assert (forall fd e n g, sys_end (sys_set_end fd e n) g = if decide (g = fd) then e else sys_end n g) as Hset.
  { intros fd e n g. unfold sys_end, sys_set_end. cbn. destruct (decide (g = fd)) as [->|]; [by rewrite lookup_insert_eq|].
    by rewrite lookup_insert_ne. }
  refine {| endpoint := sys_end |}; intros; cbn; rewrite ?Hset, ?decide_True, ?decide_False by done; try done.
  - unfold sys_make. by destruct (decide _).
  - unfold sys_end. cbn. by rewrite lookup_delete_ne.
Defined.

Definition sys0 : Sys := MkSys 3 {[0; 1; 2]} [] ∅.
Definition peer : Address := IPv4Address (MkIn 80 0 (zrepeat 8 0)).
Definition tcp : Socket := new_Socket AF_INET SOCK_STREAM 0.
Definition tcp_on (fd : Z) : Socket := set_connected true (set_sock fd tcp).

(** A client connects, a server binds and accepts, the server is dropped. *)
Definition client : Socket * Sys := (run_sop (OConnect peer no_timeout) (tcp, sys0)).2.
Definition listener : Socket * Sys := (run_sop (OBind peer) (tcp, client.2)).2.
Definition accepted : Sys := (sock_accept listener).2.2.

Lemma demo_run (P : Z -> Sys -> Prop) : P (m_sock listener.1) listener.2 ->
  exists n, rtc (wstep P) ([], ([], sys0)) ([], ([tcp_on 3; tcp_on 5], n)).
Proof.
  intros HP. exists (sock_close (listener.1, accepted)).2.2.
  eapply rtc_l; [apply (w_create P [] [] sys0 AF_INET SOCK_STREAM 0)|].
  eapply rtc_l; [apply (w_op P [] [] [] _ _ (OConnect peer no_timeout) (Ret tt) client.1 client.2); vm_compute; reflexivity|].
  eapply rtc_l; [apply (w_create P [] [client.1] client.2 AF_INET SOCK_STREAM 0)|].
  eapply rtc_l; [apply (w_op P [] [client.1] [] _ _ (OBind peer) (Ret tt) listener.1 listener.2); vm_compute; reflexivity|].
  eapply rtc_l; [apply (w_accept P [] [client.1] [] listener.2 listener.1 (tcp_on 5) listener.1 accepted HP); vm_compute; reflexivity|].
  eapply rtc_l; [apply (w_destroy P [] [client.1] [tcp_on 5] accepted listener.1 (Ret true) (sock_close (listener.1, accepted)).2.1);
    vm_compute; reflexivity|].
  apply rtc_refl.
Qed.

Lemma listener_described : accepts_described (m_sock listener.1) listener.2.
Proof.
  intros r n' E _. assert (r = 5 /\ n' = (net_accept (m_sock listener.1) listener.2).2) as [-> ->]
    by (rewrite E; split; [|done]; apply (f_equal fst) in E; vm_compute in E; congruence).
  split; [vm_compute; reflexivity|]. split; [vm_compute; reflexivity|]. intros [H _]. vm_compute in H. by apply H.
Qed.

(** The same listener, where the table has an entity for the next descriptor from before. *)
Definition stale : Sys := MkSys 5 (sys_open listener.2) (zrepeat 5 None ++ [Some (default_FDEntity 5)]) ∅.

Lemma lossy_run :
  (sock_accept (listener.1, stale)).1 = Ret None /\
  opens (sock_accept (listener.1, stale)).2.2 = {[5]} ∪ opens stale.
Proof. split; vm_compute; reflexivity. Qed.

Lemma descriptors_accounted_witness :
  exists n, rtc (wstep accepts_described) ([], ([], sys0)) ([], ([tcp_on 3; tcp_on 5], n)) /\
    opens n = list_to_set (fds [tcp_on 3; tcp_on 5]) ∪ (list_to_set [] ∪ opens sys0).
Proof.
  destruct (demo_run accepts_described listener_described) as [n H]. exists n. split; [exact H|].
  assert (rtc (wstep (fun _ _ => True)) ([], ([], sys0)) ([], ([tcp_on 3; tcp_on 5], n))) as H'.
  { clear -H. induction H as [|x1 x2 x3 H1 _ IH]; [apply rtc_refl|]. eapply rtc_l; [|exact IH]. clear IH.
    destruct H1; [eapply w_create|by eapply w_dgram|by eapply w_op|by eapply w_accept|by eapply w_lose|by eapply w_destroy]. }
  exact (proj1 (descriptors_accounted sys0 [] _ n H')).
Defined.

(** A socket that was connected to port 80 connects to port 81. *)
Definition peer2 : Address := IPv4Address (MkIn 81 0 (zrepeat 8 0)).

Lemma connect_outcome_witness :
  let s := set_remote (Some peer) tcp in
  (sock_connect peer2 no_timeout (s, sys0)).1 = Ret true /\
  m_remote_addr (sock_connect peer2 no_timeout (s, sys0)).2.1 = Some peer.
Proof.
  intros s. split; [reflexivity|].
  destruct (connect_outcome s sys0 peer2 no_timeout) as (b & s' & n' & E & Ht & _); [cbn; lia|].
  rewrite E. assert (b = true) as Hb by (injection E as E1 _ _; by rewrite <- E1).
  exact (proj1 (proj2 (proj2 (Ht Hb)) peer eq_refl)).
Defined.

(** Two bytes asked for with an address of 16 bytes, and a datagram of eight. *)
Lemma receives_fit_witness : (sock_recv_from 2 peer 0 (tcp_on 3, sys0)).1 = Undef BufferOverflow.
Proof.
  assert (forall l, zlen (zrepeat (Z.min 8 (Z.max 0 l)) 7) <= Z.max 0 l) as H.
  { intros l. rewrite zlen_zrepeat; lia. }
  apply (receives_fit (tcp_on 3) sys0).
  - intros fd l f n. apply H.
  - intros fd l f n. unfold zlen. cbn. lia.
  - intros fd l f a n. apply H.
  - reflexivity.
  - reflexivity.
Defined.
