(* ===== verification/TcpServer.v ===== *)
(** * TCP servers ([servers/tcp_server.h], [servers/tcp_server.cc])

    The listening sockets of a server, the tasks it gives to its workers and the loop that
    accepts clients.  Sockets are shared between the server and the tasks, so they live in a
    store; an object that nobody refers to any more is destroyed, which closes it. *)

From stdpp Require Import base list numbers strings gmap.
From Stdlib Require Import Lia ZArith.
From S2P Require Import Prelude Endian FDManager Address Socket.

(** A socket or a TLS socket. *)
Inductive AnySocket :=
| Plain (s : Socket)
| Tls (s : SSLSocket).

Definition base_of (a : AnySocket) : Socket :=
  match a with Plain s => s | Tls s => ssl_base s end.

(** What the server gives to its workers. *)
Inductive task :=
| AcceptTask (socket : Z)
| StopTask
| ClientTask (client : Z).

Record TCPServer := MkServer {
  m_sockets : list Z;
  m_accept_timeout : Z;
  m_recv_timeout : Z;
  m_name : bytes;
  m_is_stop : bool }.

(** The constructor; the timeouts are those of the configuration. *)
Definition new_TCPServer (accept_timeout recv_timeout : Z) (name : bytes) : TCPServer :=
  MkServer [] accept_timeout recv_timeout name true.

Definition set_sockets (l : list Z) (t : TCPServer) : TCPServer :=
  MkServer l (m_accept_timeout t) (m_recv_timeout t) (m_name t) (m_is_stop t).
Definition set_accept_timeout (v : Z) (t : TCPServer) : TCPServer :=
  MkServer (m_sockets t) v (m_recv_timeout t) (m_name t) (m_is_stop t).
Definition set_server_recv_timeout (v : Z) (t : TCPServer) : TCPServer :=
  MkServer (m_sockets t) (m_accept_timeout t) v (m_name t) (m_is_stop t).
Definition set_name (v : bytes) (t : TCPServer) : TCPServer :=
  MkServer (m_sockets t) (m_accept_timeout t) (m_recv_timeout t) v (m_is_stop t).
Definition set_stop (v : bool) (t : TCPServer) : TCPServer :=
  MkServer (m_sockets t) (m_accept_timeout t) (m_recv_timeout t) (m_name t) v.

(** The server with the sockets, the queues of its two workers, the sockets that running
    tasks refer to, and the system. *)
Record Host (N : Type) := MkHost {
  server : TCPServer;
  objects : gmap Z AnySocket;
  next_object : Z;
  accept_queue : list task;
  io_queue : list task;
  in_use : list Z;
  net : N }.
Arguments MkHost {N}.
Arguments server {N}.
Arguments objects {N}.
Arguments next_object {N}.
Arguments accept_queue {N}.
Arguments io_queue {N}.
Arguments in_use {N}.
Arguments net {N}.

Section Server.
Context {N : Type} `{!Net N} `{!Ssl N}.

Abbreviation host := (Host N).

Definition upd_server (f : TCPServer -> TCPServer) : meth host unit :=
  fun h => (Ret tt, MkHost (f (server h)) (objects h) (next_object h) (accept_queue h) (io_queue h) (in_use h) (net h)).
Definition get_server : meth host TCPServer := fun h => (Ret (server h), h).
Definition push_accept (t : task) : meth host unit :=
  fun h => (Ret tt, MkHost (server h) (objects h) (next_object h) (accept_queue h ++ [t]) (io_queue h) (in_use h) (net h)).
Definition push_io (t : task) : meth host unit :=
  fun h => (Ret tt, MkHost (server h) (objects h) (next_object h) (accept_queue h) (io_queue h ++ [t]) (in_use h) (net h)).

(** A new object. *)
Definition make (a : AnySocket) : meth host Z :=
  fun h => (Ret (next_object h),
            MkHost (server h) (<[next_object h := a]> (objects h)) (next_object h + 1) (accept_queue h) (io_queue h)
              (in_use h) (net h)).

(** A virtual method of an object: of the plain class, or of the TLS class. *)
Definition call {A} (p : Z) (plain : meth (Socket * N) A) (tls : meth (SSLSocket * N) A) : meth host A :=
  fun h =>
    match objects h !! p with
    | None => (Undef UseAfterFree, h)
    | Some (Plain s) =>
        let '(r, (s, n)) := plain (s, net h) in
        (r, MkHost (server h) (<[p := Plain s]> (objects h)) (next_object h) (accept_queue h) (io_queue h) (in_use h) n)
    | Some (Tls s) =>
        let '(r, (s, n)) := tls (s, net h) in
        (r, MkHost (server h) (<[p := Tls s]> (objects h)) (next_object h) (accept_queue h) (io_queue h) (in_use h) n)
    end.

(** A method that the TLS class inherits. *)
Definition call_base {A} (p : Z) (m : meth (Socket * N) A) : meth host A := call p m (on_base m).

Definition refers (p : Z) (t : task) : bool :=
  match t with AcceptTask q => p =? q | StopTask => false | ClientTask q => p =? q end.

(** A reference goes away: the last one destroys the object, whose destructor closes it. *)
Definition release (p : Z) : meth host unit :=
  fun h =>
    if bool_decide (p ∈ m_sockets (server h)) || existsb (refers p) (accept_queue h ++ io_queue h) ||
       bool_decide (p ∈ in_use h)
    then (Ret tt, h)
    else
      (let! _ := call_base p sock_close in
       fun h => (Ret tt, MkHost (server h) (delete p (objects h)) (next_object h) (accept_queue h) (io_queue h)
                           (in_use h) (net h))) h.

Fixpoint for_each (l : list Z) (f : Z -> meth host unit) : meth host unit :=
  match l with
  | [] => ret tt
  | p :: l => let! _ := f p in for_each l f
  end.

(** [m_sockets.clear()]. *)
Definition clear_sockets : meth host unit :=
  let! t := get_server in
  let! _ := upd_server (set_sockets []) in
  for_each (m_sockets t) release.

(** ** Binding *)

Definition SOMAXCONN : Z := 4096.

(** One address: whether it is bound and listened on, and then the socket is the server's. *)
Definition bind_one (is_ssl : bool) (addr : Address) : meth host bool :=
  let! p := make (if is_ssl then Tls (ssl_CreateTCP addr)
                  else Plain (new_Socket (get_family addr) SOCK_STREAM 0)) in
  let! ok := call p (sock_bind addr) (ssl_bind addr) in
  if negb ok then let! _ := release p in ret false
  else
    let! ok := call p (sock_listen SOMAXCONN) (ssl_listen SOMAXCONN) in
    if negb ok then let! _ := release p in ret false
    else
      let! _ := upd_server (fun t => set_sockets (m_sockets t ++ [p]) t) in
      ret true.

(** The loop over the addresses, with those that failed. *)
Fixpoint bind_loop (is_ssl : bool) (addrs fails : list Address) : meth host (list Address) :=
  match addrs with
  | [] => ret fails
  | a :: addrs =>
      let! ok := bind_one is_ssl a in
      bind_loop is_ssl addrs (if ok : bool then fails else fails ++ [a])
  end.

(** [bind]: a failure drops all sockets of the server. *)
Definition server_bind (addrs fails : list Address) (is_ssl : bool) : meth host (bool * list Address) :=
  let! fails := bind_loop is_ssl addrs fails in
  if negb (bool_decide (fails = [])) then
    let! _ := clear_sockets in ret (false, fails)
  else ret (true, fails).

Definition server_bind_one (addr : Address) (is_ssl : bool) : meth host bool :=
  let! (ok, _) := server_bind [addr] [] is_ssl in ret ok.

(** ** Starting and stopping *)

Definition server_start : meth host bool :=
  let! t := get_server in
  if negb (m_is_stop t) then ret true
  else
    let! _ := upd_server (set_stop false) in
    let! _ := for_each (m_sockets t) (fun p => push_accept (AcceptTask p)) in
    ret true.

Definition server_stop : meth host unit :=
  let! _ := upd_server (set_stop true) in
  push_accept StopTask.

(** The task of [stop]. *)
Definition run_stop : meth host unit :=
  let! t := get_server in
  let! _ := for_each (m_sockets t) (fun p =>
    let! _ := call_base p sock_cancel_all in
    let! _ := call p sock_close ssl_close in ret tt) in
  clear_sockets.

(** Only the TLS sockets have certificates. *)
Definition load_one (cert_file key_file : bytes) (p : Z) (rst : bool) : meth host bool :=
  fun h =>
    match objects h !! p with
    | Some (Tls _) => (let! ok := call p (ret false) (Socket.load_certificates cert_file key_file) in
                       ret (if ok : bool then rst else false)) h
    | Some (Plain _) => (Ret rst, h)
    | None => (Undef UseAfterFree, h)
    end.

Fixpoint load_loop (cert_file key_file : bytes) (l : list Z) (rst : bool) : meth host bool :=
  match l with
  | [] => ret rst
  | p :: l => let! rst := load_one cert_file key_file p rst in load_loop cert_file key_file l rst
  end.

Definition server_load_certificates (cert_file key_file : bytes) : meth host bool :=
  let! t := get_server in load_loop cert_file key_file (m_sockets t) true.

(** ** Accepting *)

Definition any_accept (p : Z) : meth host (option AnySocket) :=
  call p (let! c := sock_accept in ret (option_map Plain c)) (let! c := ssl_accept in ret (option_map Tls c)).

(** One round of the loop with the local [accept_timeout]: whether it was another client. *)
Definition accept_round (p accept_timeout : Z) : meth host bool :=
  let! t := get_server in
  let! _ := if negb (accept_timeout =? m_accept_timeout t)
            then call_base p (sock_set_recv_timeout (m_accept_timeout t)) else ret tt in
  let! client := any_accept p in
  match client with
  | None => ret false
  | Some a =>
      let! c := make a in
      let! t := get_server in
      let! _ := call_base c (sock_set_recv_timeout (m_accept_timeout t)) in
      let! _ := push_io (ClientTask c) in
      ret true
  end.

(** [start_accept]; [fuel] bounds the rounds. *)
Fixpoint accept_loop (fuel : nat) (p accept_timeout : Z) : meth host unit :=
  match fuel with
  | O => fun h => (Undef Diverges, h)
  | S fuel' =>
      let! t := get_server in
      if m_is_stop t then ret tt
      else let! _ := accept_round p accept_timeout in accept_loop fuel' p accept_timeout
  end.

Definition start_accept (fuel : nat) (p : Z) : meth host unit :=
  let! t := get_server in
  let! _ := call_base p (sock_set_recv_timeout (m_accept_timeout t)) in
  accept_loop fuel p (m_accept_timeout t).

(** The destructor of the server. *)
Definition server_destroy : meth host unit :=
  let! t := get_server in
  let! _ := for_each (m_sockets t) (fun p => let! _ := call p sock_close ssl_close in ret tt) in
  clear_sockets.
End Server.
