(* ===== verification/TcpServerProps.v ===== *)
(** * TCP servers: binding is all or nothing

    The books of the descriptors ([SocketProps]) for the objects of a server, and what
    [bind], [start] and the accept loop do. *)

From stdpp Require Import base list numbers strings gmap sets.
From Stdlib Require Import Lia ZArith.
From S2P Require Import Prelude Endian FDManager Address Socket SocketProps TcpServer.

Section Server.
Context {N : Type} `{!Net N} `{!NetLaws N} `{!BindLaws N} `{!Ssl N}.

Abbreviation host := (Host N).

(** ** The books of the objects *)

Definition vals (m : gmap Z AnySocket) : list Socket := (fun x => base_of x.2) <$> map_to_list m.

Definition host_books (B : gset Z) (h : host) : Prop := books B (vals (objects h), net h).

Lemma books_perm B l l' (n : N) : l ≡ₚ l' -> books B (l, n) -> books B (l', n).
Proof.
  unfold books. cbn [fst snd]. intros Hp (H1 & H2 & H3 & H4).
  assert (fds l ≡ₚ fds l') as Hf by (unfold fds; by rewrite Hp).
  assert (list_to_set (fds l) = (list_to_set (fds l') : gset Z)) as E by (apply list_to_set_perm_L, Hf).
  rewrite <- E, <- Hf, <- Hp. done.
Qed.

Lemma vals_split m p a : m !! p = Some a -> vals m ≡ₚ base_of a :: vals (delete p m).
Proof. intros Hp. unfold vals. by rewrite <- (map_to_list_delete m p a Hp). Qed.

Lemma vals_insert m p a : m !! p = None -> vals (<[p := a]> m) ≡ₚ base_of a :: vals m.
Proof. intros Hp. unfold vals. by rewrite map_to_list_insert. Qed.

(** The books as one object sees them. *)
Lemma books_object B m p a (n : N) : m !! p = Some a ->
  books B (vals m, n) <->
  accounted (rest B (vals (delete p m))) (base_of a, n) /\ NoDup (fds (vals (delete p m))) /\
  list_to_set (fds (vals (delete p m))) ## B /\ Forall (fun s => -1 <= m_sock s) (vals (delete p m)).
Proof.
  intros Hp. pose proof (books_focus B [] (base_of a) (vals (delete p m)) n) as Hf. cbn [app] in Hf.
  rewrite <- Hf.
  split; apply books_perm; cbn [app]; [by apply vals_split|by symmetry; apply vals_split].
Qed.

(** ** Methods of the objects *)

(** An object that is not touched, and the endpoint of its descriptor. *)
Definition kept (q : Z) (h h' : host) : Prop :=
  objects h' !! q = objects h !! q /\
  forall a, objects h !! q = Some a -> m_sock (base_of a) <> -1 ->
    endpoint (net h') (m_sock (base_of a)) = endpoint (net h) (m_sock (base_of a)).

Lemma kept_trans q h1 h2 h3 : kept q h1 h2 -> kept q h2 h3 -> kept q h1 h3.
Proof. intros [O1 E1] [O2 E2]. split; [congruence|]. intros a Ha Hs. rewrite E2, E1; congruence. Qed.

Definition with_object (p : Z) (a : AnySocket) (n : N) (h : host) : host :=
  MkHost (server h) (<[p := a]> (objects h)) (next_object h) (accept_queue h) (io_queue h) (in_use h) n.

(** The descriptors of the other objects are not that of the object. *)
Lemma others_elsewhere B (h : host) p q a b : host_books B h -> objects h !! p = Some a -> objects h !! q = Some b ->
  q <> p -> m_sock (base_of b) <> -1 ->
  stays (m_sock (base_of b)) (endpoint (net h) (m_sock (base_of b))) (base_of a, net h).
Proof.
  intros HB Ha Hb Hne Hs. apply (books_object B _ p a) in HB as ((Ho & Hd & _) & _); [|done]. cbn [fst snd] in *.
  assert (m_sock (base_of b) ∈ SocketProps.rest B (vals (delete p (objects h)))) as Hin.
  { assert (delete p (objects h) !! q = Some b) as Hq by (by rewrite lookup_delete_ne).
    unfold SocketProps.rest, fds. apply elem_of_union. left. apply elem_of_list_to_set.
    rewrite (vals_split _ q b Hq). cbn [omap list_omap]. rewrite (proj2 (Z.eqb_neq _ _) Hs). by left. }
  unfold stays. cbn [fst snd]. rewrite Ho. split_and!; [done|by apply elem_of_union_r| |done].
  intros E. apply (Hd (m_sock (base_of b))); [|done]. unfold owned. rewrite E, (proj2 (Z.eqb_neq _ _) Hs).
  by apply elem_of_singleton.
Qed.

(** [call] of a method that the TLS class shares with the plain one and that leaves the
    endpoints of other descriptors alone. *)
Lemma call_shared {A} p (m : meth (Socket * N) A) P Q B (h : host) a :
  objects h !! p = Some a -> host_books B h ->
  (forall R, triple (fun _ => False) (fun st => accounted R st /\ P st) m (fun x st => accounted R st /\ Q x st)) ->
  (forall g e, triple (fun _ => True) (stays g e) m (fun _ => stays g e)) ->
  P (base_of a, net h) ->
  exists x a' n', call p m (on_base m) h = (Ret x, with_object p a' n' h) /\ Q x (base_of a', n') /\
    host_books B (with_object p a' n' h) /\ forall q, q <> p -> kept q h (with_object p a' n' h).
Proof.
  intros Ha HB Hm Hf HP. pose proof (others_elsewhere B h p) as Helse.
  unfold host_books in *. cbn [with_object objects net].
  pose proof HB as (Hacc & Hrest)%(books_object B _ p a); [|done].
  assert (exists x s' n', m (base_of a, net h) = (Ret x, (s', n')) /\
    accounted (SocketProps.rest B (vals (delete p (objects h)))) (s', n') /\ Q x (s', n')) as (x & s' & n' & E & Hacc' & HQ).
  { specialize (Hm _ _ (conj Hacc HP)). destruct (m (base_of a, net h)) as [[x|e|u] [s' n']]; [|done..].
    exists x, s', n'. done. }
  assert (forall a', base_of a' = s' -> books B (vals (<[p := a']> (objects h)), n')) as Hbooks.
  { intros a' <-. apply (books_object B _ p a'); [apply lookup_insert_eq|]. by rewrite delete_insert_eq. }
  assert (forall a' q, q <> p -> kept q h (with_object p a' n' h)) as Hkept.
  { intros a' q Hq. split; cbn; [by rewrite lookup_insert_ne|]. intros b Hb Hs.
    pose proof (Hf _ _ _ (Helse q a b HB Ha Hb Hq Hs)) as H. rewrite E in H. apply H. }
  unfold call. rewrite Ha. destruct a as [s|s]; cbn [base_of] in E.
  - rewrite E. exists x, (Plain s'), n'. split; [done|]. split; [done|]. split; [by apply Hbooks|apply Hkept].
  - unfold on_base. cbn [fst snd]. rewrite E. exists x, (Tls (MkSSLSocket s' (m_ctx s) (m_ssl s))), n'.
    split; [done|]. split; [done|]. split; [by apply Hbooks|apply Hkept].
Qed.

(** ** A server that is not running *)

(** No task is there; the objects are the listening sockets of the server, and [ex]. *)
Record idle (ex : list Z) (h : host) : Prop := {
  id_tasks : accept_queue h = [] /\ io_queue h = [] /\ in_use h = [];
  id_nodup : NoDup (m_sockets (server h) ++ ex);
  id_objects p : p ∈ m_sockets (server h) ++ ex <-> is_Some (objects h !! p);
  id_next p : is_Some (objects h !! p) -> p < next_object h;
  id_valid p : p ∈ m_sockets (server h) -> exists a, objects h !! p = Some a /\ m_sock (base_of a) <> -1 }.

Lemma idle_with_object ex p a n h : idle ex h -> p ∈ ex -> idle ex (with_object p a n h).
Proof.
  intros [H1 H2 H3 H4 H5] Hp. pose proof (proj1 (H3 p) ltac:(apply elem_of_app; by right)) as [a0 Ha0].
  assert (forall q, is_Some (<[p := a]> (objects h) !! q) <-> is_Some (objects h !! q)) as Hs.
  { intros q. rewrite lookup_insert_is_Some. destruct (decide (p = q)) as [<-|]; naive_solver. }
  split; cbn [with_object server objects next_object accept_queue io_queue in_use]; try done.
  - intros q. by rewrite Hs.
  - intros q. rewrite Hs. apply H4.
  - intros q Hq. apply NoDup_app in H2 as (_ & Hd & _). rewrite lookup_insert_ne; [by apply H5|].
    intros <-. by apply (Hd p).
Qed.

Lemma make_ok B a h : idle [] h -> host_books B h -> m_sock (base_of a) = -1 ->
  exists p h', make a h = (Ret p, h') /\ idle [p] h' /\ host_books B h' /\ objects h' !! p = Some a /\
    server h' = server h /\ objects h !! p = None /\ forall q, q <> p -> kept q h h'.
Proof.
  intros [H1 H2 H3 H4 H5] HB Ha. rewrite app_nil_r in *.
  assert (objects h !! next_object h = None) as Hf.
  { destruct (objects h !! next_object h) eqn:E; [|done]. specialize (H4 (next_object h) ltac:(by rewrite E)). lia. }
  exists (next_object h). eexists. split; [reflexivity|].
  split; [|split; [|split; [apply lookup_insert_eq|split; [done|split; [done|]]]]].
  3: { intros q Hq. split; cbn; [by rewrite lookup_insert_ne|done]. }
  - split; cbn [server objects next_object accept_queue io_queue in_use]; try done.
    + apply NoDup_app. split; [done|]. split; [|apply NoDup_singleton]. intros q Hq ->%list_elem_of_singleton.
      apply H3 in Hq. rewrite Hf in Hq. by destruct Hq.
    + intros q. rewrite elem_of_app, list_elem_of_singleton, H3, lookup_insert_is_Some.
      destruct (decide (next_object h = q)) as [<-|]; naive_solver.
    + intros q. rewrite lookup_insert_is_Some. intros [<-|[_ Hq]]; [lia|]. specialize (H4 q Hq). lia.
    + intros q Hq. rewrite lookup_insert_ne; [by apply H5|]. intros <-. apply H3 in Hq. rewrite Hf in Hq. by destruct Hq.
  - unfold host_books in *. cbn [objects net]. eapply books_perm; [symmetry; by apply vals_insert|].
    eapply (books_perm _ (vals (objects h) ++ [base_of a])); [solve_Permutation|].
    eapply books_add; [exact HB|]. unfold accounted, owned. cbn. rewrite Ha. cbn. set_solver by lia.
Qed.

(** Destroying an object. *)
Lemma release_ok B ex p h : idle (p :: ex) h -> host_books B h ->
  exists h', release p h = (Ret tt, h') /\ idle ex h' /\ host_books B h' /\ server h' = server h /\
    forall q, q <> p -> kept q h h'.
Proof.
  intros Hi HB. pose proof Hi as [(Hq1 & Hq2 & Hq3) H2 H3 H4 H5].
  apply NoDup_app in H2 as (Hnd1 & Hd & Hnd2). apply NoDup_cons in Hnd2 as [Hp Hnd2].
  destruct (proj1 (H3 p)) as [a Ha]; [apply elem_of_app; right; by left|].
  unfold release. rewrite Hq1, Hq2, Hq3, bool_decide_false by (intros Hin; by apply (Hd p Hin); left). cbn [orb app existsb].
  rewrite bool_decide_false by set_solver.
  destruct (call_shared p sock_close (fun _ => True) (fun _ st => m_sock st.1 = -1) B h a Ha HB) as (x & a' & n' & E & Hs & HB' & Hk);
    [|intros; apply sock_close_stays|done|].
  { intros R. eapply triple_weaken; [apply (sock_close_ok (fun _ => False) R)|by intros ? []|done]. }
  unfold call_base. rewrite (bind_ret _ _ _ _ _ E). eexists. split; [reflexivity|].
  cbn [with_object server objects next_object accept_queue io_queue in_use net].
  rewrite delete_insert_eq. split; [|split; [|split; [done|]]].
  3: { intros q Hq. destruct (Hk q Hq) as [Ho He]. split; [cbn; by rewrite lookup_delete_ne|exact He]. }
  - split; cbn [server objects next_object accept_queue io_queue in_use]; try done.
    + apply NoDup_app. split; [done|]. split; [|done]. intros q Hq Hq'. apply (Hd q Hq). by right.
    + intros q. rewrite lookup_delete_is_Some, <- H3. assert (p ∉ m_sockets (server h)) by (intros Hin; by apply (Hd p Hin); left).
      set_solver.
    + intros q. rewrite lookup_delete_is_Some. intros [_ Hq]. by apply H4.
    + intros q Hq. rewrite lookup_delete_ne; [by apply H5|]. intros <-. by apply (Hd p Hq); left.
  - unfold host_books in *. cbn [objects net] in *.
    cbn [with_object objects net] in HB'.
    apply (books_object B _ p a') in HB' as ((HE & _) & Hrest); [|apply lookup_insert_eq].
    rewrite delete_insert_eq in *. unfold owned in HE. cbn [fst snd] in HE, Hs. rewrite Hs, Z.eqb_refl, union_empty_l_L in HE.
    unfold books. cbn [fst snd]. destruct Hrest as (? & ? & ?). done.
Qed.

(** [m_sockets.clear()] closes everything. *)
Lemma release_all_ok B l : forall h, m_sockets (server h) = [] -> idle l h -> host_books B h ->
  exists h', for_each l release h = (Ret tt, h') /\ idle [] h' /\ host_books B h' /\ server h' = server h.
Proof.
  induction l as [|p l IH]; intros h Hs Hi HB; cbn [for_each]; [by exists h|].
  destruct (release_ok B l p h Hi HB) as (h1 & E & Hi1 & HB1 & Hs1 & _). rewrite (bind_ret _ _ _ _ _ E).
  destruct (IH h1) as (h2 & E2 & Hi2 & HB2 & Hs2); [by rewrite Hs1|done|done|].
  exists h2. by rewrite Hs2, Hs1.
Qed.

Lemma clear_sockets_ok B h : idle [] h -> host_books B h ->
  exists h', clear_sockets h = (Ret tt, h') /\ idle [] h' /\ host_books B h' /\ m_sockets (server h') = [] /\
    opens (net h') = B.
Proof.
  intros Hi HB. unfold clear_sockets, bind at 1, get_server. unfold bind at 1, upd_server.
  match goal with |- context [for_each _ _ ?x] => set (h0 := x) end.
  assert (idle (m_sockets (server h)) h0) as Hi0.
  { destruct Hi as [H1 H2 H3 H4 H5]. rewrite app_nil_r in *.
    split; cbn [h0 server objects next_object accept_queue io_queue in_use set_sockets m_sockets app]; try done.
    intros q Hq. by apply elem_of_nil in Hq. }
  destruct (release_all_ok B _ h0 eq_refl Hi0 HB) as (h' & E & Hi' & HB' & Hs'). exists h'.
  assert (m_sockets (server h') = []) as Hnil by (by rewrite Hs').
  split; [done|]. split; [done|]. split; [done|]. split; [done|].
  assert (objects h' = ∅) as Hempty.
  { apply map_empty. intros q. destruct (objects h' !! q) eqn:Eq; [|done].
    pose proof (proj2 (id_objects _ _ Hi' q) ltac:(by rewrite Eq)) as Hin. rewrite Hnil in Hin. by apply elem_of_nil in Hin. }
  destruct HB' as (_ & _ & Ho & _). cbn [fst snd] in Ho. rewrite Ho, Hempty. unfold vals. rewrite map_to_list_empty.
  cbn. set_solver.
Qed.

(** ** Binding *)

(** The object [p] listens on the address. *)
Definition bound (h : host) (addr : Address) (p : Z) : Prop :=
  exists a, objects h !! p = Some a /\ m_sock (base_of a) <> -1 /\
    endpoint (net h) (m_sock (base_of a)) = (Some addr, true).

Lemma kept_bound h h' addr p : bound h addr p -> kept p h h' -> bound h' addr p.
Proof. intros (a & Ha & Hs & He) [Ho Hk]. exists a. by rewrite Ho, (Hk a Ha Hs). Qed.

Lemma triple_and {A} F (P P' : Socket * N -> Prop) (m : meth (Socket * N) A) Q Q' :
  triple F P m Q -> triple (fun _ => True) P' m Q' ->
  triple F (fun st => P st /\ P' st) m (fun x st => Q x st /\ Q' x st).
Proof.
  intros H H' st [HP HP']. specialize (H st HP). specialize (H' st HP'). by destruct (m st) as [[] st'].
Qed.

Lemma bind_shared R addr : triple (fun _ => False) (fun st : Socket * N => accounted R st /\ True) (sock_bind addr)
  (fun b st => accounted R st /\ (b = true -> m_sock st.1 <> -1 /\ (endpoint st.2 (m_sock st.1)).1 = Some addr)).
Proof.
  eapply triple_weaken; [apply triple_and; [apply (sock_bind_ok (fun _ => False) R)|apply sock_bind_bound]|done|].
  intros [] st [H He]; [split; [apply H|intros _; split; [apply H|by apply He]]|by split].
Qed.

Lemma listen_shared R addr b : triple (fun _ => False)
  (fun st : Socket * N => accounted R st /\ m_sock st.1 <> -1 /\ (endpoint st.2 (m_sock st.1)).1 = Some addr)
  (sock_listen b)
  (fun ok st => accounted R st /\ m_sock st.1 <> -1 /\ (ok = true -> endpoint st.2 (m_sock st.1) = (Some addr, true))).
Proof.
  eapply triple_weaken;
    [apply triple_and; [apply (sock_listen_ok _ (live R)), stable_live|apply (sock_listen_listens b (Some addr))]|..].
  - intros st (? & ? & ?). by split.
  - by intros ok st [[? ?] ?].
Qed.

Definition any_new (is_ssl : bool) (addr : Address) : AnySocket :=
  if is_ssl then Tls (ssl_CreateTCP addr) else Plain (new_Socket (get_family addr) SOCK_STREAM 0).

(** A socket that failed is destroyed. *)
Lemma bind_fails B p (h0 h1 h : host) : objects h0 !! p = None -> idle [p] h -> host_books B h -> server h = server h1 ->
  (forall q, q <> p -> kept q h0 h) ->
  exists h', (let! _ := release p in ret false) h = (Ret false, h') /\ idle [] h' /\ host_books B h' /\
    server h' = server h1 /\ forall q, is_Some (objects h0 !! q) -> kept q h0 h'.
Proof.
  intros Hp Hi HB Hs Hk. destruct (release_ok B [] p h Hi HB) as (h' & E & Hi' & HB' & Hs' & Hk').
  exists h'. rewrite (bind_ret _ _ _ _ _ E), Hs'. split_and!; try done.
  intros q [a Hq]. assert (q <> p) by congruence. eapply kept_trans; [by apply Hk|by apply Hk'].
Qed.

Lemma bind_one_ok B is_ssl addr h : idle [] h -> host_books B h ->
  exists (b : bool) h', bind_one is_ssl addr h = (Ret b, h') /\ idle [] h' /\ host_books B h' /\
    (forall q, is_Some (objects h !! q) -> kept q h h') /\
    if b then exists p, m_sockets (server h') = m_sockets (server h) ++ [p] /\ bound h' addr p
    else server h' = server h.
Proof.
  intros Hi HB. unfold bind_one.
  destruct (make_ok B (any_new is_ssl addr) h Hi HB) as (p & h1 & E1 & Hi1 & HB1 & Ho1 & Hs1 & Hp & Hk1); [by destruct is_ssl|].
  change (if is_ssl then Tls (ssl_CreateTCP addr) else _) with (any_new is_ssl addr). rewrite (bind_ret _ _ _ _ _ E1).
  destruct (call_shared p (sock_bind addr) _ _ B h1 _ Ho1 HB1 (fun R => bind_shared R addr)
    (fun g e => sock_bind_stays _ g e addr) I) as (b & a2 & n2 & E2 & Hv & HB2 & Hk2).
  unfold ssl_bind. rewrite (bind_ret _ _ _ _ _ E2).
  assert (forall q, q <> p -> kept q h (with_object p a2 n2 h1)) as Hk
    by (intros q Hq; exact (kept_trans _ _ _ _ (Hk1 q Hq) (Hk2 q Hq))).
  pose proof (idle_with_object [p] p a2 n2 h1 Hi1 ltac:(by left)) as Hi2. destruct b; cbn [negb].
  2: { destruct (bind_fails B p h h _ Hp Hi2 HB2 Hs1 Hk) as (h3 & E3 & ? & ? & ? & ?). by exists false, h3. }
  destruct (call_shared p (sock_listen SOMAXCONN) _ _ B (with_object p a2 n2 h1) a2 ltac:(apply lookup_insert_eq) HB2
    (fun R => listen_shared R addr SOMAXCONN) (fun g e => sock_listen_stays _ g e _) (Hv eq_refl))
    as (b & a3 & n3 & E3 & [Hv3 He3] & HB3 & Hk3).
  unfold ssl_listen. rewrite (bind_ret _ _ _ _ _ E3). set (h3 := with_object p a3 n3 (with_object p a2 n2 h1)) in *.
  assert (forall q, q <> p -> kept q h h3) as Hk' by (intros q Hq; exact (kept_trans _ _ _ _ (Hk q Hq) (Hk3 q Hq))).
  pose proof (idle_with_object [p] p a3 n3 _ Hi2 ltac:(by left)) as Hi3. destruct b; cbn [negb].
  2: { destruct (bind_fails B p h h _ Hp Hi3 HB3 Hs1 Hk') as (h4 & E4 & ? & ? & ? & ?). by exists false, h4. }
  exists true. eexists. split; [reflexivity|]. split; [|split; [exact HB3|split]].
  - destruct Hi3 as [H1 H2 H3 H4 H5]. cbn [with_object server objects next_object accept_queue io_queue in_use] in *.
    split; cbn [server objects next_object accept_queue io_queue in_use set_sockets m_sockets]; rewrite ?app_nil_r; try done.
    intros q [Hq|Hq]%elem_of_app; [by apply H5|]. apply list_elem_of_singleton in Hq as ->.
    exists a3. split; [apply lookup_insert_eq|done].
  - intros q [a Hq]. apply Hk'. congruence.
  - exists p. split; [by rewrite <- Hs1|]. exists a3. split; [apply lookup_insert_eq|]. by split; [|apply He3].
Qed.

(** [kept] in the rest of the loop for what is there now. *)
Lemma bind_loop_ok B is_ssl addrs : forall fails h, idle [] h -> host_books B h ->
  exists fails' ps h', bind_loop is_ssl addrs fails h = (Ret (fails ++ fails'), h') /\ idle [] h' /\ host_books B h' /\
    (forall q, is_Some (objects h !! q) -> kept q h h') /\
    m_sockets (server h') = m_sockets (server h) ++ ps /\ sublist fails' addrs /\
    (fails' = [] -> Forall2 (bound h') addrs ps).
Proof.
  induction addrs as [|a addrs IH]; intros fails h Hi HB; cbn [bind_loop].
  { exists [], [], h. rewrite !app_nil_r. by split_and!. }
  destruct (bind_one_ok B is_ssl a h Hi HB) as (b & h1 & E & Hi1 & HB1 & Hk1 & Hb). rewrite (bind_ret _ _ _ _ _ E).
  destruct (IH (if b then fails else fails ++ [a]) h1 Hi1 HB1) as (f & ps & h2 & E2 & Hi2 & HB2 & Hk2 & Hs2 & Hf2 & Hl2).
  assert (forall q, is_Some (objects h !! q) -> kept q h h2) as Hk.
  { intros q Hq. eapply kept_trans; [by apply Hk1|]. apply Hk2. by rewrite (proj1 (Hk1 q Hq)). }
  destruct b.
  - destruct Hb as (p & Hs & Hp). exists f, (p :: ps), h2. rewrite E2. split_and!; try done.
    + by rewrite Hs2, Hs, <- app_assoc.
    + by apply sublist_cons.
    + intros ->. constructor; [|by apply Hl2]. apply (kept_bound h1); [done|]. destruct Hp as (x & Hx & _).
      apply Hk2. by rewrite Hx.
  - exists (a :: f), ps, h2. rewrite E2, <- app_assoc. split_and!; try done; [by rewrite Hs2, Hb|by apply sublist_skip].
Qed.

(** C31: Binding a server to addresses is all or nothing, and leaks nothing.  Whatever the
    system calls do, [bind] returns.  When it returns true, the sockets it added are one for
    each address, in their order, each with a descriptor of its own that the system has bound to
    that address and that listens; the sockets the server had keep their objects and
    endpoints.  When it returns false, some of the addresses failed and are reported, all
    sockets of the server are gone, those of an earlier call too, and exactly the descriptors
    are open that do not belong to the server. *)
Theorem server_binds B is_ssl addrs h : idle [] h -> host_books B h ->
  exists ok fails h', server_bind addrs [] is_ssl h = (Ret (ok, fails), h') /\ idle [] h' /\ host_books B h' /\
    sublist fails addrs /\
    (ok = true -> fails = [] /\
       (exists ps, m_sockets (server h') = m_sockets (server h) ++ ps /\ Forall2 (bound h') addrs ps) /\
       forall q, q ∈ m_sockets (server h) -> kept q h h') /\
    (ok = false -> fails <> [] /\ m_sockets (server h') = [] /\ opens (net h') = B).
Proof.
  intros Hi HB. destruct (bind_loop_ok B is_ssl addrs [] h Hi HB) as (fails & ps & h1 & E & Hi1 & HB1 & Hk & Hs & Hf & Hl).
  cbn [app] in E. unfold server_bind. rewrite (bind_ret _ _ _ _ _ E).
  destruct (decide (fails = [])) as [->|Hne].
  - rewrite bool_decide_true by done. exists true, [], h1. split_and!; try done. intros _. split; [done|].
    split; [exists ps; by split; [|apply Hl]|]. intros q Hq. apply Hk, (id_objects _ _ Hi). by rewrite app_nil_r.
  - rewrite bool_decide_false by done. cbn [negb].
    destruct (clear_sockets_ok B h1 Hi1 HB1) as (h2 & E2 & Hi2 & HB2 & Hn & Ho). rewrite (bind_ret _ _ _ _ _ E2).
    exists false, fails, h2. by split_and!.
Qed.

(** ** Starting and accepting *)

Lemma push_all_ok l : forall h : host, for_each l (fun p => push_accept (AcceptTask p)) h =
  (Ret tt, MkHost (server h) (objects h) (next_object h) (accept_queue h ++ (AcceptTask <$> l)) (io_queue h) (in_use h) (net h)).
Proof.
  induction l as [|p l IH]; intros h; cbn [for_each fmap list_fmap]; [by rewrite app_nil_r; destruct h|].
  unfold bind, push_accept at 1. rewrite IH. cbn. by rewrite <- app_assoc.
Qed.

(** A stopped server that is started gives one accept task for each socket to its worker; a
    running one is left alone. *)
Lemma server_start_ok (h : host) : server_start h =
  (Ret true, if m_is_stop (server h) then
     MkHost (set_stop false (server h)) (objects h) (next_object h)
       (accept_queue h ++ (AcceptTask <$> m_sockets (server h))) (io_queue h) (in_use h) (net h)
   else h).
Proof.
  unfold server_start, bind at 1, get_server. destruct (m_is_stop (server h)); cbn [negb]; [|done].
  unfold bind, upd_server. by rewrite push_all_ok.
Qed.

(** The accept loop ends at the first test after [stop]. *)
Lemma accept_loop_stops fuel p t (h : host) : m_is_stop (server h) = true -> accept_loop (S fuel) p t h = (Ret tt, h).
Proof. intros Hs. cbn [accept_loop]. unfold bind, get_server. by rewrite Hs. Qed.
End Server.

(** ** A server on the system of [SocketProps] *)

#[local] Instance no_ssl : Ssl Sys := {|
  SSL_CTX_new _ n := (None, n);
  SSL_new _ n := (None, n);
  SSL_set_fd _ _ n := (0, n);
  SSL_accept _ n := (0, n);
  SSL_connect _ n := (0, n);
  SSL_write _ _ _ n := (-1, n);
  SSL_read _ _ n := (-1, [], n);
  SSL_CTX_use_certificate_chain_file _ _ n := (0, n);
  SSL_CTX_use_PrivateKey_file _ _ n := (0, n);
  SSL_CTX_check_private_key _ n := (0, n) |}.

Definition host0 : Host Sys := MkHost (new_TCPServer 6000 6000 []) ∅ 0 [] [] [] sys0.

(** Two addresses are bound: the descriptors 3 and 4 listen on them. *)
Lemma server_binds_witness : exists h',
  server_bind [peer; peer2] [] false host0 = (Ret (true, []), h') /\
  (exists ps, m_sockets (server h') = ps /\ Forall2 (bound h') [peer; peer2] ps) /\
  endpoint (net h') 3 = (Some peer, true) /\ endpoint (net h') 4 = (Some peer2, true).
Proof.
  destruct (server_binds (opens sys0) false [peer; peer2] host0) as (ok & fails & h' & E & _ & _ & _ & Ht & _).
  - split; cbn; try done.
    + constructor.
    + intros p. rewrite lookup_empty. split; [set_solver|by intros []].
    + intros p. rewrite lookup_empty. by intros [].
    + intros p Hp. by apply elem_of_nil in Hp.
  - unfold host_books, books. cbn. split_and!; [constructor|set_solver|set_solver|constructor].
  - assert (ok = true) as -> by exact (f_equal (fun x => match x.1 with Ret (b, _) => b | _ => true end) (eq_sym E)).
    destruct (Ht eq_refl) as (-> & Hps & _). exists h'. split; [exact E|]. split; [exact Hps|].
    pose proof (f_equal (fun x => endpoint (net x.2)) E) as En. cbn [snd] in En. rewrite <- En. by split; vm_compute.
Defined.
