(* ===== verification/Servlet.v ===== *)
(** * Servlet dispatch ([servers/http/http_servlet.h], [http_servlet.cc])

    The tables of servlets by path and by pattern, and the handlers.  [fnmatch] and the
    clients' callbacks are parameters; a servlet pointer is an option. *)

From stdpp Require Import base list numbers strings gmap.
From Stdlib Require Import Lia ZArith.
From S2P Require Import Prelude OrdSet ByteArray Hash OrdMap Http.

(** ** Data *)

(** [OtherServlet] and [OtherWSServlet] are subclasses of the client's, of [Servlet] and of
    [WSServlet]; a callback is a number, and one that is not set is [None]. *)
Inductive Servlet :=
| NotFoundServlet
| FunctionServlet (m_cb : Z)
| OtherServlet (id : Z)
| FunctionWSServlet (m_handle m_connect m_close : option Z)
| OtherWSServlet (id : Z).

#[export] Instance servlet_eq_dec : EqDecision Servlet.
Proof. solve_decision. Defined.

Record ServletDispatch := MkDispatch {
  m_datas : gmap bytes (option Servlet);
  m_globs : list (bytes * option Servlet);
  m_default_servlet : option Servlet }.

Definition new_ServletDispatch : ServletDispatch := MkDispatch ∅ [] (Some NotFoundServlet).

(** ** The tables *)

Definition add_servlet (path : bytes) (slt : option Servlet) (d : ServletDispatch) : ServletDispatch :=
  MkDispatch (<[path := slt]> (m_datas d)) (m_globs d) (m_default_servlet d).

Definition add_servlet_fn (path : bytes) (cb : Z) (d : ServletDispatch) : ServletDispatch :=
  MkDispatch (<[path := Some (FunctionServlet cb)]> (m_datas d)) (m_globs d) (m_default_servlet d).

(** The loops over the patterns: [it] is the position of the iterator, which no loop
    advances; the result is where the test holds, none at the end of the vector. *)
Fixpoint glob_loop (fuel : nat) (test : bytes -> bool) (it : nat)
    (globs : list (bytes * option Servlet)) : res (option nat) :=
  match globs !! it with
  | None => Ret None
  | Some (p, _) =>
      if test p then Ret (Some it)
      else
        match fuel with
        | O => Undef Diverges
        | S fuel' => glob_loop fuel' test it globs
        end
  end.

Definition is_path (path p : bytes) : bool := bool_decide (p = path).

(** [add_glob_servlet] uses the iterator after the erasure that invalidates it. *)
Definition add_glob_servlet (fuel : nat) (path : bytes) (slt : option Servlet) (d : ServletDispatch)
    : res ServletDispatch :=
  let? hit := glob_loop fuel (is_path path) 0 (m_globs d) in
  match hit with
  | Some _ => Undef UseAfterFree
  | None => Ret (MkDispatch (m_datas d) (m_globs d ++ [(path, slt)]) (m_default_servlet d))
  end.

Definition add_glob_servlet_fn (fuel : nat) (path : bytes) (cb : Z) (d : ServletDispatch)
    : res ServletDispatch :=
  add_glob_servlet fuel path (Some (FunctionServlet cb)) d.

Definition del_servlet (path : bytes) (d : ServletDispatch) : ServletDispatch :=
  MkDispatch (delete path (m_datas d)) (m_globs d) (m_default_servlet d).

(** [del_glob_servlet] breaks after the erasure. *)
Definition del_glob_servlet (fuel : nat) (path : bytes) (d : ServletDispatch)
    : res ServletDispatch :=
  let? hit := glob_loop fuel (is_path path) 0 (m_globs d) in
  Ret (match hit with
       | Some it => MkDispatch (m_datas d) (delete it (m_globs d)) (m_default_servlet d)
       | None => d
       end).

(** [it->second]. *)
Definition glob_at (it : nat) (d : ServletDispatch) : option Servlet :=
  match m_globs d !! it with
  | Some (_, slt) => slt
  | None => None
  end.

Definition set_default_servlet (slt : option Servlet) (d : ServletDispatch) : ServletDispatch :=
  MkDispatch (m_datas d) (m_globs d) slt.

Definition get_default_servlet (d : ServletDispatch) : option Servlet := m_default_servlet d.

Definition get_servlet (path : bytes) (d : ServletDispatch) : option Servlet :=
  match m_datas d !! path with
  | Some slt => slt
  | None => None
  end.

Definition get_glob_servlet (fuel : nat) (path : bytes) (d : ServletDispatch)
    : res (option Servlet) :=
  let? hit := glob_loop fuel (is_path path) 0 (m_globs d) in
  Ret (match hit with Some it => glob_at it d | None => None end).

Section Handlers.
(** [fnmatch] on a pattern and a path, true for a match; what a callback and a servlet of
    the client do to the response. *)
Context (fnmatch : bytes -> bytes -> bool).
Context (callback other : Z -> HTTPRequest.t -> HTTPResponse.t -> HTTPResponse.t).

Definition get_matched_servlet (fuel : nat) (path : bytes) (d : ServletDispatch)
    : res (option Servlet) :=
  match m_datas d !! path with
  | Some slt => Ret slt
  | None =>
      let? hit := glob_loop fuel (fun p => fnmatch (c_chars p) (c_chars path)) 0 (m_globs d) in
      Ret (match hit with Some it => glob_at it d | None => m_default_servlet d end)
  end.

Definition not_found_body : bytes :=
  str "<html>"
  ++ str "            <head>"
  ++ str "                <title>"
  ++ str "                    404 Not Found"
  ++ str "                </title>"
  ++ str "            </head>"
  ++ str "            <body>"
  ++ str "                <center>"
  ++ str "                    <h1>404 Not Found</h1>"
  ++ str "                </center>"
  ++ str "            </body>"
  ++ str "        </html>".

Definition not_found (r : HTTPResponse.t) : HTTPResponse.t :=
  let r := HTTPResponse.set_status 404 r in
  let r := HTTPResponse.set_header (str "Content-Type") (str "text/html") r in
  let r := HTTPResponse.set_header (str "Server") (str "tigerkin/1.0.0") r in
  HTTPResponse.set_body not_found_body r.

Definition servlet_handle (slt : Servlet) (req : HTTPRequest.t) (rsp : HTTPResponse.t)
    : HTTPResponse.t :=
  match slt with
  | NotFoundServlet => not_found rsp
  | FunctionServlet cb => callback cb req rsp
  | OtherServlet id | OtherWSServlet id => other id req rsp
  | FunctionWSServlet _ _ _ => rsp
  end.

(** [ServletDispatch::handle]; it returns zero in every case. *)
Definition dispatch_handle (fuel : nat) (d : ServletDispatch) (req : HTTPRequest.t) (rsp : HTTPResponse.t)
    : res HTTPResponse.t :=
  let? slt := get_matched_servlet fuel (HTTPRequest.m_path req) d in
  Ret (match slt with Some slt => servlet_handle slt req rsp | None => rsp end).
End Handlers.
