(* ===== verification/ServletProps.v ===== *)
(** * Properties of the servlet dispatch *)

From stdpp Require Import base list numbers strings gmap.
From Stdlib Require Import Lia ZArith.
From S2P Require Import Prelude OrdSet ByteArray Hash OrdMap Http Servlet.

(** The loop looks at the first pattern only. *)
Lemma glob_loop_first fuel test globs :
  glob_loop fuel test 0 globs =
  match globs with
  | [] => Ret None
  | (p, _) :: _ => if test p then Ret (Some 0%nat) else Undef Diverges
  end.
Proof.
  destruct globs as [|[p slt] globs]; [by destruct fuel|].
  induction fuel as [|fuel IH]; cbn; destruct (test p) eqn:E; try done.
Qed.

Lemma add_glob_one fuel path slt d d' :
  add_glob_servlet fuel path slt d = Ret d' -> m_globs d = [] /\ m_globs d' = [(path, slt)].
Proof.
  unfold add_glob_servlet. rewrite glob_loop_first.
  destruct (m_globs d) as [|[p s] l]; [by intros [= <-]|].
  by destruct (is_path path p).
Qed.

Section Matching.
Context (fnmatch : bytes -> bytes -> bool).

(** Dispatch: a path that was added is served by the servlet added last for it,
    whatever the patterns, and adding or removing it leaves the other paths alone; any
    other path is served by the default servlet when there are no patterns and by the first
    pattern when that matches.  When it does not match, the search never ends, whatever
    the other patterns and the default are.  A second pattern can never be added. *)
Theorem servlet_matching (fuel : nat) (path q : bytes) (slt : option Servlet) (d : ServletDispatch) :
  get_matched_servlet fnmatch fuel path (add_servlet path slt d) = Ret slt /\
  (q <> path -> get_servlet q (add_servlet path slt d) = get_servlet q d /\
     get_servlet q (del_servlet path d) = get_servlet q d) /\
  get_servlet path (del_servlet path d) = None /\
  (m_datas d !! path = None ->
     match m_globs d with
     | [] => get_matched_servlet fnmatch fuel path d = Ret (m_default_servlet d)
     | (p, s) :: _ =>
         get_matched_servlet fnmatch fuel path d =
           if fnmatch (c_chars p) (c_chars path) then Ret s else Undef Diverges
     end) /\
  (forall d', add_glob_servlet fuel path slt d = Ret d' ->
     m_globs d = [] /\ m_globs d' = [(path, slt)]).
Proof.
  unfold get_matched_servlet, get_servlet, add_servlet, del_servlet. cbn.
  rewrite lookup_insert_eq, lookup_delete_eq. split; [done|]. split; [|split; [done|split]].
  - intros Hq. by rewrite lookup_insert_ne, lookup_delete_ne by done.
  - intros Hn. rewrite Hn, glob_loop_first. destruct (m_globs d) as [|[p s] l] eqn:E; [done|].
    destruct (fnmatch _ _); [|done]. cbn. unfold glob_at. by rewrite E.
  - intros d'. apply add_glob_one.
Qed.
End Matching.

Lemma servlet_matching_witness :
  get_servlet (str "/b") (add_servlet (str "/a") (Some (FunctionServlet 1))
    (add_servlet (str "/b") (Some (FunctionServlet 2)) new_ServletDispatch)) =
  Some (FunctionServlet 2) /\
  get_matched_servlet (fun _ _ => true) 5 (str "/c")
    (MkDispatch ∅ [(str "/*", Some (FunctionServlet 3))] None) = Ret (Some (FunctionServlet 3)).
Proof.
  split.
  - apply (proj1 (proj2 (servlet_matching (fun _ _ => true) 5 (str "/a") (str "/b")
      (Some (FunctionServlet 1)) (add_servlet (str "/b") (Some (FunctionServlet 2)) new_ServletDispatch))));
      discriminate.
  - apply (proj1 (proj2 (proj2 (proj2 (servlet_matching (fun _ _ => true) 5 (str "/c") [] None
      (MkDispatch ∅ [(str "/*", Some (FunctionServlet 3))] None)))))). reflexivity.
Defined.
