(* ===== verification/Stream.v ===== *)
(** * Streams ([streams/stream.h], [stream.cc], [socket_stream.h], [socket_stream.cc])

    The loops that read and write an exact number of bytes over a stream that may transfer
    less, and the stream over a socket.  The connection of the socket is an interface with
    the laws of [recv] and [send]. *)

From stdpp Require Import base list numbers.
From Stdlib Require Import Lia ZArith.
From S2P Require Import Prelude Endian ByteArray ByteArrayFacts ByteArrayIov.

(** ** The connection *)

(** A connected stream socket: the bytes still to be received, and those sent.  [recv]
    takes a part of what is there, [send] a part of what is given; both at most
    [2^31 - 1] bytes at once. *)
Class Conn (K : Type) := {
  conn_up : K -> bool;
  conn_recv : Z -> K -> Z * bytes * K;
  conn_send : bytes -> K -> Z * K;
  conn_close : K -> K;
  inbox : K -> bytes;
  outbox : K -> bytes;
  close_down k : conn_up (conn_close k) = false;
  close_sent k : outbox (conn_close k) = outbox k;
  recv_some k len : conn_up k = true -> 0 < len -> inbox k <> [] ->
    exists n k', conn_recv len k = (n, ztake n (inbox k), k') /\
      1 <= n <= Z.min len (zlen (inbox k)) /\ n < 2 ^ 31 /\
      inbox k' = zdrop n (inbox k) /\ outbox k' = outbox k /\ conn_up k' = true;
  recv_none k len : conn_up k = true -> 0 < len -> inbox k = [] ->
    exists n k', conn_recv len k = (n, [], k') /\ - 2 ^ 31 <= n <= 0 /\
      inbox k' = [] /\ outbox k' = outbox k;
  send_some k b : conn_up k = true -> b <> [] ->
    exists n k', conn_send b k = (n, k') /\ 1 <= n <= zlen b /\ n < 2 ^ 31 /\
      outbox k' = outbox k ++ ztake n b /\ inbox k' = inbox k /\ conn_up k' = true }.

(** ** Exact transfers *)

Section Stream.
Context {St : Type}.
(** The virtual [read] and [write]; a read gives the bytes it stored. *)
Context (read : Z -> St -> Z * bytes * St) (write : bytes -> St -> Z * St).

(** [read_fixed_size(buffer, len)]: the result of a failed read, what the buffer holds. *)
Fixpoint read_fixed_loop (fuel : nat) (left : Z) (buffer : bytes) (s : St)
    : res (option Z * bytes * St) :=
  if left <=? 0 then Ret (None, buffer, s)
  else
    match fuel with
    | O => Undef Diverges
    | S fuel' =>
        let '(read_len, b, s) := read left s in
        if read_len <=? 0 then Ret (Some read_len, buffer, s)
        else read_fixed_loop fuel' (left - read_len) (buffer ++ b) s
    end.

Definition read_fixed_size (len : Z) (s : St) : res (Z * bytes * St) :=
  let? (e, b, s) := read_fixed_loop (Z.to_nat len) (to_signed 64 len) [] s in
  Ret (to_signed 32 (default len e), b, s).

(** [write_fixed_size(buffer, len)]. *)
Fixpoint write_fixed_loop (fuel : nat) (left : Z) (buffer : bytes) (s : St) : res (option Z * St) :=
  if left <=? 0 then Ret (None, s)
  else
    match fuel with
    | O => Undef Diverges
    | S fuel' =>
        let '(write_len, s) := write (ztake left buffer) s in
        if write_len <=? 0 then Ret (Some write_len, s)
        else write_fixed_loop fuel' (left - write_len) (zdrop write_len buffer) s
    end.

Definition write_fixed_size (buffer : bytes) (s : St) : res (Z * St) :=
  let len := zlen buffer in
  let? (e, s) := write_fixed_loop (Z.to_nat len) (to_signed 64 len) buffer s in
  Ret (to_signed 32 (default len e), s).

(** The forms on a byte array. *)
Context (read_ba write_ba : Z -> meth (ByteArray * St) Z).

Fixpoint read_ba_loop (fuel : nat) (left : Z) : meth (ByteArray * St) (option Z) :=
  if left <=? 0 then ret None
  else
    match fuel with
    | O => fun s => (Undef Diverges, s)
    | S fuel' =>
        let! read_len := read_ba left in
        if read_len <=? 0 then ret (Some read_len)
        else read_ba_loop fuel' (left - read_len)
    end.

Definition read_fixed_size_ba (len : Z) : meth (ByteArray * St) Z :=
  let! e := read_ba_loop (Z.to_nat len) (to_signed 64 len) in
  ret (to_signed 32 (default len e)).

(** [write_fixed_size(ba, len)] tests [len] where [write_len] is meant, so that a failed
    write makes [left] grow. *)
Fixpoint write_ba_loop (fuel : nat) (len left : Z) : meth (ByteArray * St) (option Z) :=
  if left <=? 0 then ret None
  else
    match fuel with
    | O => fun s => (Undef Diverges, s)
    | S fuel' =>
        let! write_len := write_ba left in
        if len <=? 0 then ret (Some write_len)
        else if 2 ^ 63 <=? left - write_len then (fun s => (Undef SignedOverflow, s))
        else write_ba_loop fuel' len (left - write_len)
    end.

Definition write_fixed_size_ba (fuel : nat) (len : Z) : meth (ByteArray * St) Z :=
  let! e := write_ba_loop fuel len (to_signed 64 len) in
  ret (to_signed 32 (default len e)).
End Stream.

(** ** The stream over a socket *)

Section SocketStream.
Context {K : Type} `{!Conn K}.

Record SocketStream := MkStream { m_socket : option K; m_owner : bool }.

Definition is_connected (s : SocketStream) : bool :=
  match m_socket s with
  | Some k => conn_up k
  | None => false
  end.

Definition set_socket (k : K) (s : SocketStream) : SocketStream := MkStream (Some k) (m_owner s).

Definition socket_read (len : Z) (s : SocketStream) : Z * bytes * SocketStream :=
  match m_socket s with
  | Some k =>
      if conn_up k then
        let '(rt, b, k) := conn_recv len k in (to_signed 32 rt, b, set_socket k s)
      else (-1, [], s)
  | None => (-1, [], s)
  end.

Definition socket_write (buffer : bytes) (s : SocketStream) : Z * SocketStream :=
  match m_socket s with
  | Some k =>
      if conn_up k then
        let '(rt, k) := conn_send buffer k in (to_signed 32 rt, set_socket k s)
      else (-1, s)
  | None => (-1, s)
  end.

(** [&iovs[0]] needs an element. *)
Definition socket_read_ba (len : Z) : meth (ByteArray * SocketStream) Z := fun '(ba, s) =>
  match m_socket s with
  | Some k =>
      if conn_up k then
        match get_enable_write_buffers len ba with
        | (Ret ([], _), ba) => (Undef BufferOverflow, (ba, s))
        | (Ret (iovs, _), ba) =>
            let '(rt, b, k) := conn_recv (total_len iovs) k in
            let rt := to_signed 32 rt in
            let ba := with_nodes ba (scatter (m_nodes ba) iovs b) in
            let s := set_socket k s in
            if 0 <? rt then
              match set_position (wrap 64 (m_position ba + rt)) ba with
              | (Ret _, ba) => (Ret rt, (ba, s))
              | (Throw e, ba) => (Throw e, (ba, s))
              | (Undef u, ba) => (Undef u, (ba, s))
              end
            else (Ret rt, (ba, s))
        | (Throw e, ba) => (Throw e, (ba, s))
        | (Undef u, ba) => (Undef u, (ba, s))
        end
      else (Ret (-1), (ba, s))
  | None => (Ret (-1), (ba, s))
  end.

Definition socket_write_ba (len : Z) : meth (ByteArray * SocketStream) Z := fun '(ba, s) =>
  match m_socket s with
  | Some k =>
      if conn_up k then
        match get_enable_read_buffers len ba with
        | Ret ([], _) => (Undef BufferOverflow, (ba, s))
        | Ret (iovs, _) =>
            let '(rt, k) := conn_send (gather (m_nodes ba) iovs) k in
            let rt := to_signed 32 rt in
            let s := set_socket k s in
            if 0 <? rt then
              match set_position (wrap 64 (m_position ba + rt)) ba with
              | (Ret _, ba) => (Ret rt, (ba, s))
              | (Throw e, ba) => (Throw e, (ba, s))
              | (Undef u, ba) => (Undef u, (ba, s))
              end
            else (Ret rt, (ba, s))
        | Throw e => (Throw e, (ba, s))
        | Undef u => (Undef u, (ba, s))
        end
      else (Ret (-1), (ba, s))
  | None => (Ret (-1), (ba, s))
  end.

Definition stream_close (s : SocketStream) : SocketStream :=
  match m_socket s with
  | Some k => set_socket (conn_close k) s
  | None => s
  end.

(** The destructor closes the socket it owns. *)
Definition stream_destroy (s : SocketStream) : SocketStream :=
  if m_owner s then stream_close s else s.
End SocketStream.
