(* ===== verification/StreamProps.v ===== *)
(** * Properties of the streams

    Exact transfers over a connection that transfers in pieces, into and out of plain
    buffers and byte arrays. *)

From stdpp Require Import base list numbers strings.
From Stdlib Require Import Lia ZArith.
From S2P Require Import Prelude Endian ByteArray ByteArrayFacts ByteArrayIov.
From S2P Require Import ByteArrayCodec ByteArrayCodecFacts Stream.

Lemma to_signed_small w z : 1 <= w -> sfits w z -> to_signed w z = z.
Proof.
  intros Hw Hz. rewrite <- (to_signed_wrap w z) at 2 by done. apply to_signed_congr.
  symmetry. apply wrap_small, wrap_fits. lia.
Qed.

Lemma ztake_split_at {A} i n (l : list A) : 0 <= i <= n ->
  ztake n l = ztake i l ++ ztake (n - i) (zdrop i l).
Proof. intros. rewrite <- ztake_plus by lia. f_equal. lia. Qed.

Section Exact.
Context {K : Type} `{!Conn K}.

(** What a stream still receives, and what it sent. *)
Definition s_in (s : SocketStream) : bytes :=
  match m_socket s with Some k => inbox k | None => [] end.
Definition s_out (s : SocketStream) : bytes :=
  match m_socket s with Some k => outbox k | None => [] end.

Lemma connected_socket s : is_connected s = true -> exists k, m_socket s = Some k /\ conn_up k = true.
Proof. unfold is_connected. destruct (m_socket s) as [k|]; [|done]. intros. by exists k. Qed.

Lemma close_keeps_sent s : s_out (stream_close s) = s_out s.
Proof.
  unfold stream_close, s_out. destruct (m_socket s) as [k|] eqn:E; cbn; [apply close_sent|by rewrite E].
Qed.

Lemma socket_read_some len s : is_connected s = true -> 0 < len -> s_in s <> [] ->
  exists n s', socket_read len s = (n, ztake n (s_in s), s') /\
    1 <= n <= Z.min len (zlen (s_in s)) /\ s_in s' = zdrop n (s_in s) /\
    s_out s' = s_out s /\ is_connected s' = true.
Proof.
  intros Hc Hlen Hin. destruct (connected_socket s Hc) as (k & Hk & Hup).
  unfold socket_read, s_in, s_out in *. rewrite Hk in *. rewrite Hup.
  destruct (recv_some k len Hup Hlen Hin) as (n & k' & -> & Hn & H31 & H1 & H2 & H3).
  rewrite to_signed_small by (unfold sfits; lia). by exists n, (set_socket k' s).
Qed.

Lemma socket_read_none len s : is_connected s = true -> 0 < len -> s_in s = [] ->
  exists n s', socket_read len s = (n, [], s') /\ - 2 ^ 31 <= n <= 0 /\ s_in s' = [] /\ s_out s' = s_out s.
Proof.
  intros Hc Hlen Hin. destruct (connected_socket s Hc) as (k & Hk & Hup).
  unfold socket_read, s_in, s_out in *. rewrite Hk in *. rewrite Hup.
  destruct (recv_none k len Hup Hlen Hin) as (n & k' & -> & Hn & H1 & H2).
  rewrite to_signed_small by (unfold sfits; lia). by exists n, (set_socket k' s).
Qed.

Lemma socket_write_some b s : is_connected s = true -> b <> [] ->
  exists n s', socket_write b s = (n, s') /\ 1 <= n <= zlen b /\
    s_out s' = s_out s ++ ztake n b /\ s_in s' = s_in s /\ is_connected s' = true.
Proof.
  intros Hc Hb. destruct (connected_socket s Hc) as (k & Hk & Hup).
  unfold socket_write, s_in, s_out in *. rewrite Hk in *. rewrite Hup.
  destruct (send_some k b Hup Hb) as (n & k' & -> & Hn & H31 & H1 & H2 & H3).
  rewrite to_signed_small by (unfold sfits; lia). by exists n, (set_socket k' s).
Qed.

(** ** Plain buffers *)

Lemma read_fixed_loop_enough fuel : forall left acc s,
  is_connected s = true -> 0 <= left <= zlen (s_in s) -> (Z.to_nat left <= fuel)%nat ->
  exists s', read_fixed_loop socket_read fuel left acc s = Ret (None, acc ++ ztake left (s_in s), s') /\
    s_in s' = zdrop left (s_in s) /\ s_out s' = s_out s /\ is_connected s' = true.
Proof.
  induction fuel as [|fuel IH]; intros left acc s Hc Hl Hf.
  { assert (left = 0) as -> by lia. exists s. by rewrite ztake_0, app_nil_r. }
  cbn [read_fixed_loop]. destruct (Z.leb_spec left 0).
  { assert (left = 0) as -> by lia. exists s. by rewrite ztake_0, app_nil_r. }
  destruct (socket_read_some left s Hc) as (n & s1 & -> & Hn & Hi & Ho & Hc1); [lia| |].
  { intros E. rewrite E in Hl. change (zlen []) with 0 in Hl. lia. }
  destruct (Z.leb_spec n 0); [lia|].
  destruct (IH (left - n) (acc ++ ztake n (s_in s)) s1 Hc1) as (s2 & -> & Hi2 & Ho2 & Hc2).
  { rewrite Hi, zlen_zdrop by lia. lia. }
  { lia. }
  exists s2. rewrite Hi in *. rewrite Hi2, zdrop_zdrop by lia.
  replace (n + (left - n)) with left by lia. rewrite <- app_assoc, <- ztake_split_at by lia.
  split; [done|]. split; [done|]. split; [congruence|done].
Qed.

Lemma read_fixed_loop_short fuel : forall left acc s,
  is_connected s = true -> zlen (s_in s) < left -> (Z.to_nat left <= fuel)%nat ->
  exists n s', read_fixed_loop socket_read fuel left acc s = Ret (Some n, acc ++ s_in s, s') /\
    - 2 ^ 31 <= n <= 0 /\ s_in s' = [] /\ s_out s' = s_out s.
Proof.
  induction fuel as [|fuel IH]; intros left acc s Hc Hl Hf; pose proof (zlen_nonneg (s_in s)); [lia|].
  cbn [read_fixed_loop]. destruct (Z.leb_spec left 0); [lia|].
  destruct (decide (s_in s = [])) as [E|E].
  { destruct (socket_read_none left s Hc) as (n & s1 & -> & Hn & Hi & Ho); [lia|done|].
    destruct (Z.leb_spec n 0); [|lia]. exists n, s1. by rewrite E, app_nil_r. }
  destruct (socket_read_some left s Hc) as (n & s1 & -> & Hn & Hi & Ho & Hc1); [lia|done|].
  destruct (Z.leb_spec n 0); [lia|].
  destruct (IH (left - n) (acc ++ ztake n (s_in s)) s1 Hc1) as (m & s2 & -> & Hm & Hi2 & Ho2).
  { rewrite Hi, zlen_zdrop by lia. lia. }
  { lia. }
  exists m, s2. rewrite Hi, <- app_assoc, ztake_zdrop. split; [done|]. split; [done|].
  split; [done|congruence].
Qed.

Lemma read_fixed_size_ok len s :
  is_connected s = true -> 0 <= len <= zlen (s_in s) -> len < 2 ^ 31 ->
  exists s', read_fixed_size socket_read len s = Ret (len, ztake len (s_in s), s') /\
    s_in s' = zdrop len (s_in s) /\ s_out s' = s_out s /\ is_connected s' = true.
Proof.
  intros Hc Hl H31. unfold read_fixed_size. rewrite (to_signed_small 64) by (unfold sfits; lia).
  destruct (read_fixed_loop_enough (Z.to_nat len) len [] s Hc Hl) as (s' & -> & H); [done|].
  exists s'. cbn [res_bind default]. rewrite to_signed_small by (unfold sfits; lia).
  by split.
Qed.

Lemma write_fixed_loop_ok fuel : forall left b s,
  is_connected s = true -> 0 <= left <= zlen b -> (Z.to_nat left <= fuel)%nat ->
  exists s', write_fixed_loop socket_write fuel left b s = Ret (None, s') /\
    s_out s' = s_out s ++ ztake left b /\ s_in s' = s_in s /\ is_connected s' = true.
Proof.
  induction fuel as [|fuel IH]; intros left b s Hc Hl Hf.
  { assert (left = 0) as -> by lia. exists s. by rewrite ztake_0, app_nil_r. }
  cbn [write_fixed_loop]. destruct (Z.leb_spec left 0).
  { assert (left = 0) as -> by lia. exists s. by rewrite ztake_0, app_nil_r. }
  destruct (socket_write_some (ztake left b) s Hc) as (n & s1 & -> & Hn & Ho & Hi & Hc1).
  { intros E. apply (f_equal zlen) in E. rewrite zlen_ztake in E by lia. change (zlen []) with 0 in E. lia. }
  rewrite zlen_ztake in Hn by lia. destruct (Z.leb_spec n 0); [lia|].
  destruct (IH (left - n) (zdrop n b) s1 Hc1) as (s2 & -> & Ho2 & Hi2 & Hc2).
  { rewrite zlen_zdrop by lia. lia. }
  { lia. }
  exists s2. rewrite Ho2, Ho, <- app_assoc. rewrite ztake_ztake, <- ztake_split_at by lia.
  split; [done|]. split; [done|]. split; [congruence|done].
Qed.

Lemma write_fixed_size_ok b s : is_connected s = true -> zlen b < 2 ^ 31 ->
  exists s', write_fixed_size socket_write b s = Ret (zlen b, s') /\
    s_out s' = s_out s ++ b /\ s_in s' = s_in s /\ is_connected s' = true.
Proof.
  intros Hc H31. pose proof (zlen_nonneg b). unfold write_fixed_size.
  rewrite (to_signed_small 64) by (unfold sfits; lia).
  destruct (write_fixed_loop_ok (Z.to_nat (zlen b)) (zlen b) b s Hc) as (s' & -> & H1 & H2); [lia|done|].
  exists s'. cbn [res_bind default]. rewrite to_signed_small by (unfold sfits; lia).
  rewrite ztake_all in H1 by lia. by split.
Qed.

(** ** Byte arrays *)

Lemma socket_read_ba_some len ba s :
  wf ba -> is_connected s = true -> 0 < len -> s_in s <> [] ->
  room len ba \/ m_position ba + len < m_capacity ba ->
  exists n ba' s', socket_read_ba len (ba, s) = (Ret n, (ba', s')) /\
    1 <= n <= Z.min len (zlen (s_in s)) /\ wf ba' /\
    abs ba' = a_write (ztake n (s_in s)) (abs ba) /\ m_position ba + len < m_capacity ba' /\
    s_in s' = zdrop n (s_in s) /\ s_out s' = s_out s /\ is_connected s' = true.
Proof.
  intros Hwf Hc Hlen Hin Hroom. destruct (connected_socket s Hc) as (k & Hk & Hup).
  unfold socket_read_ba, s_in, s_out in *. rewrite Hk in *. rewrite Hup.
  destruct (recv_some k len Hup Hlen Hin) as (n & k' & Hr & Hn & H31 & H1 & H2 & H3).
  assert (zlen (ztake n (inbox k)) = n) as Hz by (apply zlen_ztake; lia).
  destruct (receive_ok len (ztake n (inbox k)) ba Hwf Hlen Hroom)
    as (vs & ba1 & ba2 & Hg & Ht & Hs & Hwf2 & Habs & Hp1 & Hcap); [lia|].
  rewrite Hg. destruct vs as [|v vs]; [cbn in Ht; lia|]. rewrite Ht, Hr. cbn beta iota zeta.
  rewrite to_signed_small by (unfold sfits; lia). destruct (Z.ltb_spec 0 n); [|lia].
  rewrite Hz in Hs. change (m_position (with_nodes ba1 _)) with (m_position ba1).
  assert (wrap 64 (m_position ba1 + n) = m_position ba1 + n) as ->.
  { rewrite Hp1. apply wrap_small. pose proof Hwf2 as []. pose proof Hwf as []. unfold fits. lia. }
  rewrite Hs.
  exists n, ba2, (set_socket k' s). split; [done|]. split; [done|]. split; [done|].
  by split.
Qed.

Lemma read_ba_loop_ok fuel : forall left ba s,
  wf ba -> is_connected s = true -> 0 <= left <= zlen (s_in s) -> (Z.to_nat left <= fuel)%nat ->
  (0 < left -> room left ba \/ m_position ba + left < m_capacity ba) ->
  exists ba' s', read_ba_loop socket_read_ba fuel left (ba, s) = (Ret None, (ba', s')) /\
    wf ba' /\ abs ba' = a_write (ztake left (s_in s)) (abs ba) /\
    s_in s' = zdrop left (s_in s) /\ s_out s' = s_out s /\ is_connected s' = true.
Proof.
  assert (forall ba, abs ba = a_write [] (abs ba)) as Hnil.
  { intros ba. unfold a_write, splice. destruct (abs ba). cbn. zlen_nil. by rewrite !Z.add_0_r, ztake_zdrop. }
  induction fuel as [|fuel IH]; intros left ba s Hwf Hc Hl Hf Hroom.
  { assert (left = 0) as -> by lia. exists ba, s. rewrite ztake_0, zdrop_0, <- Hnil. done. }
  cbn [read_ba_loop]. destruct (Z.leb_spec left 0).
  { assert (left = 0) as -> by lia. exists ba, s. rewrite ztake_0, zdrop_0, <- Hnil. done. }
  destruct (socket_read_ba_some left ba s Hwf Hc)
    as (n & ba1 & s1 & Hr & Hn & Hwf1 & Ha1 & Hcap & Hi & Ho & Hc1); [lia| |by apply Hroom|].
  { intros E. rewrite E in Hl. change (zlen []) with 0 in Hl. lia. }
  rewrite (bind_ret _ _ _ _ _ Hr). destruct (Z.leb_spec n 0); [lia|].
  assert (zlen (ztake n (s_in s)) = n) as Hz by (apply zlen_ztake; lia).
  assert (m_position ba1 = m_position ba + n) as Hp1.
  { apply (f_equal f_pos) in Ha1. cbn in Ha1. lia. }
  destruct (IH (left - n) ba1 s1 Hwf1 Hc1) as (ba2 & s2 & -> & Hwf2 & Ha2 & Hi2 & Ho2 & Hc2).
  { rewrite Hi, zlen_zdrop by lia. lia. }
  { lia. }
  { intros _. right. lia. }
  exists ba2, s2. split; [done|]. split; [done|]. rewrite Hi in *.
  rewrite Ha2, Ha1, a_write_app, <- ztake_split_at by (lia || by apply abs_pos).
  split; [done|]. rewrite Hi2, zdrop_zdrop by lia. split; [f_equal; lia|].
  split; [congruence|done].
Qed.

Lemma socket_write_ba_some len ba s :
  wf ba -> is_connected s = true -> 0 < len -> m_position ba < m_size ba ->
  exists n ba' s', socket_write_ba len (ba, s) = (Ret n, (ba', s')) /\
    1 <= n <= Z.min len (m_size ba - m_position ba) /\ wf ba' /\
    abs ba' = MkFlat (data ba) (m_position ba + n) (m_endian ba) /\
    s_out s' = s_out s ++ slice (m_position ba) n (data ba) /\ s_in s' = s_in s /\
    is_connected s' = true.
Proof.
  intros Hwf Hc Hlen Hrd. destruct (connected_socket s Hc) as (k & Hk & Hup).
  unfold socket_write_ba, s_in, s_out in *. rewrite Hk. rewrite Hup.
  destruct (send_ok len ba Hwf) as (vs & m & -> & Hm & Hg & Ht); [lia|].
  pose proof (zlen_data ba Hwf) as Hd. pose proof Hwf as [].
  assert (zlen (gather (m_nodes ba) vs) = m) as Hz by (rewrite Hg; apply zlen_slice; lia).
  destruct vs as [|v vs]; [cbn in Ht; lia|].
  destruct (send_some k (gather (m_nodes ba) (v :: vs)) Hup) as (n & k' & -> & Hn & H31 & H1 & H2 & H3).
  { intros E. rewrite E in Hz. change (zlen []) with 0 in Hz. lia. }
  rewrite Hz in Hn. cbn beta iota zeta. rewrite to_signed_small by (unfold sfits; lia).
  destruct (Z.ltb_spec 0 n); [|lia]. rewrite wrap_small by (unfold fits; lia).
  destruct (set_position_ok (m_position ba + n) ba Hwf)
    as (ba' & -> & Hwf' & Hp & Hsz & Hf & He & _); [lia..|].
  exists n, ba', (set_socket k' s). split; [done|]. split; [lia|]. split; [done|].
  split; [unfold abs, data; rewrite Hp, He, Hf, Hsz; do 2 f_equal; lia|].
  cbn [set_socket m_socket]. rewrite H1, Hg. unfold slice. by rewrite ztake_ztake by lia.
Qed.

Lemma write_ba_loop_ok fuel : forall len left ba s,
  wf ba -> is_connected s = true -> 0 < len < 2 ^ 63 -> 0 <= left <= len ->
  left <= m_size ba - m_position ba -> (Z.to_nat left <= fuel)%nat ->
  exists ba' s', write_ba_loop socket_write_ba fuel len left (ba, s) = (Ret None, (ba', s')) /\
    wf ba' /\ abs ba' = MkFlat (data ba) (m_position ba + left) (m_endian ba) /\
    s_out s' = s_out s ++ slice (m_position ba) left (data ba) /\ s_in s' = s_in s /\
    is_connected s' = true.
Proof.
  induction fuel as [|fuel IH]; intros len left ba s Hwf Hc Hlen Hl Hr Hf.
  { assert (left = 0) as -> by lia. exists ba, s. unfold slice.
    rewrite ztake_0, app_nil_r, Z.add_0_r. done. }
  cbn [write_ba_loop]. destruct (Z.leb_spec left 0).
  { assert (left = 0) as -> by lia. exists ba, s. unfold slice.
    rewrite ztake_0, app_nil_r, Z.add_0_r. done. }
  destruct (socket_write_ba_some left ba s Hwf Hc)
    as (n & ba1 & s1 & Hw & Hn & Hwf1 & Ha1 & Ho & Hi & Hc1); [lia..|].
  rewrite (bind_ret _ _ _ _ _ Hw). destruct (Z.leb_spec len 0); [lia|].
  destruct (Z.leb_spec (2 ^ 63) (left - n)); [lia|].
  unfold abs in Ha1. injection Ha1 as Hd Hp He.
  assert (m_size ba1 = m_size ba) as Hs by (rewrite <- (zlen_data ba1), <- (zlen_data ba), Hd; done).
  destruct (IH len (left - n) ba1 s1 Hwf1 Hc1) as (ba2 & s2 & -> & Hwf2 & Ha2 & Ho2 & Hi2 & Hc2); [lia..|].
  exists ba2, s2. split; [done|]. split; [done|]. pose proof (wf_pos ba Hwf). rewrite Ha2, Ho2, Ho, Hd, Hp, He.
  split; [f_equal; lia|]. rewrite <- app_assoc, <- slice_split by lia.
  replace (n + (left - n)) with left by lia. split; [done|]. split; [congruence|done].
Qed.

(** A stream without a connection: the loop on a byte array goes on counting up. *)
Lemma write_ba_loop_spins fuel : forall len left ba s,
  is_connected s = false -> 0 < len -> 0 < left -> left + Z.of_nat fuel < 2 ^ 63 ->
  write_ba_loop socket_write_ba fuel len left (ba, s) = (Undef Diverges, (ba, s)).
Proof.
  induction fuel as [|fuel IH]; intros len left ba s Hc Hlen Hl Hf; cbn [write_ba_loop].
  { by destruct (Z.leb_spec left 0); [lia|]. }
  destruct (Z.leb_spec left 0); [lia|].
  assert (socket_write_ba left (ba, s) = (Ret (-1), (ba, s))) as Hw.
  { unfold socket_write_ba, is_connected in *. destruct (m_socket s); [by rewrite Hc|done]. }
  rewrite (bind_ret _ _ _ _ _ Hw). destruct (Z.leb_spec len 0); [lia|].
  destruct (Z.leb_spec (2 ^ 63) (left - -1)); [lia|]. apply IH; lia || done.
Qed.

(** C30: Exact transfers: over a connection that moves any part of what is asked for,
    [read_fixed_size] returns exactly the next [len] bytes and leaves the rest; when the
    peer ends before, it returns what the failed read returned, with all the bytes there
    were in the buffer; [write_fixed_size] sends exactly the buffer.  Neither loop runs out
    of its [len] rounds. *)
Theorem stream_exact (s : SocketStream) (len : Z) (b : bytes) :
  is_connected s = true -> 0 <= len < 2 ^ 31 -> zlen b < 2 ^ 31 ->
  (len <= zlen (s_in s) -> exists s',
     read_fixed_size socket_read len s = Ret (len, ztake len (s_in s), s') /\
     s_in s' = zdrop len (s_in s) /\ s_out s' = s_out s /\ is_connected s' = true) /\
  (zlen (s_in s) < len -> exists n s',
     read_fixed_size socket_read len s = Ret (n, s_in s, s') /\ n <= 0 /\
     s_in s' = [] /\ s_out s' = s_out s) /\
  (exists s', write_fixed_size socket_write b s = Ret (zlen b, s') /\
     s_out s' = s_out s ++ b /\ s_in s' = s_in s /\ is_connected s' = true).
Proof.
  intros Hc Hlen Hb. split; [|split].
  - intros Hl. apply read_fixed_size_ok; done || lia.
  - intros Hl. unfold read_fixed_size. rewrite (to_signed_small 64) by (unfold sfits; lia).
    destruct (read_fixed_loop_short (Z.to_nat len) len [] s Hc Hl) as (n & s' & -> & Hn & H); [done|].
    exists n, s'. cbn [res_bind default option.default]. cbn.
    rewrite to_signed_small by (unfold sfits; lia). split; [done|]. split; [lia|done].
  - by apply write_fixed_size_ok.
Qed.

(** Exact transfers through a byte array: [read_fixed_size(ba, len)] leaves the array
    as a [write] of the next [len] bytes of the connection would; [write_fixed_size(ba,
    len)] sends the next [len] bytes of the array and advances its position.  On a stream
    that is not connected the second one never returns. *)
Theorem stream_bytearray (s : SocketStream) (ba : ByteArray) (len : Z) :
  wf ba -> 0 < len < 2 ^ 31 -> room len ba ->
  (is_connected s = true -> len <= zlen (s_in s) -> exists ba' s',
     read_fixed_size_ba socket_read_ba len (ba, s) = (Ret len, (ba', s')) /\ wf ba' /\
     abs ba' = a_write (ztake len (s_in s)) (abs ba) /\
     s_in s' = zdrop len (s_in s) /\ s_out s' = s_out s) /\
  (is_connected s = true -> len <= m_size ba - m_position ba -> exists ba' s',
     write_fixed_size_ba socket_write_ba (Z.to_nat len) len (ba, s) = (Ret len, (ba', s')) /\ wf ba' /\
     abs ba' = MkFlat (data ba) (m_position ba + len) (m_endian ba) /\
     s_out s' = s_out s ++ slice (m_position ba) len (data ba) /\ s_in s' = s_in s) /\
  (is_connected s = false -> forall fuel, Z.of_nat fuel < 2 ^ 62 ->
     write_fixed_size_ba socket_write_ba fuel len (ba, s) = (Undef Diverges, (ba, s))).
Proof.
  intros Hwf Hlen Hroom. unfold read_fixed_size_ba, write_fixed_size_ba.
  rewrite (to_signed_small 64) by (unfold sfits; lia). split; [|split].
  - intros Hc Hl. destruct (read_ba_loop_ok (Z.to_nat len) len ba s Hwf Hc)
      as (ba' & s' & Hr & Hwf' & Ha & Hi & Ho & _); [lia|done|by left|].
    exists ba', s'. rewrite (bind_ret _ _ _ _ _ Hr). unfold ret. cbn [default].
    rewrite to_signed_small by (unfold sfits; lia). done.
  - intros Hc Hl. destruct (write_ba_loop_ok (Z.to_nat len) len len ba s Hwf Hc)
      as (ba' & s' & Hr & Hwf' & Ha & Hi & Ho & _); [lia..|].
    exists ba', s'. rewrite (bind_ret _ _ _ _ _ Hr). unfold ret. cbn [default].
    rewrite to_signed_small by (unfold sfits; lia). done.
  - intros Hc fuel Hf. unfold bind. by rewrite write_ba_loop_spins by (done || lia).
Qed.
End Exact.

(** ** A connection *)

(** A pipe that transfers at most [p_chunk + 1] bytes at once. *)
Record pipe := MkPipe { p_up : bool; p_chunk : nat; p_in : bytes; p_out : bytes }.

Definition pipe_part (p : pipe) (n : Z) : Z := Z.min (Z.of_nat (p_chunk p) + 1) (Z.min n (2 ^ 31 - 1)).

Definition pipe_recv (len : Z) (p : pipe) : Z * bytes * pipe :=
  match p_in p with
  | [] => (0, [], p)
  | _ :: _ =>
      let n := pipe_part p (Z.min len (zlen (p_in p))) in
      (n, ztake n (p_in p), MkPipe (p_up p) (p_chunk p) (zdrop n (p_in p)) (p_out p))
  end.

Definition pipe_send (b : bytes) (p : pipe) : Z * pipe :=
  let n := pipe_part p (zlen b) in
  (n, MkPipe (p_up p) (p_chunk p) (p_in p) (p_out p ++ ztake n b)).

#[export] Instance pipe_conn : Conn pipe.
Proof.
  refine {| conn_up := p_up; conn_recv := pipe_recv; conn_send := pipe_send;
            conn_close := fun p => MkPipe false (p_chunk p) (p_in p) (p_out p);
            inbox := p_in; outbox := p_out |}.
  - done.
  - done.
  - intros k len Hup Hlen Hin. unfold pipe_recv, pipe_part. destruct (p_in k) as [|x l] eqn:E; [done|].
    pose proof (zlen_nonneg l). eexists _, _. split; [done|]. rewrite zlen_cons in *.
    split; [lia|]. split; [lia|]. done.
  - intros k len Hup Hlen Hin. unfold pipe_recv. rewrite Hin. exists 0, k. split; [done|]. split; [lia|done].
  - intros k b Hup Hb. unfold pipe_send, pipe_part. destruct b as [|x l]; [done|].
    pose proof (zlen_nonneg l). eexists _, _. split; [done|]. rewrite zlen_cons.
    split; [lia|]. split; [lia|]. done.
Defined.

Lemma stream_exact_witness :
  let s := MkStream (Some (MkPipe true 2 (str "hello, tiger") [])) true in
  exists s', read_fixed_size socket_read 5 s = Ret (5, str "hello", s') /\ s_in s' = str ", tiger".
Proof.
  intros s. destruct (stream_exact s 5 []) as [H _].
  { reflexivity. }
  { lia. }
  { reflexivity. }
  destruct H as (s' & H1 & H2 & _); [by vm_compute|]. exists s'. split; [exact H1|exact H2].
Defined.

Lemma stream_bytearray_witness :
  let s := MkStream (Some (MkPipe true 2 (str "hello, tiger") [])) true in
  exists ba' s', read_fixed_size_ba socket_read_ba 5 (new_ByteArray 4, s) = (Ret 5, (ba', s')) /\
    data ba' = str "hello" /\ s_in s' = str ", tiger".
Proof.
  intros s. destruct (stream_bytearray s (new_ByteArray 4) 5) as [H _].
  { apply new_ByteArray_wf. lia. }
  { lia. }
  { by vm_compute. }
  destruct H as (ba' & s' & H1 & _ & H2 & H3 & _); [reflexivity|by vm_compute|].
  exists ba', s'. split; [exact H1|]. split; [|exact H3].
  apply (f_equal f_data) in H2. exact H2.
Defined.
