(* ===== verification/Zlib.v ===== *)
(** * Compressed streams ([streams/zlib_stream.h], [zlib_stream.cc])

    The loops that feed zlib and collect what it produces in blocks of [m_buff_size] bytes.
    zlib itself is an interface: a stream object with the calls the source makes. *)

From stdpp Require Import base list numbers.
From Stdlib Require Import Lia ZArith.
From S2P Require Import Prelude Endian ByteArray ByteArrayFacts ByteArrayIov.

Definition Z_NO_FLUSH : Z := 0.
Definition Z_FINISH : Z := 4.
Definition Z_OK : Z := 0.
Definition Z_STREAM_ERROR : Z := -2.
Definition Z_DEFAULT_COMPRESSION : Z := -1.
Definition Z_DEFAULT_STRATEGY : Z := 0.

(** The calls of zlib on a stream.  [deflate] and [inflate] get the input at [next_in], the
    room at [next_out] and the flush mode; they give their result, how much input they took
    and the bytes they stored. *)
Class Zlib (ZS : Type) := {
  z_null : ZS;
  deflateInit2 : Z -> Z -> Z -> Z -> Z * ZS;
  inflateInit2 : Z -> Z * ZS;
  deflate : bytes -> Z -> Z -> ZS -> Z * Z * bytes * ZS;
  inflate : bytes -> Z -> Z -> ZS -> Z * Z * bytes * ZS;
  deflateEnd : ZS -> ZS;
  inflateEnd : ZS -> ZS }.

Inductive Type_ := ZLIB | DEFLATE | GZIP.

(** A buffer is the bytes it holds: [iov_len] of [m_buff_size] allocated ones. *)
Record ZlibStream (ZS : Type) := MkZlib {
  m_encode : bool;
  m_free : bool;
  m_buff_size : Z;
  m_zstream : ZS;
  m_buffers : list bytes }.
Arguments MkZlib {ZS}.
Arguments m_encode {ZS}.
Arguments m_free {ZS}.
Arguments m_buff_size {ZS}.
Arguments m_zstream {ZS}.
Arguments m_buffers {ZS}.

Section Zlib.
Context {ZS : Type} `{!Zlib ZS}.

Definition new_ZlibStream (encode : bool) (buff_size : Z) : ZlibStream ZS :=
  MkZlib encode true buff_size z_null [].

Definition with_output (zs : ZS) (bufs : list bytes) (z : ZlibStream ZS) : ZlibStream ZS :=
  MkZlib (m_encode z) (m_free z) (m_buff_size z) zs bufs.

Definition set_free (v : bool) (z : ZlibStream ZS) : ZlibStream ZS :=
  MkZlib (m_encode z) v (m_buff_size z) (m_zstream z) (m_buffers z).
Definition set_encode (v : bool) (z : ZlibStream ZS) : ZlibStream ZS :=
  MkZlib v (m_free z) (m_buff_size z) (m_zstream z) (m_buffers z).

(** [init]; the level is one of the enumeration or 0 to 9. *)
Definition init (type : Type_) (level window_bits mem_level strategy : Z) : meth (ZlibStream ZS) Z :=
  fun z =>
    if negb (((0 <=? level) && (level <=? 9)) || (level =? Z_DEFAULT_COMPRESSION)) then (Undef AssertFail, z)
    else if negb ((8 <=? window_bits) && (window_bits <=? 15)) then (Undef AssertFail, z)
    else if negb ((1 <=? mem_level) && (mem_level <=? 9)) then (Undef AssertFail, z)
    else
      let window_bits :=
        match type with
        | DEFLATE => - window_bits
        | GZIP => window_bits + 16
        | ZLIB => window_bits
        end in
      let '(rt, zs) :=
        if m_encode z then deflateInit2 level window_bits mem_level strategy
        else inflateInit2 window_bits in
      (Ret rt, with_output zs (m_buffers z) z).

(** The last buffer when it has room, else a new one: the full ones and the open one. *)
Definition open_buffer (size : Z) (bufs : list bytes) : list bytes * bytes :=
  match reverse bufs with
  | b :: full => if zlen b =? size then (bufs, []) else (reverse full, b)
  | [] => (bufs, [])
  end.

(** The inner loop for one input: [None] when the library is done with it, else its error,
    after which the length of the open buffer is not updated. *)
Fixpoint drain (call : bytes -> Z -> Z -> ZS -> Z * Z * bytes * ZS) (fuel : nat) (size flush : Z)
    (input : bytes) (zs : ZS) (bufs : list bytes) : res (option Z * ZS * list bytes) :=
  match fuel with
  | O => Undef Diverges
  | S fuel' =>
      let (full, cur) := open_buffer size bufs in
      let '(ret, taken, out, zs) := call input (size - zlen cur) flush zs in
      if ret =? Z_STREAM_ERROR then Ret (Some ret, zs, full ++ [cur])
      else
        let bufs := full ++ [cur ++ out] in
        if size - zlen cur - zlen out =? 0
        then drain call fuel' size flush (zdrop taken input) zs bufs
        else Ret (None, zs, bufs)
  end.

(** The loop over the inputs; the last one of a finished stream is flushed. *)
Fixpoint code_loop (call : bytes -> Z -> Z -> ZS -> Z * Z * bytes * ZS) (fuel : nat) (size : Z)
    (finish : bool) (v : list bytes) (flush : Z) (zs : ZS) (bufs : list bytes)
    : res (option Z * Z * ZS * list bytes) :=
  match v with
  | [] => Ret (None, flush, zs, bufs)
  | input :: v' =>
      let flush := if finish then match v' with [] => Z_FINISH | _ => Z_NO_FLUSH end else Z_NO_FLUSH in
      let? (e, zs, bufs) := drain call fuel size flush input zs bufs in
      match e with
      | Some ret => Ret (Some ret, flush, zs, bufs)
      | None => code_loop call fuel size finish v' flush zs bufs
      end
  end.

(** [fuel] bounds the rounds of the inner loop. *)
Definition code (call : bytes -> Z -> Z -> ZS -> Z * Z * bytes * ZS) (done : ZS -> ZS) (fuel : nat)
    (v : list bytes) (finish : bool) : meth (ZlibStream ZS) Z :=
  fun z =>
    match code_loop call fuel (m_buff_size z) finish v 0 (m_zstream z) (m_buffers z) with
    | Ret (Some ret, _, zs, bufs) => (Ret ret, with_output zs bufs z)
    | Ret (None, flush, zs, bufs) =>
        (Ret Z_OK, with_output (if flush =? Z_FINISH then done zs else zs) bufs z)
    | Throw e => (Throw e, z)
    | Undef u => (Undef u, z)
    end.

Definition encode : nat -> list bytes -> bool -> meth (ZlibStream ZS) Z := code deflate deflateEnd.
Definition decode : nat -> list bytes -> bool -> meth (ZlibStream ZS) Z := code inflate inflateEnd.

Definition coder (fuel : nat) (v : list bytes) (finish : bool) : meth (ZlibStream ZS) Z :=
  fun z => if m_encode z then encode fuel v finish z else decode fuel v finish z.

(** [Create]: nothing when the library refuses. *)
Definition Create (encode : bool) (buff_size : Z) (type : Type_) (level window_bits mem_level strategy : Z)
    : res (option (ZlibStream ZS)) :=
  match init type level window_bits mem_level strategy (new_ZlibStream encode buff_size) with
  | (Ret rt, z) => Ret (if rt =? Z_OK then Some z else None)
  | (Throw e, _) => Throw e
  | (Undef u, _) => Undef u
  end.

(** The default arguments. *)
Definition Create_default (encode : bool) (buff_size : Z) (type : Type_) : res (option (ZlibStream ZS)) :=
  Create encode buff_size type Z_DEFAULT_COMPRESSION 15 8 Z_DEFAULT_STRATEGY.

Definition CreateGzip (encode : bool) (buff_size : Z) := Create_default encode buff_size GZIP.
Definition CreateZlib (encode : bool) (buff_size : Z) := Create_default encode buff_size ZLIB.
Definition CreateDeflate (encode : bool) (buff_size : Z) := Create_default encode buff_size DEFLATE.

Definition z_read : meth (ZlibStream ZS) Z := fun z => (Throw logic_error, z).

Definition z_write (fuel : nat) (buffer : bytes) : meth (ZlibStream ZS) Z := coder fuel [buffer] false.

(** [write(ba, len)] takes the address of the first of the buffers; the position of the
    array stays. *)
Definition z_write_ba (fuel : nat) (ba : ByteArray) (len : Z) : meth (ZlibStream ZS) Z :=
  fun z =>
    match get_enable_read_buffers len ba with
    | Ret ([], _) => (Undef BufferOverflow, z)
    | Ret (vs, _) => coder fuel (map (iov_get (m_nodes ba)) vs) false z
    | Throw e => (Throw e, z)
    | Undef u => (Undef u, z)
    end.

Definition z_flush (fuel : nat) : meth (ZlibStream ZS) Z := coder fuel [[]] true.
Definition z_close (fuel : nat) : meth (ZlibStream ZS) unit := let! _ := z_flush fuel in ret tt.

Definition get_result (z : ZlibStream ZS) : bytes := concat (m_buffers z).

(** [ByteArray()] has blocks of 4096 bytes. *)
Definition get_byte_array (z : ZlibStream ZS) : res ByteArray :=
  let? ba := foldl (fun r b => let? ba := r in
                               match write b ba with
                               | (Ret _, ba) => Ret ba
                               | (Throw e, _) => Throw e
                               | (Undef u, _) => Undef u
                               end) (Ret (new_ByteArray 4096)) (m_buffers z) in
  match set_position 0 ba with
  | (Ret _, ba) => Ret ba
  | (Throw e, _) => Throw e
  | (Undef u, _) => Undef u
  end.

(** The destructor: what becomes of the library's stream. *)
Definition destroy (z : ZlibStream ZS) : ZS :=
  if m_encode z then deflateEnd (m_zstream z) else inflateEnd (m_zstream z).
End Zlib.
