(* ===== verification/ZlibProps.v ===== *)
(** * Compressed streams: what goes in comes out

    The documented behaviour of zlib as laws, the blocks of the stream as an invariant, and
    the round trip through two streams of any block sizes. *)

From stdpp Require Import base list numbers strings.
From Stdlib Require Import Lia ZArith.
From S2P Require Import Prelude Endian ByteArray ByteArrayFacts ByteArrayIov Zlib.

(** ** The laws of zlib *)

(** One direction of the library.  For an input and a flush mode a stream has certain bytes
    still to give ([produce]) and a state it is in when it has given them ([after]).  A call
    stores as many of them as there is room for; when there is room left it is done with the
    input.  An ended stream refuses the call. *)
Record direction {ZS} (call : bytes -> Z -> Z -> ZS -> Z * Z * bytes * ZS) (live : ZS -> bool) := {
  produce : bytes -> Z -> ZS -> bytes;
  after : bytes -> Z -> ZS -> ZS;
  call_live input room flush zs : live zs = true -> 0 < room ->
    exists ret n zs', call input room flush zs = (ret, n, ztake room (produce input flush zs), zs') /\
      ret <> Z_STREAM_ERROR /\ live zs' = true /\
      if zlen (produce input flush zs) <? room then zs' = after input flush zs
      else produce (zdrop n input) flush zs' = zdrop room (produce input flush zs) /\
           after (zdrop n input) flush zs' = after input flush zs;
  call_ended input room flush zs : live zs = false ->
    exists n zs', call input room flush zs = (Z_STREAM_ERROR, n, [], zs') /\ live zs' = false }.
Arguments produce {ZS call live} d.
Arguments after {ZS call live} d.
Arguments call_live {ZS call live} d.
Arguments call_ended {ZS call live} d.

(** All the bytes a stream gives for pieces of input and the end. *)
Fixpoint all_output {ZS call live} (d : @direction ZS call live) (ps : list bytes) (zs : ZS) : bytes :=
  match ps with
  | [] => produce d [] Z_FINISH zs
  | p :: ps => produce d p Z_NO_FLUSH zs ++ all_output d ps (after d p Z_NO_FLUSH zs)
  end.

Class ZlibLaws (ZS : Type) `{!Zlib ZS} := {
  live : ZS -> bool;
  deflating : direction deflate live;
  inflating : direction inflate live;
  after_live_deflate b f zs : live zs = true -> live (after deflating b f zs) = true;
  after_live_inflate b f zs : live zs = true -> live (after inflating b f zs) = true;
  deflate_ends zs : live (deflateEnd zs) = false;
  inflate_ends zs : live (inflateEnd zs) = false;
  deflate_starts l w m s zs : deflateInit2 l w m s = (Z_OK, zs) -> live zs = true;
  inflate_starts w zs : inflateInit2 w = (Z_OK, zs) -> live zs = true;
  (** what [deflate] gives, cut in any pieces, is inflated to what was deflated *)
  inflate_deflate l w m s ze zd ps qs :
    deflateInit2 l w m s = (Z_OK, ze) -> inflateInit2 w = (Z_OK, zd) ->
    concat qs = all_output deflating ps ze -> all_output inflating qs zd = concat ps }.

(** ** The blocks *)

(** All blocks but the last are full, and none is longer. *)
Definition blocks_ok (size : Z) (bufs : list bytes) : Prop :=
  bufs = [] \/ exists full cur, bufs = full ++ [cur] /\ Forall (fun b => zlen b = size) full /\ zlen cur <= size.

Lemma open_buffer_ok size bufs : 0 < size -> blocks_ok size bufs ->
  exists full cur, open_buffer size bufs = (full, cur) /\ Forall (fun b => zlen b = size) full /\
    zlen cur < size /\ concat full ++ cur = concat bufs.
Proof.
  intros Hs [->|(full & cur & -> & Hf & Hc)]; unfold open_buffer.
  - exists [], []. split; [done|]. split; [constructor|]. split; [rewrite zlen_nil; lia|done].
  - rewrite reverse_snoc. destruct (Z.eqb_spec (zlen cur) size) as [E|E].
    + exists (full ++ [cur]), []. split; [done|]. split; [|by rewrite zlen_nil, app_nil_r].
      apply Forall_app. split; [done|]. by constructor.
    + exists full, cur. rewrite reverse_involutive. split; [done|]. split; [done|]. split; [lia|].
      rewrite concat_app. cbn. by rewrite app_nil_r.
Qed.

Section Direction.
Context {ZS : Type} {call : bytes -> Z -> Z -> ZS -> Z * Z * bytes * ZS} {live : ZS -> bool}.
Context (d : direction call live) (size : Z) (Hsize : 0 < size).

(** The inner loop stores everything the library has for the input. *)
Lemma drain_ok fuel : forall input flush zs bufs,
  live zs = true -> blocks_ok size bufs -> (Z.to_nat (zlen (produce d input flush zs)) < fuel)%nat ->
  exists bufs', drain call fuel size flush input zs bufs = Ret (None, after d input flush zs, bufs') /\
    concat bufs' = concat bufs ++ produce d input flush zs /\ blocks_ok size bufs'.
Proof.
  induction fuel as [|fuel IH]; intros input flush zs bufs Hl Hb Hf; [lia|]. cbn [drain].
  destruct (open_buffer_ok size bufs Hsize Hb) as (full & cur & -> & Hfull & Hcur & Hcat).
  pose proof (zlen_nonneg (produce d input flush zs)) as Hp.
  destruct (call_live d input (size - zlen cur) flush zs Hl ltac:(lia)) as (ret & n & zs' & -> & Hret & Hl' & Hc).
  destruct (Z.eqb_spec ret Z_STREAM_ERROR); [done|].
  set (out := produce d input flush zs) in *.
  assert (concat (full ++ [cur ++ ztake (size - zlen cur) out]) = concat bufs ++ ztake (size - zlen cur) out) as Hcat'.
  { rewrite <- Hcat, concat_app. cbn. by rewrite app_nil_r, app_assoc. }
  destruct (Z.ltb_spec (zlen out) (size - zlen cur)) as [Hlt|Hge].
  - subst zs'. rewrite ztake_all in * by lia.
    destruct (Z.eqb_spec (size - zlen cur - zlen out) 0); [lia|].
    eexists. split; [reflexivity|]. split; [done|]. right. exists full, (cur ++ out).
    split; [done|]. split; [done|]. rewrite zlen_app. lia.
  - destruct Hc as [Hpr Haf]. rewrite zlen_ztake by lia.
    destruct (Z.eqb_spec (size - zlen cur - (size - zlen cur)) 0); [|lia].
    destruct (IH (zdrop n input) flush zs' (full ++ [cur ++ ztake (size - zlen cur) out])) as (bufs' & E & Hc' & Hb').
    + done.
    + right. exists full, (cur ++ ztake (size - zlen cur) out). split; [done|]. split; [done|].
      rewrite zlen_app, zlen_ztake by lia. lia.
    + rewrite Hpr, zlen_zdrop by lia. lia.
    + exists bufs'. rewrite E, Haf. split; [done|]. split; [|done].
      rewrite Hc', Hcat', Hpr, <- app_assoc. by rewrite ztake_zdrop.
Qed.

Lemma drain_ended fuel input flush zs bufs : live zs = false -> blocks_ok size bufs ->
  exists zs' bufs', drain call (S fuel) size flush input zs bufs = Ret (Some Z_STREAM_ERROR, zs', bufs') /\
    live zs' = false /\ concat bufs' = concat bufs /\ blocks_ok size bufs'.
Proof.
  intros Hl Hb. cbn [drain].
  destruct (open_buffer_ok size bufs Hsize Hb) as (full & cur & -> & Hfull & Hcur & Hcat).
  destruct (call_ended d input (size - zlen cur) flush zs Hl) as (n & zs' & -> & Hl').
  exists zs', (full ++ [cur]). split; [done|]. split; [done|]. split.
  - rewrite <- Hcat, concat_app. cbn. by rewrite app_nil_r.
  - right. exists full, cur. split; [done|]. split; [done|lia].
Qed.
End Direction.

(** ** A stream *)

Section Stream.
Context {ZS : Type} `{!Zlib ZS} `{!ZlibLaws ZS}.

Definition z_ok (z : ZlibStream ZS) : Prop := 0 < m_buff_size z /\ blocks_ok (m_buff_size z) (m_buffers z).

(** What the stream gives for an input, and what becomes of the library's state. *)
Definition gives (z : ZlibStream ZS) (b : bytes) (flush : Z) : bytes :=
  if m_encode z then produce deflating b flush (m_zstream z) else produce inflating b flush (m_zstream z).

Definition goes (z : ZlibStream ZS) (b : bytes) (flush : Z) : ZS :=
  if m_encode z then after deflating b flush (m_zstream z) else after inflating b flush (m_zstream z).

Definition ends (z : ZlibStream ZS) (zs : ZS) : ZS := if m_encode z then deflateEnd zs else inflateEnd zs.

(** A stream that differs in the library's state and in the blocks only. *)
Definition same_settings (z z' : ZlibStream ZS) : Prop :=
  m_encode z' = m_encode z /\ m_buff_size z' = m_buff_size z.

Lemma coder_live fuel b (finish : bool) z :
  let flush := if finish then Z_FINISH else Z_NO_FLUSH in
  z_ok z -> live (m_zstream z) = true -> (Z.to_nat (zlen (gives z b flush)) < fuel)%nat ->
  exists z', coder fuel [b] finish z = (Ret Z_OK, z') /\ same_settings z z' /\ z_ok z' /\
    get_result z' = get_result z ++ gives z b flush /\
    m_zstream z' = if finish then ends z (goes z b flush) else goes z b flush.
Proof.
  intros flush [Hs Hb] Hl. unfold coder, encode, decode, code, gives, goes, ends, get_result.
  destruct z as [enc fr size zs bufs]. cbn [m_encode m_free m_buff_size m_zstream m_buffers] in *.
  cbn [code_loop]. fold flush. destruct enc; intros Hf.
  - destruct (drain_ok deflating size Hs fuel b flush zs bufs Hl Hb Hf) as (bufs' & -> & Hc & Hb').
    cbn [res_bind]. subst flush. destruct finish; (eexists; split; [reflexivity|]; split; [done|]; by split).
  - destruct (drain_ok inflating size Hs fuel b flush zs bufs Hl Hb Hf) as (bufs' & -> & Hc & Hb').
    cbn [res_bind]. subst flush. destruct finish; (eexists; split; [reflexivity|]; split; [done|]; by split).
Qed.

Lemma coder_ended fuel b finish z : z_ok z -> live (m_zstream z) = false ->
  exists z', coder (S fuel) [b] finish z = (Ret Z_STREAM_ERROR, z') /\ get_result z' = get_result z /\
    z_ok z' /\ live (m_zstream z') = false.
Proof.
  intros [Hs Hb] Hl. unfold coder, encode, decode, code, get_result.
  destruct z as [enc fr size zs bufs]. cbn [m_encode m_free m_buff_size m_zstream m_buffers] in *.
  cbn [code_loop]. set (flush := if finish then _ else _). destruct enc.
  - destruct (drain_ended deflating size Hs fuel b flush zs bufs Hl Hb) as (zs' & bufs' & -> & Hl' & Hc & Hb').
    cbn [res_bind]. eexists. by split.
  - destruct (drain_ended inflating size Hs fuel b flush zs bufs Hl Hb) as (zs' & bufs' & -> & Hl' & Hc & Hb').
    cbn [res_bind]. eexists. by split.
Qed.

(** Pieces written one after the other, then the flush. *)
Fixpoint put_all (fuel : nat) (ps : list bytes) : meth (ZlibStream ZS) Z :=
  match ps with
  | [] => z_flush fuel
  | p :: ps => let! _ := z_write fuel p in put_all fuel ps
  end.

Definition whole (z : ZlibStream ZS) (ps : list bytes) : bytes :=
  if m_encode z then all_output deflating ps (m_zstream z) else all_output inflating ps (m_zstream z).

Lemma goes_live z b f : live (m_zstream z) = true -> live (goes z b f) = true.
Proof. intros. unfold goes. destruct (m_encode z); by (apply after_live_deflate || apply after_live_inflate). Qed.

Lemma ends_live z zs : live (ends z zs) = false.
Proof. unfold ends. destruct (m_encode z); (apply deflate_ends || apply inflate_ends). Qed.

Lemma whole_cons z z' p ps : same_settings z z' -> m_zstream z' = goes z p Z_NO_FLUSH ->
  whole z (p :: ps) = gives z p Z_NO_FLUSH ++ whole z' ps.
Proof.
  intros [He _] Hz. unfold whole, gives. rewrite He, Hz. unfold goes. by destruct (m_encode z).
Qed.

(** One more round than bytes come out is enough for every loop. *)
Lemma put_all_ok fuel ps : forall z, z_ok z -> live (m_zstream z) = true ->
  (Z.to_nat (zlen (whole z ps)) < fuel)%nat ->
  exists z', put_all fuel ps z = (Ret Z_OK, z') /\ z_ok z' /\
    get_result z' = get_result z ++ whole z ps /\ live (m_zstream z') = false.
Proof.
  induction ps as [|p ps IH]; intros z Hz Hl Hf.
  - assert (whole z [] = gives z [] Z_FINISH) as E0 by (unfold whole, gives; by destruct (m_encode z)).
    rewrite E0 in *. destruct (coder_live fuel [] true z Hz Hl Hf) as (z' & E & Hs & Hz' & Hr & Hzs).
    exists z'. split; [exact E|]. split; [done|]. split; [done|]. rewrite Hzs. apply ends_live.
  - set (z0 := MkZlib (m_encode z) (m_free z) (m_buff_size z) (goes z p Z_NO_FLUSH) []).
    pose proof (whole_cons z z0 p ps ltac:(done) eq_refl) as E0. rewrite E0, zlen_app in Hf.
    pose proof (zlen_nonneg (whole z0 ps)). pose proof (zlen_nonneg (gives z p Z_NO_FLUSH)).
    destruct (coder_live fuel p false z Hz Hl ltac:(cbn; lia)) as (z' & E & Hs & Hz' & Hr & Hzs).
    cbn [put_all]. unfold z_write. rewrite (bind_ret _ _ _ _ _ E).
    rewrite (whole_cons z z' p ps Hs Hzs) in *.
    assert (whole z' ps = whole z0 ps) as Ew by (by apply app_inv_head in E0).
    destruct (IH z' Hz') as (z2 & E2 & Hz2 & Hr2 & Hl2); [by rewrite Hzs; apply goes_live|rewrite Ew; lia|].
    exists z2. split; [done|]. split; [done|]. split; [|done]. by rewrite Hr2, Hr, <- app_assoc.
Qed.

(** The window bits that [init] passes on. *)
Definition bits_of (type : Type_) : Z := match type with DEFLATE => -15 | GZIP => 31 | ZLIB => 15 end.

Lemma create_ok encode size type z : Create_default encode size type = Ret (Some z) -> 0 < size ->
  z_ok z /\ live (m_zstream z) = true /\ m_encode z = encode /\ get_result z = [] /\
  if encode then deflateInit2 Z_DEFAULT_COMPRESSION (bits_of type) 8 Z_DEFAULT_STRATEGY = (Z_OK, m_zstream z)
  else inflateInit2 (bits_of type) = (Z_OK, m_zstream z).
Proof.
  intros H Hs. unfold Create_default, Create in H.
  assert (init type Z_DEFAULT_COMPRESSION 15 8 Z_DEFAULT_STRATEGY (new_ZlibStream encode size) =
    let '(rt, zs) := if encode then deflateInit2 Z_DEFAULT_COMPRESSION (bits_of type) 8 Z_DEFAULT_STRATEGY
                     else inflateInit2 (bits_of type) in
    (Ret rt, MkZlib encode true size zs [])) as E by (by destruct type). rewrite E in H. clear E.
  destruct encode.
  - destruct (deflateInit2 _ (bits_of type) 8 _) as [rt zs] eqn:E. destruct (Z.eqb_spec rt Z_OK) as [->|]; [|done].
    injection H as <-. split; [split; [done|by left]|]. split; [by eapply deflate_starts|]. by split.
  - destruct (inflateInit2 (bits_of type)) as [rt zs] eqn:E. destruct (Z.eqb_spec rt Z_OK) as [->|]; [|done].
    injection H as <-. split; [split; [done|by left]|]. split; [by eapply inflate_starts|]. by split.
Qed.

(** C19: What is compressed by one stream is decompressed by another to the same bytes: for
    every format, any sizes of the blocks, any pieces in which the bytes are written and any
    pieces in which the compressed bytes are.  Both streams report success, and with more
    rounds than bytes come out no loop stops early.  Afterwards both are closed: a further
    write is refused and changes nothing. *)
Theorem zlib_roundtrip type size size' ze zd ps :
  0 < size -> 0 < size' ->
  Create_default true size type = Ret (Some ze) -> Create_default false size' type = Ret (Some zd) ->
  exists f0, forall fuel, (f0 <= fuel)%nat -> exists ze', put_all fuel ps ze = (Ret Z_OK, ze') /\
    (forall b, exists ze'', z_write fuel b ze' = (Ret Z_STREAM_ERROR, ze'') /\ get_result ze'' = get_result ze') /\
    forall qs fuel', concat qs = get_result ze' -> (Z.to_nat (zlen (concat ps)) < fuel')%nat ->
      exists zd', put_all fuel' qs zd = (Ret Z_OK, zd') /\ get_result zd' = concat ps /\
        forall b, exists zd'', z_write fuel' b zd' = (Ret Z_STREAM_ERROR, zd'') /\ get_result zd'' = concat ps.
Proof.
  intros Hs Hs' He Hd. destruct (create_ok _ _ _ _ He Hs) as (Hze & Hle & Hee & Hre & Hie).
  destruct (create_ok _ _ _ _ Hd Hs') as (Hzd & Hld & Hed & Hrd & Hid).
  exists (S (Z.to_nat (zlen (whole ze ps)))). intros fuel Hf.
  destruct (put_all_ok fuel ps ze Hze Hle ltac:(lia)) as (ze' & E & Hze' & Hr & Hl).
  exists ze'. split; [done|]. destruct fuel as [|fuel]; [lia|]. split.
  { intros b. destruct (coder_ended fuel b false ze' Hze' Hl) as (z2 & E2 & Hr2 & _). by exists z2. }
  intros qs fuel' Hq Hf'. rewrite Hr, Hre, app_nil_l in Hq. unfold whole in Hq. rewrite Hee in Hq.
  pose proof (inflate_deflate _ _ _ _ _ _ ps qs Hie Hid Hq) as Hall.
  assert (whole zd qs = concat ps) as Hw by (unfold whole; by rewrite Hed).
  destruct (put_all_ok fuel' qs zd Hzd Hld) as (zd' & E' & Hzd' & Hr' & Hl'); [by rewrite Hw|].
  rewrite Hrd, Hw, app_nil_l in Hr'. exists zd'. split; [done|]. split; [done|]. intros b.
  destruct fuel' as [|fuel']; [lia|].
  destruct (coder_ended fuel' b false zd' Hzd' Hl') as (z2 & E2 & Hr2 & _). exists z2.
  split; [done|]. by rewrite Hr2.
Qed.

(** The result as a byte array. *)
Lemma fill_ok bufs : forall ba,
  wf ba -> m_position ba = m_size ba -> m_base_size ba = 4096 ->
  storage ba + zlen (concat bufs) + 8192 * (zlen bufs + 1) < 2 ^ 64 ->
  exists ba', foldl (fun r b => let? ba := r in
      match write b ba with (Ret _, ba) => Ret ba | (Throw e, _) => Throw e | (Undef u, _) => Undef u end)
      (Ret ba) bufs = Ret ba' /\ wf ba' /\ data ba' = data ba ++ concat bufs /\ m_endian ba' = m_endian ba.
Proof.
  induction bufs as [|b bufs IH]; intros ba Hwf Hp Hb Hr; cbn [foldl concat].
  { exists ba. by rewrite app_nil_r. }
  cbn [concat] in Hr. rewrite zlen_app, zlen_cons in Hr.
  pose proof (zlen_nonneg b). pose proof (zlen_nonneg (concat bufs)). pose proof (zlen_nonneg bufs).
  destruct (write_ok b ba Hwf) as (ba1 & E & Hwf1 & Habs & Hb1 & Hst); [unfold room; lia|].
  cbn [res_bind]. rewrite E. unfold abs, a_write in Habs. cbn [f_data f_pos f_endian] in Habs.
  injection Habs as Hd1 Hp1 He1. pose proof (zlen_data ba Hwf) as Hz. pose proof (zlen_data ba1 Hwf1) as Hz1.
  assert (data ba1 = data ba ++ b) as Hd.
  { rewrite Hd1. unfold splice. rewrite ztake_all, zdrop_all, app_nil_r by lia. done. }
  destruct (IH ba1) as (ba' & E' & Hwf' & Hd' & He'); [done| |lia|lia|].
  { rewrite Hd, zlen_app in Hz1. lia. }
  exists ba'. split; [done|]. split; [done|]. split; [by rewrite Hd', Hd, <- app_assoc|congruence].
Qed.

Lemma get_byte_array_ok (z : ZlibStream ZS) :
  zlen (get_result z) + 8192 * (zlen (m_buffers z) + 2) < 2 ^ 64 ->
  exists ba, get_byte_array z = Ret ba /\ wf ba /\ abs ba = MkFlat (get_result z) 0 BIG_ENDIAN.
Proof.
  intros Hr. unfold get_byte_array. pose proof (zlen_nonneg (m_buffers z)).
  pose proof (new_ByteArray_wf 4096 ltac:(lia)) as Hwf.
  destruct (fill_ok (m_buffers z) (new_ByteArray 4096) Hwf) as (ba & -> & Hwf' & Hd & He); [done|done| |].
  { unfold storage, get_result in *. cbn [new_ByteArray m_base_size m_nodes]. rewrite zlen_cons, zlen_nil. lia. }
  cbn [res_bind]. destruct (set_position_abs 0 ba Hwf') as (ba' & -> & Hwf2 & Habs & _).
  { pose proof (wf_pos ba Hwf'). lia. }
  exists ba'. split; [done|]. split; [done|]. rewrite Habs, Hd, He. done.
Qed.

(** ** Errors *)

Lemma drain_result call fuel : forall size flush input (zs : ZS) bufs e zs' bufs',
  drain call fuel size flush input zs bufs = Ret (e, zs', bufs') -> e = None \/ e = Some Z_STREAM_ERROR.
Proof.
  induction fuel as [|fuel IH]; intros size flush input zs bufs e zs' bufs' H; [done|]. cbn [drain] in H.
  destruct (open_buffer size bufs) as [full cur]. destruct (call _ _ _ _) as [[[ret n] out] zs1].
  destruct (Z.eqb_spec ret Z_STREAM_ERROR) as [->|]; [injection H as <- _ _; by right|].
  destruct (_ =? 0); [by eapply IH|]. injection H as <- _ _. by left.
Qed.

Lemma code_loop_result call fuel size finish v : forall flush (zs : ZS) bufs e fl zs' bufs',
  code_loop call fuel size finish v flush zs bufs = Ret (e, fl, zs', bufs') -> e = None \/ e = Some Z_STREAM_ERROR.
Proof.
  induction v as [|b v IH]; intros flush zs bufs e fl zs' bufs' H; cbn [code_loop] in H.
  { injection H as <- _ _ _. by left. }
  destruct (drain call fuel size _ b zs bufs) as [[[e1 zs1] bufs1]|x|u] eqn:E; [|done..]. cbn [res_bind] in H.
  destruct (drain_result _ _ _ _ _ _ _ _ _ _ E) as [->| ->]; [by eapply IH|]. injection H as <- _ _ _. by right.
Qed.

Lemma drain_spins call fuel : forall flush input (zs : ZS) bufs,
  (forall input zs, exists ret n zs', call input 0 flush zs = (ret, n, [], zs') /\ ret <> Z_STREAM_ERROR) ->
  Forall (fun b => b = []) bufs ->
  drain call fuel 0 flush input zs bufs = Undef Diverges.
Proof.
  induction fuel as [|fuel IH]; intros flush input zs bufs Hc Hb; [done|]. cbn [drain].
  assert (exists full, open_buffer 0 bufs = (full, []) /\ Forall (fun b => b = []) full) as (full & -> & Hfull).
  { unfold open_buffer. destruct (reverse bufs) as [|b r] eqn:E; [by exists bufs|].
    pose proof Hb as Hb'. rewrite <- (reverse_involutive bufs), E, reverse_cons in Hb'.
    apply Forall_app in Hb' as [_ [-> _]%Forall_cons]. by exists bufs. }
  destruct (Hc input zs) as (ret & n & zs' & E & Hret).
  change (0 - zlen (@nil Z)) with 0. rewrite E. destruct (Z.eqb_spec ret Z_STREAM_ERROR); [done|].
  apply IH; [done|]. apply Forall_app. split; [done|]. by constructor.
Qed.

(** A stream reports [Z_OK] or [Z_STREAM_ERROR] and nothing else: the other errors of the
    library, such as damaged data, are reported as success, and nothing is stored for them.
    With blocks of no bytes a write never returns. *)
Theorem zlib_results :
  (forall fuel v finish z r z', coder fuel v finish z = (Ret r, z') -> r = Z_OK \/ r = Z_STREAM_ERROR) /\
  (forall fuel b z, z_ok z -> m_encode z = false ->
     (forall room, exists ret n zs', inflate b room Z_NO_FLUSH (m_zstream z) = (ret, n, [], zs') /\
        ret <> Z_STREAM_ERROR) ->
     exists z', z_write (S fuel) b z = (Ret Z_OK, z') /\ get_result z' = get_result z) /\
  (forall fuel b z, m_buff_size z = 0 -> m_buffers z = [] -> m_encode z = false ->
     (forall input zs, exists ret n zs', inflate input 0 Z_NO_FLUSH zs = (ret, n, [], zs') /\ ret <> Z_STREAM_ERROR) ->
     (z_write fuel b z).1 = Undef Diverges).
Proof.
  split_and!.
  - intros fuel v finish z r z'. unfold coder, encode, decode, code.
    destruct (m_encode z); destruct (code_loop _ _ _ _ _ _ _ _) as [[[[e fl] zs'] bufs']|x|u] eqn:E;
      try discriminate; destruct (code_loop_result _ _ _ _ _ _ _ _ _ _ _ _ E) as [->| ->];
      intros [= <- _]; auto.
  - intros fuel b z [Hs Hb] He Hi. unfold z_write, coder, decode, code. rewrite He. cbn [code_loop drain].
    destruct (open_buffer_ok _ _ Hs Hb) as (full & cur & -> & Hfull & Hcur & Hcat).
    destruct (Hi (m_buff_size z - zlen cur)) as (ret & n & zs' & -> & Hret).
    destruct (Z.eqb_spec ret Z_STREAM_ERROR); [done|]. rewrite zlen_nil.
    destruct (Z.eqb_spec (m_buff_size z - zlen cur - 0) 0); [lia|]. cbn [res_bind].
    eexists. split; [reflexivity|]. unfold get_result. cbn [with_output m_buffers].
    rewrite <- Hcat, app_nil_r, concat_app. cbn. by rewrite app_nil_r.
  - intros fuel b z Hs Hb He Hi. unfold z_write, coder, decode, code. rewrite He, Hs, Hb. cbn [code_loop].
    by rewrite drain_spins.
Qed.
End Stream.

(** ** A library that satisfies the laws *)

(** A codec that copies, with the bytes it could not store yet. *)
Definition copy_state : Type := bool * bytes.

Definition copy_call (input : bytes) (room flush : Z) (zs : copy_state) : Z * Z * bytes * copy_state :=
  if zs.1 then
    let out := zs.2 ++ input in (0, zlen input, ztake room out, (true, zdrop room out))
  else (Z_STREAM_ERROR, 0, [], zs).

#[export] Instance copy_zlib : Zlib copy_state := {|
  z_null := (false, []);
  deflateInit2 _ _ _ _ := (0, (true, []));
  inflateInit2 _ := (0, (true, []));
  deflate := copy_call;
  inflate := copy_call;
  deflateEnd _ := (false, []);
  inflateEnd _ := (false, []) |}.

Definition copy_direction : direction copy_call (fun zs : copy_state => zs.1).
Proof.
  refine {| produce := fun input _ zs => zs.2 ++ input; after := fun _ _ zs => (zs.1, []) |}.
  - intros input room flush [l p] Hl Hr. cbn in Hl. subst l. unfold copy_call. cbn [fst snd].
    eexists 0, (zlen input), _. split; [reflexivity|]. split; [done|]. split; [done|].
    destruct (Z.ltb_spec (zlen (p ++ input)) room); cbn [fst snd].
    + by rewrite zdrop_all by lia.
    + rewrite (zdrop_all (zlen input) input) by lia. by rewrite app_nil_r.
  - intros input room flush [l p] Hl. cbn in Hl. subst l. by eexists 0, _.
Defined.

Lemma copy_output ps : forall l, all_output copy_direction ps (l, []) = concat ps.
Proof. induction ps as [|p ps IH]; intros l; [done|]. cbn [all_output concat]. cbn. by rewrite IH. Qed.

#[export] Instance copy_laws : ZlibLaws copy_state.
Proof.
  refine {| live := fun zs => zs.1; deflating := copy_direction; inflating := copy_direction |}; try done.
  - by intros l w m s zs [= <-].
  - by intros w zs [= <-].
  - intros l w m s ze zd ps qs [= <-] [= <-] Hq. by rewrite copy_output in *.
Defined.

Definition packer : ZlibStream copy_state := with_output (true, []) [] (new_ZlibStream true 2).
Definition unpacker : ZlibStream copy_state := with_output (true, []) [] (new_ZlibStream false 3).

Lemma zlib_roundtrip_witness :
  exists fuel ze', put_all fuel [str "hel"; str "lo"] packer = (Ret Z_OK, ze') /\
    exists zd', put_all 9 [get_result ze'] unpacker = (Ret Z_OK, zd') /\ get_result zd' = str "hello".
Proof.
  destruct (@zlib_roundtrip _ copy_zlib copy_laws GZIP 2 3 packer unpacker [str "hel"; str "lo"] eq_refl eq_refl eq_refl eq_refl)
    as [f0 H].
  destruct (H f0 (le_n f0)) as (ze' & E & _ & Hd). exists f0, ze'. split; [exact E|].
  destruct (Hd [get_result ze'] 9%nat) as (zd' & E' & Hr & _); [cbn; apply app_nil_r|vm_compute; lia|].
  exists zd'. split; [exact E'|exact Hr].
Defined.

(** A library whose [inflate] finds the data damaged. *)
Definition damaged_zlib : Zlib copy_state := {|
  z_null := (false, []);
  deflateInit2 _ _ _ _ := (0, (true, []));
  inflateInit2 _ := (0, (true, []));
  deflate := copy_call;
  inflate input room flush zs := (-3, 0, [], zs);
  deflateEnd _ := (false, []);
  inflateEnd _ := (false, []) |}.

Lemma zlib_results_witness :
  exists z', @z_write _ damaged_zlib 1 (str "x") unpacker = (Ret Z_OK, z') /\ get_result z' = [].
Proof.
  apply (proj1 (proj2 (@zlib_results _ damaged_zlib)) 0%nat (str "x") unpacker).
  - split; [reflexivity|by left].
  - reflexivity.
  - intros room. exists (-3), 0, (true, []). split; [reflexivity|discriminate].
Defined.
