(* ===== verification/HttpParser.v ===== *)
(** * The HTTP parsers ([servers/http/http_parser.h], [http_parser.cc])

    The callbacks that fill a request or a response, and the objects around the state
    machines.  The machines that Ragel generates ([http_request_parser.rl],
    [http_response_parser.rl]) are an interface here, which [HttpGrammar] implements; the code
    of those files around the machines is modelled.  The build keeps the assertions. *)

From stdpp Require Import base list numbers strings.
From Stdlib Require Import Lia ZArith.
From S2P Require Import Prelude Http.

(** ** The machines *)

(** The structures, with the states of a machine for the numbers in [cs]. *)
Record http_request_parser_of (cs_t : Type) := MkReqParser {
  rq_cs : cs_t;
  rq_body_start : Z;
  rq_content_len : Z;
  rq_nread : Z;
  rq_mark : Z;
  rq_field_start : Z;
  rq_field_len : Z;
  rq_query_start : Z;
  rq_xml_sent : Z;
  rq_json_sent : Z;
  rq_uri_relaxed : Z }.
Arguments MkReqParser {cs_t}.
Arguments rq_cs {cs_t}.
Arguments rq_body_start {cs_t}.
Arguments rq_content_len {cs_t}.
Arguments rq_nread {cs_t}.
Arguments rq_mark {cs_t}.
Arguments rq_field_start {cs_t}.
Arguments rq_field_len {cs_t}.
Arguments rq_query_start {cs_t}.
Arguments rq_xml_sent {cs_t}.
Arguments rq_json_sent {cs_t}.
Arguments rq_uri_relaxed {cs_t}.

Record http_response_parser_of (cs_t : Type) := MkRspParser {
  rs_cs : cs_t;
  rs_body_start : Z;
  rs_content_len : Z;
  rs_status : Z;
  rs_chunked : Z;
  rs_chunks_done : Z;
  rs_close : Z;
  rs_nread : Z;
  rs_mark : Z;
  rs_field_start : Z;
  rs_field_len : Z }.
Arguments MkRspParser {cs_t}.
Arguments rs_cs {cs_t}.
Arguments rs_body_start {cs_t}.
Arguments rs_content_len {cs_t}.
Arguments rs_status {cs_t}.
Arguments rs_chunked {cs_t}.
Arguments rs_chunks_done {cs_t}.
Arguments rs_close {cs_t}.
Arguments rs_nread {cs_t}.
Arguments rs_mark {cs_t}.
Arguments rs_field_start {cs_t}.
Arguments rs_field_len {cs_t}.

(** The elements that callbacks are called for. *)
Inductive element :=
| request_method | request_uri | fragment | request_path | query_string
| reason_phrase | status_code | chunk_size | last_chunk
| http_version | header_done.

(** A call of a callback: offsets into the buffer and lengths. *)
Inductive event :=
| Element (k : element) (at_ length : Z)
| Field (field flen value vlen : Z).

(** A machine runs on a buffer from the state in the structure.  It gives the structure with
    the members its actions set, the state it ends in, how far it came and the calls it made
    in order. *)
Class RequestMachine := {
  request_state : Type;
  request_start : request_state;
  request_final : request_state -> bool;
  request_failed : request_state -> bool;
  request_exec : http_request_parser_of request_state -> bytes ->
    http_request_parser_of request_state * request_state * Z * list event }.

Class ResponseMachine := {
  response_state : Type;
  response_start : response_state;
  response_final : response_state -> bool;
  response_failed : response_state -> bool;
  response_exec : http_response_parser_of response_state -> bytes ->
    http_response_parser_of response_state * response_state * Z * list event }.

Definition http_request_parser {machine : RequestMachine} : Type := http_request_parser_of request_state.
Definition http_response_parser {machine : ResponseMachine} : Type := http_response_parser_of response_state.

(** [std::string(at, length)] of a pointer into the buffer. *)
Definition cut (off len : Z) (buffer : bytes) : res bytes :=
  if (0 <=? off) && (0 <=? len) && (off + len <=? zlen buffer) then Ret (slice off len buffer)
  else Undef BufferOverflow.

(** [strncmp(a, b, n) == 0]. *)
Definition strncmp_eq (a b : bytes) (n : Z) : bool := bool_decide (ztake n (c_chars a) = ztake n (c_chars b)).

Definition OK : Z := 0.
Definition INVALID_METHOD_ERROR : Z := -1001.
Definition INVALID_VERSION_ERROR : Z := -1000.

(** The version both kinds of message know. *)
Definition version_of (at_ : bytes) (length : Z) : option Z :=
  if strncmp_eq at_ (str "HTTP/1.1") length then Some 17
  else if strncmp_eq at_ (str "HTTP/1.0") length then Some 16
  else None.

(** ** Requests *)

Section Request.
Context {machine : RequestMachine}.

Record HTTPRequestParser := MkRequestParser {
  rq_parser : http_request_parser;
  rq_data : HTTPRequest.t;
  rq_error : Z }.

Definition rq_set_data (f : HTTPRequest.t -> HTTPRequest.t) (p : HTTPRequestParser) : HTTPRequestParser :=
  MkRequestParser (rq_parser p) (f (rq_data p)) (rq_error p).
Definition rq_set_error (e : Z) (p : HTTPRequestParser) : HTTPRequestParser :=
  MkRequestParser (rq_parser p) (rq_data p) e.

Definition on_request_method (at_ : bytes) (p : HTTPRequestParser) : HTTPRequestParser :=
  let m := CharsToHTTPMethod at_ in
  if decide (m = INVALID_METHOD) then rq_set_error INVALID_METHOD_ERROR p
  else rq_set_data (HTTPRequest.set_method m) p.

Definition on_request_fragment (s : bytes) : HTTPRequestParser -> HTTPRequestParser :=
  rq_set_data (HTTPRequest.set_fragment s).
Definition on_request_path (s : bytes) : HTTPRequestParser -> HTTPRequestParser :=
  rq_set_data (HTTPRequest.set_path s).
Definition on_request_query_string (s : bytes) : HTTPRequestParser -> HTTPRequestParser :=
  rq_set_data (HTTPRequest.set_query s).

Definition on_request_http_version (at_ : bytes) (length : Z) (p : HTTPRequestParser) : HTTPRequestParser :=
  match version_of at_ length with
  | Some v => rq_set_data (HTTPRequest.set_version v) p
  | None => rq_set_error INVALID_VERSION_ERROR p
  end.

Definition on_request_http_field (field value : bytes) (p : HTTPRequestParser) : HTTPRequestParser :=
  if bool_decide (field = []) then p else rq_set_data (HTTPRequest.set_header field value) p.

(** One call of a callback; the others do nothing. *)
Definition on_request_event (buffer : bytes) (e : event) (p : HTTPRequestParser) : res HTTPRequestParser :=
  match e with
  | Field f fl v vl =>
      let? field := cut f fl buffer in
      let? value := cut v vl buffer in
      Ret (on_request_http_field field value p)
  | Element k at_ len =>
      match k with
      | request_method => Ret (on_request_method (zdrop at_ buffer) p)
      | fragment => let? s := cut at_ len buffer in Ret (on_request_fragment s p)
      | request_path => let? s := cut at_ len buffer in Ret (on_request_path s p)
      | query_string => let? s := cut at_ len buffer in Ret (on_request_query_string s p)
      | http_version => Ret (on_request_http_version (zdrop at_ buffer) len p)
      | _ => Ret p
      end
  end.

End Request.

Fixpoint run_events {P} (on : event -> P -> res P) (es : list event) (p : P) : res P :=
  match es with
  | [] => Ret p
  | e :: es => let? p := on e p in run_events on es p
  end.

Section RequestObject.
Context {machine : RequestMachine}.
(** The members that [http_request_parser_init] leaves as they were allocated. *)
Context (junk_query_start junk_uri_relaxed : Z).

Definition http_request_parser_init : http_request_parser :=
  MkReqParser request_start 0 0 0 0 0 0 junk_query_start 0 0 junk_uri_relaxed.

Definition new_HTTPRequestParser : HTTPRequestParser :=
  MkRequestParser http_request_parser_init (HTTPRequest.new_request 17 true) OK.

(** The code around the machine: [nread] adds up over the calls, and what it adds up to is
    the result. *)
Definition http_request_parser_execute (p : http_request_parser) (buffer : bytes)
    : res (http_request_parser * list event * Z) :=
  let len := zlen buffer in
  if len =? 0 then Ret (p, [], 0)
  else
    let '(q, cs, pos, es) := request_exec p buffer in
    let cs := if request_failed (rq_cs p) then rq_cs p else cs in
    let nread := rq_nread p + pos in
    let q := MkReqParser cs (rq_body_start q) (rq_content_len q) nread (rq_mark q) (rq_field_start q)
               (rq_field_len q) (rq_query_start q) (rq_xml_sent q) (rq_json_sent q) (rq_uri_relaxed q) in
    if (nread <=? len) && (rq_body_start q <=? len) && (rq_mark q <? len) && (rq_field_len q <=? len) &&
       (rq_field_start q <? len)
    then Ret (q, es, nread) else Undef AssertFail.

(** [execute]: the object, how much it took, and what is left in the buffer. *)
Definition request_execute (p : HTTPRequestParser) (data : bytes) : res (HTTPRequestParser * Z * bytes) :=
  let? (q, es, offset) := http_request_parser_execute (rq_parser p) data in
  let? p := run_events (on_request_event data) es p in
  Ret (MkRequestParser q (rq_data p) (rq_error p), offset, zdrop offset data).

Definition request_is_finished (p : HTTPRequestParser) : bool :=
  request_failed (rq_cs (rq_parser p)) || request_final (rq_cs (rq_parser p)).

Definition request_has_error (p : HTTPRequestParser) : bool :=
  negb (rq_error p =? 0) || request_failed (rq_cs (rq_parser p)).
End RequestObject.

(** [get_header_as<uint64_t>("content-length", 0)]. *)
Definition request_content_length {machine : RequestMachine} (lexical_cast : bytes -> option Z) (p : HTTPRequestParser) : Z :=
  GetAs lexical_cast (HTTPRequest.m_headers (rq_data p)) (str "content-length") 0.

(** ** Responses *)

Section Response.
Context {machine : ResponseMachine}.

Record HTTPResponseParser := MkResponseParser {
  rs_parser : http_response_parser;
  rs_data : HTTPResponse.t;
  rs_error : Z }.

Definition rs_set_data (f : HTTPResponse.t -> HTTPResponse.t) (p : HTTPResponseParser) : HTTPResponseParser :=
  MkResponseParser (rs_parser p) (f (rs_data p)) (rs_error p).
Definition rs_set_error (e : Z) (p : HTTPResponseParser) : HTTPResponseParser :=
  MkResponseParser (rs_parser p) (rs_data p) e.

(** [atoi] on the digits at the pointer; the machine only calls it at digits. *)
Fixpoint digits_of (s : bytes) : bytes :=
  match s with
  | c :: s' => if (48 <=? c) && (c <=? 57) then c :: digits_of s' else []
  | [] => []
  end.

Definition on_response_reason_phrase (s : bytes) : HTTPResponseParser -> HTTPResponseParser :=
  rs_set_data (HTTPResponse.set_reason s).
Definition on_response_status_code (at_ : bytes) : HTTPResponseParser -> HTTPResponseParser :=
  rs_set_data (HTTPResponse.set_status (to_signed 32 (undec (digits_of at_)))).

Definition on_response_http_version (at_ : bytes) (length : Z) (p : HTTPResponseParser) : HTTPResponseParser :=
  match version_of at_ length with
  | Some v => rs_set_data (HTTPResponse.set_version v) p
  | None => rs_set_error INVALID_VERSION_ERROR p
  end.

Definition on_response_http_field (field value : bytes) (p : HTTPResponseParser) : HTTPResponseParser :=
  if bool_decide (field = []) then p else rs_set_data (HTTPResponse.set_header field value) p.

Definition on_response_event (buffer : bytes) (e : event) (p : HTTPResponseParser) : res HTTPResponseParser :=
  match e with
  | Field f fl v vl =>
      let? field := cut f fl buffer in
      let? value := cut v vl buffer in
      Ret (on_response_http_field field value p)
  | Element k at_ len =>
      match k with
      | reason_phrase => let? s := cut at_ len buffer in Ret (on_response_reason_phrase s p)
      | status_code => Ret (on_response_status_code (zdrop at_ buffer) p)
      | http_version => Ret (on_response_http_version (zdrop at_ buffer) len p)
      | _ => Ret p
      end
  end.

End Response.

Section ResponseObject.
Context {machine : ResponseMachine}.
(** The member that [http_response_parser_init] leaves as it was allocated. *)
Context (junk_status : Z).

Definition http_response_parser_init (status : Z) : http_response_parser :=
  MkRspParser response_start 0 (-1) status 0 0 0 0 0 0 0.

Definition new_HTTPResponseParser : HTTPResponseParser :=
  MkResponseParser (http_response_parser_init junk_status) (HTTPResponse.new_response 17 true) OK.

(** The code around the machine; a failed check gives -1. *)
Definition http_response_parser_execute (p : http_response_parser) (buffer : bytes)
    : res (http_response_parser * list event * Z) :=
  let len := zlen buffer in
  let '(q, cs, pos, es) := response_exec p buffer in
  let nread := rs_nread p + pos in
  let q := MkRspParser cs (rs_body_start q) (rs_content_len q) (rs_status q) (rs_chunked q) (rs_chunks_done q)
             (rs_close q) nread (rs_mark q) (rs_field_start q) (rs_field_len q) in
  if (nread <=? len) && (rs_body_start q <=? len) then
    if (rs_mark q <? len) && (rs_field_len q <=? len) && (rs_field_start q <? len)
    then Ret (q, es, nread) else Ret (q, es, -1)
  else Undef AssertFail.

(** [execute]: for a chunk the machine starts again.  A result of -1 is a huge [size_t], and
    the move reads in front of the buffer. *)
Definition response_execute (p : HTTPResponseParser) (data : bytes) (chunk : bool)
    : res (HTTPResponseParser * Z * bytes) :=
  let q := if chunk then http_response_parser_init (rs_status (rs_parser p)) else rs_parser p in
  let? (q, es, offset) := http_response_parser_execute q data in
  let? p := run_events (on_response_event data) es p in
  if offset <? 0 then Undef BufferOverflow
  else Ret (MkResponseParser q (rs_data p) (rs_error p), offset, zdrop offset data).

Definition response_is_finished (p : HTTPResponseParser) : bool :=
  response_final (rs_cs (rs_parser p)).

Definition response_has_error (p : HTTPResponseParser) : bool :=
  negb (rs_error p =? 0) || response_failed (rs_cs (rs_parser p)).
End ResponseObject.

Definition response_content_length {machine : ResponseMachine} (lexical_cast : bytes -> option Z) (p : HTTPResponseParser) : Z :=
  GetAs lexical_cast (HTTPResponse.m_headers (rs_data p)) (str "content-length") 0.
