(* ===== verification/HttpGrammar.v ===== *)
(** * The machines of the HTTP parsers ([http_request_parser.rl], [http_response_parser.rl])

    The grammars of the sources with their actions, run by the machine of [Ragel], as the
    interfaces of [HttpParser].

    Some operators are not what they look like.  [0 - 31] is the character 0 without the
    character 31, and ["1"-"9"] the digit 1: differences, not ranges.  [6( h16 ":" )] is the
    character 6 and one group, not a repetition. *)

From stdpp Require Import base list numbers strings.
From Stdlib Require Import Lia ZArith.
From S2P Require Import Prelude Ragel Http HttpParser.

(** ** Classes *)

(** Ranges of characters for a list of characters in order, and differences. *)
Fixpoint ranges (l : list Z) : cls :=
  match l with
  | [] => []
  | c :: l =>
      match ranges l with
      | (a, b) :: m => if c + 1 =? a then (c, b) :: m else (c, c) :: (a, b) :: m
      | [] => [(c, c)]
      end
  end.

Definition minus (l m : cls) : cls := ranges (base.filter (fun c => in_cls c l && negb (in_cls c m) = true) (seqZ 0 256)).

Definition any_c : cls := [(0, 255)].
Definition ascii_c : cls := [(0, 127)].
Definition digit_c : cls := [(48, 57)].
Definition alpha_c : cls := [(65, 90); (97, 122)].
Definition upper_c : cls := [(65, 90)].
Definition xdigit_c : cls := [(48, 57); (65, 70); (97, 102)].
Definition space_c : cls := [(9, 13); (32, 32)].

(** Characters whatever their case. *)
Definition either_case (c : Z) : cls :=
  if in_cls c upper_c then [(c, c); (c + 32, c + 32)]
  else if in_cls c [(97, 122)] then [(c - 32, c - 32); (c, c)] else [(c, c)].

Fixpoint nocase {A} (s : bytes) : re A :=
  match s with
  | [] => Eps
  | [c] => Cls (either_case c)
  | c :: s => Cat (Cls (either_case c)) (nocase s)
  end.

Definition separators : cls := chars (str "()<>@,;:\/[]?={} ") ++ [(34, 34); (9, 9)].
Definition CRLF {A} : re A := Alt (lit [13; 10]) (chr 10).

(** ** The run of a machine *)

Section Run.
Context {A : Type} `{!EqDecision A} (breaks : A -> bool).

(** The actions with their positions, the state or the error, and the position reached; an
    action that breaks ends the run after its character. *)
Fixpoint run (st : list (re (Z * A))) (pos : Z) (s : bytes) : list (Z * A) * option (list (re (Z * A))) * Z :=
  match s with
  | [] => ([], Some st, pos)
  | c :: s =>
      match step c st with
      | (_, []) => ([], None, pos)
      | (l, st) =>
          let here := (fun a => (pos, a)) <$> l in
          if existsb breaks l then (here, Some st, pos + 1)
          else let '(tr, e, p) := run st (pos + 1) s in (here ++ tr, e, p)
      end
  end.
End Run.

(** The state in [cs]: before the first character, inside, or the error. *)
Inductive machine_state (A : Type) := MStart | MIn (st : list (re (Z * A))) | MError.
Arguments MStart {A}.
Arguments MIn {A} st.
Arguments MError {A}.

Definition state_final {A} (cs : machine_state A) : bool :=
  match cs with MIn st => existsb nullable st | _ => false end.
Definition state_failed {A} (cs : machine_state A) : bool := match cs with MError => true | _ => false end.
Definition state_of {A} (e : option (list (re (Z * A)))) : machine_state A :=
  match e with Some st => MIn st | None => MError end.

(** ** Requests *)

Inductive request_action :=
| rq_mark_a | start_field | write_field | start_value | write_value | request_method_a | request_uri_a
| fragment_a | start_query | query_string_a | http_version_a | request_path_a | done_a | xml | json.

#[export] Instance request_action_eq_dec : EqDecision request_action.
Proof. solve_decision. Defined.

Module RequestGrammar.
Section Grammar.
(** [parser->uri_relaxed]. *)
Context (relaxed : bool).
Abbreviation g := (re request_action).

Definition more_delims : cls := if relaxed then chars (str "{}^") else [].
Definition sub_delims : cls := chars (str "!$&'()*+,;=") ++ more_delims.
Definition unreserved : cls := alpha_c ++ digit_c ++ chars (str "-._~").
Definition pct_encoded : g := cats [chr 37; Cls xdigit_c; Cls xdigit_c].
Definition pchar : g := Alt (Cls (unreserved ++ sub_delims ++ chars (str ":@"))) pct_encoded.
Definition query_char : g := alts [pchar; chr 47; chr 63].
Definition fragment : g := Leave fragment_a (Enter rq_mark_a (Star query_char)).
Definition query : g := Leave query_string_a (Star query_char).
Definition segment_nz_nc : g := plus (Alt (Cls (unreserved ++ sub_delims ++ chars (str "@"))) pct_encoded).
Definition segment_nz : g := plus pchar.
Definition segment : g := Star pchar.
Definition path_empty : g := Eps.
Definition slashes : g := Star (Cat (chr 47) segment).
Definition path_rootless : g := Cat segment_nz slashes.
Definition path_noscheme : g := Cat segment_nz_nc slashes.
Definition path_absolute : g := Cat (chr 47) (opt (Cat segment_nz slashes)).
Definition path_abempty : g := slashes.
Definition reg_name : g := Star (Alt (Cls (unreserved ++ sub_delims)) pct_encoded).
Definition dec_octet : g :=
  alts [Cls digit_c; Cat (chr 49) (Cls digit_c); Cat (chr 49) (rep 2 (Cls digit_c));
        cats [chr 50; chr 48; Cls digit_c]; Cat (lit (str "25")) (chr 48)].
Definition IPv4address : g := cats [dec_octet; chr 46; dec_octet; chr 46; dec_octet; chr 46; dec_octet].
Definition h16 : g := rep_between 1 3 (Cls xdigit_c).
Definition h16c : g := Cat h16 (chr 58).
Definition ls32 : g := Alt (cats [h16; chr 58; h16]) IPv4address.
Definition IPv6address : g :=
  alts [cats [chr 6; h16c; ls32];
        cats [lit (str "::"); chr 5; h16c; ls32];
        cats [opt h16; lit (str "::"); chr 4; h16c; ls32];
        cats [opt (Cat (rep_least 1 h16c) h16); lit (str "::"); chr 3; h16c; ls32];
        cats [opt (Cat (rep_least 2 h16c) h16); lit (str "::"); chr 2; h16c; ls32];
        cats [opt (Cat (rep_least 3 h16c) h16); lit (str "::"); h16; chr 58; ls32];
        cats [opt (Cat (rep_least 4 h16c) h16); lit (str "::"); ls32];
        cats [opt (Cat (rep_least 5 h16c) h16); lit (str "::"); h16];
        Cat (opt (Cat (rep_least 6 h16c) h16)) (lit (str "::"))].
Definition IPvFuture : g :=
  cats [chr 118; plus (Cls xdigit_c); chr 46; plus (Cls (unreserved ++ sub_delims ++ chars (str ":")))].
Definition IP_literal : g := cats [chr 91; Alt IPv6address IPvFuture; chr 93].
Definition port : g := Star (Cls digit_c).
Definition host : g := alts [IP_literal; IPv4address; reg_name].
Definition userinfo : g := Star (Alt (Cls (unreserved ++ sub_delims ++ chars (str ":"))) pct_encoded).
Definition authority : g := cats [opt (Cat userinfo (chr 64)); host; opt (Cat (chr 58) port)].
Definition scheme : g := Cat (Cls alpha_c) (Star (Cls (alpha_c ++ digit_c ++ chars (str "+-.")))).
Definition relative_part : g :=
  alts [cats [lit (str "//"); authority; path_abempty]; path_absolute; path_noscheme; path_empty].
Definition hier_part : g :=
  alts [cats [lit (str "//"); authority; path_abempty]; path_absolute; path_rootless; path_empty].
Definition with_query (part : g) : g :=
  Leave request_uri_a (Enter rq_mark_a
    (Cat (Leave request_path_a part) (opt (Cat (Leave start_query (chr 63)) query)))).
Definition relative_ref : g := Cat (with_query relative_part) (opt (Cat (chr 35) fragment)).
Definition URI : g := cats [scheme; chr 58; with_query hier_part; opt (Cat (chr 35) fragment)].
Definition URI_reference : g := Alt URI relative_ref.

Definition Method : g := Leave request_method_a (Enter rq_mark_a (rep_between 1 19 (Cls (upper_c ++ digit_c)))).
Definition http_number : g := Cat (lit (str "1.")) (Alt (chr 48) (chr 49)).
Definition HTTP_Version : g := Leave http_version_a (Enter rq_mark_a (Cat (lit (str "HTTP/")) http_number)).
Definition Request_Line : g := cats [Method; chr 32; URI_reference; chr 32; HTTP_Version; CRLF].
Definition HTTP_CTL : cls := [(0, 0); (127, 127)].
Definition lws : g := Cat (opt CRLF) (plus (Cls (chars [32; 9]))).
Definition token : cls := minus ascii_c (HTTP_CTL ++ separators).
Definition content : g := Alt (Cls (minus any_c HTTP_CTL)) lws.
Definition field_name : g := Leave write_field (Enter start_field (plus (Cls token))).
Definition field_value : g := Leave write_value (Enter start_value (Star content)).
Definition message_header : g := guarded 1 (cats [field_name; chr 58; Star lws; field_value]) CRLF.
Definition Request : g := cats [Request_Line; Star message_header; CRLF].

Definition SocketJSONStart : g := Cat (chr 64) relative_part.
Definition SocketJSONData : g := finish_guarded 2 (cats [chr 123; Star (Cls any_c); chr 125]) (chr 0).
Definition SocketXMLData : g :=
  finish_guarded 3
    (cats [Leave request_path_a (Enter rq_mark_a
             (Cat (chr 60) (plus (Cls ([(97, 122); (48, 57); (65, 90)] ++ chars (str "-."))))));
           Cls (chars (str "/") ++ space_c ++ chars (str ">")); Star (Cls any_c); chr 62]) (chr 0).
Definition SocketJSON : g :=
  cats [Leave request_path_a (Enter rq_mark_a SocketJSONStart); chr 32;
        Finish json (Enter rq_mark_a SocketJSONData)].
Definition SocketXML : g := Finish xml SocketXMLData.
Definition SocketRequest : g := Alt SocketXML SocketJSON.

Definition main : g := Finish done_a (Alt Request SocketRequest).
End Grammar.
End RequestGrammar.

Definition request_machine_start (relaxed : bool) : list (re (Z * request_action)) :=
  [fst (number (RequestGrammar.main relaxed) 0)].

(** *** Actions *)

Definition request_cs : Type := machine_state request_action.
Abbreviation rq_struct := (http_request_parser_of request_cs).

(** [LEN(AT, FPC)], a [size_t]. *)
Definition LEN (at_ fpc : Z) : Z := wrap 64 (fpc - at_).

(** Assignments to members. *)
Definition with_mark (v : Z) (p : rq_struct) : rq_struct :=
  MkReqParser (rq_cs p) (rq_body_start p) (rq_content_len p) (rq_nread p) v (rq_field_start p) (rq_field_len p)
    (rq_query_start p) (rq_xml_sent p) (rq_json_sent p) (rq_uri_relaxed p).
Definition with_field_start (v : Z) (p : rq_struct) : rq_struct :=
  MkReqParser (rq_cs p) (rq_body_start p) (rq_content_len p) (rq_nread p) (rq_mark p) v (rq_field_len p)
    (rq_query_start p) (rq_xml_sent p) (rq_json_sent p) (rq_uri_relaxed p).
Definition with_field_len (v : Z) (p : rq_struct) : rq_struct :=
  MkReqParser (rq_cs p) (rq_body_start p) (rq_content_len p) (rq_nread p) (rq_mark p) (rq_field_start p) v
    (rq_query_start p) (rq_xml_sent p) (rq_json_sent p) (rq_uri_relaxed p).
Definition with_query_start (v : Z) (p : rq_struct) : rq_struct :=
  MkReqParser (rq_cs p) (rq_body_start p) (rq_content_len p) (rq_nread p) (rq_mark p) (rq_field_start p) (rq_field_len p)
    v (rq_xml_sent p) (rq_json_sent p) (rq_uri_relaxed p).
Definition with_sent (x j : Z) (p : rq_struct) : rq_struct :=
  MkReqParser (rq_cs p) (rq_body_start p) (rq_content_len p) (rq_nread p) (rq_mark p) (rq_field_start p) (rq_field_len p)
    (rq_query_start p) x j (rq_uri_relaxed p).
Definition with_body_start (v len : Z) (p : rq_struct) : rq_struct :=
  MkReqParser (rq_cs p) v len (rq_nread p) (rq_mark p) (rq_field_start p) (rq_field_len p)
    (rq_query_start p) (rq_xml_sent p) (rq_json_sent p) (rq_uri_relaxed p).

(** An action at a position of a buffer of [pe] bytes: the structure and the callback that is
    called. *)
Definition request_act (pe fpc : Z) (a : request_action) (p : rq_struct) : rq_struct * list event :=
  match a with
  | rq_mark_a | start_value => (with_mark fpc p, [])
  | start_field => (with_field_start fpc p, [])
  | write_field => (with_field_len (LEN (rq_field_start p) fpc) p, [])
  | write_value => (p, [Field (rq_field_start p) (rq_field_len p) (rq_mark p) (LEN (rq_mark p) fpc)])
  | request_method_a => (p, [Element request_method (rq_mark p) (LEN (rq_mark p) fpc)])
  | request_uri_a => (p, [Element request_uri (rq_mark p) (LEN (rq_mark p) fpc)])
  | fragment_a => (p, [Element fragment (rq_mark p) (LEN (rq_mark p) fpc)])
  | start_query => (with_query_start fpc p, [])
  | query_string_a => (p, [Element query_string (rq_query_start p) (LEN (rq_query_start p) fpc)])
  | http_version_a => (p, [Element http_version (rq_mark p) (LEN (rq_mark p) fpc)])
  | request_path_a => (p, [Element request_path (rq_mark p) (LEN (rq_mark p) fpc)])
  | done_a =>
      if negb (rq_xml_sent p =? 0) || negb (rq_json_sent p =? 0)
      then (with_body_start (rq_mark p) (to_signed 32 (fpc - rq_mark p + 1)) p, [])
      else (with_body_start (fpc + 1) (rq_content_len p) p, [Element header_done (fpc + 1) (pe - fpc - 1)])
  | xml => (with_sent 1 (rq_json_sent p) p, [])
  | json => (with_sent (rq_xml_sent p) 1 p, [])
  end.

Fixpoint request_acts (pe : Z) (l : list (Z * request_action)) (p : rq_struct) : rq_struct * list event :=
  match l with
  | [] => (p, [])
  | (fpc, a) :: l =>
      let (p, e) := request_act pe fpc a p in
      let (p, es) := request_acts pe l p in
      (p, e ++ es)
  end.

Definition request_breaks (a : request_action) : bool := match a with done_a => true | _ => false end.

(** [%% write exec]. *)
Definition exec_request (p : rq_struct) (buffer : bytes) : rq_struct * request_cs * Z * list event :=
  let from (st : list (re (Z * request_action))) :=
    let '(tr, e, pos) := run request_breaks st 0 buffer in
    let (q, es) := request_acts (zlen buffer) tr p in
    (q, state_of e, pos, es) in
  match rq_cs p with
  | MError => (p, MError, 0, [])
  | MStart => from (request_machine_start (negb (rq_uri_relaxed p =? 0)))
  | MIn st => from st
  end.

#[export] Instance request_ragel : RequestMachine := {|
  request_state := request_cs;
  request_start := MStart;
  request_final := state_final;
  request_failed := state_failed;
  request_exec := exec_request |}.

(** ** Responses *)

Inductive response_action :=
| rs_mark_a | rs_start_field | rs_write_field | rs_start_value | write_content_len | write_connection_close
| rs_write_value | reason_phrase_a | status_code_a | rs_http_version_a | chunk_size_a | trans_chunked | rs_done.

#[export] Instance response_action_eq_dec : EqDecision response_action.
Proof. solve_decision. Defined.

Module ResponseGrammar.
Abbreviation g := (re response_action).

Definition CTL : cls := [(0, 31); (127, 127)].
Definition token : cls := minus ascii_c (CTL ++ separators).
Definition Reason_Phrase : g := Leave reason_phrase_a (Enter rs_mark_a (plus (Cls (minus any_c [(10, 10)])))).
Definition Status_Code : g := Leave status_code_a (Enter rs_mark_a (plus (Cls digit_c))).
Definition http_number : g := cats [plus (Cls digit_c); chr 46; plus (Cls digit_c)].
Definition HTTP_Version : g := Leave rs_http_version_a (Enter rs_mark_a (Cat (lit (str "HTTP/")) http_number)).
Definition Status_Line : g :=
  guarded 1 (cats [HTTP_Version; chr 32; Status_Code; chr 32; Reason_Phrase]) CRLF.
Definition field_name : g := Leave rs_write_field (Enter rs_start_field (plus (Cls token))).
Definition field_value : g := Leave rs_write_value (Enter rs_start_value (Star (Cls any_c))).
Definition spaces : g := Star (Cls space_c).
Definition fields : g := guarded 2 (cats [field_name; chr 58; spaces; field_value]) CRLF.
Definition named (s : bytes) : g := Leave rs_write_field (Enter rs_start_field (nocase s)).
Definition content_length : g :=
  cats [named (str "Content-Length"); chr 58; spaces;
        Leave rs_write_value (Leave write_content_len (Enter rs_start_value (plus (Cls digit_c)))); CRLF].
Definition conn_close : g :=
  cats [nocase (str "Connection"); chr 58; spaces; nocase (str "close"); Leave write_connection_close CRLF].
Definition transfer_encoding_chunked : g :=
  cats [named (str "Transfer-Encoding"); chr 58; spaces;
        Leave rs_write_value (Enter rs_start_value (nocase (str "chunked"))); Finish trans_chunked CRLF].
Definition message_header : g := alts [transfer_encoding_chunked; conn_close; content_length; fields].
Definition Response : g := cats [Status_Line; Star message_header; CRLF].

Definition chunk_ext_val : g := plus (Cls token).
Definition chunk_ext_name : g := plus (Cls token).
Definition chunk_extension : g :=
  Star (cats [chr 59; Leave rs_start_value (Leave rs_write_field (Enter rs_start_field chunk_ext_name));
              Leave rs_write_value (opt (Cat (chr 61) (Enter rs_start_value chunk_ext_val)))]).
Definition chunk_size : g := plus (Cls xdigit_c).
Definition Chunked_Header : g :=
  guarded 3 (Cat (Leave chunk_size_a (Enter rs_mark_a chunk_size)) chunk_extension) CRLF.

Definition main : g := Finish rs_done (Alt Response Chunked_Header).
End ResponseGrammar.

Definition response_machine_start : list (re (Z * response_action)) := [fst (number ResponseGrammar.main 0)].

(** *** Actions *)

Definition response_cs : Type := machine_state response_action.
Abbreviation rs_struct := (http_response_parser_of response_cs).

Definition rs_with_mark (v : Z) (p : rs_struct) : rs_struct :=
  MkRspParser (rs_cs p) (rs_body_start p) (rs_content_len p) (rs_status p) (rs_chunked p) (rs_chunks_done p)
    (rs_close p) (rs_nread p) v (rs_field_start p) (rs_field_len p).
Definition rs_with_field (start len : Z) (p : rs_struct) : rs_struct :=
  MkRspParser (rs_cs p) (rs_body_start p) (rs_content_len p) (rs_status p) (rs_chunked p) (rs_chunks_done p)
    (rs_close p) (rs_nread p) (rs_mark p) start len.
Definition rs_with_content_len (v : Z) (p : rs_struct) : rs_struct :=
  MkRspParser (rs_cs p) (rs_body_start p) v (rs_status p) (rs_chunked p) (rs_chunks_done p)
    (rs_close p) (rs_nread p) (rs_mark p) (rs_field_start p) (rs_field_len p).
Definition rs_with_close (p : rs_struct) : rs_struct :=
  MkRspParser (rs_cs p) (rs_body_start p) (rs_content_len p) (rs_status p) (rs_chunked p) (rs_chunks_done p)
    1 (rs_nread p) (rs_mark p) (rs_field_start p) (rs_field_len p).
Definition rs_with_status (v : Z) (p : rs_struct) : rs_struct :=
  MkRspParser (rs_cs p) (rs_body_start p) (rs_content_len p) v (rs_chunked p) (rs_chunks_done p)
    (rs_close p) (rs_nread p) (rs_mark p) (rs_field_start p) (rs_field_len p).
Definition rs_with_chunked (done : Z) (p : rs_struct) : rs_struct :=
  MkRspParser (rs_cs p) (rs_body_start p) (rs_content_len p) (rs_status p) 1 done
    (rs_close p) (rs_nread p) (rs_mark p) (rs_field_start p) (rs_field_len p).
Definition rs_with_body_start (v : Z) (p : rs_struct) : rs_struct :=
  MkRspParser (rs_cs p) v (rs_content_len p) (rs_status p) (rs_chunked p) (rs_chunks_done p)
    (rs_close p) (rs_nread p) (rs_mark p) (rs_field_start p) (rs_field_len p).

(** [strtol] at digits of a base, saturating at the largest [long]. *)
Definition digit_value (c : Z) : option Z :=
  if in_cls c digit_c then Some (c - 48)
  else if in_cls c [(65, 70)] then Some (c - 55)
  else if in_cls c [(97, 102)] then Some (c - 87) else None.

Fixpoint strtol_loop (base acc : Z) (s : bytes) : Z :=
  match s with
  | c :: s =>
      match digit_value c with
      | Some d => if d <? base then strtol_loop base (base * acc + d) s else acc
      | None => acc
      end
  | [] => acc
  end.

Definition strtol (s : bytes) (base : Z) : Z := Z.min (strtol_loop base 0 s) (2 ^ 63 - 1).

(** The members are [int]s. *)
Definition response_act (buffer : bytes) (fpc : Z) (a : response_action) (p : rs_struct) : rs_struct * list event :=
  match a with
  | rs_mark_a | rs_start_value => (rs_with_mark fpc p, [])
  | rs_start_field => (rs_with_field fpc (rs_field_len p) p, [])
  | rs_write_field => (rs_with_field (rs_field_start p) (LEN (rs_field_start p) fpc) p, [])
  | write_content_len => (rs_with_content_len (to_signed 32 (strtol (zdrop (rs_mark p) buffer) 10)) p, [])
  | write_connection_close => (rs_with_close p, [])
  | rs_write_value => (p, [Field (rs_field_start p) (rs_field_len p) (rs_mark p) (LEN (rs_mark p) fpc)])
  | reason_phrase_a => (p, [Element reason_phrase (rs_mark p) (LEN (rs_mark p) fpc)])
  | status_code_a =>
      (rs_with_status (to_signed 32 (strtol (zdrop (rs_mark p) buffer) 10)) p,
       [Element status_code (rs_mark p) (LEN (rs_mark p) fpc)])
  | rs_http_version_a => (p, [Element http_version (rs_mark p) (LEN (rs_mark p) fpc)])
  | chunk_size_a =>
      let len := to_signed 32 (strtol (zdrop (rs_mark p) buffer) 16) in
      let p := rs_with_chunked (if len <=? 0 then 1 else 0) (rs_with_content_len len p) in
      (p, [Element (if len <=? 0 then last_chunk else chunk_size) (rs_mark p) (LEN (rs_mark p) fpc)])
  | trans_chunked => (rs_with_chunked (rs_chunks_done p) p, [])
  | rs_done => (rs_with_body_start (fpc + 1) p, [Element header_done (fpc + 1) (zlen buffer - fpc - 1)])
  end.

Fixpoint response_acts (buffer : bytes) (l : list (Z * response_action)) (p : rs_struct) : rs_struct * list event :=
  match l with
  | [] => (p, [])
  | (fpc, a) :: l =>
      let (p, e) := response_act buffer fpc a p in
      let (p, es) := response_acts buffer l p in
      (p, e ++ es)
  end.

Definition response_breaks (a : response_action) : bool := match a with rs_done => true | _ => false end.

Definition exec_response (p : rs_struct) (buffer : bytes) : rs_struct * response_cs * Z * list event :=
  let from (st : list (re (Z * response_action))) :=
    let '(tr, e, pos) := run response_breaks st 0 buffer in
    let (q, es) := response_acts buffer tr p in
    (q, state_of e, pos, es) in
  match rs_cs p with
  | MError => (p, MError, 0, [])
  | MStart => from response_machine_start
  | MIn st => from st
  end.

(** The first final state, which [http_response_parser_is_finished] compares with, is the one
    in which nothing else is left; a header field that an alternative still reads as its name
    and spaces leaves another one. *)
Definition response_first_final (cs : response_cs) : bool :=
  match cs with MIn [Eps] => true | _ => false end.

#[export] Instance response_ragel : ResponseMachine := {|
  response_state := response_cs;
  response_start := MStart;
  response_final := response_first_final;
  response_failed := state_failed;
  response_exec := exec_response |}.
