(* ===== verification/HttpSession.v ===== *)
(** * HTTP sessions and the HTTP server ([servers/http/http_session.cc], [http_server.cc])

    Receiving a request into a buffer of fixed size and through the parser, its body, sending
    the response, and the loop of the server over the requests of a client. *)

From stdpp Require Import base list numbers strings.
From Stdlib Require Import Lia ZArith.
From S2P Require Import Prelude Endian Http HttpParser Servlet Stream.

Section Session.
Context {K : Type} {conn : Conn K} {machine : RequestMachine}.
(** The configured buffer size, the conversion of numbers, the largest string, and the
    members of the parser that are not initialised. *)
Context (buff_size : Z) (lexical_cast : bytes -> option Z) (max_size : Z) (junk1 junk2 : Z).

Abbreviation session := (@SocketStream K).

(** The loop up to the end of the header: the parser and what is left in the buffer, [None]
    when the session was closed. *)
Fixpoint request_loop (fuel : nat) (p : HTTPRequestParser) (data : bytes)
    : meth session (option (HTTPRequestParser * bytes)) :=
  fun s =>
    match fuel with
    | O => (Undef Diverges, s)
    | S fuel' =>
        let '(len, b, s) := socket_read (buff_size - zlen data) s in
        if len <? 0 then (Ret None, stream_close s)
        else
          match request_execute p (data ++ b) with
          | Ret (p, nparse, data) =>
              if request_has_error p then (Ret None, stream_close s)
              else if zlen data =? buff_size then (Ret None, stream_close s)
              else if request_is_finished p then (Ret (Some (p, data)), s)
              else request_loop fuel' p data s
          | Throw e => (Throw e, s)
          | Undef u => (Undef u, s)
          end
    end.

(** The body of [length] bytes, of which [data] holds the first: [None] when the session was
    closed. *)
Definition recv_body (length : Z) (data : bytes) : meth session (option bytes) :=
  fun s =>
    if max_size <? length then (Throw bad_alloc, s)
    else if zlen data <=? length then
      if 0 <? length - zlen data then
        match read_fixed_size socket_read (length - zlen data) s with
        | Ret (r, b, s) => if r <=? 0 then (Ret None, stream_close s) else (Ret (Some (data ++ b)), s)
        | Throw e => (Throw e, s)
        | Undef u => (Undef u, s)
        end
      else (Ret (Some data), s)
    else (Ret (Some (ztake length data)), s).

Definition recv_request (fuel : nat) : meth session (option HTTPRequest.t) :=
  let! r := request_loop fuel (new_HTTPRequestParser junk1 junk2) [] in
  match r with
  | None => ret None
  | Some (p, data) =>
      let length := to_signed 64 (request_content_length lexical_cast p) in
      if 0 <? length then
        let! body := recv_body length data in
        match body with
        | None => ret None
        | Some body => ret (Some (HTTPRequest.init (HTTPRequest.set_body body (rq_data p))))
        end
      else ret (Some (HTTPRequest.init (rq_data p)))
  end.

Definition send_response (rsp : HTTPResponse.t) : meth session Z :=
  fun s =>
    match write_fixed_size socket_write (HTTPResponse.dump rsp) s with
    | Ret (r, s) => (Ret r, s)
    | Throw e => (Throw e, s)
    | Undef u => (Undef u, s)
    end.

(** ** The server *)

Context (fnmatch : bytes -> bytes -> bool).
Context (callback other : Z -> HTTPRequest.t -> HTTPResponse.t -> HTTPResponse.t).

(** [HTTPServer]: [m_keepalive] and [m_dispatch]. *)
Record HTTPServer := MkHTTPServer { m_keepalive : bool; m_dispatch : ServletDispatch }.

Definition new_HTTPServer (keepalive : bool) : HTTPServer := MkHTTPServer keepalive new_ServletDispatch.

(** The requests of one client; [fuel] bounds their number. *)
Fixpoint serve_loop (fuel rounds : nat) (srv : HTTPServer) : meth session unit :=
  match fuel with
  | O => fun s => (Undef Diverges, s)
  | S fuel' =>
      let! req := recv_request rounds in
      match req with
      | None => ret tt
      | Some req =>
          let rsp := HTTPResponse.new_response (HTTPRequest.m_version req)
                       (HTTPRequest.m_close req || negb (m_keepalive srv)) in
          match dispatch_handle fnmatch callback other rounds (m_dispatch srv) req rsp with
          | Ret rsp =>
              let! _ := send_response rsp in
              if negb (m_keepalive srv) || HTTPRequest.m_close req then ret tt
              else serve_loop fuel' rounds srv
          | Throw e => fun s => (Throw e, s)
          | Undef u => fun s => (Undef u, s)
          end
      end
  end.

(** [handle_client]: the session owns the socket and is closed at the end. *)
Definition handle_client (fuel rounds : nat) (srv : HTTPServer) (client : K) : res unit * session :=
  (let! _ := serve_loop fuel rounds srv in
   fun s => (Ret tt, stream_close s)) (MkStream (Some client) true).
End Session.
