(* ===== verification/HttpSessionProps.v ===== *)
(** * What an HTTP session receives and the server answers

    A request whose header comes with one read is received with its body; a header in two
    reads and a closed connection are not handled.  The theorems are about headers that the
    machine of the parser accepts; [HttpRoundtrip] says which it does. *)

From stdpp Require Import base list numbers strings.
From Stdlib Require Import Lia ZArith.
From S2P Require Import Prelude Endian Http HttpParser HttpGrammar Servlet Stream StreamProps HttpSession.

Lemma zdrop_neg {A} n (l : list A) : n <= 0 -> zdrop n l = l.
Proof. intros. unfold zdrop. by replace (Z.to_nat n) with 0%nat by lia. Qed.

Section Props.
Context {K : Type} {conn : Conn K} {machine : RequestMachine}.
Context (buff_size : Z) (lexical_cast : bytes -> option Z) (max_size : Z) (junk1 junk2 : Z).

Abbreviation fresh_parser := (new_HTTPRequestParser junk1 junk2).
Abbreviation recv := (recv_request buff_size lexical_cast max_size junk1 junk2).

(** The members of the structure are inside a buffer of [len] bytes. *)
Definition inside (q : http_request_parser) (len : Z) : Prop :=
  rq_body_start q <= len /\ rq_mark q < len /\ rq_field_len q <= len /\ rq_field_start q < len.

Definition final (cs : request_state) : Prop := request_failed cs = false /\ request_final cs = true.
Definition running (cs : request_state) : Prop := request_failed cs = false /\ request_final cs = false.

(** The machine ends after the header [h], whatever follows it, and its calls make the
    request [r]. *)
Definition accepts (h : bytes) (r : HTTPRequest.t) : Prop :=
  request_failed request_start = false /\ h <> [] /\
  forall rest, exists q cs es, final cs /\ inside q (zlen h) /\
    request_exec (http_request_parser_init junk1 junk2) (h ++ rest) = (q, cs, zlen h, es) /\
    exists p, run_events (on_request_event (h ++ rest)) es fresh_parser = Ret p /\
      rq_data p = r /\ rq_error p = 0.

Lemma checks_true (a b c d e : bool) : a = true -> b = true -> c = true -> d = true -> e = true ->
  a && b && c && d && e = true.
Proof. by intros -> -> -> -> ->. Qed.

(** A run of the machine that stays inside its buffer. *)
Lemma execute_ok p buffer q cs pos es : buffer <> [] -> request_failed (rq_cs p) = false ->
  request_exec p buffer = (q, cs, pos, es) -> inside q (zlen buffer) ->
  http_request_parser_execute p buffer =
    if rq_nread p + pos <=? zlen buffer then
      Ret (MkReqParser cs (rq_body_start q) (rq_content_len q) (rq_nread p + pos) (rq_mark q) (rq_field_start q)
             (rq_field_len q) (rq_query_start q) (rq_xml_sent q) (rq_json_sent q) (rq_uri_relaxed q),
           es, rq_nread p + pos)
    else Undef AssertFail.
Proof.
  intros Hb Hcs He (H1 & H2 & H3 & H4). unfold http_request_parser_execute.
  destruct (Z.eqb_spec (zlen buffer) 0) as [E|_]; [by apply zlen_zero in E|].
  rewrite He, Hcs.
  cbn [rq_body_start rq_mark rq_field_len rq_field_start].
  destruct (Z.leb_spec (rq_nread p + pos) (zlen buffer)); [|done]. cbn [andb].
  by rewrite (proj2 (Z.leb_le _ _) H1), (proj2 (Z.ltb_lt _ _) H2), (proj2 (Z.leb_le _ _) H3),
    (proj2 (Z.ltb_lt _ _) H4).
Qed.

Lemma inside_mono q len len' : inside q len -> len <= len' -> inside q len'.
Proof. unfold inside. lia. Qed.

(** The header at the start of a buffer. *)
Lemma execute_header h r rest : accepts h r ->
  exists p, request_execute fresh_parser (h ++ rest) = Ret (p, zlen h, rest) /\
    rq_data p = r /\ request_has_error p = false /\ request_is_finished p = true.
Proof.
  intros (Hst & Hne & Hx). destruct (Hx rest) as (q & cs & es & [Hc1 Hc2] & Hin & He & p & Hr & Hd & Her).
  pose proof (zlen_nonneg rest). unfold request_execute.
  rewrite (execute_ok _ _ q cs (zlen h) es); [|by destruct h|done|exact He|
    by eapply inside_mono; [exact Hin|rewrite zlen_app; lia]].
  cbn [rq_parser new_HTTPRequestParser http_request_parser_init rq_nread].
  destruct (Z.leb_spec (0 + zlen h) (zlen (h ++ rest))) as [_|Hf]; [|rewrite zlen_app in Hf; lia].
  cbn [res_bind]. rewrite Hr. cbn [res_bind]. rewrite Z.add_0_l. eexists. split.
  { rewrite zdrop_app_r by lia. by rewrite Z.sub_diag, zdrop_0. }
  unfold request_has_error, request_is_finished. cbn [rq_data rq_error rq_parser rq_cs]. rewrite Her.
  by rewrite Hc1, Hc2.
Qed.

Lemma read_some_eq len s n b s1 : is_connected s = true -> 0 < len -> s_in s <> [] ->
  socket_read len s = (n, b, s1) ->
  b = ztake n (s_in s) /\ 1 <= n <= Z.min len (zlen (s_in s)) /\ s_in s1 = zdrop n (s_in s) /\
  s_out s1 = s_out s /\ is_connected s1 = true.
Proof.
  intros Hc Hl Hi E. destruct (socket_read_some len s Hc Hl Hi) as (n' & s' & E' & Hx).
  rewrite E in E'. by injection E' as -> -> ->.
Qed.

(** The body: what is in the buffer and what comes after it. *)
Lemma recv_body_ok len data s : is_connected s = true -> 0 < len < 2 ^ 31 -> len <= max_size ->
  len <= zlen data + zlen (s_in s) ->
  exists s', recv_body max_size len data s = (Ret (Some (ztake len (data ++ s_in s))), s') /\
    s_in s' = zdrop (len - zlen data) (s_in s) /\ s_out s' = s_out s /\ is_connected s' = true.
Proof.
  intros Hc Hl Hm Hs. unfold recv_body. pose proof (zlen_nonneg data).
  destruct (Z.ltb_spec max_size len); [lia|]. destruct (Z.leb_spec (zlen data) len) as [Hd|Hd].
  - destruct (Z.ltb_spec 0 (len - zlen data)) as [Hp|Hp].
    + destruct (read_fixed_size_ok (len - zlen data) s) as (s' & E & H1 & H2 & H3); [done|lia|lia|].
      rewrite E. destruct (Z.leb_spec (len - zlen data) 0); [lia|]. exists s'. split; [|done].
      by rewrite ztake_app_r by lia.
    + assert (len = zlen data) as -> by lia. exists s. rewrite ztake_app_l, ztake_all by lia.
      split; [done|]. by rewrite Z.sub_diag, zdrop_0.
  - exists s. rewrite ztake_app_l by lia. split; [done|]. split; [|done].
    by rewrite zdrop_neg by lia.
Qed.

(** The length a header announces. *)
Definition announced (r : HTTPRequest.t) : Z :=
  to_signed 64 (GetAs lexical_cast (HTTPRequest.m_headers r) (str "content-length") 0).

(** The request with the body that is announced. *)
Definition with_body (r : HTTPRequest.t) (tail : bytes) : HTTPRequest.t :=
  HTTPRequest.init (if 0 <? announced r then HTTPRequest.set_body (ztake (announced r) tail) r else r).

(** A request whose header comes with one read is received as it was sent: the result is
    the request the parser made of the header, with exactly the announced number of bytes
    after the header as its body, whether they came with the header or later, in any pieces.
    What came with the header beyond the body is lost for the next request; otherwise the
    connection stands right behind the body. *)
Lemma recv_request_ok fuel h r tail s n b s1 :
  is_connected s = true -> 0 < buff_size -> accepts h r -> s_in s = h ++ tail ->
  socket_read buff_size s = (n, b, s1) -> zlen h <= n ->
  announced r < 2 ^ 31 -> announced r <= max_size -> announced r <= zlen tail ->
  exists s', recv (S fuel) s = (Ret (Some (with_body r tail)), s') /\
    s_in s' = zdrop (Z.max (announced r) (n - zlen h)) tail /\ s_out s' = s_out s /\ is_connected s' = true.
Proof.
  intros Hc Hbs Ha Hin Hr Hn Hl1 Hl2 Hl3. pose proof Ha as (_ & Hne & _).
  destruct (read_some_eq _ _ _ _ _ Hc Hbs ltac:(rewrite Hin; by destruct h) Hr) as (-> & Hn' & Hi1 & Ho1 & Hc1).
  assert (ztake n (s_in s) = h ++ ztake (n - zlen h) tail) as Hb.
  { rewrite Hin, ztake_app_r by lia. done. }
  assert (s_in s1 = zdrop (n - zlen h) tail) as Hi1' by (by rewrite Hi1, Hin, zdrop_app_r by lia).
  destruct (execute_header h r (ztake (n - zlen h) tail) Ha) as (p & Hx & Hd & Her & Hf).
  rewrite Hin, zlen_app in Hn'.
  assert (zlen (ztake (n - zlen h) tail) = n - zlen h) as Hz by (rewrite zlen_ztake by lia; lia).
  assert (0 < zlen h) as Hh.
  { pose proof (zlen_nonneg h). destruct (Z.eq_dec (zlen h) 0) as [E|E]; [by apply zlen_zero in E|lia]. }
  unfold recv_request, bind. cbn [request_loop]. rewrite zlen_nil, Z.sub_0_r, Hr, app_nil_l, Hb, Hx, Her, Hf.
  destruct (Z.ltb_spec n 0); [lia|]. destruct (Z.eqb_spec (zlen (ztake (n - zlen h) tail)) buff_size); [lia|].
  unfold request_content_length. rewrite Hd. fold (announced r). unfold with_body.
  destruct (Z.ltb_spec 0 (announced r)) as [Hp|Hp].
  - destruct (recv_body_ok (announced r) (ztake (n - zlen h) tail) s1 Hc1 ltac:(lia) Hl2) as (s' & E & Hi & Ho & Hcc).
    { rewrite Hi1', Hz, zlen_zdrop by lia. lia. }
    rewrite E. rewrite Hi1', ztake_zdrop. exists s'. split; [done|]. split; [|by rewrite Ho].
    rewrite Hi, Hi1', Hz. destruct (Z.le_gt_cases (announced r) (n - zlen h)).
    + rewrite Z.max_r by lia. by rewrite zdrop_neg by lia.
    + rewrite zdrop_zdrop by lia. f_equal. lia.
  - exists s1. split; [done|]. split; [|done]. rewrite Hi1'. f_equal. lia.
Qed.

(** ** What is not handled *)

(** The machine is in the middle of the header after [d]: it took all of it and is left in
    [q]. *)
Definition unfinished (d : bytes) (q : http_request_parser) : Prop :=
  exists q0 cs es p, running cs /\ running request_start /\ d <> [] /\ inside q0 (zlen d) /\
    request_exec (http_request_parser_init junk1 junk2) d = (q0, cs, zlen d, es) /\
    run_events (on_request_event d) es fresh_parser = Ret p /\ rq_error p = 0 /\
    q = MkReqParser cs (rq_body_start q0) (rq_content_len q0) (zlen d) (rq_mark q0) (rq_field_start q0)
          (rq_field_len q0) (rq_query_start q0) (rq_xml_sent q0) (rq_json_sent q0) (rq_uri_relaxed q0).

Lemma execute_unfinished d q : unfinished d q ->
  exists p, request_execute fresh_parser d = Ret (p, zlen d, []) /\ rq_parser p = q /\
    request_has_error p = false /\ request_is_finished p = false.
Proof.
  intros (q0 & cs & es & p & [Hc1 Hc2] & Hst & Hne & Hin & He & Hr & Her & ->). unfold request_execute.
  rewrite (execute_ok _ _ q0 cs (zlen d) es); [|done|apply Hst|done..].
  cbn [rq_parser new_HTTPRequestParser http_request_parser_init rq_nread]. rewrite Z.add_0_l, Z.leb_refl.
  cbn [res_bind]. rewrite Hr. cbn [res_bind]. eexists. split; [by rewrite zdrop_all by lia|].
  split; [done|]. unfold request_has_error, request_is_finished. cbn [rq_error rq_parser rq_cs].
  by rewrite Her, Hc1, Hc2.
Qed.

Lemma request_loop_step fuel p data s len b s' p' n data' :
  socket_read (buff_size - zlen data) s = (len, b, s') -> 0 <= len ->
  request_execute p (data ++ b) = Ret (p', n, data') -> request_has_error p' = false -> zlen data' <> buff_size ->
  request_loop buff_size (S fuel) p data s =
    if request_is_finished p' then (Ret (Some (p', data')), s') else request_loop buff_size fuel p' data' s'.
Proof.
  intros Hr Hl Hx He Hz. cbn [request_loop]. rewrite Hr, Hx. destruct (Z.ltb_spec len 0); [lia|]. rewrite He.
  by destruct (Z.eqb_spec (zlen data') buff_size).
Qed.

Lemma spins fuel : forall p s, 0 < buff_size -> request_has_error p = false -> request_is_finished p = false ->
  socket_read buff_size s = (0, [], s) ->
  request_loop buff_size fuel p [] s = (Undef Diverges, s).
Proof.
  induction fuel as [|fuel IH]; intros p s Hb He Hf Hr; [done|].
  rewrite (request_loop_step _ _ _ _ 0 [] s p 0 []); rewrite ?zlen_nil, ?Z.sub_0_r; try done; try lia.
  - rewrite Hf. by apply IH.
  - by destruct p.
Qed.

(** A loop that runs into undefined behaviour. *)
Lemma recv_undef fuel s u s' : request_loop buff_size fuel fresh_parser [] s = (Undef u, s') ->
  recv fuel s = (Undef u, s').
Proof. intros E. unfold recv_request, bind. by rewrite E. Qed.

(** C36: A header that comes in two reads is not handled: the parser adds up what it took in
    all reads and asserts that this is at most the length of the last one, so that the
    process is aborted unless the second piece is longer than the whole header, as always
    for a request that ends there.  And when the peer closes the connection before or within
    a header, the session reads for ever. *)
Theorem request_needs_one_read fuel d1 d2 q s s1 s2 :
  0 < zlen d1 <= buff_size -> unfinished d1 q -> socket_read buff_size s = (zlen d1, d1, s1) ->
  (forall q2 cs pos es, d2 <> [] -> socket_read buff_size s1 = (zlen d2, d2, s2) ->
     request_exec q d2 = (q2, cs, pos, es) -> inside q2 (zlen d2) -> zlen d2 < zlen d1 + pos ->
     recv (S (S fuel)) s = (Undef AssertFail, s2)) /\
  (socket_read buff_size s1 = (0, [], s1) ->
     recv fuel s1 = (Undef Diverges, s1) /\ recv (S fuel) s = (Undef Diverges, s1)).
Proof.
  intros Hl Hu Hr. destruct (execute_unfinished d1 q Hu) as (p & Hx & Hq & He & Hf).
  assert (forall f, request_loop buff_size (S f) fresh_parser [] s = request_loop buff_size f p [] s1) as Hstep.
  { intros f. rewrite (request_loop_step f _ [] s (zlen d1) d1 s1 p (zlen d1) []);
      rewrite ?zlen_nil, ?Z.sub_0_r, ?app_nil_l; try done; try lia. by rewrite Hf. }
  pose proof Hu as (q0 & cs0 & es0 & p0 & [Hc _] & [Hs1 Hs2] & _ & _ & _ & _ & _ & Eq). split.
  - intros q2 cs pos es Hne Hr2 Hx2 Hin Hlt. apply recv_undef. rewrite Hstep. cbn [request_loop].
    rewrite zlen_nil, Z.sub_0_r, Hr2, app_nil_l. pose proof (zlen_nonneg d2).
    destruct (Z.ltb_spec (zlen d2) 0); [lia|]. unfold request_execute.
    rewrite Hq, (execute_ok q d2 q2 cs pos es) by (done || by rewrite Eq). rewrite Eq. cbn [rq_nread].
    by destruct (Z.leb_spec (zlen d1 + pos) (zlen d2)); [lia|].
  - intros Hr2. split; apply recv_undef.
    + apply spins; [lia| | |done].
      * done.
      * unfold request_is_finished. cbn. by rewrite Hs1, Hs2.
    + rewrite Hstep. apply spins; [lia|done..].
Qed.

(** ** The server *)

Context (fnmatch : bytes -> bytes -> bool).
Context (callback other : Z -> HTTPRequest.t -> HTTPResponse.t -> HTTPResponse.t).

(** A client that sends one request, on a connection that is not kept alive, is answered:
    the server sends exactly the response that the matching servlet made for the request,
    with its body, and closes the connection. *)
Theorem one_request_served fuel rounds srv client h r tail n b s1 rsp :
  conn_up client = true -> 0 < buff_size -> accepts h r -> inbox client = h ++ tail ->
  socket_read buff_size (MkStream (Some client) true) = (n, b, s1) -> zlen h <= n ->
  announced r < 2 ^ 31 -> announced r <= max_size -> announced r <= zlen tail ->
  m_keepalive srv = false \/ HTTPRequest.m_close (with_body r tail) = true ->
  dispatch_handle fnmatch callback other (S rounds) (m_dispatch srv) (with_body r tail)
    (HTTPResponse.new_response (HTTPRequest.m_version (with_body r tail)) true) = Ret rsp ->
  zlen (HTTPResponse.dump rsp) < 2 ^ 31 ->
  exists s2, handle_client buff_size lexical_cast max_size junk1 junk2 fnmatch callback other
      (S fuel) (S rounds) srv client = (Ret tt, stream_close s2) /\
    s_out s2 = outbox client ++ HTTPResponse.dump rsp /\ is_connected (stream_close s2) = false.
Proof.
  intros Hup Hbs Ha Hin Hr Hn Hl1 Hl2 Hl3 Hclose Hd Hz.
  destruct (recv_request_ok rounds h r tail (MkStream (Some client) true) n b s1) as (s' & E & Hi & Ho & Hc);
    try done.
  destruct (write_fixed_size_ok (HTTPResponse.dump rsp) s' Hc Hz) as (s2 & Ew & Ho2 & Hi2 & Hc2).
  exists s2. split; [|split].
  - unfold handle_client. cbn [serve_loop]. unfold bind at 1. unfold bind at 1. rewrite E.
    assert (HTTPRequest.m_close (with_body r tail) || negb (m_keepalive srv) = true) as Hor.
    { destruct Hclose as [->| ->]; [by rewrite orb_true_r|done]. }
    rewrite Hor, Hd. unfold bind, send_response. rewrite Ew. rewrite orb_comm, Hor. done.
  - by rewrite Ho2, Ho.
  - unfold stream_close, is_connected. destruct (m_socket s2) as [k|] eqn:Ek; cbn.
    + apply close_down.
    + by rewrite Ek.
Qed.
End Props.

(** ** One header *)

Definition header0 : bytes :=
  str "POST /a HTTP/1.1" ++ crlf ++ str "Content-Length: 2" ++ crlf ++ crlf.

Definition request0 : HTTPRequest.t :=
  HTTPRequest.set_header (str "Content-Length") (str "2")
    (HTTPRequest.set_version 17 (HTTPRequest.set_path (str "/a")
       (HTTPRequest.set_method POST (HTTPRequest.new_request 17 true)))).

Definition number (s : bytes) : option Z := Some (undec s).

Lemma cut_app off len h rest : 0 <= off -> 0 <= len -> off + len <= zlen h ->
  cut off len (h ++ rest) = Ret (slice off len h).
Proof.
  intros H1 H2 H3. unfold cut. rewrite zlen_app. pose proof (zlen_nonneg rest).
  rewrite (proj2 (Z.leb_le 0 off) H1), (proj2 (Z.leb_le 0 len) H2), (proj2 (Z.leb_le (off + len) _)) by lia.
  cbn [andb]. by rewrite slice_app_l by lia.
Qed.

(** The machine of the parser on the header. *)
Definition exec0 : http_request_parser * request_state * Z * list event :=
  request_exec (http_request_parser_init 0 0) header0.

Definition events0 (rest : bytes) : list event :=
  [Element request_method 0 4; Element request_path 5 2; Element request_uri 5 2; Element http_version 8 8;
   Field 18 14 34 1; Element header_done 39 (zlen (header0 ++ rest) - 38 - 1)].

Lemma accepts0 : accepts 0 0 header0 request0.
Proof.
  split; [done|]. split; [discriminate|]. intros rest. exists (exec0.1.1.1), (exec0.1.1.2), (events0 rest).
  split; [split; vm_compute; reflexivity|].
  split; [vm_compute; split_and!; discriminate || reflexivity|]. split; [vm_compute; reflexivity|].
  eexists (MkRequestParser (http_request_parser_init 0 0) request0 0). split; [|done].
  unfold events0. cbn [run_events on_request_event].
  rewrite !cut_app by (vm_compute; discriminate). reflexivity.
Qed.

Definition client0 (chunk : nat) (b : bytes) : pipe := MkPipe true chunk b [].

Example request_received_ex : exists s',
  recv_request 4096 number 1000 0 0 1 (MkStream (Some (client0 99 (header0 ++ str "okx"))) true) =
    (Ret (Some (HTTPRequest.set_body (str "ok") request0)), s') /\
  s_in s' = [].
Proof.
  destruct (recv_request_ok 4096 number 1000 0 0 0 header0 request0 (str "okx")
    (MkStream (Some (client0 99 (header0 ++ str "okx"))) true) 42 (header0 ++ str "okx")
    (MkStream (Some (client0 99 [])) true)) as (s' & E & Hi & _); try reflexivity.
  - exact accepts0.
  - vm_compute. discriminate.
  - vm_compute. discriminate.
  - vm_compute. discriminate.
  - exists s'. split; [exact E|exact Hi].
Qed.

(** The header in two pieces: the process is aborted. *)
Definition first0 : http_request_parser * request_state * Z * list event :=
  request_exec (http_request_parser_init 0 0) (ztake 10 header0).
Definition half0 : http_request_parser :=
  let q := first0.1.1.1 in
  MkReqParser (first0.1.1.2) (rq_body_start q) (rq_content_len q) 10 (rq_mark q) (rq_field_start q)
    (rq_field_len q) (rq_query_start q) (rq_xml_sent q) (rq_json_sent q) (rq_uri_relaxed q).
Definition second0 : http_request_parser * request_state * Z * list event :=
  request_exec half0 (slice 10 10 header0).

Lemma unfinished0 : unfinished 0 0 (ztake 10 header0) half0.
Proof.
  exists (first0.1.1.1), (first0.1.1.2), (first0.2),
    (MkRequestParser (http_request_parser_init 0 0)
       (HTTPRequest.set_path (str "/a") (HTTPRequest.set_method POST (HTTPRequest.new_request 17 true))) 0).
  split; [split; vm_compute; reflexivity|]. split; [by split|]. split; [discriminate|].
  split; [vm_compute; split_and!; discriminate || reflexivity|]. split; [vm_compute; reflexivity|].
  split; [|by split].
  assert (first0.2 = [Element request_method 0 4; Element request_path 5 2; Element request_uri 5 2]) as ->
    by (vm_compute; reflexivity). reflexivity.
Qed.

Lemma request_needs_one_read_witness :
  (recv_request 4096 number 1000 0 0 2 (MkStream (Some (client0 9 (ztake 20 header0))) true)).1 =
    Undef AssertFail.
Proof.
  destruct (request_needs_one_read 4096 number 1000 0 0 0 (ztake 10 header0) (slice 10 10 header0)
    half0 (MkStream (Some (client0 9 (ztake 20 header0))) true)
    (MkStream (Some (client0 9 (slice 10 10 header0))) true) (MkStream (Some (client0 9 [])) true)) as [H _].
  - vm_compute. split; [reflexivity|discriminate].
  - exact unfinished0.
  - reflexivity.
  - rewrite (H (second0.1.1.1) (second0.1.1.2) (second0.1.2) (second0.2)); [reflexivity|discriminate|reflexivity|..].
    + vm_compute. reflexivity.
    + vm_compute. split_and!; discriminate || reflexivity.
    + vm_compute. reflexivity.
Defined.

Lemma one_request_served_witness : exists s2,
  handle_client 4096 number 1000 0 0 (fun _ _ => false) (fun _ _ r => r) (fun _ _ r => r) 1 1
    (new_HTTPServer false) (client0 99 (header0 ++ str "ok")) = (Ret tt, stream_close s2) /\
  s_out s2 = outbox (client0 99 (header0 ++ str "ok")) ++
    HTTPResponse.dump (not_found (HTTPResponse.new_response 17 true)) /\
  is_connected (stream_close s2) = false.
Proof.
  apply (one_request_served 4096 number 1000 0 0 (fun _ _ => false) (fun _ _ r => r) (fun _ _ r => r)
    0 0 (new_HTTPServer false) (client0 99 (header0 ++ str "ok")) header0 request0 (str "ok") 41
    (header0 ++ str "ok") (MkStream (Some (client0 99 [])) true)
    (not_found (HTTPResponse.new_response 17 true))); try reflexivity.
  - exact accepts0.
  - vm_compute. discriminate.
  - vm_compute. discriminate.
  - by left.
Defined.
