(* ===== verification/HttpGrammarProps.v ===== *)
(** * What the machines of the HTTP parsers accept

    A request that is printed is accepted, and the calls of the machine make the same request
    of it. *)

From stdpp Require Import base list numbers strings.
From Stdlib Require Import Lia ZArith.
From S2P Require Import Prelude Http HttpProps Ragel HttpParser HttpGrammar HttpSession HttpSessionProps.

(** ** Runs over words *)

Section Runs.
Context {A : Type} `{!EqDecision A} (breaks : A -> bool).

Definition unbroken (tr : list (Z * A)) : bool := forallb (fun x => negb (breaks (snd x))) tr.

Lemma existsb_breaks l (pos : Z) :
  existsb breaks l = negb (unbroken ((fun a => (pos, a)) <$> l)).
Proof. unfold unbroken. induction l as [|a l IH]; [done|]. cbn. rewrite IH. by destruct (breaks a). Qed.

Lemma run_scan (st : list (re (Z * A))) pos w s tr st' : scan st pos w = (tr, Some st') -> unbroken tr = true ->
  run breaks st pos (w ++ s) =
  let '(tr', e, n) := run breaks st' (pos + zlen w) s in (tr ++ tr', e, n).
Proof.
  revert st pos tr; induction w as [|c w IH]; intros st pos tr E Hu; cbn [app scan] in *.
  - injection E as <- <-. change (zlen []) with 0. rewrite Z.add_0_r. by destruct (run breaks st pos s) as [[? ?] ?].
  - cbn [run]. destruct (step c st) as [l [|r st1]] eqn:Es; [done|].
    destruct (scan (r :: st1) (pos + 1) w) as [tr1 e1] eqn:E1. injection E as <- ->.
    unfold unbroken in Hu. rewrite forallb_app in Hu. apply andb_true_iff in Hu as [Hu1 Hu2].
    rewrite (existsb_breaks l pos). unfold unbroken at 1. rewrite Hu1. cbn [negb].
    rewrite (IH _ _ _ E1 Hu2), zlen_cons, Z.add_assoc.
    destruct (run breaks st' (pos + 1 + zlen w) s) as [[tr' e] n]. by rewrite app_assoc.
Qed.

Lemma unbroken_shift pos tr : unbroken (shift pos tr) = unbroken tr.
Proof. unfold unbroken, shift. induction tr as [|x tr IH]; [done|]. cbn. by rewrite IH. Qed.
End Runs.

(** ** From the middle of a text *)

Lemma run_events_app {P} (on : event -> P -> res P) l k p :
  run_events on (l ++ k) p = let? p := run_events on l p in run_events on k p.
Proof. revert p; induction l as [|e l IH]; intros p; [done|]. cbn. destruct (on e p); [apply IH|done..]. Qed.

Section Takes.
(** A machine whose actions work on structures [P] and make calls that work on objects [D]. *)
Context {A P D : Type} `{!EqDecision A} (breaks : A -> bool).
Context (acts : bytes -> list (Z * A) -> P -> P * list event) (on : bytes -> event -> D -> res D).
Hypothesis acts_app : forall buffer l k p,
  acts buffer (l ++ k) p =
  let (p1, e1) := acts buffer l p in let (p2, e2) := acts buffer k p1 in (p2, e1 ++ e2).

(** From a place, after [pre] and before [s], with the structure [p] and the object [d]: the
    machine ends at [n] in a state with [done], and leaves a structure and an object with
    [G]. *)
Definition takes_to (done : list (re (Z * A)) -> Prop) (X : place A) (pre s : bytes) (p : P) (d : D) (n : Z)
    (G : P -> D -> Prop) : Prop :=
  forall st, at_place X st -> exists tr st' q es d',
    run breaks st (zlen pre) s = (tr, Some st', n) /\ done st' /\
    acts (pre ++ s) tr p = (q, es) /\ run_events (on (pre ++ s)) es d = Ret d' /\ G q d'.

Lemma takes_to_covers done X w tr Y pre s p p1 e1 d d1 n G :
  covers X w tr Y -> unbroken breaks tr = true ->
  acts (pre ++ w ++ s) (shift (zlen pre) tr) p = (p1, e1) ->
  run_events (on (pre ++ w ++ s)) e1 d = Ret d1 ->
  takes_to done Y (pre ++ w) s p1 d1 n G -> takes_to done X pre (w ++ s) p d n G.
Proof.
  intros Hc Hu Ha He Ht st Hst. destruct (Hc st (zlen pre) Hst) as (st1 & Es & Hst1).
  destruct (Ht st1 Hst1) as (tr2 & st' & q & es & d' & Hr & Hn & Hq & Hev & HG).
  exists (shift (zlen pre) tr ++ tr2), st', q, (e1 ++ es), d'.
  rewrite (run_scan breaks _ _ _ _ _ _ Es) by (by rewrite unbroken_shift).
  rewrite zlen_app in Hr. rewrite Hr. split; [done|]. split; [done|].
  rewrite <-app_assoc in Hq, Hev. rewrite acts_app, Ha, Hq. split; [done|].
  rewrite run_events_app, He. done.
Qed.

(** One character. *)
Lemma takes_to_edge done X l a Y pre c s p p1 e1 d d1 n G :
  edge X l a Y -> in_cls c l = true -> existsb breaks a = false ->
  acts (pre ++ c :: s) ((fun a => (zlen pre, a)) <$> a) p = (p1, e1) ->
  run_events (on (pre ++ c :: s)) e1 d = Ret d1 ->
  takes_to done Y (pre ++ [c]) s p1 d1 n G -> takes_to done X pre (c :: s) p d n G.
Proof.
  intros He Hc Hb Ha Hev Ht.
  pose proof (covers_cons X l a Y c [] [] Y He Hc (covers_nil Y)) as Hcov. cbn [shift fmap list_fmap] in Hcov.
  rewrite app_nil_r in Hcov.
  eapply (takes_to_covers done X [c] _ Y pre s); [exact Hcov| |by rewrite shift_here|done|done].
  rewrite (existsb_breaks breaks a 0) in Hb. by apply negb_false_iff in Hb.
Qed.

(** The character that ends the header. *)
Lemma takes_to_done (done : list (re (Z * A)) -> Prop) X l a Y pre c s p q es d d' (G : P -> D -> Prop) :
  edge X l a Y -> in_cls c l = true -> existsb breaks a = true ->
  (forall st, NoDup st -> at_place Y st -> done st) ->
  acts (pre ++ c :: s) ((fun a => (zlen pre, a)) <$> a) p = (q, es) ->
  run_events (on (pre ++ c :: s)) es d = Ret d' -> G q d' ->
  takes_to done X pre (c :: s) p d (zlen pre + 1) G.
Proof.
  intros He Hc Hb Hdone Ha Hev HG st Hst. destruct (He st c Hst Hc) as (st1 & Es & Hne & Hst1).
  assert (NoDup st1) as Hnd by (replace st1 with (snd (step c st)) by (by rewrite Es); apply nub_NoDup).
  exists ((fun a => (zlen pre, a)) <$> a), st1, q, es, d'.
  cbn [run]. rewrite Es. destruct st1 as [|r1 st1]; [done|]. rewrite Hb. split; [done|]. split; [by apply Hdone|done].
Qed.
End Takes.

(** *** Requests *)

Lemma request_acts_app pe l k p :
  request_acts pe (l ++ k) p =
  let (p1, e1) := request_acts pe l p in let (p2, e2) := request_acts pe k p1 in (p2, e1 ++ e2).
Proof.
  revert p; induction l as [|[fpc a] l IH]; intros p; cbn [app request_acts].
  - by destruct (request_acts pe k p).
  - destruct (request_act pe fpc a p) as [p1 e1]. rewrite IH. destruct (request_acts pe l p1) as [p2 e2].
    destruct (request_acts pe k p2) as [p3 e3]. by rewrite app_assoc.
Qed.

Abbreviation spot := (place request_action).
Abbreviation rq_acts := (fun buffer => request_acts (zlen buffer)).

(** The machine ends at [n], inside the text, and the calls make the request [r]. *)
Definition takes (X : spot) (pre s : bytes) (p : rq_struct) (d : HTTPRequestParser) (n : Z) (r : HTTPRequest.t) : Prop :=
  takes_to request_breaks rq_acts on_request_event (fun st => existsb nullable st = true) X pre s p d n
    (fun q d' => inside q n /\ rq_data d' = r /\ rq_error d' = 0).

Definition takes_covers X w tr Y pre s p p1 e1 d d1 n r :=
  takes_to_covers request_breaks rq_acts on_request_event (fun b => request_acts_app (zlen b))
    (fun st => existsb nullable st = true) X w tr Y pre s p p1 e1 d d1 n
    (fun q d' => inside q n /\ rq_data d' = r /\ rq_error d' = 0).

Definition takes_edge X l a Y pre c s p p1 e1 d d1 n r :=
  takes_to_edge request_breaks rq_acts on_request_event (fun b => request_acts_app (zlen b))
    (fun st => existsb nullable st = true) X l a Y pre c s p p1 e1 d d1 n
    (fun q d' => inside q n /\ rq_data d' = r /\ rq_error d' = 0).

Lemma takes_done X l a Y pre c s p q es d d' r :
  edge X l a Y -> in_cls c l = true -> existsb request_breaks a = true -> existsb nullable (must Y) = true ->
  request_acts (zlen (pre ++ c :: s)) ((fun a => (zlen pre, a)) <$> a) p = (q, es) -> inside q (zlen pre + 1) ->
  run_events (on_request_event (pre ++ c :: s)) es d = Ret d' -> rq_data d' = r -> rq_error d' = 0 ->
  takes X pre (c :: s) p d (zlen pre + 1) r.
Proof.
  intros He Hc Hb Hn Ha Hin Hev Hd Her. eapply takes_to_done; [done..| |done|done|done].
  intros st _ [_ Hmust]. apply existsb_exists in Hn as (x & Hx & Hn). apply existsb_exists. exists x. split; [|done].
  apply list_elem_of_In, Hmust. by apply list_elem_of_In.
Qed.

(** ** The places of the request machine *)

Section Places.
Context (relaxed : bool).

Definition at_rq (s : bytes) : list (re (Z * request_action)) :=
  default [] (snd (scan (request_machine_start relaxed) 0 s)).
Definition exactly (s : bytes) : spot := Place (at_rq s) (at_rq s).
Definition around_words (cs : bytes) (s : bytes) : spot := Place (explore 2000 cs (at_rq s) []) (at_rq s).

(** The places are named by what comes next, or by what they are in. *)
Definition sample_line : bytes := str "G / HTTP/1.1" ++ crlf.
Definition before_method : spot := exactly [].
Definition before_uri : spot := exactly (str "G ").
Definition after_slash : spot := exactly (str "G /").
Definition in_path : spot := around_words (str "a/") (str "G /a").
Definition before_query : spot := exactly (str "G /?").
Definition in_query : spot := around_words (str "a/") (str "G /?a").
Definition before_fragment : spot := exactly (str "G /#").
Definition in_fragment : spot := around_words (str "a/") (str "G /#a").
Definition before_version : spot := exactly (str "G / ").
Definition before_header : spot := exactly sample_line.
Definition in_name : spot := exactly (sample_line ++ str "a").
Definition after_colon : spot := exactly (sample_line ++ str "a:").
Definition after_space : spot := exactly (sample_line ++ str "a: ").
Definition in_value : spot := around_words (str "a ") (sample_line ++ str "a: a").
Definition after_value : spot := exactly (sample_line ++ str "a: a" ++ [13]).
Definition before_end : spot := exactly (sample_line ++ [13]).
Definition after_end : spot := after 10 before_end.

Definition segment_chars : cls := RequestGrammar.unreserved ++ RequestGrammar.sub_delims relaxed ++ chars (str ":@").
Definition path_chars : cls := segment_chars ++ chars (str "/").
Definition query_chars : cls := segment_chars ++ chars (str "/?").
End Places.

(** Names of headers without line ends, and values: no controls that end them, and no space
    in front. *)
Definition name_chars : cls := minus RequestGrammar.token (chars crlf).
Definition value_chars : cls := [(1, 9); (11, 12); (14, 126); (128, 255)].
Definition value_first : cls := [(1, 8); (11, 12); (14, 31); (33, 126); (128, 255)].

Ltac by_evaluation :=
  repeat match goal with |- _ /\ _ => split end;
  first [apply edge_by_check|apply leads_by_check|apply covers_by_check]; vm_compute; reflexivity.

Lemma rq_path_edges relaxed :
  edge (before_uri relaxed) [(47, 47)] [rq_mark_a] (after_slash relaxed) /\
  leads (after_slash relaxed) (segment_chars relaxed) [] (in_path relaxed) /\
  leads (in_path relaxed) (path_chars relaxed) [] (in_path relaxed).
Proof. destruct relaxed; by_evaluation. Qed.

(** What can follow a path. *)
Definition path_end (relaxed : bool) (X : spot) : Prop :=
  edge X [(32, 32)] [request_path_a; request_uri_a] (before_version relaxed) /\
  edge X [(63, 63)] [request_path_a] (before_query relaxed) /\
  edge X [(35, 35)] [request_path_a; request_uri_a] (before_fragment relaxed).

Lemma rq_path_ends relaxed : path_end relaxed (after_slash relaxed) /\ path_end relaxed (in_path relaxed).
Proof. unfold path_end. destruct relaxed; by_evaluation. Qed.

Lemma rq_query_edges relaxed :
  leads (before_query relaxed) (query_chars relaxed) [start_query] (in_query relaxed) /\
  leads (in_query relaxed) (query_chars relaxed) [] (in_query relaxed) /\
  edge (in_query relaxed) [(32, 32)] [query_string_a; request_uri_a] (before_version relaxed) /\
  edge (in_query relaxed) [(35, 35)] [query_string_a; request_uri_a] (before_fragment relaxed).
Proof. destruct relaxed; by_evaluation. Qed.

Lemma rq_fragment_edges relaxed :
  leads (before_fragment relaxed) (query_chars relaxed) [rq_mark_a] (in_fragment relaxed) /\
  leads (in_fragment relaxed) (query_chars relaxed) [] (in_fragment relaxed) /\
  edge (in_fragment relaxed) [(32, 32)] [fragment_a] (before_version relaxed).
Proof. destruct relaxed; by_evaluation. Qed.

Lemma version_covers relaxed :
  covers (before_version relaxed) (str "HTTP/1.1" ++ crlf) [(0, rq_mark_a); (8, http_version_a)] (before_header relaxed) /\
  covers (before_version relaxed) (str "HTTP/1.0" ++ crlf) [(0, rq_mark_a); (8, http_version_a)] (before_header relaxed).
Proof. destruct relaxed; by_evaluation. Qed.

Lemma header_edges relaxed :
  edge (before_header relaxed) name_chars [start_field] (in_name relaxed) /\
  edge (in_name relaxed) name_chars [] (in_name relaxed) /\
  edge (in_name relaxed) [(58, 58)] [write_field] (after_colon relaxed) /\
  edge (after_colon relaxed) [(32, 32)] [start_value] (after_space relaxed) /\
  edge (after_space relaxed) value_first [start_value] (in_value relaxed) /\
  edge (in_value relaxed) value_chars [] (in_value relaxed) /\
  edge (in_value relaxed) [(13, 13)] [write_value] (after_value relaxed) /\
  edge (after_value relaxed) [(10, 10)] [] (before_header relaxed).
Proof. destruct relaxed; by_evaluation. Qed.

Lemma end_edges relaxed :
  edge (before_header relaxed) [(13, 13)] [start_field] (before_end relaxed) /\
  edge (before_end relaxed) [(10, 10)] [done_a] (after_end relaxed).
Proof. destruct relaxed; by_evaluation. Qed.

Lemma end_final relaxed : existsb nullable (must (after_end relaxed)) = true.
Proof. destruct relaxed; vm_compute; reflexivity. Qed.

(** The methods whose names the grammar knows. *)
Definition plain_method (m : HTTPMethod) : bool :=
  match m with MSEARCH | INVALID_METHOD => false | _ => true end.

(** The places inside a method, by the length of what was read. *)
Definition in_method (relaxed : bool) (k : nat) : spot := exactly relaxed (replicate k 65).

#[local] Abbreviation method_on relaxed :=
  (fun k => edge_check (in_method relaxed k) upper_c [] (in_method relaxed (S k))).
#[local] Abbreviation method_over relaxed :=
  (fun k => edge_check (in_method relaxed k) [(32, 32)] [request_method_a] (before_uri relaxed)).

Lemma method_checks relaxed :
  forallb (method_on relaxed) (seq 1 11) = true /\ forallb (method_over relaxed) (seq 1 11) = true.
Proof. destruct relaxed; split; vm_compute; reflexivity. Qed.

Lemma method_begins relaxed : edge (before_method relaxed) upper_c [rq_mark_a] (in_method relaxed 1).
Proof. destruct relaxed; by_evaluation. Qed.

Lemma checked_upto (f : nat -> bool) n k : forallb f (seq 1 n) = true -> (1 <= k < S n)%nat -> f k = true.
Proof. intros H Hk. apply (proj1 (forallb_forall _ _) H), in_seq. lia. Qed.

Lemma method_goes_on relaxed k : (1 <= k < 12)%nat ->
  edge (in_method relaxed k) upper_c [] (in_method relaxed (S k)) /\
  edge (in_method relaxed k) [(32, 32)] [request_method_a] (before_uri relaxed).
Proof.
  intros Hk. destruct (method_checks relaxed) as [H1 H2].
  apply (checked_upto (method_on relaxed) 11 k) in H1; [|done].
  apply (checked_upto (method_over relaxed) 11 k) in H2; [|done].
  split; [exact (edge_by_check _ _ _ _ H1)|exact (edge_by_check _ _ _ _ H2)].
Qed.

Lemma in_method_covers relaxed w k : forallb (fun c => in_cls c upper_c) w = true -> (1 <= k)%nat ->
  (k + length w < 12)%nat ->
  covers (in_method relaxed k) (w ++ [32]) [(zlen w, request_method_a)] (before_uri relaxed).
Proof.
  revert k; induction w as [|c w IH]; intros k Hw Hk Hlen; cbn [app].
  - destruct (method_goes_on relaxed k ltac:(cbn in Hlen; lia)) as [_ He].
    apply (covers_cons _ _ _ _ 32 [] [] _ He); [done|apply covers_nil].
  - cbn [forallb length] in *. apply andb_true_iff in Hw as [Hc Hw].
    destruct (method_goes_on relaxed k ltac:(lia)) as [He _]. rewrite zlen_cons.
    apply (covers_cons _ _ [] _ c (w ++ [32]) [(zlen w, request_method_a)] _ He Hc), IH; [done|lia..].
Qed.

Lemma method_covers relaxed m text : HTTPMethodToString m = Ret text -> plain_method m = true ->
  covers (before_method relaxed) (text ++ [32]) [(0, rq_mark_a); (zlen text, request_method_a)] (before_uri relaxed).
Proof.
  intros Ht Hp.
  assert (text <> [] /\ forallb (fun c => in_cls c upper_c) text = true /\ (length text < 12)%nat) as (Hne & Hu & Hl)
    by (destruct m; try discriminate Hp; vm_compute in Ht; injection Ht as <-;
        (split; [discriminate|split; [reflexivity|cbn; lia]])).
  destruct text as [|c w]; [done|]. cbn [forallb length] in *. apply andb_true_iff in Hu as [Hc Hw].
  rewrite zlen_cons.
  apply (covers_cons _ _ [rq_mark_a] _ c (w ++ [32]) [(zlen w, request_method_a)] _ (method_begins relaxed) Hc).
  apply in_method_covers; [done|lia|lia].
Qed.

(** ** What the grammars do with some texts *)

Section Texts.
(** How far a machine comes, whether it is finished, and its calls. *)
Definition request_run (s : bytes) : Z * bool * list event :=
  let '(_, cs, n, es) := exec_request (http_request_parser_init (machine := request_ragel) 0 0) s in
  (n, state_final cs, es).
Definition response_run (s : bytes) : Z * bool * list event :=
  let '(_, cs, n, es) := exec_response (http_response_parser_init (machine := response_ragel) 0) s in
  (n, response_first_final cs, es).

Definition status_line0 : bytes := str "HTTP/1.1 200 OK" ++ crlf.
Definition status_events : list event :=
  [Element http_version 0 8; Element status_code 9 3; Element reason_phrase 13 2].

(** The value of a header without one is the text since the last mark: here the value before,
    the line end and the name. *)
Example empty_value_takes_old_text :
  request_run (str "GET / HTTP/1.1" ++ crlf ++ str "A: b" ++ crlf ++ str "X:" ++ crlf ++ crlf) =
  (28, true, [Element request_method 0 3; Element request_path 4 1; Element request_uri 4 1;
     Element http_version 6 8; Field 16 1 19 1; Field 22 1 19 5; Element header_done 28 0]).
Proof. vm_compute. reflexivity. Qed.

(** In a response it is the reason and the name. *)
Example empty_value_takes_reason :
  response_run (status_line0 ++ str "X:" ++ crlf ++ crlf) =
  (23, true, status_events ++ [Field 17 1 13 6; Element header_done 23 0]).
Proof. vm_compute. reflexivity. Qed.

(** A method of the table that the grammar refuses, and an address that it does not know. *)
Example msearch_refused : request_run (str "M-SEARCH / HTTP/1.1" ++ crlf ++ crlf) = (1, false, []).
Proof. vm_compute. reflexivity. Qed.

Example ipv6_host_refused :
  request_run (str "GET http://[1:2:3:4:5:6:7:8]/ HTTP/1.1" ++ crlf ++ crlf) =
  (27, false, [Element request_method 0 3]).
Proof. vm_compute. reflexivity. Qed.

(** A length is reported twice; an empty one leaves a state that is final and not the one
    that [http_response_parser_is_finished] compares with. *)
Example length_reported_twice :
  response_run (status_line0 ++ str "Content-Length: 5" ++ crlf ++ crlf) =
  (38, true, status_events ++ [Field 17 14 33 1; Field 17 14 33 1; Element header_done 38 0]).
Proof. vm_compute. reflexivity. Qed.

Example empty_length_not_finished :
  response_run (status_line0 ++ str "Content-Length:" ++ crlf ++ crlf) =
  (36, false, status_events ++ [Field 17 14 13 19; Element header_done 36 0]).
Proof. vm_compute. reflexivity. Qed.

(** The extension of a chunk is a header of the response. *)
Example extension_is_header :
  response_run (str "a;n=v" ++ crlf) = (7, true, [Element chunk_size 0 1; Field 2 1 4 1; Element header_done 7 0]).
Proof. vm_compute. reflexivity. Qed.
End Texts.
