(* ===== verification/HttpStages.v ===== *)
(** * The request machine stage by stage

    From the method to the end of the header: what the machine reads and what its calls make
    of it, given what it makes of the rest. *)

From stdpp Require Import base list numbers strings.
From Stdlib Require Import Lia ZArith.
From S2P Require Import Prelude Http Ragel HttpParser HttpGrammar HttpSession HttpSessionProps HttpGrammarProps.

(** Lengths of concatenations. *)
Ltac zlens :=
  rewrite ?zlen_app, ?zlen_cons, ?zlen_app, ?zlen_cons, ?zlen_nil in *;
  repeat match goal with
  | |- context [zlen ?w] => lazymatch goal with _ : 0 <= zlen w |- _ => fail | _ => pose proof (zlen_nonneg w) end
  | _ : context [zlen ?w] |- _ => lazymatch goal with _ : 0 <= zlen w |- _ => fail | _ => pose proof (zlen_nonneg w) end
  end; lia.

(** ** The stages of the machine *)

Section Stages.
Context (relaxed : bool).

(** The members of the structure when [k] characters of the header were read. *)
Definition sane (k : Z) (p : rq_struct) : Prop :=
  rq_mark p <= k /\ rq_field_start p <= k /\ rq_field_len p <= k /\ rq_xml_sent p = 0 /\ rq_json_sent p = 0.

(** From a place the machine makes the request [r] of the object [d], whatever members the
    structure has. *)
Definition goes_on (X : spot) (pre s : bytes) (d : HTTPRequestParser) (n : Z) (r : HTTPRequest.t) : Prop :=
  forall p, sane (zlen pre) p -> takes X pre s p d n r.

Lemma sane_mono j k p : sane j p -> j <= k -> sane k p.
Proof. unfold sane. lia. Qed.

Lemma LEN_app (pre w : bytes) : zlen (pre ++ w) < 2 ^ 64 -> LEN (zlen pre) (zlen (pre ++ w)) = zlen w.
Proof.
  intros H. unfold LEN, wrap. rewrite zlen_app in *. pose proof (zlen_nonneg pre). pose proof (zlen_nonneg w).
  rewrite Z.add_simpl_l, Z.mod_small by lia. done.
Qed.

Lemma zdrop_pre {A} (pre w : list A) : zdrop (zlen pre) (pre ++ w) = w.
Proof. rewrite zdrop_app_r by lia. by rewrite Z.sub_diag, zdrop_0. Qed.

Lemma cut_mid (pre w s : bytes) : cut (zlen pre) (zlen w) ((pre ++ w) ++ s) = Ret w.
Proof.
  pose proof (zlen_nonneg pre). pose proof (zlen_nonneg w).
  rewrite cut_app by (rewrite ?zlen_app; lia). unfold slice. by rewrite zdrop_pre, ztake_all by lia.
Qed.

(** The text from the mark to where the machine is. *)
Lemma cut_LEN pre w s : zlen (pre ++ w) < 2 ^ 64 ->
  cut (zlen pre) (LEN (zlen pre) (zlen (pre ++ w))) ((pre ++ w) ++ s) = Ret w.
Proof. intros H. rewrite LEN_app by done. apply cut_mid. Qed.

(** Words without calls. *)
Lemma takes_quiet X w Y pre s p d n r : covers X w [] Y ->
  takes Y (pre ++ w) s p d n r -> takes X pre (w ++ s) p d n r.
Proof. intros Hc Ht. eapply takes_covers; [done|done|reflexivity|reflexivity|done]. Qed.

Lemma takes_mark X w Y pre s p d n r : covers X w [(0, rq_mark_a)] Y ->
  takes Y (pre ++ w) s (with_mark (zlen pre) p) d n r -> takes X pre (w ++ s) p d n r.
Proof. intros Hc Ht. eapply takes_covers; [done|done|cbn; rewrite Z.add_0_r; reflexivity|reflexivity|done]. Qed.

(** *** The end of the header *)

Lemma goes_end pre s d : rq_error d = 0 ->
  goes_on (before_header relaxed) pre (crlf ++ s) d (zlen pre + 2) (rq_data d).
Proof.
  intros Hd p (Hm & Hs & Hl & Hx & Hj). destruct (end_edges relaxed) as [E1 E2]. cbn [crlf app].
  eapply takes_edge; [exact E1|done|done|reflexivity|reflexivity|].
  replace (zlen pre + 2) with (zlen (pre ++ [13]) + 1) by (rewrite zlen_app; change (zlen [13]) with 1; lia).
  eapply takes_done; [exact E2|done|done|apply end_final|cbn; rewrite Hx, Hj; reflexivity| |reflexivity|done|done].
  unfold inside. cbn. rewrite zlen_app. change (zlen [13]) with 1. lia.
Qed.

(** *** Header lines *)

Definition print_line (it : bytes * bytes) : bytes := it.1 ++ str ": " ++ it.2 ++ crlf.

Lemma print_line_eq k v : print_line (k, v) = k ++ str ": " ++ v ++ crlf.
Proof. done. Qed.

Definition good_line (it : bytes * bytes) : bool :=
  match it.1, it.2 with
  | _ :: _, c :: v =>
      forallb (fun c => in_cls c name_chars) it.1 && in_cls c value_first && forallb (fun c => in_cls c value_chars) v
  | _, _ => false
  end.

Lemma name_covers w : w <> [] -> forallb (fun c => in_cls c name_chars) w = true ->
  covers (before_header relaxed) w [(0, start_field)] (in_name relaxed).
Proof.
  intros Hne Hw. destruct w as [|c w]; [done|]. cbn [forallb] in Hw. apply andb_true_iff in Hw as [Hc Hw].
  destruct (header_edges relaxed) as (E1 & E2 & _).
  exact (covers_cons _ _ [start_field] _ c w [] _ E1 Hc (covers_loop _ _ w E2 Hw)).
Qed.

Lemma value_covers c v : in_cls c value_first = true -> forallb (fun c => in_cls c value_chars) v = true ->
  covers (after_space relaxed) (c :: v) [(0, start_value)] (in_value relaxed).
Proof.
  intros Hc Hv. destruct (header_edges relaxed) as (_ & _ & _ & _ & E5 & E6 & _).
  exact (covers_cons _ _ [start_value] _ c v [] _ E5 Hc (covers_loop _ _ v E6 Hv)).
Qed.

Lemma field_read pre name a b value s d : name <> [] -> zlen ((((pre ++ name) ++ a) ++ b) ++ value) < 2 ^ 64 ->
  run_events (on_request_event (((((pre ++ name) ++ a) ++ b) ++ value) ++ s))
    [Field (zlen pre) (LEN (zlen pre) (zlen (pre ++ name))) (zlen (((pre ++ name) ++ a) ++ b))
       (LEN (zlen (((pre ++ name) ++ a) ++ b)) (zlen ((((pre ++ name) ++ a) ++ b) ++ value)))] d =
  Ret (rq_set_data (HTTPRequest.set_header name value) d).
Proof.
  intros Hne Hz. cbn [run_events on_request_event]. rewrite cut_LEN by done.
  rewrite <-!(app_assoc (pre ++ name)), cut_LEN.
  - cbn [res_bind]. unfold on_request_http_field. by rewrite bool_decide_false.
  - zlens.
Qed.

Lemma goes_line it pre s d n r : good_line it = true -> zlen (pre ++ print_line it) < 2 ^ 64 ->
  goes_on (before_header relaxed) (pre ++ print_line it) s (rq_set_data (HTTPRequest.set_header it.1 it.2) d) n r ->
  goes_on (before_header relaxed) pre (print_line it ++ s) d n r.
Proof.
  destruct it as [name [|c v]]; intros Hg Hz Ht p (Hm & Hs & Hl & Hx & Hj); [by destruct name|].
  unfold good_line in Hg. cbn [fst snd] in *. assert (name <> []) as Hne by (by destruct name).
  replace (match name with [] => false | _ => _ end)
    with (forallb (fun c => in_cls c name_chars) name && in_cls c value_first &&
          forallb (fun c => in_cls c value_chars) v) in Hg by (by destruct name).
  rewrite !andb_true_iff in Hg. destruct Hg as [[Hn Hc] Hv].
  destruct (header_edges relaxed) as (_ & _ & E3 & E4 & _ & _ & E7 & E8).
  set (value := c :: v) in *. unfold print_line in *. cbn [fst snd] in *. change (str ": ") with [58; 32] in *. unfold crlf in *.
  rewrite <-!app_assoc. cbn [app].
  eapply (takes_covers _ name); [exact (name_covers name Hne Hn)|done|cbn; rewrite Z.add_0_r; reflexivity|reflexivity|].
  eapply takes_edge; [exact E3|done|done|reflexivity|reflexivity|].
  eapply takes_edge; [exact E4|done|done|reflexivity|reflexivity|].
  eapply (takes_covers _ value); [exact (value_covers c v Hc Hv)|done|cbn; rewrite Z.add_0_r; reflexivity|reflexivity|].
  assert (zlen ((((pre ++ name) ++ [58]) ++ [32]) ++ value) < 2 ^ 64) as Hz' by zlens.
  eapply takes_edge; [exact E7|done|done|reflexivity|exact (field_read _ _ _ _ _ _ _ Hne Hz')|].
  eapply takes_edge; [exact E8|done|done|reflexivity|reflexivity|].
  replace (((((((pre ++ name) ++ [58]) ++ [32]) ++ value) ++ [13]) ++ [10]))
    with (pre ++ name ++ [58; 32] ++ value ++ [13; 10]) by (by rewrite <-!app_assoc).
  apply Ht. unfold sane. cbn [rq_mark rq_field_start rq_field_len rq_xml_sent rq_json_sent with_mark with_field_start with_field_len].
  rewrite LEN_app by zlens. clear Hz'. zlens.
Qed.

Definition set_lines (lines : list (bytes * bytes)) (r : HTTPRequest.t) : HTTPRequest.t :=
  fold_left (fun r it => HTTPRequest.set_header it.1 it.2 r) lines r.

Lemma goes_lines lines pre s d : forallb good_line lines = true -> rq_error d = 0 ->
  zlen (pre ++ flat_map print_line lines) < 2 ^ 64 ->
  goes_on (before_header relaxed) pre (flat_map print_line lines ++ crlf ++ s) d
    (zlen (pre ++ flat_map print_line lines) + 2) (set_lines lines (rq_data d)).
Proof.
  revert pre d; induction lines as [|it lines IH]; intros pre d Hg Hd Hz; cbn [flat_map set_lines fold_left forallb] in *.
  - rewrite app_nil_r. by apply goes_end.
  - apply andb_true_iff in Hg as [Hi Hg]. rewrite app_assoc in Hz. rewrite <-(app_assoc (print_line it)).
    apply goes_line; [done|zlens|]. rewrite (app_assoc pre).
    exact (IH _ (rq_set_data (HTTPRequest.set_header it.1 it.2) d) Hg Hd Hz).
Qed.

(** *** The version *)

Definition version_text (v : Z) : bytes := str "HTTP/" ++ dec (Z.shiftr v 4) ++ str "." ++ dec (Z.land v 15).

Lemma version_read (v : Z) s d : v = 16 \/ v = 17 ->
  on_request_http_version (version_text v ++ s) 8 d = rq_set_data (HTTPRequest.set_version v) d.
Proof. intros [-> | ->]; reflexivity. Qed.

Lemma goes_version v pre s d n r : v = 16 \/ v = 17 ->
  goes_on (before_header relaxed) (pre ++ version_text v ++ crlf) s (rq_set_data (HTTPRequest.set_version v) d) n r ->
  goes_on (before_version relaxed) pre ((version_text v ++ crlf) ++ s) d n r.
Proof.
  intros Hv Ht p Hp.
  assert (covers (before_version relaxed) (version_text v ++ crlf) [(0, rq_mark_a); (8, http_version_a)] (before_header relaxed)) as Hc
    by (destruct (version_covers relaxed); by destruct Hv as [-> | ->]).
  assert (zlen (version_text v ++ crlf) = 10) as Hl by (by destruct Hv as [-> | ->]).
  eapply takes_covers; [exact Hc|done|cbn; rewrite Z.add_0_r; reflexivity| |].
  - cbn [run_events on_request_event]. unfold LEN. rewrite Z.add_simpl_l. change (wrap 64 8) with 8.
    rewrite zdrop_pre, <-app_assoc, (version_read v _ d Hv). reflexivity.
  - apply Ht. pose proof Hp as (Hm & Hs & Hfl & Hx & Hj). unfold sane.
    cbn [rq_mark rq_field_start rq_field_len rq_xml_sent rq_json_sent with_mark]. rewrite (zlen_app pre (version_text v ++ crlf)), Hl. lia.
Qed.

(** *** The target *)

Definition with_fragment (f : bytes) (r : HTTPRequest.t) : HTTPRequest.t :=
  if bool_decide (f = []) then r else HTTPRequest.set_fragment f r.
Definition with_query (q : bytes) (r : HTTPRequest.t) : HTTPRequest.t :=
  if bool_decide (q = []) then r else HTTPRequest.set_query q r.

Definition behind (c : Z) (w : bytes) : bytes := if bool_decide (w = []) then [] else c :: w.

Lemma goes_fragment f pre s d n r : f <> [] -> spelled (query_chars relaxed) f = true -> zlen (pre ++ f) < 2 ^ 64 ->
  goes_on (before_version relaxed) ((pre ++ f) ++ [32]) s (rq_set_data (HTTPRequest.set_fragment f) d) n r ->
  goes_on (before_fragment relaxed) pre (f ++ 32 :: s) d n r.
Proof.
  intros Hne Hw Hz Ht p (Hm & Hs & Hfl & Hx & Hj). destruct (rq_fragment_edges relaxed) as (E1 & E2 & E3).
  eapply takes_mark; [exact (covers_word _ _ [rq_mark_a] _ f E1 E2 Hne Hw)|].
  eapply takes_edge; [exact E3|done|done|reflexivity| |].
  - cbn [run_events on_request_event app rq_mark with_mark]. rewrite cut_LEN by done. reflexivity.
  - apply Ht. unfold sane. cbn [rq_mark rq_field_start rq_field_len rq_xml_sent rq_json_sent with_mark].
    split_and!; zlens.
Qed.

(** What ends the path or the query: a space or the fragment, with the calls [acts]. *)
Definition tail_of (f : bytes) : bytes := behind 35 f ++ [32].

Lemma takes_tail X acts f pre s p e d d1 n r :
  edge X [(32, 32)] acts (before_version relaxed) -> edge X [(35, 35)] acts (before_fragment relaxed) ->
  existsb request_breaks acts = false ->
  (forall pe, request_acts pe ((fun a => (zlen pre, a)) <$> acts) p = (p, e)) ->
  (forall s', run_events (on_request_event (pre ++ s')) e d = Ret d1) ->
  sane (zlen pre) p -> spelled (query_chars relaxed) f = true -> zlen (pre ++ behind 35 f) < 2 ^ 64 ->
  goes_on (before_version relaxed) (pre ++ tail_of f) s (rq_set_data (with_fragment f) d1) n r ->
  takes X pre (tail_of f ++ s) p d n r.
Proof.
  intros E1 E2 Hb Ha He Hp Hw Hz Ht. pose proof Hp as (Hm & Hs & Hfl & Hx & Hj).
  unfold tail_of, with_fragment, behind in *. destruct (decide (f = [])) as [-> | Hne].
  - cbn [app] in *. rewrite bool_decide_true in Ht by done.
    eapply takes_edge; [exact E1|done|done|apply Ha|apply He|]. destruct d1. apply Ht.
    eapply sane_mono; [done|zlens].
  - rewrite bool_decide_false in * by done. cbn [app]. rewrite <-app_assoc.
    eapply takes_edge; [exact E2|done|done|apply Ha|apply He|].
    apply goes_fragment; [done|done| | |eapply sane_mono; [done|zlens]].
    + rewrite <-app_assoc. done.
    + by rewrite <-!app_assoc.
Qed.

Definition target_text (path query f : bytes) : bytes := path ++ behind 63 query ++ tail_of f.

Definition good_path (path : bytes) : bool :=
  match path with
  | c :: w => (c =? 47) && spelled (path_chars relaxed) w && negb (bool_decide (head w = Some 47))
  | [] => false
  end.

Lemma path_covers path : good_path path = true ->
  exists X, covers (before_uri relaxed) path [(0, rq_mark_a)] X /\ path_end relaxed X.
Proof.
  destruct path as [|c w]; [done|]. cbn [good_path]. rewrite !andb_true_iff, negb_true_iff, bool_decide_eq_false.
  intros [[Ec Hw] Hh]. apply Z.eqb_eq in Ec as ->. destruct (rq_path_edges relaxed) as (E1 & E2 & E3).
  destruct (rq_path_ends relaxed) as [F1 F2].
  assert (forall X, covers (after_slash relaxed) w [] X -> covers (before_uri relaxed) (47 :: w) [(0, rq_mark_a)] X) as Hcons.
  { intros X Hx. exact (covers_cons _ _ [rq_mark_a] _ 47 w [] X E1 eq_refl Hx). }
  destruct w as [|a w].
  - exists (after_slash relaxed). split; [|done]. apply Hcons, covers_nil.
  - exists (in_path relaxed). split; [|done]. apply Hcons.
    apply (covers_first_of _ (segment_chars relaxed) (path_chars relaxed) [] (in_path relaxed) a w); [done|done| |].
    + unfold path_chars. intros Ha. unfold in_cls in *. rewrite existsb_app in Ha.
      apply orb_true_iff in Ha as [Ha|Ha]; [done|]. destruct Hh.
      change (chars (str "/")) with [(47, 47)] in Ha. cbn in Ha. assert (a = 47) as -> by lia. done.
    + intros w' Hw' _. exact (covers_words _ _ w' E3 Hw').
Qed.

Lemma goes_query q f pre s d n r : q <> [] -> spelled (query_chars relaxed) q = true ->
  spelled (query_chars relaxed) f = true -> zlen (pre ++ q ++ behind 35 f) < 2 ^ 64 ->
  goes_on (before_version relaxed) (pre ++ q ++ tail_of f) s
    (rq_set_data (fun r => with_fragment f (HTTPRequest.set_query q r)) d) n r ->
  goes_on (before_query relaxed) pre (q ++ tail_of f ++ s) d n r.
Proof.
  intros Hne Hq Hf Hz Ht p (Hm & Hs & Hfl & Hx & Hj). destruct (rq_query_edges relaxed) as (E1 & E2 & E3 & E4).
  rewrite app_assoc in Hz, Ht.
  eapply takes_covers; [exact (covers_word _ _ [start_query] _ q E1 E2 Hne Hq)|done|cbn; rewrite Z.add_0_r; reflexivity|reflexivity|].
  eapply takes_tail; [exact E3|exact E4|done| | | |done|done|].
  - intros pe. reflexivity.
  - intros s'. cbn [run_events on_request_event app rq_query_start with_query_start rq_mark].
    rewrite cut_LEN by zlens. reflexivity.
  - unfold sane. cbn [rq_mark rq_field_start rq_field_len rq_xml_sent rq_json_sent with_query_start].
    split_and!; zlens.
  - exact Ht.
Qed.

Lemma goes_target path q f pre s d n r : good_path path = true -> spelled (query_chars relaxed) q = true ->
  spelled (query_chars relaxed) f = true -> zlen (pre ++ target_text path q f) < 2 ^ 64 ->
  goes_on (before_version relaxed) (pre ++ target_text path q f) s
    (rq_set_data (fun r => with_fragment f (with_query q (HTTPRequest.set_path path r))) d) n r ->
  goes_on (before_uri relaxed) pre (target_text path q f ++ s) d n r.
Proof.
  intros Hpath Hq Hf Hz Ht p (Hm & Hs & Hfl & Hx & Hj). destruct (path_covers path Hpath) as (X & Hc & E1 & E2 & E3).
  unfold target_text in *. rewrite <-!app_assoc. eapply takes_mark; [exact Hc|]. clear Hc.
  assert (sane (zlen (pre ++ path)) (with_mark (zlen pre) p)) as Hp.
  { unfold sane. cbn [rq_mark rq_field_start rq_field_len rq_xml_sent rq_json_sent with_mark]. split_and!; zlens. }
  assert (forall e s', run_events (on_request_event ((pre ++ path) ++ s'))
    (Element request_path (zlen pre) (LEN (zlen pre) (zlen (pre ++ path))) :: e) d =
    run_events (on_request_event ((pre ++ path) ++ s')) e (rq_set_data (HTTPRequest.set_path path) d)) as He.
  { intros e s'. cbn [run_events on_request_event]. by rewrite cut_LEN by zlens. }
  unfold with_query, behind in *. destruct (decide (q = [])) as [-> | Hne].
  - rewrite (bool_decide_true ([] = [])) in Hz, Ht |- * by done. cbn [app] in *. rewrite app_assoc in Ht.
    eapply takes_tail; [exact E1|exact E3|done| | |done|done| |].
    + intros pe. reflexivity.
    + intros s'. cbn [app rq_mark with_mark]. rewrite He. reflexivity.
    + unfold tail_of, behind in *. zlens.
    + exact Ht.
  - rewrite bool_decide_false in * by done. cbn [app] in *.
    eapply takes_edge; [exact E2|done|done|reflexivity|cbn [app rq_mark with_mark]; rewrite He; reflexivity|].
    apply goes_query; [done..| | |eapply sane_mono; [exact Hp|zlens]].
    + unfold tail_of, behind in *. zlens.
    + rewrite <-!app_assoc. exact Ht.
Qed.

(** *** The method *)

Lemma method_read m text s : HTTPMethodToString m = Ret text -> plain_method m = true ->
  CharsToHTTPMethod (text ++ 32 :: s) = m.
Proof. intros Ht Hp. destruct m; try discriminate Hp; vm_compute in Ht; injection Ht as <-; reflexivity. Qed.

Lemma goes_method m text pre s d n r : HTTPMethodToString m = Ret text -> plain_method m = true ->
  goes_on (before_uri relaxed) (pre ++ text ++ [32]) s (rq_set_data (HTTPRequest.set_method m) d) n r ->
  goes_on (before_method relaxed) pre ((text ++ [32]) ++ s) d n r.
Proof.
  intros Hm Hp Ht p (H1 & H2 & H3 & H4 & H5).
  eapply takes_covers; [exact (method_covers relaxed m text Hm Hp)|done|cbn; rewrite Z.add_0_r; reflexivity| |].
  - cbn [run_events on_request_event]. rewrite zdrop_pre, <-app_assoc. unfold on_request_method.
    cbn [app]. rewrite (method_read m text _ Hm Hp).
    destruct (decide (m = INVALID_METHOD)) as [->|]; [discriminate Hp|reflexivity].
  - apply Ht. unfold sane. cbn [rq_mark rq_field_start rq_field_len rq_xml_sent rq_json_sent with_mark].
    split_and!; zlens.
Qed.
End Stages.
