(* ===== verification/HttpRoundtrip.v ===== *)
(** * Requests that travel

    What a client prints is accepted by the machine of the parser, and the session on the
    other side receives the same request. *)

From stdpp Require Import base list numbers strings.
From Stdlib Require Import Lia ZArith.
From S2P Require Import Prelude OrdSet OrdMap Http HttpProps Ragel HttpParser HttpGrammar Stream StreamProps HttpSession HttpSessionProps HttpGrammarProps HttpStages.

(** ** Requests that can be printed *)

(** The header lines in the order in which [dump] writes them. *)
Definition connection_line (r : HTTPRequest.t) : bytes * bytes :=
  (str "Connection", if HTTPRequest.m_close r then str "close" else str "keep-alive").
Definition other_lines (r : HTTPRequest.t) : header_map :=
  List.filter (fun it => negb (strcasecmp_eq it.1 (str "connection"))) (HTTPRequest.m_headers r).
Definition length_line (r : HTTPRequest.t) : header_map :=
  if bool_decide (HTTPRequest.m_body r = []) then [] else [(str "content-length", dec (zlen (HTTPRequest.m_body r)))].
Definition lines_of (r : HTTPRequest.t) : header_map := connection_line r :: other_lines r ++ length_line r.

Definition head_of (text : bytes) (r : HTTPRequest.t) : bytes :=
  (text ++ [32]) ++ target_text (HTTPRequest.m_path r) (HTTPRequest.m_query r) (HTTPRequest.m_fragment r) ++
  (version_text (HTTPRequest.m_version r) ++ crlf) ++ flat_map print_line (lines_of r) ++ crlf.

(** A method and a version that the grammar knows, an absolute path, characters that a URI
    may have, headers with names and values, and no header that [dump] writes by itself. *)
Definition printable (relaxed : bool) (r : HTTPRequest.t) : bool :=
  plain_method (HTTPRequest.m_method r) &&
  ((HTTPRequest.m_version r =? 16) || (HTTPRequest.m_version r =? 17)) &&
  negb (HTTPRequest.m_websocket r) && bool_decide (HTTPRequest.m_cookies r = []) &&
  good_path relaxed (HTTPRequest.m_path r) &&
  spelled (query_chars relaxed) (HTTPRequest.m_query r) &&
  spelled (query_chars relaxed) (HTTPRequest.m_fragment r) &&
  forallb good_line (HTTPRequest.m_headers r) &&
  negb (has_in (HTTPRequest.m_headers r) (str "content-length")).

Lemma dump_lines l :
  flat_map (dump_header false) l =
  flat_map print_line (List.filter (fun it => negb (strcasecmp_eq it.1 (str "connection"))) l).
Proof.
  induction l as [|it l IH]; [done|]. cbn [flat_map List.filter]. rewrite IH. unfold dump_header at 1. cbn [negb andb].
  by destruct (strcasecmp_eq it.1 (str "connection")).
Qed.

Lemma behind_eq c w : behind c w = (if bool_decide (w = []) then [] else [c]) ++ w.
Proof. unfold behind. destruct (decide (w = [])) as [-> | Hne]; [done|]. by rewrite bool_decide_false. Qed.

Lemma dump_body_eq r :
  dump_body (HTTPRequest.m_body r) = flat_map print_line (length_line r) ++ crlf ++ HTTPRequest.m_body r.
Proof.
  unfold dump_body, length_line. destruct (decide (HTTPRequest.m_body r = [])) as [E|E].
  - rewrite E. done.
  - rewrite !bool_decide_false by done. cbn [flat_map]. unfold print_line. cbn [fst snd].
    change (str "content-length: ") with (str "content-length" ++ str ": "). by rewrite <-!app_assoc.
Qed.


Lemma dump_eq text r : HTTPMethodToString (HTTPRequest.m_method r) = Ret text ->
  HTTPRequest.m_websocket r = false -> HTTPRequest.m_cookies r = [] ->
  HTTPRequest.dump r = Ret (head_of text r ++ HTTPRequest.m_body r).
Proof.
  intros Ht Hw Hc. unfold HTTPRequest.dump. rewrite Ht, Hw, Hc, dump_lines, dump_body_eq. cbn [res_bind].
  rewrite (bool_decide_true ([] = [])) by done. f_equal. unfold head_of, target_text, tail_of. rewrite !behind_eq.
  unfold version_text, lines_of, connection_line, other_lines. cbn [flat_map]. rewrite flat_map_app, print_line_eq. cbn [app].
  change (str "Connection: ") with (str "Connection" ++ str ": ").
  change (str " HTTP/") with ([32] ++ str "HTTP/"). change (str " ") with [32].
  change (str "?") with [63]. change (str "#") with [35].
  by rewrite <-!app_assoc.
Qed.

(** ** The machine accepts the header *)

(** What the calls of the machine make of the header. *)
Definition parsed (r : HTTPRequest.t) : HTTPRequest.t :=
  set_lines (lines_of r)
    (HTTPRequest.set_version (HTTPRequest.m_version r)
       (with_fragment (HTTPRequest.m_fragment r)
          (with_query (HTTPRequest.m_query r)
             (HTTPRequest.set_path (HTTPRequest.m_path r)
                (HTTPRequest.set_method (HTTPRequest.m_method r) (HTTPRequest.new_request 17 true)))))).

Lemma length_line_good r : zlen (HTTPRequest.m_body r) < 10 ^ 20 -> forallb good_line (length_line r) = true.
Proof.
  intros Hl. unfold length_line. destruct (decide (HTTPRequest.m_body r = [])) as [E|E].
  { by rewrite bool_decide_true. }
  rewrite bool_decide_false by done. pose proof (zlen_nonneg (HTTPRequest.m_body r)). cbn [forallb]. rewrite andb_true_r.
  destruct (dec_loop_spec 20 (zlen (HTTPRequest.m_body r)) [] ltac:(lia) ltac:(lia)) as (ds & Hds & Hne & _ & Hd).
  unfold dec. rewrite Hds, app_nil_r. unfold good_line. cbn [fst snd]. destruct ds as [|c ds]; [done|].
  apply Forall_cons in Hd as [Hc Hd].
  change (match str "content-length" with [] => false | _ => ?b end) with b.
  rewrite !andb_true_iff. split_and!; [vm_compute; reflexivity|cbn; lia|].
  apply forallb_forall. intros x Hx. rewrite Forall_forall in Hd. specialize (Hd x ltac:(by apply list_elem_of_In)). cbn. lia.
Qed.

Lemma lines_good r : forallb good_line (HTTPRequest.m_headers r) = true -> zlen (HTTPRequest.m_body r) < 10 ^ 20 ->
  forallb good_line (lines_of r) = true.
Proof.
  intros Hh Hl. unfold lines_of. cbn [forallb]. rewrite forallb_app, (length_line_good r Hl), andb_true_r.
  apply andb_true_iff. split; [unfold connection_line; by destruct (HTTPRequest.m_close r); vm_compute|].
  unfold other_lines. rewrite forallb_forall in Hh |- *. intros x [Hx _]%filter_In. by apply Hh.
Qed.

Lemma goes_on_at X pre s d n n' r : goes_on X pre s d n' r -> n' = n -> goes_on X pre s d n r.
Proof. by intros H <-. Qed.

Lemma head_goes relaxed text r s d : printable relaxed r = true ->
  HTTPMethodToString (HTTPRequest.m_method r) = Ret text -> zlen (head_of text r) < 2 ^ 64 ->
  zlen (HTTPRequest.m_body r) < 10 ^ 20 -> rq_error d = 0 -> rq_data d = HTTPRequest.new_request 17 true ->
  goes_on (before_method relaxed) [] (head_of text r ++ s) d (zlen (head_of text r)) (parsed r).
Proof.
  unfold printable. rewrite !andb_true_iff, orb_true_iff, !negb_true_iff, bool_decide_eq_true, !Z.eqb_eq.
  intros ((((((((Hm & Hv) & Hw) & Hc) & Hp) & Hq) & Hf) & Hh) & Hcl) Ht Hz Hb He Hd.
  unfold head_of in *. rewrite <-!(app_assoc (_ ++ [32])), <-!(app_assoc (target_text _ _ _)), <-!(app_assoc (_ ++ crlf)), <-(app_assoc (flat_map _ _)).
  eapply goes_method; [done|done|]. eapply goes_target; [done..|zlens|]. eapply goes_version; [done|].
  match goal with |- goes_on _ ?pre _ ?d _ _ =>
    pose proof (goes_lines relaxed (lines_of r) pre s d (lines_good r Hh Hb) He ltac:(zlens)) as H end.
  unfold parsed. rewrite <-Hd. eapply goes_on_at; [exact H|]. clear H. assert (zlen crlf = 2) by done. zlens.
Qed.

Lemma exec_from_start (p : rq_struct) buffer tr st pos q es : rq_cs p = MStart ->
  run request_breaks (request_machine_start (negb (rq_uri_relaxed p =? 0))) 0 buffer = (tr, Some st, pos) ->
  request_acts (zlen buffer) tr p = (q, es) -> exec_request p buffer = (q, MIn st, pos, es).
Proof. intros Hc Hr Ha. unfold exec_request. by rewrite Hc, Hr, Ha. Qed.

Lemma head_accepted junk1 junk2 text r : printable (negb (junk2 =? 0)) r = true ->
  HTTPMethodToString (HTTPRequest.m_method r) = Ret text -> zlen (head_of text r) < 2 ^ 64 ->
  zlen (HTTPRequest.m_body r) < 10 ^ 20 ->
  accepts junk1 junk2 (head_of text r) (parsed r).
Proof.
  intros Hp Ht Hz Hb. split; [done|]. split.
  { unfold head_of. intros Hn. apply app_eq_nil in Hn as [Hn _]. by destruct text. }
  intros rest.
  destruct (head_goes (negb (junk2 =? 0)) text r rest (new_HTTPRequestParser junk1 junk2) Hp Ht Hz Hb eq_refl eq_refl
    (http_request_parser_init (machine := request_ragel) junk1 junk2)) with (st := request_machine_start (negb (junk2 =? 0)))
    as (tr & st' & q & es & d' & Hr & Hn & Ha & Hi & He & Hd & Her).
  - by unfold sane.
  - by split.
  - exists q, (MIn st'), es. split; [by split|]. split; [done|]. split; [|by exists d'].
    exact (exec_from_start (http_request_parser_init (machine := request_ragel) junk1 junk2) _ _ _ _ _ _ eq_refl Hr Ha).
Qed.

(** What is in a URI may be in a relaxed one. *)
Lemma spelled_mono l k w : (forall c, in_cls c l = true -> in_cls c k = true) -> spelled l w = true -> spelled k w = true.
Proof.
  intros Hs. remember (length w) as n eqn:En. assert (length w <= n)%nat as Hn by lia. clear En. revert w Hn.
  induction n as [|n IH]; intros w Hn; (destruct w as [|c w]; [done|]); [cbn in Hn; lia|]. cbn [spelled].
  destruct (c =? 37).
  - destruct w as [|a [|b w]]; [done..|]. destruct (in_cls a hex_digits), (in_cls b hex_digits); try done.
    apply IH. cbn in Hn. lia.
  - destruct (in_cls c l) eqn:E; [|done]. rewrite (Hs c E). apply IH. cbn in Hn. lia.
Qed.

Lemma segment_relaxed c relaxed : in_cls c (segment_chars false) = true -> in_cls c (segment_chars relaxed) = true.
Proof.
  unfold segment_chars, RequestGrammar.sub_delims, in_cls. rewrite !existsb_app, !orb_true_iff. cbn [RequestGrammar.more_delims existsb].
  intuition congruence.
Qed.

Lemma printable_relaxed relaxed r : printable false r = true -> printable relaxed r = true.
Proof.
  assert (forall w, spelled (query_chars false) w = true -> spelled (query_chars relaxed) w = true) as Hq.
  { intros w. apply spelled_mono. intros c. unfold query_chars, in_cls. rewrite !existsb_app, !orb_true_iff.
    intros [H|H]; [left; by apply segment_relaxed|by right]. }
  assert (forall w, good_path false w = true -> good_path relaxed w = true) as Hp.
  { intros [|c w]; [done|]. cbn [good_path]. rewrite !andb_true_iff. intros [[? Hw] ?]. split_and!; try done.
    revert Hw. apply spelled_mono. intros x. unfold path_chars, in_cls. rewrite !existsb_app, !orb_true_iff.
    intros [Hx|Hx]; [left; by apply segment_relaxed|by right]. }
  unfold printable. rewrite !andb_true_iff. intuition.
Qed.

(** ** What the header of the received request holds *)

Lemma set_lines_eq l r :
  set_lines l r = HTTPRequest.set_headers (map_set_all fold_case lex_lt l (HTTPRequest.m_headers r)) r.
Proof.
  revert r; induction l as [|it l IH]; intros r; [by destruct r|]. 
  change (set_lines (it :: l) r) with (set_lines l (HTTPRequest.set_header it.1 it.2 r)). rewrite IH. by destruct r.
Qed.

Definition name_is (k : bytes) (name : string) : bool := same_name k (str name).

(** The headers by name: those that [dump] writes by itself, and the others. *)
Definition line_of (r : HTTPRequest.t) (k : bytes) : option bytes :=
  if name_is k "connection" then Some (connection_line r).2
  else if name_is k "content-length" then
    if bool_decide (HTTPRequest.m_body r = []) then None else Some (dec (zlen (HTTPRequest.m_body r)))
  else holds fold_case (fold_case k) (HTTPRequest.m_headers r).

Lemma lines_hold r k : headers_sorted (HTTPRequest.m_headers r) ->
  has_in (HTTPRequest.m_headers r) (str "content-length") = false ->
  holds fold_case (fold_case k) (rev (lines_of r)) = line_of r k.
Proof.
  intros Hs Hcl. unfold lines_of. cbn [rev]. rewrite rev_app_distr, !holds_app.
  assert (headers_sorted (other_lines r)) as Ho by (by apply map_sorted_filter).
  rewrite (holds_rev fold_case lex_lt _ _ Ho). unfold other_lines.
  rewrite (holds_filter fold_case _ (fun n => negb (bool_decide (n = fold_case (str "connection"))))) by done.
  unfold line_of, name_is, same_name, connection_line, length_line. rewrite has_in_holds, bool_decide_eq_false in Hcl by done.
  cbn [snd]. set (conn := fold_case (str "connection")). set (cl := fold_case (str "content-length")) in *.
  assert (conn <> cl) as Hne by done.
  destruct (decide (fold_case k = conn)) as [E|E].
  - rewrite E, !(bool_decide_true (conn = conn)) by done. cbn [negb holds].
    change (fold_case (str "Connection")) with conn. destruct (decide (conn = conn)); [|done].
    destruct (bool_decide _); [done|]. cbn [rev app holds]. change (fold_case (str "content-length")) with cl.
    by destruct (decide (cl = conn)).
  - rewrite !(bool_decide_false (fold_case k = conn)) by done. cbn [negb holds].
    change (fold_case (str "Connection")) with conn. destruct (decide (conn = fold_case k)) as [E'|_]; [congruence|].
    destruct (decide (fold_case k = cl)) as [E2|E2].
    + rewrite E2, (bool_decide_true (cl = cl)) by done. destruct (bool_decide _); cbn [rev app holds].
      * destruct (holds fold_case cl (HTTPRequest.m_headers r)) eqn:Eh; [|done]. destruct Hcl. by eexists.
      * change (fold_case (str "content-length")) with cl. by destruct (decide (cl = cl)).
    + rewrite (bool_decide_false (fold_case k = cl)) by done.
      destruct (bool_decide _); cbn [rev app holds]; [|change (fold_case (str "content-length")) with cl;
        destruct (decide (cl = fold_case k)); [congruence|]].
      all: by destruct (holds fold_case (fold_case k) (HTTPRequest.m_headers r)).
Qed.

(** The headers of what the machine made. *)
Lemma parsed_holds r : headers_sorted (HTTPRequest.m_headers r) ->
  has_in (HTTPRequest.m_headers r) (str "content-length") = false ->
  headers_sorted (HTTPRequest.m_headers (parsed r)) /\
  forall k, holds fold_case (fold_case k) (HTTPRequest.m_headers (parsed r)) = line_of r k.
Proof.
  intros Hs Hcl. unfold parsed. rewrite set_lines_eq. cbn [HTTPRequest.m_headers HTTPRequest.set_headers].
  match goal with |- context [map_set_all _ _ _ ?m] => assert (m = []) as -> end.
  { unfold with_fragment, with_query. by destruct (bool_decide _), (bool_decide _). }
  destruct (map_set_all_ok fold_case lex_lt (lines_of r) []) as [H1 H2]; [constructor|]. split; [exact H1|].
  intros k. rewrite H2, lines_hold by done. by destruct (line_of r k).
Qed.

Lemma GetAs_holds {T} (lexical_cast : bytes -> option T) m key def : headers_sorted m ->
  GetAs lexical_cast m key def =
  match holds fold_case (fold_case key) m with
  | Some v => match lexical_cast v with Some val => val | None => def end
  | None => def
  end.
Proof.
  intros Hs. unfold GetAs. rewrite <-(map_find_holds fold_case lex_lt key m Hs). unfold CaseInsensitiveLess.
  by destruct (map_find _ key m) as [[k v]|].
Qed.

(** The request [r'] says what [r] says. *)
Definition says_same (r r' : HTTPRequest.t) : Prop :=
  HTTPRequest.m_method r' = HTTPRequest.m_method r /\ HTTPRequest.m_version r' = HTTPRequest.m_version r /\
  HTTPRequest.m_close r' = HTTPRequest.m_close r /\ HTTPRequest.m_path r' = HTTPRequest.m_path r /\
  HTTPRequest.m_query r' = HTTPRequest.m_query r /\ HTTPRequest.m_fragment r' = HTTPRequest.m_fragment r /\
  HTTPRequest.m_body r' = HTTPRequest.m_body r /\
  forall k def, HTTPRequest.get_header k def r' =
    if name_is k "connection" then if HTTPRequest.m_close r then str "close" else str "keep-alive"
    else if name_is k "content-length" && negb (bool_decide (HTTPRequest.m_body r = []))
    then dec (zlen (HTTPRequest.m_body r)) else HTTPRequest.get_header k def r.

(** What is on the wire of a request that can be printed. *)
Lemma printed_head req text : printable false req = true -> HTTPRequest.dump req = Ret text ->
  has_in (HTTPRequest.m_headers req) (str "content-length") = false /\
  exists mt, HTTPMethodToString (HTTPRequest.m_method req) = Ret mt /\ text = head_of mt req ++ HTTPRequest.m_body req.
Proof.
  unfold printable. rewrite !andb_true_iff, !negb_true_iff, bool_decide_eq_true.
  intros ((((((((Hm & _) & Hw) & Hck) & _) & _) & _) & _) & Hcl) Hd. split; [done|].
  destruct (HTTPMethodToString (HTTPRequest.m_method req)) as [mt| |] eqn:Em; [|by destruct (HTTPRequest.m_method req)..].
  rewrite (dump_eq mt req Em Hw Hck) in Hd. injection Hd as <-. by exists mt.
Qed.

Section Travels.
Context (lexical_cast : bytes -> option Z).
(** [boost::lexical_cast<uint64_t>] reads what was printed. *)
Hypothesis cast_dec : forall n, 0 <= n < 2 ^ 64 -> lexical_cast (dec n) = Some n.

Lemma parsed_announced r : headers_sorted (HTTPRequest.m_headers r) ->
  has_in (HTTPRequest.m_headers r) (str "content-length") = false -> zlen (HTTPRequest.m_body r) < 2 ^ 31 ->
  announced lexical_cast (parsed r) = zlen (HTTPRequest.m_body r).
Proof.
  intros Hs Hcl Hz. destruct (parsed_holds r Hs Hcl) as [Hs' Hh]. unfold announced.
  rewrite GetAs_holds, Hh by done. unfold line_of. change (name_is (str "content-length") "connection") with false.
  change (name_is (str "content-length") "content-length") with true. cbv iota.
  pose proof (zlen_nonneg (HTTPRequest.m_body r)).
  destruct (decide (HTTPRequest.m_body r = [])) as [E|E].
  - rewrite E. done.
  - rewrite bool_decide_false, cast_dec by (done || lia). apply to_signed_small; unfold sfits; lia.
Qed.

Lemma parsed_says r : headers_sorted (HTTPRequest.m_headers r) ->
  has_in (HTTPRequest.m_headers r) (str "content-length") = false ->
  says_same r (HTTPRequest.init (HTTPRequest.set_body (HTTPRequest.m_body r) (parsed r))).
Proof.
  intros Hs Hcl. destruct (parsed_holds r Hs Hcl) as [Hs' Hh].
  set (r1 := HTTPRequest.set_body (HTTPRequest.m_body r) (parsed r)).
  assert (forall k def, HTTPRequest.get_header k def r1 = default def (line_of r k)) as Hg.
  { intros k def. unfold HTTPRequest.get_header. cbn [r1 HTTPRequest.m_headers HTTPRequest.set_body].
    by rewrite get_in_holds, Hh. }
  assert (HTTPRequest.init r1 = HTTPRequest.set_close (HTTPRequest.m_close r) r1) as ->.
  { unfold HTTPRequest.init. rewrite Hg. unfold line_of, connection_line.
    change (name_is (str "connection") "connection") with true. cbn [snd default].
    by destruct (HTTPRequest.m_close r). }
  unfold says_same. split_and!.
  all: try (unfold r1, parsed; rewrite set_lines_eq; unfold with_fragment, with_query;
    destruct (decide (HTTPRequest.m_fragment r = [])) as [Ef|Ef]; destruct (decide (HTTPRequest.m_query r = [])) as [Eq|Eq];
    rewrite ?Ef, ?Eq, ?(bool_decide_true ([] = [])) by done; rewrite ?bool_decide_false by done; done).
  intros k def. etransitivity; [apply Hg|]. unfold line_of, connection_line. cbn [snd].
  destruct (name_is k "connection"); [done|]. destruct (name_is k "content-length") eqn:En; cbn [andb].
  - destruct (bool_decide (HTTPRequest.m_body r = [])); cbn [negb]; [|done]. cbn [default].
    unfold HTTPRequest.get_header. rewrite get_in_holds by done. unfold name_is, same_name in En.
    apply bool_decide_eq_true in En. rewrite En. rewrite has_in_holds, bool_decide_eq_false in Hcl by done.
    destruct (holds _ _ _); [|done]. destruct Hcl. by eexists.
  - unfold HTTPRequest.get_header. by rewrite get_in_holds.
Qed.

Lemma with_body_eq r tail : announced lexical_cast (parsed r) = zlen (HTTPRequest.m_body r) ->
  with_body lexical_cast (parsed r) (HTTPRequest.m_body r ++ tail) =
  HTTPRequest.init (HTTPRequest.set_body (HTTPRequest.m_body r) (parsed r)).
Proof.
  intros Ha. unfold with_body. rewrite Ha, ztake_app_l, ztake_all by lia. f_equal.
  destruct (Z.ltb_spec 0 (zlen (HTTPRequest.m_body r))) as [_|Hz]; [done|].
  pose proof (zlen_nonneg (HTTPRequest.m_body r)).
  assert (HTTPRequest.m_body r = []) as -> by (apply zlen_zero; lia). unfold parsed. rewrite set_lines_eq.
  unfold with_fragment, with_query. by destruct (bool_decide _), (bool_decide _).
Qed.

Context {K : Type} {conn : Conn K} (buff_size max_size junk1 junk2 : Z).

(** C12: A request travels: what a client prints of a request, with a method, a target and
    headers that HTTP can write, a session on the other side receives as the same request,
    whatever the uninitialised members of the parser: the same method, version, path, query,
    fragment and body, the same wish to keep the connection, and under every name, in any
    case, the same header, next to the two that [dump] adds.  The reads may cut the body
    anywhere, and nothing behind the request is lost when no read goes beyond it. *)
Theorem request_travels fuel r text tail s n b s1 :
  printable false r = true -> headers_sorted (HTTPRequest.m_headers r) -> HTTPRequest.dump r = Ret text ->
  zlen text < 2 ^ 31 -> zlen (HTTPRequest.m_body r) <= max_size -> 0 < buff_size ->
  is_connected s = true -> s_in s = text ++ tail -> socket_read buff_size s = (n, b, s1) ->
  zlen text - zlen (HTTPRequest.m_body r) <= n <= zlen text ->
  exists r' s', recv_request buff_size lexical_cast max_size junk1 junk2 (S fuel) s = (Ret (Some r'), s') /\
    says_same r r' /\ s_in s' = tail /\ s_out s' = s_out s /\ is_connected s' = true.
Proof.
  intros Hp Hs Hd Hz Hmax Hbs Hc Hin Hr Hn. destruct (printed_head r text Hp Hd) as (Hcl & mt & Em & ->).
  rewrite <-app_assoc in Hin.
  pose proof (zlen_nonneg (HTTPRequest.m_body r)). pose proof (zlen_nonneg (head_of mt r)). rewrite zlen_app in Hz, Hn.
  pose proof (parsed_announced r Hs Hcl ltac:(lia)) as Ha.
  destruct (recv_request_ok buff_size lexical_cast max_size junk1 junk2 fuel (head_of mt r) (parsed r)
    (HTTPRequest.m_body r ++ tail) s n b s1) as (s' & E & Hi & Ho & Hc'); try done; try (rewrite ?Ha, ?zlen_app; zlens).
  { apply head_accepted; [by apply printable_relaxed|done|lia|lia]. }
  eexists _, s'. split; [exact E|]. split; [|split; [|done]].
  - rewrite (with_body_eq r tail Ha). by apply parsed_says.
  - rewrite Hi, Ha, Z.max_l by lia. apply zdrop_pre.
Qed.
End Travels.

(** ** One request *)

Definition request1 : HTTPRequest.t :=
  HTTPRequest.set_body (str "ok") (HTTPRequest.set_header (str "Host") (str "b c")
    (HTTPRequest.set_fragment (str "f") (HTTPRequest.set_query (str "x=%41") (HTTPRequest.set_path (str "/a/b")
       (HTTPRequest.set_method POST (HTTPRequest.new_request 17 false)))))).

Definition text1 : bytes :=
  str "POST /a/b?x=%41#f HTTP/1.1" ++ crlf ++ str "Connection: keep-alive" ++ crlf ++ str "Host: b c" ++ crlf ++
  str "content-length: 2" ++ crlf ++ crlf ++ str "ok".

Definition stream1 (chunk : nat) (b : bytes) : SocketStream := MkStream (Some (client0 chunk b)) true.

Lemma number_dec n : 0 <= n < 2 ^ 64 -> number (dec n) = Some n.
Proof. intros Hn. unfold number. by rewrite undec_dec by lia. Qed.

Lemma request_travels_witness : exists r' s',
  recv_request 4096 number 1000 7 9 1 (stream1 83 (text1 ++ str "GET")) = (Ret (Some r'), s') /\
  says_same request1 r' /\ s_in s' = str "GET".
Proof.
  destruct (request_travels number number_dec 4096 1000 7 9 0 request1 text1 (str "GET") (stream1 83 (text1 ++ str "GET"))
    84 (ztake 84 text1) (stream1 83 (zdrop 84 (text1 ++ str "GET")))) as (r' & s' & E & Hs & Hi & _).
  - vm_compute. reflexivity.
  - repeat constructor.
  - vm_compute. reflexivity.
  - vm_compute. reflexivity.
  - vm_compute. discriminate.
  - reflexivity.
  - reflexivity.
  - reflexivity.
  - vm_compute. reflexivity.
  - vm_compute. split; discriminate.
  - exists r', s'. split; [exact E|]. split; [exact Hs|exact Hi].
Defined.
