(* ===== verification/HttpConnection.v ===== *)
(** * HTTP connections ([servers/http/http_connection.h], [http_connection.cc])

    The client's side: receiving a response with a body of announced length or in chunks,
    compressed or not, sending a request, and the requests built from a URI.  The parser's
    machine, zlib and the connection are the interfaces of [HttpParser], [Zlib] and
    [Stream]; the pool is in [HttpPool]. *)

From stdpp Require Import base list numbers strings.
From Stdlib Require Import Lia ZArith.
From S2P Require Import Prelude Endian OrdMap Http HttpParser ByteArray Stream Zlib HttpSession Address Uri UriParser.

(** ** Responses *)

Section Connection.
Context {K : Type} {conn : Conn K} {machine : ResponseMachine} {ZS : Type} {zlib : Zlib ZS}.
Context (buffer_size : Z) (lexical_cast : bytes -> option Z) (max_size : Z) (junk : Z).

Abbreviation stream := (@SocketStream K).

(** The loop up to the end of the header. *)
Fixpoint response_loop (fuel : nat) (p : HTTPResponseParser) (data : bytes)
    : meth stream (option (HTTPResponseParser * bytes)) :=
  fun s =>
    match fuel with
    | O => (Undef Diverges, s)
    | S fuel' =>
        let '(len, b, s) := socket_read (buffer_size - zlen data) s in
        if len <=? 0 then (Ret None, stream_close s)
        else
          match response_execute p (data ++ b) false with
          | Ret (p, nparse, data) =>
              if response_has_error p then (Ret None, stream_close s)
              else if zlen data =? buffer_size then (Ret None, stream_close s)
              else if response_is_finished p then (Ret (Some (p, data)), s)
              else response_loop fuel' p data s
          | Throw e => (Throw e, s)
          | Undef u => (Undef u, s)
          end
    end.

(** The header of a chunk: data is read when there is none, and after the first round. *)
Fixpoint chunk_header_loop (fuel : nat) (begin : bool) (p : HTTPResponseParser) (data : bytes)
    : meth stream (option (HTTPResponseParser * bytes)) :=
  fun s =>
    match fuel with
    | O => (Undef Diverges, s)
    | S fuel' =>
        let '(rt, b, s) :=
          if negb begin || (zlen data =? 0) then socket_read (buffer_size - zlen data) s else (1, [], s) in
        if rt <=? 0 then (Ret None, stream_close s)
        else
          match response_execute p (data ++ b) true with
          | Ret (p, nparse, data) =>
              if response_has_error p then (Ret None, stream_close s)
              else if zlen data =? buffer_size then (Ret None, stream_close s)
              else if response_is_finished p then (Ret (Some (p, data)), s)
              else chunk_header_loop fuel' false p data s
          | Throw e => (Throw e, s)
          | Undef u => (Undef u, s)
          end
    end.

(** The rest of a chunk that is not in the buffer; only a negative result is an error. *)
Fixpoint chunk_rest_loop (fuel : nat) (left : Z) (body : bytes) : meth stream (option bytes) :=
  fun s =>
    if left <=? 0 then (Ret (Some body), s)
    else
      match fuel with
      | O => (Undef Diverges, s)
      | S fuel' =>
          let '(rt, b, s) := socket_read (if buffer_size <? left then buffer_size else left) s in
          if rt <? 0 then (Ret None, stream_close s)
          else chunk_rest_loop fuel' (left - rt) (body ++ b) s
      end.

(** One chunk after its header: the body so far and what is left in the buffer. *)
Definition chunk_data (fuel : nat) (content_len : Z) (body data : bytes)
    : meth stream (option (bytes * bytes)) :=
  fun s =>
    if 2 ^ 31 <=? content_len + 2 then (Undef SignedOverflow, s)
    else if content_len + 2 <=? zlen data then
      if content_len <? 0 then (Throw logic_error, s)
      else (Ret (Some (body ++ ztake content_len data, zdrop (content_len + 2) data)), s)
    else
      match chunk_rest_loop fuel (content_len - zlen data + 2) (body ++ data) s with
      | (Ret (Some body), s) =>
          if zlen body <? 2 then (Throw logic_error, s)
          else (Ret (Some (ztake (zlen body - 2) body, [])), s)
      | (Ret None, s) => (Ret None, s)
      | (Throw e, s) => (Throw e, s)
      | (Undef u, s) => (Undef u, s)
      end.

Fixpoint chunk_loop (fuel : nat) (rounds : nat) (p : HTTPResponseParser) (body data : bytes)
    : meth stream (option (HTTPResponseParser * bytes)) :=
  match fuel with
  | O => fun s => (Undef Diverges, s)
  | S fuel' =>
      let! r := chunk_header_loop rounds true p data in
      match r with
      | None => ret None
      | Some (p, data) =>
          let! r := chunk_data rounds (rs_content_len (rs_parser p)) body data in
          match r with
          | None => ret None
          | Some (body, data) =>
              if rs_chunks_done (rs_parser p) =? 0 then chunk_loop fuel' rounds p body data
              else ret (Some (p, body))
          end
      end
  end.

(** The body is decompressed when the header says so; a stream that could not be made is
    dereferenced all the same. *)
Definition inflate_with (fuel : nat) (z : res (option (ZlibStream ZS))) (body : bytes) : res bytes :=
  let? z := z in
  match z with
  | None => Undef NullDeref
  | Some z =>
      match (let! _ := z_write fuel body in z_flush fuel) z with
      | (Ret _, z) => Ret (get_result z)
      | (Throw e, _) => Throw e
      | (Undef u, _) => Undef u
      end
  end.

Definition decode_body (fuel : nat) (rsp : HTTPResponse.t) (body : bytes) : res bytes :=
  let encoding := HTTPResponse.get_header (str "content-encoding") [] rsp in
  if strcasecmp_eq encoding (str "gzip") then inflate_with fuel (CreateGzip false 4096) body
  else if strcasecmp_eq encoding (str "deflate") then inflate_with fuel (CreateDeflate false 4096) body
  else Ret body.

(** The end of [recv_response]. *)
Definition finish_response (fuel : nat) (rsp : HTTPResponse.t) (body : bytes)
    : meth stream (option HTTPResponse.t) :=
  fun s =>
    if bool_decide (body = []) then (Ret (Some rsp), s)
    else
      match decode_body fuel rsp body with
      | Ret body => (Ret (Some (HTTPResponse.set_body body rsp)), s)
      | Throw e => (Throw e, s)
      | Undef u => (Undef u, s)
      end.

Definition recv_response (fuel : nat) : meth stream (option HTTPResponse.t) :=
  let! r := response_loop fuel (new_HTTPResponseParser junk) [] in
  match r with
  | None => ret None
  | Some (p, data) =>
      if negb (rs_chunked (rs_parser p) =? 0) then
        let! r := chunk_loop fuel fuel p [] data in
        match r with
        | None => ret None
        | Some (p, body) => finish_response fuel (rs_data p) body
        end
      else
        let length := to_signed 64 (response_content_length lexical_cast p) in
        if 0 <? length then
          let! body := recv_body max_size length data in
          match body with
          | None => ret None
          | Some body => finish_response fuel (rs_data p) body
          end
        else ret (Some (rs_data p))
  end.

Definition send_request (req : HTTPRequest.t) : meth stream Z :=
  fun s =>
    match HTTPRequest.dump req with
    | Ret data =>
        match write_fixed_size socket_write data s with
        | Ret (r, s) => (Ret r, s)
        | Throw e => (Throw e, s)
        | Undef u => (Undef u, s)
        end
    | Throw e => (Throw e, s)
    | Undef u => (Undef u, s)
    end.

(** ** Requests *)

(** [HTTPResult::ErrorCode]. *)
Inductive ErrorCode :=
| RESULT_OK | INVALID_URL | INVALID_HOST | CONNECT_FAIL | SEND_CLOSE_BY_PEER | SEND_SOCKET_ERROR
| TIMEOUT | CREATE_SOCKET_ERROR | POOL_GET_CONNECTION_FAIL | POOL_INVALID_CONNECTION | INVALID_PROTOCOLS.

(** [HTTPResult], without the description. *)
Record HTTPResult := MkResult { rsp : option HTTPResponse.t; err_code : ErrorCode }.

(** The headers of the caller, in the order of the map: [connection] only decides whether
    the connection is kept, and a [Host] that is not empty is respected. *)
Fixpoint put_headers (other_closes : bool) (headers : header_map) (has_host : bool) (req : HTTPRequest.t)
    : bool * HTTPRequest.t :=
  match headers with
  | [] => (has_host, req)
  | (k, v) :: headers =>
      if strcasecmp_eq k (str "connection") then
        put_headers other_closes headers has_host
          (if strcasecmp_eq v (str "keep-alive") then HTTPRequest.set_close false req
           else if other_closes then HTTPRequest.set_close true req else req)
      else
        let has_host :=
          if negb has_host && strcasecmp_eq k (str "host") then negb (bool_decide (v = [])) else has_host in
        put_headers other_closes headers has_host (HTTPRequest.set_header k v req)
  end.

(** [Request(method, uri, ...)] up to the request it makes. *)
Definition make_request (method : HTTPMethod) (uri : URI) (headers : header_map) (body : bytes) : HTTPRequest.t :=
  let req := HTTPRequest.new_request 17 true in
  let req := HTTPRequest.set_method method req in
  let req := HTTPRequest.set_path (get_path uri) req in
  let req := HTTPRequest.set_query (m_query uri) req in
  let req := HTTPRequest.set_close true req in
  let req := HTTPRequest.set_fragment (m_fragment uri) req in
  let (has_host, req) := put_headers false headers false req in
  let req := if has_host then req else HTTPRequest.set_header (str "Host") (m_host uri) req in
  HTTPRequest.set_body body req.

(** The outside: the resolver, and connecting a new socket ([None] when it
    fails; making one never does); the timeout is the socket's. *)
Context {W : Type}.
Context (host : endian) (getaddrinfo : bytes -> option bytes -> option (list sockaddr)).
Context (dial : bool -> Address -> W -> option K * W) (set_recv_timeout : Z -> K -> K).

(** Sending the request and receiving the response on a connection. *)
Definition exchange (fuel : nat) (req : HTTPRequest.t) : meth stream HTTPResult :=
  let! rt := send_request req in
  if rt =? 0 then ret (MkResult None SEND_CLOSE_BY_PEER)
  else if rt <? 0 then ret (MkResult None SEND_SOCKET_ERROR)
  else
    let! r := recv_response fuel in
    match r with
    | None => ret (MkResult None TIMEOUT)
    | Some r => ret (MkResult (Some r) RESULT_OK)
    end.

(** [Request(req, uri, timeout)]: a connection of its own, whose destructor closes it. *)
Definition Request_on (fuel : nat) (req : HTTPRequest.t) (uri : URI) (timeout : Z) (w : W)
    : res HTTPResult * option stream * W :=
  let is_ssl := bool_decide (m_scheme uri = str "https") in
  match create_address host getaddrinfo uri with
  | None => (Ret (MkResult None INVALID_HOST), None, w)
  | Some addr =>
      match dial is_ssl addr w with
      | (None, w) => (Ret (MkResult None CONNECT_FAIL), None, w)
      | (Some k, w) =>
          let (r, s) := exchange fuel req (MkStream (Some (set_recv_timeout timeout k)) true) in
          (r, Some (stream_destroy s), w)
      end
  end.

Definition Request (fuel : nat) (method : HTTPMethod) (uri : URI) (timeout : Z) (headers : header_map)
    (body : bytes) (w : W) : res HTTPResult * option stream * W :=
  Request_on fuel (make_request method uri headers body) uri timeout w.

Definition Request_url (fuel : nat) (method : HTTPMethod) (url : bytes) (timeout : Z) (headers : header_map)
    (body : bytes) (w : W) : res HTTPResult * option stream * W :=
  match URI_Create url with
  | Ret None => (Ret (MkResult None INVALID_URL), None, w)
  | Ret (Some uri) => Request fuel method uri timeout headers body w
  | Throw e => (Throw e, None, w)
  | Undef u => (Undef u, None, w)
  end.

Definition Get (fuel : nat) := Request fuel GET.
Definition Post (fuel : nat) := Request fuel POST.
Definition Get_url (fuel : nat) := Request_url fuel GET.
Definition Post_url (fuel : nat) := Request_url fuel POST.
End Connection.
