(* ===== verification/HttpConnectionProps.v ===== *)
(** * What an HTTP connection receives

    The loops of [recv_response]: the header of a response, a body of announced length, the
    data of a chunk, and the body when it is decompressed.  [HttpResponseRoundtrip] and
    [HttpChunks] apply them to whole responses. *)

From stdpp Require Import base list numbers strings.
From Stdlib Require Import Lia ZArith.
From S2P Require Import Prelude Endian OrdSet OrdMap Http HttpProps HttpParser HttpGrammar ByteArray Stream StreamProps Zlib ZlibProps HttpSession HttpSessionProps Uri HttpConnection.

Section Props.
Context {K : Type} {conn : Conn K} {machine : ResponseMachine} {ZS : Type} {zlib : Zlib ZS}.
Context (buffer_size : Z) (lexical_cast : bytes -> option Z) (max_size : Z) (junk : Z).

Abbreviation fresh_parser := (new_HTTPResponseParser junk).
Abbreviation recv := (recv_response buffer_size lexical_cast max_size junk).

(** The members of the structure are inside a buffer of [len] bytes. *)
Definition rs_inside (q : http_response_parser) (len : Z) : Prop :=
  rs_body_start q <= len /\ rs_mark q < len /\ rs_field_len q <= len /\ rs_field_start q < len.

Lemma rs_inside_mono q len len' : rs_inside q len -> len <= len' -> rs_inside q len'.
Proof. unfold rs_inside. lia. Qed.

(** The structure [q] after a run that took [pos] more bytes. *)
Definition ran (q : http_response_parser) (cs : response_state) (nread : Z) : http_response_parser :=
  MkRspParser cs (rs_body_start q) (rs_content_len q) (rs_status q) (rs_chunked q) (rs_chunks_done q)
    (rs_close q) nread (rs_mark q) (rs_field_start q) (rs_field_len q).

Lemma rs_execute_ok p buffer q cs pos es :
  response_exec p buffer = (q, cs, pos, es) -> rs_inside q (zlen buffer) -> rs_nread p + pos <= zlen buffer ->
  http_response_parser_execute p buffer = Ret (ran q cs (rs_nread p + pos), es, rs_nread p + pos).
Proof.
  intros He (H1 & H2 & H3 & H4) Hn. unfold http_response_parser_execute. rewrite He.
  cbn [rs_body_start rs_mark rs_field_len rs_field_start].
  by rewrite (proj2 (Z.leb_le _ _) Hn), (proj2 (Z.leb_le _ _) H1), (proj2 (Z.ltb_lt _ _) H2),
    (proj2 (Z.leb_le _ _) H3), (proj2 (Z.ltb_lt _ _) H4).
Qed.

(** Started in [p0], the machine ends after the header [h], whatever follows it; its calls
    turn the response [r] into [r'], and it leaves a structure with [Q]. *)
Definition ends_at (p0 : http_response_parser) (h : bytes) (r r' : HTTPResponse.t) (Q : http_response_parser -> Prop) : Prop :=
  h <> [] /\ rs_nread p0 = 0 /\
  forall rest, exists q cs es, Q q /\ rs_inside q (zlen h) /\ response_final cs = true /\ response_failed cs = false /\
    response_exec p0 (h ++ rest) = (q, cs, zlen h, es) /\
    forall p, rs_data p = r -> rs_error p = 0 ->
      exists p', run_events (on_response_event (h ++ rest)) es p = Ret p' /\ rs_data p' = r' /\ rs_error p' = 0.

Lemma rs_execute_header p chunk h rest r' Q :
  rs_error p = 0 ->
  ends_at (if chunk : bool then http_response_parser_init (rs_status (rs_parser p)) else rs_parser p) h
    (rs_data p) r' Q ->
  exists p', response_execute p (h ++ rest) chunk = Ret (p', zlen h, rest) /\
    rs_data p' = r' /\ (exists q cs, Q q /\ rs_parser p' = ran q cs (zlen h)) /\ rs_error p' = 0 /\
    response_has_error p' = false /\ response_is_finished p' = true.
Proof.
  intros Her (Hne & Hnr & Hx). destruct (Hx rest) as (q & cs & es & HQ & Hin & Hff & Hfl & He & Hr).
  pose proof (zlen_nonneg rest). pose proof (zlen_nonneg h). unfold response_execute.
  rewrite (rs_execute_ok _ _ q cs (zlen h) es He);
    [|by eapply rs_inside_mono; [exact Hin|rewrite zlen_app; lia]|rewrite Hnr, zlen_app; lia].
  rewrite Hnr, Z.add_0_l. cbn [res_bind].
  destruct (Hr p eq_refl Her) as (p' & -> & Hd' & He'). cbn [res_bind].
  destruct (Z.ltb_spec (zlen h) 0); [lia|]. eexists. split.
  { rewrite zdrop_app_r by lia. by rewrite Z.sub_diag, zdrop_0. }
  unfold response_has_error, response_is_finished. cbn [rs_data rs_parser rs_error rs_cs ran].
  split; [done|]. split; [by exists q, cs|]. by rewrite He', Hff, Hfl.
Qed.

(** The header of the response in the first read. *)
Lemma response_loop_ok fuel h r Q tail s n b s1 :
  is_connected s = true -> 0 < buffer_size -> s_in s = h ++ tail ->
  ends_at (http_response_parser_init junk) h (HTTPResponse.new_response 17 true) r Q ->
  socket_read buffer_size s = (n, b, s1) -> zlen h <= n ->
  exists p, response_loop buffer_size (S fuel) fresh_parser [] s = (Ret (Some (p, ztake (n - zlen h) tail)), s1) /\
    rs_data p = r /\ rs_error p = 0 /\ (exists q cs, Q q /\ rs_parser p = ran q cs (zlen h)) /\
    s_in s1 = zdrop (n - zlen h) tail /\ s_out s1 = s_out s /\ is_connected s1 = true /\
    zlen (ztake (n - zlen h) tail) = n - zlen h /\ n <= zlen h + zlen tail.
Proof.
  intros Hc Hbs Hin Ha Hr Hn. pose proof Ha as (Hne & _).
  destruct (read_some_eq _ _ _ _ _ Hc Hbs ltac:(rewrite Hin; by destruct h) Hr) as (-> & Hn' & Hi1 & Ho1 & Hc1).
  rewrite Hin, zlen_app in Hn'.
  assert (0 < zlen h) as Hh.
  { pose proof (zlen_nonneg h). destruct (Z.eq_dec (zlen h) 0) as [E|E]; [by apply zlen_zero in E|lia]. }
  assert (zlen (ztake (n - zlen h) tail) = n - zlen h) as Hz by (rewrite zlen_ztake by lia; lia).
  destruct (rs_execute_header fresh_parser false h (ztake (n - zlen h) tail) r Q eq_refl Ha)
    as (p & Hx & Hd & Hq & He & Hher & Hf).
  exists p. split.
  - cbn [response_loop]. rewrite zlen_nil, Z.sub_0_r, Hr, app_nil_l, Hin, ztake_app_r, Hx by lia.
    destruct (Z.leb_spec n 0); [lia|]. rewrite Hher, Hf.
    destruct (Z.eqb_spec (zlen (ztake (n - zlen h) tail)) buffer_size); [lia|done].
  - split; [done|]. split; [done|]. split; [done|]. rewrite Hi1, Hin, zdrop_app_r by lia.
    split_and!; try done; lia.
Qed.

(** ** Chunks *)

(** A chunk: its header, its data and its line end. *)
Definition chunk_text (c : bytes * bytes) : bytes := c.1 ++ c.2 ++ crlf.

(** The machine reads the length of the data from the header, and only the chunk without
    data is the last. *)
Definition chunk_ok (r : HTTPResponse.t) (last : bool) (c : bytes * bytes) : Prop :=
  zlen c.2 < 2 ^ 31 - 2 /\
  forall status, ends_at (http_response_parser_init status) c.1 r r
    (fun q => rs_content_len q = zlen c.2 /\ rs_chunks_done q = (if last then 1 else 0)).

Lemma chunk_data_ok fuel (c : bytes) body rest (s : SocketStream (K := K)) : zlen c < 2 ^ 31 - 2 ->
  chunk_data buffer_size fuel (zlen c) body (c ++ crlf ++ rest) s = (Ret (Some (body ++ c, rest)), s).
Proof.
  intros Hl. unfold chunk_data. pose proof (zlen_nonneg c). pose proof (zlen_nonneg rest).
  destruct (Z.leb_spec (2 ^ 31) (zlen c + 2)); [lia|]. rewrite !zlen_app. change (zlen crlf) with 2.
  destruct (Z.leb_spec (zlen c + 2) (zlen c + (2 + zlen rest))); [|lia].
  destruct (Z.ltb_spec (zlen c) 0); [lia|].
  rewrite ztake_app_l, ztake_all, (zdrop_app_r _ c) by lia.
  replace (zlen c + 2 - zlen c) with (zlen crlf) by (change (zlen crlf) with 2; lia).
  by rewrite zdrop_app_r, Z.sub_diag, zdrop_0 by lia.
Qed.

(** ** Whole responses *)

(** [r] with a body that was transferred as [body]. *)
Definition delivered (fuel : nat) (r : HTTPResponse.t) (body : bytes) (r' : HTTPResponse.t) : Prop :=
  (body = [] /\ r' = r) \/
  (body <> [] /\ exists b, decode_body (ZS := ZS) fuel r body = Ret b /\ r' = HTTPResponse.set_body b r).

Lemma finish_ok fuel r body r' (s : SocketStream (K := K)) : delivered fuel r body r' ->
  finish_response fuel r body s = (Ret (Some r'), s).
Proof.
  unfold finish_response. intros [[-> ->]|[Hne (b & E & ->)]]; [done|].
  rewrite bool_decide_false by done. by rewrite E.
Qed.

Definition rs_announced (r : HTTPResponse.t) : Z :=
  to_signed 64 (GetAs lexical_cast (HTTPResponse.m_headers r) (str "content-length") 0).

(** A body of announced length; without one the response has no body. *)
Lemma recv_sized_ok fuel h r tail s n b s1 r' :
  is_connected s = true -> 0 < buffer_size -> s_in s = h ++ tail ->
  ends_at (http_response_parser_init junk) h (HTTPResponse.new_response 17 true) r (fun q => rs_chunked q = 0) ->
  socket_read buffer_size s = (n, b, s1) -> zlen h <= n ->
  rs_announced r < 2 ^ 31 -> rs_announced r <= max_size -> rs_announced r <= zlen tail ->
  (if 0 <? rs_announced r then delivered (S fuel) r (ztake (rs_announced r) tail) r' else r' = r) ->
  exists s', recv (S fuel) s = (Ret (Some r'), s') /\ s_out s' = s_out s /\ is_connected s' = true /\
    s_in s' = zdrop (Z.max (rs_announced r) (n - zlen h)) tail.
Proof.
  intros Hc Hbs Hin Ha Hr Hn Hl1 Hl2 Hl3 Hdel.
  destruct (response_loop_ok fuel h r _ tail s n b s1 Hc Hbs Hin Ha Hr Hn)
    as (p & E & Hd & He & (q & cs0 & Hch0 & Hq) & Hi1 & Ho1 & Hc1 & Hz & Hnt).
  assert (rs_chunked (rs_parser p) = 0) as Hch by (by rewrite Hq).
  unfold recv_response. rewrite (bind_ret _ _ _ _ _ E), Hch. cbn [negb Z.eqb].
  unfold response_content_length. rewrite Hd. fold (rs_announced r).
  destruct (Z.ltb_spec 0 (rs_announced r)) as [Hp|Hp].
  - destruct (recv_body_ok max_size (rs_announced r) (ztake (n - zlen h) tail) s1 Hc1 ltac:(lia) Hl2)
      as (s' & E' & Hi & Ho & Hcc).
    { rewrite Hi1, Hz, zlen_zdrop by lia. lia. }
    rewrite Hi1, ztake_zdrop in E'. rewrite (bind_ret _ _ _ _ _ E'), (finish_ok _ _ _ r' _ Hdel).
    exists s'. split; [done|]. split; [by rewrite Ho|]. split; [done|]. rewrite Hi, Hi1, Hz.
    destruct (Z.le_gt_cases (rs_announced r) (n - zlen h)).
    + rewrite Z.max_r by lia. by rewrite zdrop_neg by lia.
    + rewrite zdrop_zdrop by lia. f_equal. lia.
  - subst r'. exists s1. split; [done|]. split; [done|]. split; [done|]. rewrite Hi1. f_equal. lia.
Qed.

(** A peer that closes the connection within a chunk makes the client read for ever. *)
Lemma chunk_rest_spins fuel : forall left body s, 0 < left ->
  (forall len, socket_read len s = (0, [], s)) ->
  chunk_rest_loop buffer_size fuel left body s = (Undef Diverges, s).
Proof.
  induction fuel as [|fuel IH]; intros left body s Hl Hr; cbn [chunk_rest_loop];
    (destruct (Z.leb_spec left 0); [lia|]); [done|].
  rewrite Hr. destruct (Z.ltb_spec 0 0); [lia|]. rewrite app_nil_r, Z.sub_0_r. by apply IH.
Qed.
End Props.

(** A body that was compressed with [CreateGzip] in any pieces and blocks is decompressed to
    what it was. *)
Lemma gzip_decoded {ZS : Type} `{!Zlib ZS} `{!ZlibLaws ZS} size (ze zd : ZlibStream ZS) ps rsp :
  0 < size -> CreateGzip true size = Ret (Some ze) -> CreateGzip false 4096 = Ret (Some zd) ->
  strcasecmp_eq (HTTPResponse.get_header (str "content-encoding") [] rsp) (str "gzip") = true ->
  exists f0, forall fuel, (f0 <= fuel)%nat -> exists ze', put_all fuel ps ze = (Ret Z_OK, ze') /\
    decode_body (ZS := ZS) fuel rsp (get_result ze') = Ret (concat ps).
Proof.
  intros Hs He Hd Hg. destruct (create_ok _ _ _ _ He Hs) as (Hze & Hle & Hee & Hre & Hie).
  destruct (create_ok _ _ _ _ Hd ltac:(done)) as (Hzd & Hld & Hed & Hrd & Hid).
  exists (S (Nat.max (Z.to_nat (zlen (whole ze ps))) (Z.to_nat (zlen (concat ps))))). intros fuel Hf.
  destruct (put_all_ok fuel ps ze Hze Hle ltac:(lia)) as (ze' & E & _ & Hr & _). exists ze'. split; [done|].
  rewrite Hre, app_nil_l in Hr. unfold decode_body. rewrite Hg. unfold inflate_with. rewrite Hd. cbn [res_bind].
  assert (whole zd [get_result ze'] = concat ps) as Hw.
  { unfold whole. rewrite Hed. apply (inflate_deflate _ _ _ _ _ _ _ _ Hie Hid). cbn [concat]. rewrite app_nil_r, Hr.
    unfold whole. by rewrite Hee. }
  destruct (put_all_ok fuel [get_result ze'] zd Hzd Hld) as (zd' & E' & _ & Hr' & _); [rewrite Hw; lia|].
  cbn [put_all] in E'. rewrite E'. by rewrite Hr', Hrd, Hw.
Qed.
