(* ===== verification/HttpResponseStages.v ===== *)
(** * The response machine stage by stage

    From the version to the end of the header, as [HttpStages] for requests.  The names of
    headers are followed together with the three that the grammar treats by themselves. *)

From stdpp Require Import base list numbers strings.
From Stdlib Require Import Lia ZArith.
From S2P Require Import Prelude Endian Http Ragel HttpParser HttpGrammar HttpSession HttpSessionProps HttpGrammarProps HttpStages HttpConnection HttpConnectionProps.

(** ** Places *)

Abbreviation rspot := (place response_action).

Definition rs_at (s : bytes) : list (re (Z * response_action)) := default [] (snd (scan response_machine_start 0 s)).
Definition rs_exactly (s : bytes) : rspot := Place (rs_at s) (rs_at s).

Definition sample_status : bytes := str "HTTP/1.1 2 a" ++ crlf.
Definition rs_before_version : rspot := rs_exactly [].
Definition before_code : rspot := rs_exactly (str "HTTP/1.1 ").
Definition in_code : rspot := rs_exactly (str "HTTP/1.1 2").
Definition before_reason : rspot := rs_exactly (str "HTTP/1.1 2 ").
Definition in_reason : rspot := rs_exactly (str "HTTP/1.1 2 a").
Definition after_reason : rspot := rs_exactly (str "HTTP/1.1 2 a" ++ [13]).
Definition rs_before_header : rspot := rs_exactly sample_status.
Definition rs_after_colon : rspot := rs_exactly (sample_status ++ str "x:").
Definition rs_after_space : rspot := rs_exactly (sample_status ++ str "x: ").
Definition rs_in_value : rspot := rs_exactly (sample_status ++ str "x: a").
Definition rs_after_value : rspot := rs_exactly (sample_status ++ str "x: a" ++ [13]).
Definition after_close_line : rspot := rs_exactly (sample_status ++ str "connection: close" ++ crlf).
Definition before_length : rspot := rs_exactly (sample_status ++ str "content-length: ").
Definition in_length : rspot := rs_exactly (sample_status ++ str "content-length: 1").
Definition after_length : rspot := rs_exactly (sample_status ++ str "content-length: 1" ++ [13]).
Definition rs_before_end : rspot := rs_exactly (sample_status ++ [13]).
Definition rs_after_end : rspot := rs_exactly (sample_status ++ crlf).

(** Text without line ends, and what a value may begin with. *)
Definition line_chars : cls := [(0, 9); (11, 12); (14, 255)].
Definition line_first : cls := [(0, 8); (14, 31); (33, 255)].

Ltac by_rs_evaluation :=
  repeat match goal with |- _ /\ _ => split end;
  first [apply edge_by_check|apply covers_by_check]; vm_compute; reflexivity.

Lemma status_edges :
  edge before_code digit_c [rs_mark_a] in_code /\ edge in_code digit_c [] in_code /\
  edge in_code [(32, 32)] [status_code_a] before_reason /\
  edge before_reason line_chars [rs_mark_a] in_reason /\ edge in_reason line_chars [] in_reason /\
  edge in_reason [(13, 13)] [reason_phrase_a] after_reason /\ edge after_reason [(10, 10)] [] rs_before_header.
Proof. by_rs_evaluation. Qed.

Lemma rs_version_covers :
  covers rs_before_version (str "HTTP/1.1 ") [(0, rs_mark_a); (8, rs_http_version_a)] before_code /\
  covers rs_before_version (str "HTTP/1.0 ") [(0, rs_mark_a); (8, rs_http_version_a)] before_code.
Proof. by_rs_evaluation. Qed.

Lemma value_edges :
  edge rs_after_colon [(32, 32)] [rs_start_value] rs_after_space /\
  edge rs_after_space line_first [rs_start_value] rs_in_value /\ edge rs_in_value line_chars [] rs_in_value /\
  edge rs_in_value [(13, 13)] [rs_write_value] rs_after_value /\ edge rs_after_value [(10, 10)] [] rs_before_header.
Proof. by_rs_evaluation. Qed.

(** The lines that [dump] writes by itself. *)
Definition close_trace (n : Z) : list (Z * response_action) :=
  [(0, rs_start_field); (0, rs_start_field); (10, rs_write_field); (11, rs_start_value); (12, rs_start_value);
   (n, rs_write_value)].

Lemma connection_covers :
  covers rs_before_header (str "connection: close" ++ crlf) (close_trace 17) after_close_line /\
  covers rs_before_header (str "connection: keep-alive" ++ crlf) (close_trace 22) rs_before_header.
Proof. by_rs_evaluation. Qed.

(** The actions that are pending when a line begins. *)
Definition pending (close : bool) : list response_action := if close then [write_connection_close] else [].
Definition after_connection (close : bool) : rspot := if close then after_close_line else rs_before_header.

Lemma length_edges close :
  covers (after_connection close) (str "content-length: ")
    (((fun a => (0, a)) <$> pending close) ++
     [(0, rs_start_field); (0, rs_start_field); (14, rs_write_field); (14, rs_write_field); (15, rs_start_value)])
    before_length /\
  edge before_length digit_c [rs_start_value; rs_start_value] in_length /\ edge in_length digit_c [] in_length /\
  edge in_length [(13, 13)] [write_content_len; rs_write_value; rs_write_value] after_length /\
  edge after_length [(10, 10)] [] rs_before_header.
Proof. destruct close; by_rs_evaluation. Qed.

Lemma rs_end_edges close :
  edge (after_connection close) [(13, 13)] (pending close) rs_before_end /\
  edge rs_before_end [(10, 10)] [rs_done] rs_after_end.
Proof. destruct close; by_rs_evaluation. Qed.

Lemma rs_end_final st : NoDup st -> at_place rs_after_end st -> st = [Eps].
Proof.
  assert (rs_at (sample_status ++ crlf) = [Eps]) as He by (vm_compute; reflexivity).
  intros Hnd [Hmay Hmust]. cbn [rs_after_end rs_exactly may must] in *. rewrite He in *.
  destruct st as [|x st]; [by specialize (Hmust Eps ltac:(left)); inv Hmust|].
  assert (x = Eps) as -> by (specialize (Hmay x ltac:(left)); by apply list_elem_of_singleton in Hmay).
  destruct st as [|y st]; [done|].
  assert (y = Eps) as -> by (specialize (Hmay y ltac:(right; left)); by apply list_elem_of_singleton in Hmay).
  apply NoDup_cons in Hnd as [Hn _]. destruct Hn. left.
Qed.

(** ** Names *)

Definition special_names : list bytes := [str "transfer-encoding"; str "connection"; str "content-length"].

(** The beginnings of these names. *)
Definition alive (w : bytes) : bool := existsb (is_prefix w) special_names.
Definition beginnings : list bytes :=
  flat_map (fun s => (fun k => take k s) <$> seq 1 (length s)) special_names.

(** After the lower-case letters [w] of a name. *)
Definition in_rname (w : bytes) : rspot := rs_exactly (sample_status ++ (if alive w then w else str "x")).

Definition token_chars : list Z := members ResponseGrammar.token.
Definition going_on (w : bytes) : list Z := List.filter (fun c => alive (w ++ [tolower c])) token_chars.
Definition going_off (w : bytes) : cls :=
  (fun c => (c, c)) <$> List.filter (fun c => negb (alive (w ++ [tolower c]))) token_chars.

(** The checks: letters with which a beginning goes on, those that end it, and the colon. *)
#[local] Abbreviation on_check :=
  (fun x : bytes * Z => edge_at (in_rname x.1) [] (in_rname (x.1 ++ [tolower x.2])) x.2).
#[local] Abbreviation off_check := (fun w => edge_check (in_rname w) (going_off w) [] (in_rname (str "x"))).
#[local] Abbreviation colon_check := (fun w => edge_check (in_rname w) [(58, 58)] [rs_write_field] rs_after_colon).
#[local] Abbreviation first_check :=
  (fun c => edge_at rs_before_header (replicate (if alive [tolower c] then 2 else 1) rs_start_field) (in_rname [tolower c]) c).

Lemma name_checks :
  forallb on_check (flat_map (fun w => pair w <$> going_on w) beginnings) = true /\
  forallb off_check beginnings = true /\
  forallb colon_check (str "x" :: List.filter (fun w => negb (bool_decide (w ∈ special_names))) beginnings) = true /\
  forallb first_check token_chars = true.
Proof. split_and!; vm_compute; reflexivity. Qed.

Lemma dead_edge : edge (in_rname (str "x")) ResponseGrammar.token [] (in_rname (str "x")).
Proof. by_rs_evaluation. Qed.

Lemma checked_in {B} (f : B -> bool) l x : forallb f l = true -> x ∈ l -> f x = true.
Proof. intros H Hx. apply (proj1 (forallb_forall f l) H). by apply list_elem_of_In. Qed.

Lemma is_prefix_take w s : is_prefix w s = true -> w = take (length w) s /\ (length w <= length s)%nat.
Proof.
  revert s; induction w as [|c w IH]; intros [|x s]; cbn [is_prefix]; try discriminate; try (split; [done|cbn; lia]).
  intros [E%Z.eqb_eq H]%andb_true_iff. destruct (IH s H) as [Ew Hl]. cbn [length take]. split; [congruence|lia].
Qed.

Lemma alive_beginning w : w <> [] -> alive w = true -> w ∈ beginnings.
Proof.
  intros Hne (s & Hs & Hp)%existsb_exists. apply is_prefix_take in Hp as [Hw Hl].
  apply list_elem_of_In, in_flat_map. exists s. split; [done|].
  apply list_elem_of_In, list_elem_of_fmap. exists (length w). split; [done|].
  apply list_elem_of_In, in_seq. destruct w; [done|cbn in *; lia].
Qed.

Lemma is_prefix_app w c s : is_prefix (w ++ c) s = true -> is_prefix w s = true.
Proof.
  revert s; induction w as [|x w IH]; intros [|y s]; cbn [is_prefix app]; try done.
  intros [E H]%andb_true_iff. by rewrite E, (IH s H).
Qed.

Lemma dead_stays w c : alive w = false -> alive (w ++ c) = false.
Proof.
  intros H. destruct (alive (w ++ c)) eqn:E; [|done]. apply existsb_exists in E as (s & Hs & Hp).
  apply is_prefix_app in Hp. assert (alive w = true) as E'; [|by rewrite E' in H].
  apply existsb_exists. by exists s.
Qed.

Lemma in_dead w : alive w = false -> in_rname w = in_rname (str "x").
Proof. unfold in_rname. by intros ->. Qed.

Lemma token_in c : in_cls c ResponseGrammar.token = true -> c ∈ token_chars.
Proof. apply in_members. Qed.

(** Members of the lists that are checked. *)
Lemma in_filter {B} (f : B -> bool) l x : x ∈ l -> f x = true -> x ∈ List.filter f l.
Proof. rewrite !list_elem_of_In, filter_In. done. Qed.

Lemma in_pairs {B C} (f : B -> list C) l w c : w ∈ l -> c ∈ f w -> (w, c) ∈ flat_map (fun w => pair w <$> f w) l.
Proof.
  intros Hw Hc. apply list_elem_of_In, in_flat_map. exists w. split; [by apply list_elem_of_In|].
  apply list_elem_of_In, list_elem_of_fmap. by exists c.
Qed.

Lemma in_singles (l : list Z) c : c ∈ l -> in_cls c ((fun c => (c, c)) <$> l) = true.
Proof.
  intros Hc. apply existsb_exists. exists (c, c). split; [|by rewrite !Z.leb_refl].
  apply list_elem_of_In, list_elem_of_fmap. by exists c.
Qed.

Lemma edge_single X l a (Y : rspot) c : edge X l a Y -> in_cls c l = true -> edge X [(c, c)] a Y.
Proof. intros He Hc st c' Hst Hc'. apply (He st c' Hst). by assert (c' = c) as -> by (cbn in Hc'; lia). Qed.

#[local] Opaque alive beginnings token_chars special_names.

Lemma goes_on_edge w c : w ∈ beginnings -> c ∈ token_chars -> alive (w ++ [tolower c]) = true ->
  edge (in_rname w) [(c, c)] [] (in_rname (w ++ [tolower c])).
Proof.
  intros Hb Hc Ha. apply edge_by_char.
  exact (checked_in on_check _ (w, c) (proj1 name_checks) (in_pairs going_on _ w c Hb (in_filter _ _ c Hc Ha))).
Qed.

Lemma goes_off_edge w c : w ∈ beginnings -> c ∈ token_chars -> alive (w ++ [tolower c]) = false ->
  edge (in_rname w) [(c, c)] [] (in_rname (w ++ [tolower c])).
Proof.
  intros Hb Hc Ha. rewrite (in_dead _ Ha).
  apply (edge_single _ _ _ _ c (edge_by_check _ _ _ _ (checked_in off_check _ w (proj1 (proj2 name_checks)) Hb))).
  unfold going_off. apply in_singles, in_filter; [done|]. by rewrite Ha.
Qed.

Lemma name_edge w c : w <> [] -> in_cls c ResponseGrammar.token = true ->
  edge (in_rname w) [(c, c)] [] (in_rname (w ++ [tolower c])).
Proof.
  intros Hw Hc. destruct (alive w) eqn:Ew.
  - pose proof (alive_beginning w Hw Ew) as Hb. pose proof (token_in c Hc) as Ht.
    destruct (alive (w ++ [tolower c])) eqn:Ec; [by apply goes_on_edge|by apply goes_off_edge].
  - rewrite (in_dead w Ew), (in_dead (w ++ _)) by (by apply dead_stays). exact (edge_single _ _ _ _ c dead_edge Hc).
Qed.

Lemma colon_edge w : w <> [] -> w ∉ special_names -> edge (in_rname w) [(58, 58)] [rs_write_field] rs_after_colon.
Proof.
  intros Hw Hs. pose proof (proj1 (proj2 (proj2 name_checks))) as Hcol. destruct (alive w) eqn:Ew.
  - apply edge_by_check. refine (checked_in colon_check _ w Hcol _). right.
    apply in_filter; [by apply alive_beginning|by rewrite bool_decide_false].
  - rewrite (in_dead w Ew). apply edge_by_check. refine (checked_in colon_check _ (str "x") Hcol _). left.
Qed.

Lemma first_edge c : in_cls c ResponseGrammar.token = true ->
  edge rs_before_header [(c, c)] (replicate (if alive [tolower c] then 2 else 1) rs_start_field) (in_rname [tolower c]).
Proof.
  intros Hc. pose proof (proj2 (proj2 (proj2 name_checks))) as Hf. apply edge_by_char.
  exact (checked_in first_check _ c Hf (token_in c Hc)).
Qed.

Lemma rname_covers w name : w <> [] -> forallb (fun c => in_cls c ResponseGrammar.token) name = true ->
  covers (in_rname w) name [] (in_rname (w ++ (tolower <$> name))).
Proof.
  revert w; induction name as [|c name IH]; intros w Hw Hn; cbn [fmap list_fmap].
  - rewrite app_nil_r. apply covers_nil.
  - cbn [forallb] in Hn. apply andb_true_iff in Hn as [Hc Hn].
    change (tolower c :: _) with ([tolower c] ++ (tolower <$> name)). rewrite app_assoc.
    apply (covers_quiet _ _ _ c name _ (name_edge w c Hw Hc) (in_single c)), IH; [by destruct w|done].
Qed.

(** ** From place to place *)

Lemma response_acts_app buffer l k p :
  response_acts buffer (l ++ k) p =
  let (p1, e1) := response_acts buffer l p in let (p2, e2) := response_acts buffer k p1 in (p2, e1 ++ e2).
Proof.
  revert p; induction l as [|[fpc a] l IH]; intros p; cbn [app response_acts].
  - by destruct (response_acts buffer k p).
  - destruct (response_act buffer fpc a p) as [p1 e1]. rewrite IH. destruct (response_acts buffer l p1) as [p2 e2].
    destruct (response_acts buffer k p2) as [p3 e3]. by rewrite app_assoc.
Qed.

(** The machine ends at [n] in its first final state, inside the text and with the member
    [chunked], and the calls make the response [r]. *)
Definition rs_result (chunked n : Z) (r : HTTPResponse.t) (q : rs_struct) (d : HTTPResponseParser) : Prop :=
  rs_inside q n /\ rs_chunked q = chunked /\ rs_data d = r /\ rs_error d = 0.

Definition rtakes (chunked : Z) (X : rspot) (pre s : bytes) (p : rs_struct) (d : HTTPResponseParser) (n : Z) (r : HTTPResponse.t) : Prop :=
  takes_to response_breaks response_acts on_response_event (fun st => st = [Eps]) X pre s p d n (rs_result chunked n r).

Definition rtakes_covers chunked X w tr Y pre s p p1 e1 d d1 n r :=
  takes_to_covers response_breaks response_acts on_response_event response_acts_app (fun st => st = [Eps])
    X w tr Y pre s p p1 e1 d d1 n (rs_result chunked n r).
Definition rtakes_edge chunked X l a Y pre c s p p1 e1 d d1 n r :=
  takes_to_edge response_breaks response_acts on_response_event response_acts_app (fun st => st = [Eps])
    X l a Y pre c s p p1 e1 d d1 n (rs_result chunked n r).

Definition rs_sane (k : Z) (p : rs_struct) : Prop :=
  rs_mark p <= k /\ rs_field_start p <= k /\ rs_field_len p <= k /\ rs_chunked p = 0.

Definition rgoes (chunked : Z) (X : rspot) (pre s : bytes) (d : HTTPResponseParser) (n : Z) (r : HTTPResponse.t) : Prop :=
  forall p, rs_sane (zlen pre) p -> rtakes chunked X pre s p d n r.

(** *** The end of the header *)

Lemma pending_acts buffer pos close p :
  response_acts buffer ((fun a => (pos, a)) <$> pending close) p = (if close then rs_with_close p else p, []).
Proof. by destruct close. Qed.

Lemma rgoes_end close pre s d : rs_error d = 0 ->
  rgoes 0 (after_connection close) pre (crlf ++ s) d (zlen pre + 2) (rs_data d).
Proof.
  intros Hd p (Hm & Hs & Hl & Hc). destruct (rs_end_edges close) as [E1 E2]. cbn [crlf app].
  eapply rtakes_edge; [exact E1|done|by destruct close|apply pending_acts|reflexivity|].
  replace (zlen pre + 2) with (zlen (pre ++ [13]) + 1) by zlens.
  eapply takes_to_done; [exact E2|done|done|exact rs_end_final|reflexivity|reflexivity|].
  destruct close; (split; [|done]); unfold rs_inside; cbn; zlens.
Qed.

(** *** Header lines *)

Definition good_rline (it : bytes * bytes) : bool :=
  match it.1, it.2 with
  | _ :: _, c :: v =>
      forallb (fun c => in_cls c ResponseGrammar.token) it.1 && negb (bool_decide (tolower <$> it.1 ∈ special_names)) &&
      in_cls c line_first && forallb (fun c => in_cls c line_chars) v
  | _, _ => false
  end.

Lemma rfield_covers c name : forallb (fun c => in_cls c ResponseGrammar.token) (c :: name) = true ->
  covers rs_before_header (c :: name) (replicate (if alive [tolower c] then 2 else 1) (0, rs_start_field))
    (in_rname (tolower <$> (c :: name))).
Proof.
  cbn [forallb]. intros [Hc Hn]%andb_true_iff.
  pose proof (covers_cons _ _ _ _ c name [] _ (first_edge c Hc) (in_single c) (rname_covers [tolower c] name ltac:(done) Hn)) as H.
  destruct (alive [tolower c]); exact H.
Qed.

Lemma start_fields buffer pos k p : (1 <= k <= 2)%nat ->
  response_acts buffer (shift pos (replicate k (0, rs_start_field))) p = (rs_with_field pos (rs_field_len p) p, []).
Proof.
  intros Hk. destruct k as [|[|[|k]]]; try lia; cbn; by rewrite Z.add_0_r.
Qed.

Lemma rvalue_covers c v : in_cls c line_first = true -> forallb (fun c => in_cls c line_chars) v = true ->
  covers rs_after_space (c :: v) [(0, rs_start_value)] rs_in_value.
Proof.
  intros Hc Hv. destruct value_edges as (_ & E2 & E3 & _).
  exact (covers_cons _ _ [rs_start_value] _ c v [] _ E2 Hc (covers_loop _ _ v E3 Hv)).
Qed.

Lemma rs_field_read pre name a b value s d : name <> [] -> zlen ((((pre ++ name) ++ a) ++ b) ++ value) < 2 ^ 64 ->
  run_events (on_response_event (((((pre ++ name) ++ a) ++ b) ++ value) ++ s))
    [Field (zlen pre) (LEN (zlen pre) (zlen (pre ++ name))) (zlen (((pre ++ name) ++ a) ++ b))
       (LEN (zlen (((pre ++ name) ++ a) ++ b)) (zlen ((((pre ++ name) ++ a) ++ b) ++ value)))] d =
  Ret (rs_set_data (HTTPResponse.set_header name value) d).
Proof.
  intros Hne Hz. cbn [run_events on_response_event]. rewrite cut_LEN by done.
  rewrite <-!(app_assoc (pre ++ name)), cut_LEN.
  - cbn [res_bind]. unfold on_response_http_field. by rewrite bool_decide_false.
  - zlens.
Qed.

Ltac rs_members :=
  unfold rs_sane; cbn [fst rs_mark rs_field_start rs_field_len rs_chunked rs_with_mark rs_with_field rs_with_close
    rs_with_status rs_with_content_len].

Lemma rgoes_line chunked it pre s d n r : good_rline it = true -> zlen (pre ++ print_line it) < 2 ^ 64 ->
  rgoes chunked rs_before_header (pre ++ print_line it) s (rs_set_data (HTTPResponse.set_header it.1 it.2) d) n r ->
  rgoes chunked rs_before_header pre (print_line it ++ s) d n r.
Proof.
  destruct it as [[|a name] [|c v]]; try done. intros Hg Hz Ht p (Hm & Hs & Hl & Hch).
  unfold good_rline in Hg. cbn [fst snd] in Hg. rewrite !andb_true_iff, negb_true_iff, bool_decide_eq_false in Hg.
  destruct Hg as [[[Hn Hsp] Hc] Hv]. pose proof (rfield_covers a name Hn) as Hcov.
  assert (1 <= (if alive [tolower a] then 2 else 1) <= 2)%nat as Hk by (destruct (alive _); lia).
  set (k := if alive [tolower a] then 2%nat else 1%nat) in *.
  assert (unbroken response_breaks (replicate k (0, rs_start_field)) = true) as Hu by (by destruct k as [|[|[|]]]; try lia).
  assert (a :: name <> []) as Hne by done. assert (tolower <$> (a :: name) <> []) as Hne2 by done.
  set (nm := a :: name) in *. set (value := c :: v) in *.
  destruct value_edges as (E1 & _ & _ & E4 & E5). rewrite print_line_eq in *. cbn [fst snd] in *.
  change (str ": ") with [58; 32] in *. unfold crlf in *. rewrite <-!app_assoc. cbn [app].
  eapply (rtakes_covers _ _ nm); [exact Hcov|done|exact (start_fields _ _ k p Hk)|reflexivity|].
  eapply rtakes_edge; [exact (colon_edge (tolower <$> nm) Hne2 Hsp)|done|done|reflexivity|reflexivity|].
  eapply rtakes_edge; [exact E1|done|done|reflexivity|reflexivity|].
  eapply (rtakes_covers _ _ value); [exact (rvalue_covers c v Hc Hv)|done|cbn; rewrite Z.add_0_r; reflexivity|reflexivity|].
  assert (zlen ((((pre ++ nm) ++ [58]) ++ [32]) ++ value) < 2 ^ 64) as Hz' by zlens.
  eapply rtakes_edge; [exact E4|done|done|reflexivity|exact (rs_field_read _ _ _ _ _ _ _ Hne Hz')|].
  eapply rtakes_edge; [exact E5|done|done|reflexivity|reflexivity|].
  replace (((((((pre ++ nm) ++ [58]) ++ [32]) ++ value) ++ [13]) ++ [10]))
    with (pre ++ nm ++ [58; 32] ++ value ++ [13; 10]) by (by rewrite <-!app_assoc).
  apply Ht. rs_members. rewrite LEN_app by zlens. clear Hz'. split_and!; [zlens..|done].
Qed.

(** ** Runs of the whole machine *)

Lemma rs_exec_from_start (p : rs_struct) buffer tr st pos q es : rs_cs p = MStart ->
  run response_breaks response_machine_start 0 buffer = (tr, Some st, pos) ->
  response_acts buffer tr p = (q, es) -> exec_response p buffer = (q, MIn st, pos, es).
Proof. intros Hc Hr Ha. unfold exec_response. by rewrite Hc, Hr, Ha. Qed.

(** A header that the machine takes from its start, whatever follows. *)
Lemma ends_by_takes status h r r' (Q : rs_struct -> Prop) : h <> [] ->
  (forall rest d, rs_data d = r -> rs_error d = 0 ->
     takes_to response_breaks response_acts on_response_event (fun st => st = [Eps]) rs_before_version [] (h ++ rest)
       (http_response_parser_init (machine := response_ragel) status) d (zlen h)
       (fun q d' => Q q /\ rs_inside q (zlen h) /\ rs_data d' = r' /\ rs_error d' = 0)) ->
  ends_at (http_response_parser_init status) h r r' Q.
Proof.
  intros Hne Ht. split; [done|]. split; [done|]. intros rest.
  assert (at_place rs_before_version response_machine_start) as Hst by (by split).
  destruct (Ht rest (MkResponseParser (http_response_parser_init status) r 0) eq_refl eq_refl _ Hst)
    as (tr & st' & q & es & d' & Hr & -> & Ha & _ & HQ & Hi & _).
  exists q, (MIn [Eps]), es. do 4 (split; [done|]). split.
  { exact (rs_exec_from_start (http_response_parser_init (machine := response_ragel) status) _ _ _ _ _ _ eq_refl Hr Ha). }
  intros p Hd He. destruct (Ht rest p Hd He _ Hst) as (tr2 & st2 & q2 & es2 & d2 & Hr2 & _ & Ha2 & Hev & _ & _ & Hd2 & He2).
  rewrite Hr in Hr2. injection Hr2 as <- _. rewrite Ha in Ha2. injection Ha2 as _ <-.
  exists d2. split; [exact Hev|]. split; [exact Hd2|exact He2].
Qed.

Lemma takes_to_mono {A P D} `{!EqDecision A} breaks acts on done X pre s (p : P) (d : D) n (G G' : P -> D -> Prop) :
  (forall q d', G q d' -> G' q d') ->
  takes_to (A := A) breaks acts on done X pre s p d n G -> takes_to breaks acts on done X pre s p d n G'.
Proof.
  intros HG Ht st Hst. destruct (Ht st Hst) as (tr & st' & q & es & d' & H1 & H2 & H3 & H4 & H5).
  exists tr, st', q, es, d'. split_and!; auto.
Qed.
