(* ===== verification/HttpResponseRoundtrip.v ===== *)
(** * Responses that travel

    What a server prints is accepted by the machine of the client's parser, and the client
    receives the same response. *)

From stdpp Require Import base list numbers strings.
From Stdlib Require Import Lia ZArith.
From S2P Require Import Prelude Endian OrdSet OrdMap Http HttpProps Ragel HttpParser HttpGrammar Stream StreamProps Zlib ZlibProps.
From S2P Require Import HttpSession HttpSessionProps HttpGrammarProps HttpStages HttpRoundtrip HttpConnection HttpConnectionProps HttpResponseStages.

(** ** The other stages *)

Definition rs_set_lines (lines : list (bytes * bytes)) (r : HTTPResponse.t) : HTTPResponse.t :=
  fold_left (fun r it => HTTPResponse.set_header it.1 it.2 r) lines r.

Lemma rgoes_lines chunked lines pre s d n r : forallb good_rline lines = true ->
  zlen (pre ++ flat_map print_line lines) < 2 ^ 64 ->
  rgoes chunked rs_before_header (pre ++ flat_map print_line lines) s (rs_set_data (rs_set_lines lines) d) n r ->
  rgoes chunked rs_before_header pre (flat_map print_line lines ++ s) d n r.
Proof.
  revert pre d; induction lines as [|it lines IH]; intros pre d Hg Hz Ht; cbn [flat_map rs_set_lines fold_left forallb app] in *.
  - rewrite app_nil_r in Ht. by destruct d.
  - apply andb_true_iff in Hg as [Hi Hg]. rewrite app_assoc in Hz, Ht. rewrite <-(app_assoc (print_line it)).
    apply rgoes_line; [done|zlens|]. by apply IH.
Qed.

(** A part of a word that is read as a whole. *)
Lemma cut_at (pre w s : bytes) i k : 0 <= i -> 0 <= k -> i + k <= zlen w ->
  cut (zlen pre + i) k (pre ++ w ++ s) = Ret (slice i k w).
Proof.
  intros Hi Hk Hl. pose proof (zlen_nonneg pre). rewrite app_assoc.
  rewrite cut_app by (rewrite ?zlen_app; lia). rewrite slice_app_r by lia. by rewrite Z.add_simpl_l.
Qed.

Lemma LEN_off a i j : 0 <= j - i < 2 ^ 64 -> LEN (a + i) (a + j) = j - i.
Proof. intros H. unfold LEN, wrap. replace (a + j - (a + i)) with (j - i) by lia. by apply Z.mod_small. Qed.

Definition keep_text (close : bool) : bytes := if close then str "close" else str "keep-alive".

Lemma rgoes_connection chunked close pre s d n r :
  rgoes chunked (after_connection close) (pre ++ print_line (str "connection", keep_text close)) s
    (rs_set_data (HTTPResponse.set_header (str "connection") (keep_text close)) d) n r ->
  rgoes chunked rs_before_header pre (print_line (str "connection", keep_text close) ++ s) d n r.
Proof.
  intros Ht p (Hm & Hs & Hl & Hc).
  assert (exists k, covers rs_before_header (print_line (str "connection", keep_text close)) (close_trace (12 + k)) (after_connection close) /\
    k = zlen (keep_text close) /\ 0 <= k < 20) as (k & Hcov & Hk & Hk2).
  { destruct connection_covers as [H1 H2]. destruct close; [exists 5|exists 10]; by split_and!. }
  assert (zlen (print_line (str "connection", keep_text close)) = 14 + k) as Hz by (subst k; by destruct close).
  eapply rtakes_covers with (d1 := rs_set_data (HTTPResponse.set_header (str "connection") (keep_text close)) d);
    [exact Hcov|done|reflexivity| |].
  - cbn [run_events on_response_event app rs_field_start rs_field_len rs_mark rs_with_field rs_with_mark fst].
    rewrite !LEN_off by lia. rewrite Z.sub_0_r. rewrite !cut_at by lia. cbn [res_bind].
    replace (12 + k - 12) with k by lia. subst k. by destruct close.
  - apply Ht. rs_members. rewrite LEN_off by lia. pose proof (zlen_nonneg pre). rewrite zlen_app, Hz. lia.
Qed.

(** The length is written, and reported twice. *)
Lemma rgoes_length chunked close ds pre s d n r : ds <> [] -> forallb (fun c => in_cls c digit_c) ds = true ->
  zlen (pre ++ print_line (str "content-length", ds)) < 2 ^ 64 ->
  rgoes chunked rs_before_header (pre ++ print_line (str "content-length", ds)) s
    (rs_set_data (rs_set_lines [(str "content-length", ds); (str "content-length", ds)]) d) n r ->
  rgoes chunked (after_connection close) pre (print_line (str "content-length", ds) ++ s) d n r.
Proof.
  intros Hne Hd Hz Ht p (Hm & Hs & Hl & Hc). destruct (length_edges close) as (Hcov & E2 & E3 & E4 & E5).
  assert (covers before_length ds [(0, rs_start_value); (0, rs_start_value)] in_length) as Hds.
  { destruct ds as [|c ds]; [by destruct Hne|]. cbn [forallb] in Hd. apply andb_true_iff in Hd as [Hc1 Hd].
    exact (covers_cons _ _ [rs_start_value; rs_start_value] _ c ds [] _ E2 Hc1 (covers_loop _ _ ds E3 Hd)). }
  set (w := str "content-length: ") in *.
  assert (zlen w = 16) as Hw by done.
  replace (print_line (str "content-length", ds)) with (w ++ ds ++ crlf) in * by reflexivity.
  unfold crlf in *. rewrite <-!app_assoc. cbn [app].
  eapply (rtakes_covers _ _ w); [exact Hcov|by destruct close| | |].
  { rewrite shift_app, response_acts_app, shift_here, pending_acts. reflexivity. }
  { reflexivity. }
  eapply (rtakes_covers _ _ ds); [exact Hds|done|reflexivity|reflexivity|].
  assert (forall e, run_events (on_response_event (((pre ++ w) ++ ds) ++ 13 :: 10 :: s))
    [Field (zlen pre + 0) (LEN (zlen pre + 0) (zlen pre + 14)) (zlen (pre ++ w) + 0) (LEN (zlen (pre ++ w) + 0) (zlen ((pre ++ w) ++ ds)))] e =
    Ret (rs_set_data (HTTPResponse.set_header (str "content-length") ds) e)) as He.
  { intros e. cbn [run_events on_response_event]. rewrite LEN_off, !(Z.add_0_r (zlen (pre ++ w))) by lia.
    rewrite (cut_LEN (pre ++ w)) by zlens. rewrite <-!app_assoc, cut_at by lia. reflexivity. }
  eapply rtakes_edge; [exact E4|done|done|reflexivity| |].
  { cbn [app rs_field_start rs_field_len rs_mark rs_with_field rs_with_mark rs_with_content_len fst].
    match goal with |- run_events _ [?f; _] _ = _ => change [f; f] with ([f] ++ [f]) end.
    rewrite run_events_app, He. cbn [res_bind]. rewrite He. reflexivity. }
  eapply rtakes_edge; [exact E5|done|done|reflexivity|reflexivity|].
  replace ((((pre ++ w) ++ ds) ++ [13]) ++ [10]) with (pre ++ w ++ ds ++ [13; 10]) by (by rewrite <-!app_assoc).
  apply Ht. rs_members. rewrite LEN_off by lia. clear He. split_and!; [zlens..|by destruct close].
Qed.

(** *** The status line *)

Definition reason_of (r : HTTPResponse.t) : bytes :=
  if bool_decide (HTTPResponse.m_reason r = []) then HTTPStatusToString (HTTPResponse.m_status r) else HTTPResponse.m_reason r.

Lemma rs_version_read (v : Z) s d : v = 16 \/ v = 17 ->
  on_response_http_version (version_text v ++ s) 8 d = rs_set_data (HTTPResponse.set_version v) d.
Proof. intros [-> | ->]; reflexivity. Qed.

Lemma rgoes_version chunked v pre s d n r : v = 16 \/ v = 17 ->
  rgoes chunked before_code (pre ++ version_text v ++ [32]) s (rs_set_data (HTTPResponse.set_version v) d) n r ->
  rgoes chunked rs_before_version pre ((version_text v ++ [32]) ++ s) d n r.
Proof.
  intros Hv Ht p (Hm & Hs & Hl & Hc).
  assert (covers rs_before_version (version_text v ++ [32]) [(0, rs_mark_a); (8, rs_http_version_a)] before_code) as Hcov
    by (destruct rs_version_covers; by destruct Hv as [-> | ->]).
  assert (zlen (version_text v ++ [32]) = 9) as Hz by (by destruct Hv as [-> | ->]).
  eapply rtakes_covers; [exact Hcov|done|cbn; rewrite Z.add_0_r; reflexivity| |].
  - cbn [run_events on_response_event]. unfold LEN. rewrite Z.add_simpl_l. change (wrap 64 8) with 8.
    rewrite zdrop_pre, <-app_assoc, (rs_version_read v _ d Hv). reflexivity.
  - apply Ht. rs_members. rewrite (zlen_app pre (version_text v ++ [32])), Hz. lia.
Qed.

Lemma digits_of_app ds s : forallb (fun c => in_cls c digit_c) ds = true -> digits_of (ds ++ 32 :: s) = ds.
Proof.
  induction ds as [|c ds IH]; [done|]. cbn [forallb app digits_of]. intros [Hc Hd]%andb_true_iff.
  assert ((48 <=? c) && (c <=? 57) = true) as -> by (cbn in Hc; lia). by rewrite (IH Hd).
Qed.

Lemma dec_digits_c n : 0 <= n < 10 ^ 20 -> dec n <> [] /\ forallb (fun c => in_cls c digit_c) (dec n) = true.
Proof.
  intros Hn. unfold dec. destruct (dec_loop_spec 20 n [] ltac:(lia) Hn) as (ds & -> & Hne & _ & Hds).
  rewrite app_nil_r. split; [done|]. apply forallb_forall. intros c Hc.
  rewrite Forall_forall in Hds. specialize (Hds c ltac:(by apply list_elem_of_In)). cbn. lia.
Qed.

Lemma rgoes_code chunked code pre s d n r : 0 <= code < 2 ^ 31 ->
  rgoes chunked before_reason ((pre ++ dec code) ++ [32]) s (rs_set_data (HTTPResponse.set_status code) d) n r ->
  rgoes chunked before_code pre (dec code ++ 32 :: s) d n r.
Proof.
  intros Hcode Ht p (Hm & Hs & Hl & Hc). destruct status_edges as (E1 & E2 & E3 & _).
  destruct (dec_digits_c code ltac:(lia)) as [Hne Hd].
  assert (covers before_code (dec code) [(0, rs_mark_a)] in_code) as Hcov.
  { destruct (dec code) as [|c ds]; [done|]. cbn [forallb] in Hd. apply andb_true_iff in Hd as [Hc1 Hd].
    exact (covers_cons _ _ [rs_mark_a] _ c ds [] _ E1 Hc1 (covers_loop _ _ ds E2 Hd)). }
  eapply rtakes_covers; [exact Hcov|done|cbn; rewrite Z.add_0_r; reflexivity|reflexivity|].
  eapply rtakes_edge; [exact E3|done|done|reflexivity| |].
  - cbn [run_events on_response_event app rs_mark rs_with_mark]. rewrite <-app_assoc, zdrop_pre.
    unfold on_response_status_code. rewrite (digits_of_app _ _ Hd), undec_dec, to_signed_small by (unfold sfits; lia).
    reflexivity.
  - apply Ht. rs_members. split_and!; [zlens..|done].
Qed.

Lemma rgoes_reason chunked reason pre s d n r : reason <> [] -> forallb (fun c => in_cls c line_chars) reason = true ->
  zlen (pre ++ reason) < 2 ^ 64 ->
  rgoes chunked rs_before_header (pre ++ reason ++ crlf) s (rs_set_data (HTTPResponse.set_reason reason) d) n r ->
  rgoes chunked before_reason pre (reason ++ crlf ++ s) d n r.
Proof.
  intros Hne Hr Hz Ht p (Hm & Hs & Hl & Hc). destruct status_edges as (_ & _ & _ & E4 & E5 & E6 & E7).
  assert (covers before_reason reason [(0, rs_mark_a)] in_reason) as Hcov.
  { destruct reason as [|c w]; [done|]. cbn [forallb] in Hr. apply andb_true_iff in Hr as [Hc1 Hr].
    exact (covers_cons _ _ [rs_mark_a] _ c w [] _ E4 Hc1 (covers_loop _ _ w E5 Hr)). }
  eapply rtakes_covers; [exact Hcov|done|cbn; rewrite Z.add_0_r; reflexivity|reflexivity|]. unfold crlf in *. cbn [app].
  eapply rtakes_edge; [exact E6|done|done|reflexivity| |].
  { cbn [run_events on_response_event app rs_mark rs_with_mark]. rewrite cut_LEN by done. reflexivity. }
  eapply rtakes_edge; [exact E7|done|done|reflexivity|reflexivity|].
  replace (((pre ++ reason) ++ [13]) ++ [10]) with (pre ++ reason ++ [13; 10]) by (by rewrite <-!app_assoc).
  apply Ht. rs_members. split_and!; [zlens..|done].
Qed.

(** ** Responses that can be printed *)

(** The header lines before the two that [dump] adds. *)
Definition rs_other_lines (r : HTTPResponse.t) : header_map :=
  List.filter (fun it => negb (strcasecmp_eq it.1 (str "connection"))) (HTTPResponse.m_headers r).
Definition cookie_lines (r : HTTPResponse.t) : header_map := (fun it => (str "Set-Cookie", it)) <$> HTTPResponse.m_cookies r.
Definition rs_length_line (r : HTTPResponse.t) : header_map :=
  if bool_decide (HTTPResponse.m_body r = []) then []
  else [(str "content-length", dec (zlen (HTTPResponse.m_body r)))].
Definition rs_connection_line (r : HTTPResponse.t) : bytes * bytes :=
  (str "connection", keep_text (HTTPResponse.m_close r)).

(** The status line and the lines of the response itself. *)
Definition rs_front (r : HTTPResponse.t) : bytes :=
  (version_text (HTTPResponse.m_version r) ++ [32]) ++ (dec (HTTPResponse.m_status r) ++ [32]) ++ (reason_of r ++ crlf) ++
  flat_map print_line (rs_other_lines r ++ cookie_lines r).

Definition rs_head_of (r : HTTPResponse.t) : bytes :=
  rs_front r ++ print_line (rs_connection_line r) ++ flat_map print_line (rs_length_line r) ++ crlf.

(** A version and a status that the grammar knows, texts without line ends, and no header
    that has a meaning of its own; the body is not compressed. *)
Definition plain_encoding (r : HTTPResponse.t) : bool :=
  let encoding := HTTPResponse.get_header (str "content-encoding") [] r in
  negb (strcasecmp_eq encoding (str "gzip")) && negb (strcasecmp_eq encoding (str "deflate")).

Definition rs_printable (r : HTTPResponse.t) : bool :=
  ((HTTPResponse.m_version r =? 16) || (HTTPResponse.m_version r =? 17)) &&
  ((0 <=? HTTPResponse.m_status r) && (HTTPResponse.m_status r <? 2 ^ 31)) &&
  negb (HTTPResponse.m_websocket r) && negb (bool_decide (reason_of r = [])) &&
  forallb (fun c => in_cls c line_chars) (reason_of r) &&
  forallb good_rline (rs_other_lines r ++ cookie_lines r) &&
  negb (has_in (HTTPResponse.m_headers r) (str "content-length")) && plain_encoding r.

Lemma flat_map_fmap {A B C} (f : B -> list C) (g : A -> B) l : flat_map f (g <$> l) = flat_map (fun x => f (g x)) l.
Proof. induction l as [|x l IH]; [done|]. cbn. by rewrite IH. Qed.

Lemma rs_dump_eq r : HTTPResponse.m_websocket r = false ->
  HTTPResponse.dump r = rs_head_of r ++ HTTPResponse.m_body r.
Proof.
  intros Hw. unfold HTTPResponse.dump. rewrite Hw, dump_lines.
  assert (dump_body (HTTPResponse.m_body r) = flat_map print_line (rs_length_line r) ++ crlf ++ HTTPResponse.m_body r) as ->.
  { unfold dump_body, rs_length_line. destruct (decide (HTTPResponse.m_body r = [])) as [E|E]; [by rewrite E|].
    rewrite !bool_decide_false by done. cbn [flat_map]. rewrite print_line_eq.
    change (str "content-length: ") with (str "content-length" ++ str ": "). by rewrite <-!app_assoc. }
  unfold rs_head_of, rs_front, HTTPResponse.status_line, version_text, reason_of, rs_connection_line, cookie_lines, keep_text.
  rewrite flat_map_app, flat_map_fmap, print_line_eq. fold (rs_other_lines r).
  change (str "connection: ") with (str "connection" ++ str ": ").
  change (flat_map (fun it => str "Set-Cookie: " ++ it ++ crlf) (HTTPResponse.m_cookies r))
    with (flat_map (fun x => print_line (str "Set-Cookie", x)) (HTTPResponse.m_cookies r)).
  change (str " ") with [32]. by rewrite <-!app_assoc.
Qed.

(** What the calls of the machine make of the front and of lines behind it. *)
Definition rs_made (r : HTTPResponse.t) (more : header_map) : HTTPResponse.t :=
  rs_set_lines ((rs_other_lines r ++ cookie_lines r) ++ more)
    (HTTPResponse.set_reason (reason_of r)
       (HTTPResponse.set_status (HTTPResponse.m_status r)
          (HTTPResponse.set_version (HTTPResponse.m_version r) (HTTPResponse.new_response 17 true)))).

Definition rs_added_lines (r : HTTPResponse.t) : header_map :=
  rs_connection_line r :: rs_length_line r ++ rs_length_line r.
Definition rs_parsed (r : HTTPResponse.t) : HTTPResponse.t := rs_made r (rs_added_lines r).

Lemma rs_set_lines_app l k r : rs_set_lines (l ++ k) r = rs_set_lines k (rs_set_lines l r).
Proof. apply fold_left_app. Qed.

Lemma rgoes_front chunked r s d n more : rs_printable r = true -> zlen (rs_front r) < 2 ^ 64 ->
  rs_error d = 0 -> rs_data d = HTTPResponse.new_response 17 true ->
  (forall d', rs_error d' = 0 -> rgoes chunked rs_before_header (rs_front r) s d' n (rs_set_lines more (rs_data d'))) ->
  rgoes chunked rs_before_version [] (rs_front r ++ s) d n (rs_made r more).
Proof.
  unfold rs_printable. rewrite !andb_true_iff, orb_true_iff, !negb_true_iff, bool_decide_eq_false, !Z.eqb_eq, Z.leb_le, Z.ltb_lt.
  intros (((((((Hv & Hst) & Hw) & Hre) & Hr) & Hl) & Hcl) & Hen) Hz He Hd Hmore. unfold rs_front in *.
  unfold rs_made. rewrite rs_set_lines_app, <-Hd. set (lines := rs_other_lines r ++ cookie_lines r) in *.
  rewrite <-!(app_assoc (_ ++ [32])), <-(app_assoc (_ ++ crlf)).
  apply rgoes_version; [done|]. rewrite <-(app_assoc (dec _)). cbn [app]. apply rgoes_code; [done|].
  rewrite <-(app_assoc (reason_of r)). apply rgoes_reason; [done|done|zlens|]. apply rgoes_lines; [done|zlens|].
  match goal with |- rgoes _ _ ?pre _ ?d' _ _ => specialize (Hmore d' He); revert Hmore end.
  by rewrite <-!app_assoc.
Qed.

(** The lines at the end. *)
Lemma rgoes_tail r pre s d : zlen (pre ++ print_line (rs_connection_line r) ++ flat_map print_line (rs_length_line r)) < 2 ^ 64 ->
  zlen (HTTPResponse.m_body r) < 10 ^ 20 -> rs_error d = 0 ->
  rgoes 0 rs_before_header pre (print_line (rs_connection_line r) ++ flat_map print_line (rs_length_line r) ++ crlf ++ s) d
    (zlen (pre ++ print_line (rs_connection_line r) ++ flat_map print_line (rs_length_line r)) + 2)
    (rs_set_lines (rs_connection_line r :: rs_length_line r ++ rs_length_line r) (rs_data d)).
Proof.
  intros Hz Hb Hd. rewrite (app_assoc pre) in *. apply rgoes_connection. unfold rs_length_line in *.
  destruct (bool_decide (HTTPResponse.m_body r = [])); cbn [flat_map app] in *.
  - rewrite app_nil_r. exact (rgoes_end (HTTPResponse.m_close r) _ s (rs_set_data _ d) Hd).
  - rewrite app_nil_r in *. pose proof (zlen_nonneg (HTTPResponse.m_body r)).
    destruct (dec_digits_c (zlen (HTTPResponse.m_body r)) ltac:(lia)) as [Hne Hds].
    apply rgoes_length; [done|done|done|].
    apply (rgoes_end false _ s (rs_set_data (rs_set_lines [_; _]) (rs_set_data _ d)) Hd).
Qed.

Lemma rs_front_nonempty r : rs_front r <> [].
Proof. unfold rs_front. intros Hn. apply app_eq_nil in Hn as [Hn _]. by apply app_eq_nil in Hn as [_ Hn]. Qed.

Lemma rs_head_goes r s d : rs_printable r = true -> zlen (rs_head_of r) < 2 ^ 64 -> zlen (HTTPResponse.m_body r) < 10 ^ 20 ->
  rs_error d = 0 -> rs_data d = HTTPResponse.new_response 17 true ->
  rgoes 0 rs_before_version [] (rs_head_of r ++ s) d (zlen (rs_head_of r)) (rs_parsed r).
Proof.
  intros Hp Hz Hb He Hd. unfold rs_head_of in *.
  rewrite <-!(app_assoc (rs_front r)), <-(app_assoc (print_line _)), <-(app_assoc (flat_map _ _)).
  apply rgoes_front; [done|zlens|done|done|]. intros d' He'.
  replace (zlen (rs_front r ++ print_line (rs_connection_line r) ++ flat_map print_line (rs_length_line r) ++ crlf))
    with (zlen (rs_front r ++ print_line (rs_connection_line r) ++ flat_map print_line (rs_length_line r)) + 2)
    by (assert (zlen crlf = 2) by done; zlens).
  apply rgoes_tail; [zlens|done|done].
Qed.

Lemma rs_head_accepted junk r : rs_printable r = true -> zlen (rs_head_of r) < 2 ^ 64 -> zlen (HTTPResponse.m_body r) < 10 ^ 20 ->
  ends_at (http_response_parser_init junk) (rs_head_of r) (HTTPResponse.new_response 17 true) (rs_parsed r)
    (fun q => rs_chunked q = 0).
Proof.
  intros Hp Hz Hb. apply ends_by_takes.
  { unfold rs_head_of. intros Hn. apply app_eq_nil in Hn as [Hn _]. by apply rs_front_nonempty in Hn. }
  intros rest d Hd He. eapply takes_to_mono; [|apply (rs_head_goes r rest d Hp Hz Hb He Hd); by split].
  unfold rs_result. tauto.
Qed.

(** ** What the header of the received response holds *)

Lemma rs_set_lines_eq l r :
  rs_set_lines l r = HTTPResponse.set_headers (map_set_all fold_case lex_lt l (HTTPResponse.m_headers r)) r.
Proof.
  revert r; induction l as [|it l IH]; intros r; [by destruct r|].
  change (rs_set_lines (it :: l) r) with (rs_set_lines l (HTTPResponse.set_header it.1 it.2 r)). rewrite IH. by destruct r.
Qed.

Definition rs_line_of (r : HTTPResponse.t) (k : bytes) : option bytes :=
  if name_is k "connection" then Some (keep_text (HTTPResponse.m_close r))
  else if name_is k "content-length" then
    if bool_decide (HTTPResponse.m_body r = []) then None else Some (dec (zlen (HTTPResponse.m_body r)))
  else if name_is k "set-cookie" && negb (bool_decide (HTTPResponse.m_cookies r = [])) then last (HTTPResponse.m_cookies r)
  else holds fold_case (fold_case k) (HTTPResponse.m_headers r).

(** What lines of one name hold. *)
Lemma holds_single n (k v : bytes) : holds fold_case n [(k, v)] = if bool_decide (n = fold_case k) then Some v else None.
Proof. cbn. destruct (decide (fold_case k = n)) as [<-|]; [by rewrite bool_decide_true|by rewrite bool_decide_false]. Qed.

Lemma holds_cookies n (l : list bytes) :
  holds fold_case n (rev ((fun it => (str "Set-Cookie", it)) <$> l)) =
  if bool_decide (n = fold_case (str "set-cookie")) then last l else None.
Proof.
  induction l as [|c l IH] using rev_ind; [by destruct (bool_decide _)|].
  rewrite fmap_app, rev_app_distr, last_snoc. cbn [fmap list_fmap rev app].
  change ((str "Set-Cookie", c) :: ?t) with ([(str "Set-Cookie", c)] ++ t). rewrite holds_app, holds_single, IH.
  change (fold_case (str "Set-Cookie")) with (fold_case (str "set-cookie")). by destruct (bool_decide _).
Qed.

Lemma holds_length n r :
  holds fold_case n (rev (rs_length_line r)) =
  if bool_decide (n = fold_case (str "content-length")) && negb (bool_decide (HTTPResponse.m_body r = []))
  then Some (dec (zlen (HTTPResponse.m_body r))) else None.
Proof.
  unfold rs_length_line. destruct (bool_decide (HTTPResponse.m_body r = [])); cbn [rev app negb].
  - by rewrite andb_false_r.
  - by rewrite holds_single, andb_true_r.
Qed.

(** The lines of the response itself. *)
Lemma front_holds r n : headers_sorted (HTTPResponse.m_headers r) ->
  holds fold_case n (rev (rs_other_lines r ++ cookie_lines r)) =
  if bool_decide (n = fold_case (str "set-cookie")) && negb (bool_decide (HTTPResponse.m_cookies r = []))
  then last (HTTPResponse.m_cookies r)
  else if bool_decide (n = fold_case (str "connection")) then None else holds fold_case n (HTTPResponse.m_headers r).
Proof.
  intros Hs. rewrite rev_app_distr, holds_app. unfold cookie_lines. rewrite holds_cookies.
  assert (headers_sorted (rs_other_lines r)) as Ho by (by apply map_sorted_filter).
  rewrite (holds_rev fold_case lex_lt _ _ Ho). unfold rs_other_lines.
  rewrite (holds_filter fold_case _ (fun n => negb (bool_decide (n = fold_case (str "connection"))))) by done.
  destruct (bool_decide (n = fold_case (str "set-cookie"))); cbn [andb].
  - destruct (HTTPResponse.m_cookies r) as [|c l] using rev_ind; [by destruct (bool_decide (n = _))|].
    by rewrite last_snoc, bool_decide_false by (by destruct l).
  - by destruct (bool_decide (n = _)).
Qed.

Lemma rs_lines_hold r k : headers_sorted (HTTPResponse.m_headers r) ->
  has_in (HTTPResponse.m_headers r) (str "content-length") = false ->
  holds fold_case (fold_case k) (rev ((rs_other_lines r ++ cookie_lines r) ++ rs_added_lines r)) = rs_line_of r k.
Proof.
  intros Hs Hcl. unfold rs_added_lines. rewrite rev_app_distr. cbn [rev].
  rewrite rev_app_distr, !holds_app, !holds_length, (front_holds r _ Hs). unfold rs_connection_line. rewrite holds_single.
  unfold rs_line_of, name_is, same_name. rewrite has_in_holds, bool_decide_eq_false in Hcl by done.
  destruct (decide (fold_case k = fold_case (str "connection"))) as [E|E].
  - rewrite E. by destruct (bool_decide (HTTPResponse.m_body r = [])).
  - rewrite !(bool_decide_false (fold_case k = fold_case (str "connection"))) by done.
    destruct (decide (fold_case k = fold_case (str "content-length"))) as [E2|E2].
    + rewrite E2. cbn [andb]. destruct (bool_decide (HTTPResponse.m_body r = [])); [|done].
      rewrite bool_decide_true, andb_false_r by done. rewrite bool_decide_false by done. cbn [andb].
      destruct (holds _ _ _); [|done]. destruct Hcl. by eexists.
    + by rewrite !(bool_decide_false (fold_case k = fold_case (str "content-length"))) by done.
Qed.

Lemma rs_parsed_holds r : headers_sorted (HTTPResponse.m_headers r) ->
  has_in (HTTPResponse.m_headers r) (str "content-length") = false ->
  headers_sorted (HTTPResponse.m_headers (rs_parsed r)) /\
  forall k, holds fold_case (fold_case k) (HTTPResponse.m_headers (rs_parsed r)) = rs_line_of r k.
Proof.
  intros Hs Hcl. unfold rs_parsed, rs_made. rewrite rs_set_lines_eq. cbn [HTTPResponse.m_headers HTTPResponse.set_headers].
  destruct (map_set_all_ok fold_case lex_lt ((rs_other_lines r ++ cookie_lines r) ++ rs_added_lines r) []) as [H1 H2]; [constructor|]. split; [exact H1|].
  intros k. etransitivity; [apply H2|]. rewrite rs_lines_hold by done. by destruct (rs_line_of r k).
Qed.

(** The response [r'] says what [r] says; the reason is the usual one when [r] has none. *)
Definition says_same_response (r r' : HTTPResponse.t) : Prop :=
  HTTPResponse.m_status r' = HTTPResponse.m_status r /\ HTTPResponse.m_version r' = HTTPResponse.m_version r /\
  HTTPResponse.m_reason r' = reason_of r /\ HTTPResponse.m_body r' = HTTPResponse.m_body r /\
  forall k def, HTTPResponse.get_header k def r' =
    if name_is k "connection" then if HTTPResponse.m_close r then str "close" else str "keep-alive"
    else if name_is k "content-length" && negb (bool_decide (HTTPResponse.m_body r = []))
    then dec (zlen (HTTPResponse.m_body r))
    else if name_is k "set-cookie" && negb (bool_decide (HTTPResponse.m_cookies r = []))
    then default def (last (HTTPResponse.m_cookies r)) else HTTPResponse.get_header k def r.

Lemma rs_parsed_get r k def : headers_sorted (HTTPResponse.m_headers r) ->
  has_in (HTTPResponse.m_headers r) (str "content-length") = false ->
  HTTPResponse.get_header k def (rs_parsed r) = default def (rs_line_of r k).
Proof.
  intros Hs Hcl. destruct (rs_parsed_holds r Hs Hcl) as [Hs' Hh]. unfold HTTPResponse.get_header. by rewrite get_in_holds, Hh.
Qed.

Lemma rs_parsed_says r : headers_sorted (HTTPResponse.m_headers r) ->
  has_in (HTTPResponse.m_headers r) (str "content-length") = false ->
  says_same_response r (HTTPResponse.set_body (HTTPResponse.m_body r) (rs_parsed r)).
Proof.
  intros Hs Hcl. unfold says_same_response. split_and!.
  1-4: unfold rs_parsed, rs_made; by rewrite rs_set_lines_eq.
  intros k def. etransitivity; [exact (rs_parsed_get r k def Hs Hcl)|]. unfold rs_line_of, keep_text.
  destruct (name_is k "connection"); [done|]. destruct (name_is k "content-length") eqn:En; cbn [andb].
  - destruct (bool_decide (HTTPResponse.m_body r = [])); cbn [negb]; [|done].
    unfold name_is, same_name in *. apply bool_decide_eq_true in En.
    rewrite (bool_decide_false (fold_case k = fold_case (str "set-cookie"))) by (rewrite En; done). cbn [andb default].
    unfold HTTPResponse.get_header. rewrite get_in_holds, En by done. rewrite has_in_holds, bool_decide_eq_false in Hcl by done.
    destruct (holds _ _ _); [|done]. destruct Hcl. by eexists.
  - destruct (name_is k "set-cookie" && _); [done|]. unfold HTTPResponse.get_header. by rewrite get_in_holds.
Qed.

Section Travels.
Context (lexical_cast : bytes -> option Z).
(** [boost::lexical_cast<uint64_t>] reads what was printed. *)
Hypothesis cast_dec : forall n, 0 <= n < 2 ^ 64 -> lexical_cast (dec n) = Some n.
Context {K : Type} {conn : Conn K} {ZS : Type} {zlib : Zlib ZS} (buffer_size max_size junk : Z).

Lemma rs_parsed_announced r : headers_sorted (HTTPResponse.m_headers r) ->
  has_in (HTTPResponse.m_headers r) (str "content-length") = false -> zlen (HTTPResponse.m_body r) < 2 ^ 31 ->
  rs_announced lexical_cast (rs_parsed r) = zlen (HTTPResponse.m_body r).
Proof.
  intros Hs Hcl Hz. destruct (rs_parsed_holds r Hs Hcl) as [Hs' Hh]. unfold rs_announced.
  rewrite GetAs_holds, Hh by done. unfold rs_line_of. change (name_is (str "content-length") "connection") with false.
  change (name_is (str "content-length") "content-length") with true. cbv iota.
  pose proof (zlen_nonneg (HTTPResponse.m_body r)).
  destruct (decide (HTTPResponse.m_body r = [])) as [E|E].
  - rewrite E. done.
  - rewrite bool_decide_false, cast_dec by (done || lia). apply to_signed_small; unfold sfits; lia.
Qed.

Lemma rs_parsed_delivered fuel r : headers_sorted (HTTPResponse.m_headers r) ->
  has_in (HTTPResponse.m_headers r) (str "content-length") = false -> plain_encoding r = true ->
  HTTPResponse.m_body r <> [] ->
  delivered (ZS := ZS) fuel (rs_parsed r) (HTTPResponse.m_body r) (HTTPResponse.set_body (HTTPResponse.m_body r) (rs_parsed r)).
Proof.
  intros Hs Hcl Hp Hne. right. split; [done|]. exists (HTTPResponse.m_body r). split; [|done].
  unfold decode_body. rewrite rs_parsed_get by done. unfold plain_encoding in Hp. rewrite !andb_true_iff, !negb_true_iff in Hp.
  assert (default [] (rs_line_of r (str "content-encoding")) = HTTPResponse.get_header (str "content-encoding") [] r) as ->.
  { unfold HTTPResponse.get_header. by rewrite get_in_holds. }
  by rewrite (proj1 Hp), (proj2 Hp).
Qed.

Lemma response_travels_ok fuel r tail s n b s1 :
  rs_printable r = true -> headers_sorted (HTTPResponse.m_headers r) ->
  zlen (HTTPResponse.dump r) < 2 ^ 31 -> zlen (HTTPResponse.m_body r) <= max_size -> 0 < buffer_size ->
  is_connected s = true -> s_in s = HTTPResponse.dump r ++ tail -> socket_read buffer_size s = (n, b, s1) ->
  zlen (HTTPResponse.dump r) - zlen (HTTPResponse.m_body r) <= n <= zlen (HTTPResponse.dump r) ->
  exists r' s', recv_response (ZS := ZS) buffer_size lexical_cast max_size junk (S fuel) s = (Ret (Some r'), s') /\
    says_same_response r r' /\ s_in s' = tail /\ s_out s' = s_out s /\ is_connected s' = true.
Proof.
  intros Hp Hs Hz Hmax Hbs Hc Hin Hr Hn. pose proof Hp as Hp'. unfold rs_printable in Hp'.
  rewrite !andb_true_iff, !negb_true_iff in Hp'. destruct Hp' as (((((((_ & _) & Hw) & _) & _) & _) & Hcl) & Hen).
  rewrite (rs_dump_eq r Hw) in *. rewrite <-app_assoc in Hin. rewrite zlen_app in Hz, Hn.
  pose proof (zlen_nonneg (HTTPResponse.m_body r)). pose proof (zlen_nonneg (rs_head_of r)). pose proof (zlen_nonneg tail).
  pose proof (rs_parsed_announced r Hs Hcl ltac:(lia)) as Ha.
  destruct (recv_sized_ok (ZS := ZS) buffer_size lexical_cast max_size junk fuel (rs_head_of r) (rs_parsed r)
    (HTTPResponse.m_body r ++ tail) s n b s1 (HTTPResponse.set_body (HTTPResponse.m_body r) (rs_parsed r)))
    as (s' & E & Ho & Hc' & Hi); try done; rewrite ?Ha, ?zlen_app; try lia.
  - apply rs_head_accepted; [done|lia|lia].
  - destruct (Z.ltb_spec 0 (zlen (HTTPResponse.m_body r))) as [Hpos|Hpos].
    + rewrite ztake_app_l, ztake_all by lia. apply rs_parsed_delivered; [done..|]. intros E. rewrite E in Hpos. done.
    + assert (HTTPResponse.m_body r = []) as -> by (apply zlen_zero; lia). unfold rs_parsed, rs_made. by rewrite rs_set_lines_eq.
  - exists (HTTPResponse.set_body (HTTPResponse.m_body r) (rs_parsed r)), s'. split; [exact E|].
    split; [by apply rs_parsed_says|]. split; [|done]. rewrite Hi, Ha, Z.max_l by lia. apply zdrop_pre.
Qed.

(** C13: A response travels: what a server prints of a response, with a status, a reason and
    headers that HTTP can write, the client on the other side receives as the same response:
    the same status, version, reason and body, and under every name, in any case, the same
    header, next to the ones that [dump] adds; of several cookies the last is kept.  The
    reads may cut the body anywhere, and nothing behind the response is lost when no read
    goes beyond it. *)
Theorem response_travels fuel r tail s n b s1 :
  rs_printable r = true -> headers_sorted (HTTPResponse.m_headers r) ->
  zlen (HTTPResponse.dump r) < 2 ^ 31 -> zlen (HTTPResponse.m_body r) <= max_size -> 0 < buffer_size ->
  is_connected s = true -> s_in s = HTTPResponse.dump r ++ tail -> socket_read buffer_size s = (n, b, s1) ->
  zlen (HTTPResponse.dump r) - zlen (HTTPResponse.m_body r) <= n <= zlen (HTTPResponse.dump r) ->
  exists r' s', recv_response (ZS := ZS) buffer_size lexical_cast max_size junk (S fuel) s = (Ret (Some r'), s') /\
    says_same_response r r' /\ s_in s' = tail /\ s_out s' = s_out s /\ is_connected s' = true.
Proof. apply response_travels_ok. Qed.
End Travels.

(** ** One response *)

Definition response2 : HTTPResponse.t :=
  HTTPResponse.set_body (str "ok") (HTTPResponse.set_cookies (str "k") (str "v") 0 [] [] [] false
    (HTTPResponse.set_header (str "Content-Type") (str "a/b") (HTTPResponse.set_status 404 (HTTPResponse.new_response 17 true)))).

Definition text2 : bytes :=
  str "HTTP/1.1 404 Not Found" ++ crlf ++ str "Content-Type: a/b" ++ crlf ++ str "Set-Cookie: k=v" ++ crlf ++
  str "connection: close" ++ crlf ++ str "content-length: 2" ++ crlf ++ crlf ++ str "ok".

Lemma response_travels_witness : exists r' s',
  recv_response (ZS := copy_state) 4096 number 1000 7 1 (stream1 99 (text2 ++ str "HTTP")) = (Ret (Some r'), s') /\
  says_same_response response2 r' /\ s_in s' = str "HTTP".
Proof.
  destruct (response_travels (ZS := copy_state) number number_dec 4096 1000 7 0 response2 (str "HTTP") (stream1 99 (text2 ++ str "HTTP"))
    100 (ztake 100 text2) (stream1 99 (zdrop 100 (text2 ++ str "HTTP")))) as (r' & s' & E & Hs & Hi & _).
  - vm_compute. reflexivity.
  - repeat constructor.
  - vm_compute. reflexivity.
  - vm_compute. discriminate.
  - reflexivity.
  - reflexivity.
  - vm_compute. reflexivity.
  - vm_compute. reflexivity.
  - vm_compute. split; discriminate.
  - exists r', s'. split; [exact E|]. split; [exact Hs|exact Hi].
Defined.
