(* ===== verification/HttpChunks.v ===== *)
(** * Responses in chunks

    The headers of chunks and of a response with [Transfer-Encoding: chunked], as the machine
    of the parser reads them, and what the client makes of such a response. *)

From stdpp Require Import base list numbers strings.
From Stdlib Require Import Lia ZArith.
From S2P Require Import Prelude Endian OrdSet OrdMap Http HttpProps Ragel HttpParser HttpGrammar Stream StreamProps Zlib ZlibProps.
From S2P Require Import HttpSession HttpSessionProps HttpGrammarProps HttpStages HttpRoundtrip HttpConnection HttpConnectionProps HttpResponseStages HttpResponseRoundtrip.

(** ** The header of a chunk *)

Definition in_size : rspot := rs_exactly (str "1").
Definition after_size : rspot := rs_exactly (str "1" ++ [13]).

Lemma size_edges :
  edge rs_before_version xdigit_c [rs_mark_a] in_size /\ edge in_size xdigit_c [] in_size /\
  edge in_size [(13, 13)] [chunk_size_a] after_size /\ edge after_size [(10, 10)] [rs_done] rs_after_end.
Proof. by_rs_evaluation. Qed.

Definition te_line : bytes * bytes := (str "Transfer-Encoding", str "chunked").

Lemma te_covers :
  covers rs_before_header (print_line te_line)
    [(0, rs_start_field); (0, rs_start_field); (17, rs_write_field); (17, rs_write_field); (18, rs_start_value);
     (19, rs_start_value); (19, rs_start_value); (26, rs_write_value); (26, rs_write_value); (27, trans_chunked)]
    rs_before_header.
Proof. by_rs_evaluation. Qed.

(** Digits of a length. *)
Definition good_size (ds : bytes) : bool := negb (bool_decide (ds = [])) && forallb (fun c => in_cls c xdigit_c) ds.

Lemma strtol_loop_app ds acc s : forallb (fun c => in_cls c xdigit_c) ds = true ->
  strtol_loop 16 acc (ds ++ 13 :: s) = strtol_loop 16 acc ds.
Proof.
  revert acc; induction ds as [|c ds IH]; intros acc; [done|]. cbn [forallb app strtol_loop].
  intros [Hc Hd]%andb_true_iff. destruct (digit_value c) as [v|]; [|done]. destruct (v <? 16); [by apply IH|done].
Qed.

Definition chunk_header (ds : bytes) : bytes := ds ++ crlf.

(** The machine reads the length of a chunk, and only a length of 0 is the last. *)
Lemma chunk_header_read r ds data : good_size ds = true -> strtol_loop 16 0 ds = zlen data -> zlen data < 2 ^ 31 - 2 ->
  chunk_ok r (bool_decide (data = [])) (chunk_header ds, data).
Proof.
  unfold good_size. rewrite andb_true_iff, negb_true_iff, bool_decide_eq_false. intros [Hne Hd] Hv Hz.
  split; [done|]. intros status. cbn [fst snd]. unfold chunk_header.
  destruct size_edges as (E1 & E2 & E3 & E4). pose proof (zlen_nonneg data).
  assert (covers rs_before_version ds [(0, rs_mark_a)] in_size) as Hcov.
  { destruct ds as [|c ds]; [by destruct Hne|]. cbn [forallb] in Hd. apply andb_true_iff in Hd as [Hc Hd].
    exact (covers_cons _ _ [rs_mark_a] _ c ds [] _ E1 Hc (covers_loop _ _ ds E2 Hd)). }
  apply ends_by_takes; [by destruct ds|]. intros rest d Hdat He. rewrite <-app_assoc. unfold crlf. cbn [app].
  replace (zlen (ds ++ [13; 10])) with (zlen ((([] ++ ds) ++ [13])) + 1) by zlens.
  eapply (takes_to_covers _ _ _ response_acts_app _ _ ds); [exact Hcov|done|reflexivity|reflexivity|].
  eapply (takes_to_edge _ _ _ response_acts_app); [exact E3|done|done|reflexivity| |].
  { cbn [run_events on_response_event app]. destruct (_ <=? 0); reflexivity. }
  eapply takes_to_done; [exact E4|done|done|exact rs_end_final|reflexivity|reflexivity|].
  cbn [rs_content_len rs_chunks_done rs_with_body_start rs_with_chunked rs_with_content_len rs_mark rs_with_mark fst app].
  change (zlen [] + 0) with 0. rewrite zdrop_0. unfold strtol. rewrite strtol_loop_app, Hv by done.
  rewrite Z.min_l, to_signed_small by (unfold sfits; lia).
  split.
  - split; [done|]. destruct (Z.leb_spec (zlen data) 0); [rewrite bool_decide_true|rewrite bool_decide_false]; try done.
    + apply zlen_zero. lia.
    + intros ->. done.
  - split; [|by split]. unfold rs_inside. cbn. destruct ds; [by destruct Hne|]. zlens.
Qed.

(** ** The header of the response *)

Lemma rgoes_te pre s d : rs_error d = 0 ->
  rgoes 1 rs_before_header pre (print_line te_line ++ crlf ++ s) d (zlen pre + zlen (print_line te_line) + 2)
    (rs_set_lines [te_line; te_line] (rs_data d)).
Proof.
  intros Hd p (Hm & Hs & Hl & Hc).
  assert (zlen (print_line te_line) = 28) as Hz by done.
  eapply rtakes_covers with (d1 := rs_set_data (rs_set_lines [te_line; te_line]) d); [exact te_covers|done|reflexivity| |].
  - cbn [run_events on_response_event app rs_field_start rs_field_len rs_mark rs_with_field rs_with_mark fst].
    rewrite !LEN_off by lia. rewrite !cut_at by lia. reflexivity.
  - destruct (rs_end_edges false) as [E1 E2]. cbn [crlf app].
    eapply rtakes_edge; [exact E1|done|done|reflexivity|reflexivity|].
    replace (zlen pre + zlen (print_line te_line) + 2) with (zlen ((pre ++ print_line te_line) ++ [13]) + 1) by zlens.
    eapply takes_to_done; [exact E2|done|done|exact rs_end_final|reflexivity|reflexivity|].
    split; [|by split]. unfold rs_inside. cbn -[zlen print_line LEN Z.add]. rewrite LEN_off by lia. zlens.
Qed.

Definition chunked_head (r : HTTPResponse.t) : bytes := rs_front r ++ print_line te_line ++ crlf.
Definition chunked_parsed (r : HTTPResponse.t) : HTTPResponse.t := rs_made r [te_line; te_line].

Lemma chunked_head_accepted junk r : rs_printable r = true -> zlen (chunked_head r) < 2 ^ 64 ->
  ends_at (http_response_parser_init junk) (chunked_head r) (HTTPResponse.new_response 17 true) (chunked_parsed r)
    (fun q => rs_chunked q = 1).
Proof.
  intros Hp Hz. unfold chunked_head in *. assert (zlen crlf = 2) as H2 by done. apply ends_by_takes.
  { intros Hn. apply app_eq_nil in Hn as [Hn _]. by apply rs_front_nonempty in Hn. }
  intros rest d Hd He. eapply (takes_to_mono _ _ _ _ _ _ _ _ _ _ (rs_result 1 (zlen (rs_front r ++ print_line te_line ++ crlf)) (chunked_parsed r)));
    [by intros q d' (? & ? & ? & ?)|].
  rewrite <-!app_assoc. eapply rgoes_front; [done|zlens|done|done| |by split]. intros d' He'.
  replace (zlen (rs_front r ++ print_line te_line ++ crlf)) with (zlen (rs_front r) + zlen (print_line te_line) + 2) by zlens.
  by apply rgoes_te.
Qed.

(** ** Whole responses *)

(** A chunk of [data] whose length is written as [ds]. *)
Definition good_chunk (last : bool) (c : bytes * bytes) : Prop :=
  good_size c.1 = true /\ strtol_loop 16 0 c.1 = zlen c.2 /\ zlen c.2 < 2 ^ 31 - 2 /\ bool_decide (c.2 = []) = last.
Definition chunk_of (c : bytes * bytes) : bytes * bytes := (chunk_header c.1, c.2).
Definition chunks_text (cs : list (bytes * bytes)) : bytes := flat_map (fun c => chunk_text (chunk_of c)) cs.

Lemma good_chunk_ok r last c : good_chunk last c -> chunk_ok r last (chunk_of c).
Proof. destruct c as [ds data]. intros (Hs & Hv & Hz & <-). by apply chunk_header_read. Qed.

(** The response [r'] says what [r] says, with the body [b]. *)
Definition says_same_chunked (r : HTTPResponse.t) (b : bytes) (r' : HTTPResponse.t) : Prop :=
  HTTPResponse.m_status r' = HTTPResponse.m_status r /\ HTTPResponse.m_version r' = HTTPResponse.m_version r /\
  HTTPResponse.m_reason r' = reason_of r /\ HTTPResponse.m_body r' = b /\
  forall k def, HTTPResponse.get_header k def r' =
    if name_is k "transfer-encoding" then str "chunked"
    else if name_is k "connection" then def
    else if name_is k "set-cookie" && negb (bool_decide (HTTPResponse.m_cookies r = []))
    then default def (last (HTTPResponse.m_cookies r)) else HTTPResponse.get_header k def r.

Lemma chunked_parsed_get r k def : headers_sorted (HTTPResponse.m_headers r) ->
  HTTPResponse.get_header k def (chunked_parsed r) =
    if name_is k "transfer-encoding" then str "chunked"
    else if name_is k "connection" then def
    else if name_is k "set-cookie" && negb (bool_decide (HTTPResponse.m_cookies r = []))
    then default def (last (HTTPResponse.m_cookies r)) else HTTPResponse.get_header k def r.
Proof.
  intros Hs. destruct (map_set_all_ok fold_case lex_lt ((rs_other_lines r ++ cookie_lines r) ++ [te_line; te_line]) [])
    as [H1 H2]; [constructor|].
  unfold chunked_parsed, rs_made, HTTPResponse.get_header. rewrite rs_set_lines_eq. cbn [HTTPResponse.m_headers HTTPResponse.set_headers].
  rewrite get_in_holds by exact H1. rewrite H2, rev_app_distr, holds_app, (front_holds r _ Hs).
  unfold name_is, same_name, te_line. cbn [rev app]. change (?x :: [?x]) with ([x] ++ [x]). rewrite holds_app, holds_single.
  change (fold_case (str "Transfer-Encoding")) with (fold_case (str "transfer-encoding")).
  destruct (bool_decide (fold_case k = fold_case (str "transfer-encoding"))); [done|].
  destruct (decide (fold_case k = fold_case (str "connection"))) as [E|E]; [by rewrite E|].
  rewrite (bool_decide_false (fold_case k = fold_case (str "connection"))) by done.
  destruct (bool_decide (fold_case k = fold_case (str "set-cookie")) && _).
  - by destruct (last _).
  - rewrite get_in_holds by done. by destruct (holds _ _ _).
Qed.

(** ** Chunks that arrive in pieces *)

Section Arrival.
Context {K : Type} {conn : Conn K} (buffer_size : Z).
Abbreviation stream := (SocketStream (K := K)).

(** The bytes [e] are the next on the connection, and come in pieces: each read that asks for
    what is missing, or for a buffer of it, gets a part. *)
Inductive reads : bytes -> stream -> stream -> Prop :=
| reads_all s : reads [] s s
| reads_some e e' s s1 s' : e <> [] -> socket_read (Z.min buffer_size (zlen (e ++ e'))) s = (zlen e, e, s1) ->
    reads e' s1 s' -> reads (e ++ e') s s'.

(** Whatever is on a connection can be read so, in whatever pieces it comes. *)
Lemma reads_exist : 0 < buffer_size -> forall k e (s : stream) more, (length e <= k)%nat ->
  is_connected s = true -> s_in s = e ++ more -> exists s', reads e s s' /\ is_connected s' = true /\ s_in s' = more.
Proof.
  intros Hb. induction k as [|k IH]; intros [|x e] s more Hk Hc Hi; cbn [length] in Hk; try lia.
  1, 2: exists s; split; [constructor|done].
  assert (0 < zlen (x :: e)) by zlens.
  destruct (socket_read_some (Z.min buffer_size (zlen (x :: e))) s Hc) as (n & s1 & Er & Hn & Hi1 & _ & Hc1);
    [lia|by rewrite Hi|].
  assert (s_in s1 = zdrop n (x :: e) ++ more) as Hi2 by (rewrite Hi1, Hi; apply zdrop_app_l; lia).
  destruct (IH (zdrop n (x :: e)) s1 more) as (s' & Hr & Hc' & Hi'); [|done..|].
  { pose proof (zlen_zdrop n (x :: e)). unfold zlen in *. cbn [length] in *. lia. }
  exists s'. split; [|done]. rewrite <- (ztake_zdrop n (x :: e)).
  assert (zlen (ztake n (x :: e)) = n) as Hz by (apply zlen_ztake; lia).
  eapply reads_some; [intros E; rewrite E in Hz; rewrite zlen_nil in Hz; lia| |exact Hr].
  by rewrite ztake_zdrop, Er, Hz, Hi, ztake_app_l by lia.
Qed.

(** The loop over the rest of a chunk takes exactly these bytes. *)
Lemma chunk_rest_reads e s s' : reads e s s' -> forall fuel body, (length e <= fuel)%nat ->
  chunk_rest_loop buffer_size fuel (zlen e) body s = (Ret (Some (body ++ e)), s').
Proof.
  induction 1 as [s|e e' s s1 s' Hne Hr Hrest IH]; intros fuel body Hf.
  - destruct fuel; cbn [chunk_rest_loop]; by rewrite app_nil_r.
  - destruct e as [|x e]; [done|]. cbn [app length] in Hf. destruct fuel as [|fuel]; [lia|]. cbn [chunk_rest_loop].
    pose proof (zlen_nonneg e). pose proof (zlen_nonneg e').
    assert (zlen ((x :: e) ++ e') = zlen (x :: e) + zlen e') as Hl by zlens. assert (0 < zlen (x :: e)) by zlens.
    destruct (Z.leb_spec (zlen ((x :: e) ++ e')) 0); [lia|].
    replace (if _ <? _ then _ else _) with (Z.min buffer_size (zlen ((x :: e) ++ e')))
      by (destruct (Z.ltb_spec buffer_size (zlen ((x :: e) ++ e'))); lia).
    rewrite Hr. destruct (Z.ltb_spec (zlen (x :: e)) 0); [lia|].
    replace (zlen ((x :: e) ++ e') - zlen (x :: e)) with (zlen e') by lia.
    rewrite IH by (rewrite length_app in Hf; lia). by rewrite app_assoc.
Qed.

(** A chunk at the start of the buffer: all of it, or its header and some data, of which the
    rest [e] is the next on the connection; what is left in the buffer and the stream. *)
Inductive chunk_in (fuel : nat) (c : bytes * bytes) : bytes -> stream -> bytes -> stream -> Prop :=
| chunk_whole more s : zlen (chunk_text c ++ more) <= buffer_size -> chunk_in fuel c (chunk_text c ++ more) s more s
| chunk_cut d e s s' : c.2 ++ crlf = d ++ e -> e <> [] -> zlen (c.1 ++ d) <= buffer_size ->
    reads e s s' -> (length e <= fuel)%nat -> chunk_in fuel c (c.1 ++ d) s [] s'.

(** When the buffer is empty a read fills it. *)
Inductive chunk_comes (fuel : nat) (c : bytes * bytes) : bytes -> stream -> bytes -> stream -> Prop :=
| chunk_here buf s buf' s' : buf <> [] -> chunk_in fuel c buf s buf' s' -> chunk_comes fuel c buf s buf' s'
| chunk_fetched s n b s1 buf' s' : socket_read buffer_size s = (n, b, s1) -> 0 < n -> chunk_in fuel c b s1 buf' s' ->
    chunk_comes fuel c [] s buf' s'.

Inductive chunks_come (fuel : nat) : list (bytes * bytes) -> bytes -> stream -> bytes -> stream -> Prop :=
| chunks_over buf s : chunks_come fuel [] buf s buf s
| chunks_next c cs buf s buf1 s1 buf' s' : chunk_comes fuel c buf s buf1 s1 -> chunks_come fuel cs buf1 s1 buf' s' ->
    chunks_come fuel (c :: cs) buf s buf' s'.

(** The header in the buffer is read, and the data behind it. *)
Lemma chunk_in_read fuel c buf s buf' s' : chunk_in fuel c buf s buf' s' -> zlen c.2 < 2 ^ 31 - 2 -> c.1 <> [] ->
  exists rest, buf = c.1 ++ rest /\ zlen rest < buffer_size /\
    forall fuel' body, (fuel <= fuel')%nat ->
      chunk_data buffer_size fuel' (zlen c.2) body rest s = (Ret (Some (body ++ c.2, buf')), s').
Proof.
  intros H Hz Hne. assert (0 < zlen c.1) as Hpos.
  { pose proof (zlen_nonneg c.1). destruct (Z.eq_dec (zlen c.1) 0) as [E|E]; [by apply zlen_zero in E|lia]. }
  destruct H as [more s Hb|d e s s' Hde He Hb Hr Hk].
  - exists (c.2 ++ crlf ++ more). unfold chunk_text in *. rewrite <-!app_assoc in *. split; [done|].
    split; [rewrite zlen_app in Hb; lia|]. intros fuel' body _. by apply chunk_data_ok.
  - exists d. split; [done|]. split; [rewrite zlen_app in Hb; lia|]. intros fuel' body Hf.
    assert (zlen c.2 + 2 = zlen d + zlen e) as Hlen by (rewrite <-!zlen_app, <-Hde, zlen_app; done).
    assert (0 < zlen e) as Hpe.
    { pose proof (zlen_nonneg e). destruct (Z.eq_dec (zlen e) 0) as [E|E]; [by apply zlen_zero in E|lia]. }
    unfold chunk_data. pose proof (zlen_nonneg c.2). destruct (Z.leb_spec (2 ^ 31) (zlen c.2 + 2)); [lia|].
    destruct (Z.leb_spec (zlen c.2 + 2) (zlen d)); [lia|]. replace (zlen c.2 - zlen d + 2) with (zlen e) by lia.
    rewrite (chunk_rest_reads _ _ _ Hr) by lia. rewrite <-app_assoc, <-Hde, app_assoc. rewrite (zlen_app (body ++ c.2)). change (zlen crlf) with 2.
    pose proof (zlen_nonneg (body ++ c.2)). destruct (Z.ltb_spec (zlen (body ++ c.2) + 2) 2); [lia|].
    by rewrite Z.add_simpl_r, ztake_app_l, ztake_all by lia.
Qed.

Lemma chunk_ok_header r last c : chunk_ok r last c -> c.1 <> [].
Proof. intros [_ H]. apply (H 0). Qed.

(** One chunk: its header, from the buffer or a read, and its data. *)
Lemma chunk_header_comes fuel rounds c last p buf (s : stream) buf' s' :
  chunk_comes fuel c buf s buf' s' -> rs_error p = 0 -> chunk_ok (rs_data p) last c ->
  exists p' rest s1, chunk_header_loop buffer_size (S rounds) true p buf s = (Ret (Some (p', rest)), s1) /\
    rs_data p' = rs_data p /\ rs_error p' = 0 /\ rs_content_len (rs_parser p') = zlen c.2 /\
    rs_chunks_done (rs_parser p') = (if last then 1 else 0) /\
    forall fuel' body, (fuel <= fuel')%nat ->
      chunk_data buffer_size fuel' (zlen c.2) body rest s1 = (Ret (Some (body ++ c.2, buf')), s').
Proof.
  intros Hcome He Hc. pose proof (chunk_ok_header _ _ _ Hc) as Hne. destruct Hc as [Hz Hx].
  specialize (Hx (rs_status (rs_parser p))).
  assert (forall b s1, chunk_in fuel c b s1 buf' s' -> exists p' rest,
    response_execute p b true = Ret (p', zlen c.1, rest) /\ zlen rest < buffer_size /\
    rs_data p' = rs_data p /\ rs_error p' = 0 /\ response_has_error p' = false /\ response_is_finished p' = true /\
    rs_content_len (rs_parser p') = zlen c.2 /\ rs_chunks_done (rs_parser p') = (if last then 1 else 0) /\
    forall fuel' body, (fuel <= fuel')%nat ->
      chunk_data buffer_size fuel' (zlen c.2) body rest s1 = (Ret (Some (body ++ c.2, buf')), s')) as Hexec.
  { intros b s1 Hin. destruct (chunk_in_read _ _ _ _ _ _ Hin Hz Hne) as (rest & -> & Hl & Hdata).
    destruct (rs_execute_header p true c.1 rest _ _ He Hx) as (p' & E & Hd & (q & cs & [Hcl Hdn] & Hq) & He' & Her & Hf).
    exists p', rest. rewrite Hq. split_and!; done. }
  destruct Hcome as [buf s buf' s' Hbuf Hin|s n b s1 buf' s' Hr Hn Hin].
  - destruct (Hexec buf s Hin) as (p' & rest & E & Hl & Hd & He' & Her & Hf & Hcl & Hdn & Hdata).
    exists p', rest, s. split; [|by split_and!]. cbn [chunk_header_loop negb orb].
    destruct (Z.eqb_spec (zlen buf) 0) as [Ez|_]; [by apply zlen_zero in Ez|].
    change (1 <=? 0) with false. cbv iota. rewrite app_nil_r, E, Her, Hf.
    destruct (Z.eqb_spec (zlen rest) buffer_size); [lia|done].
  - destruct (Hexec b s1 Hin) as (p' & rest & E & Hl & Hd & He' & Her & Hf & Hcl & Hdn & Hdata).
    exists p', rest, s1. split; [|by split_and!]. cbn [chunk_header_loop negb orb].
    change (zlen [] =? 0) with true. rewrite zlen_nil, Z.sub_0_r, Hr. cbv iota. destruct (Z.leb_spec n 0); [lia|].
    rewrite app_nil_l, E, Her, Hf. destruct (Z.eqb_spec (zlen rest) buffer_size); [lia|done].
Qed.

(** All chunks: the data, one after the other, up to the last. *)
Lemma chunk_loop_comes fuel rounds r lst : chunk_ok r true lst -> (fuel <= S rounds)%nat ->
  forall cs buf s buf' s', chunks_come fuel (cs ++ [lst]) buf s buf' s' ->
  forall f p body, rs_data p = r -> rs_error p = 0 -> Forall (chunk_ok r false) cs -> (length cs < f)%nat ->
  exists p', chunk_loop buffer_size f (S rounds) p body buf s = (Ret (Some (p', body ++ flat_map snd cs ++ lst.2)), s') /\
    rs_data p' = r.
Proof.
  intros Hlst Hfuel. induction cs as [|c cs IH]; intros buf s buf' s' Hcome [|f] p body Hd He Hcs Hf; cbn [length] in Hf; try lia.
  - cbn [app] in Hcome. inversion Hcome as [|? ? ? ? buf1 s1 ? ? Hc Hrest]; subst. inversion Hrest; subst.
    destruct (chunk_header_comes fuel rounds lst true p buf s _ _ Hc He Hlst)
      as (p' & rest & s2 & E & Hd' & He' & Hcl & Hdn & Hdata).
    cbn [chunk_loop]. rewrite (bind_ret _ _ _ _ _ E), Hcl, (bind_ret _ _ _ _ _ (Hdata _ body Hfuel)), Hdn. by exists p'.
  - cbn [app] in Hcome. inversion Hcome as [|? ? ? ? buf1 s1 ? ? Hc Hrest]; subst. apply Forall_cons in Hcs as [Hc0 Hcs].
    destruct (chunk_header_comes fuel rounds c false p buf s _ _ Hc He Hc0)
      as (p' & rest & s2 & E & Hd' & He' & Hcl & Hdn & Hdata).
    cbn [chunk_loop]. rewrite (bind_ret _ _ _ _ _ E), Hcl, (bind_ret _ _ _ _ _ (Hdata _ body Hfuel)), Hdn.
    destruct (IH _ _ _ _ Hrest f p' (body ++ c.2) Hd' He' Hcs ltac:(lia)) as (p2 & E2 & Hd2).
    cbn [Z.eqb]. rewrite E2. exists p2. split; [|done]. cbn [flat_map]. by rewrite <-!app_assoc.
Qed.
End Arrival.

Section Received.
Context {K : Type} {conn : Conn K} {ZS : Type} {zlib : Zlib ZS}.
Context (buffer_size : Z) (lexical_cast : bytes -> option Z) (max_size junk : Z).

Lemma chunked_delivered fuel r body : headers_sorted (HTTPResponse.m_headers r) -> plain_encoding r = true ->
  exists r', delivered (ZS := ZS) fuel (chunked_parsed r) body r' /\ says_same_chunked r body r'.
Proof.
  intros Hs Hp. exists (HTTPResponse.set_body body (chunked_parsed r)). split.
  - destruct (decide (body = [])) as [->|Hne]; [left|right].
    + split; [done|]. unfold chunked_parsed, rs_made. by rewrite rs_set_lines_eq.
    + split; [done|]. exists body. split; [|done]. unfold decode_body. rewrite chunked_parsed_get by done.
      change (name_is (str "content-encoding") "transfer-encoding") with false.
      change (name_is (str "content-encoding") "connection") with false.
      change (name_is (str "content-encoding") "set-cookie") with false. cbn [andb].
      unfold plain_encoding in Hp. apply andb_true_iff in Hp as [H1%negb_true_iff H2%negb_true_iff]. by rewrite H1, H2.
  - unfold says_same_chunked. split_and!; [unfold chunked_parsed, rs_made; by rewrite rs_set_lines_eq..|].
    intros k def. by apply chunked_parsed_get.
Qed.

(** C14: A response in chunks is received as it was sent: a header that says so, with a status, a
    reason and headers that HTTP can write, and then chunks, each with its length in
    hexadecimal digits, up to a chunk without data.  The body is the data of the chunks, one
    after the other, without their lengths and line ends.  The data may be cut anywhere
    between the reads, as long as the header of a chunk is whole in the buffer when the
    client comes to it. *)
Theorem chunked_response_received fuel F r cs lst tail s n b s1 buf' s' :
  rs_printable r = true -> headers_sorted (HTTPResponse.m_headers r) -> zlen (chunked_head r) < 2 ^ 64 ->
  Forall (good_chunk false) cs -> good_chunk true lst ->
  is_connected s = true -> 0 < buffer_size -> s_in s = chunked_head r ++ tail ->
  socket_read buffer_size s = (n, b, s1) -> zlen (chunked_head r) <= n ->
  chunks_come buffer_size F (chunk_of <$> (cs ++ [lst])) (ztake (n - zlen (chunked_head r)) tail) s1 buf' s' ->
  (length cs <= fuel)%nat -> (F <= S fuel)%nat ->
  exists r', recv_response (ZS := ZS) buffer_size lexical_cast max_size junk (S fuel) s = (Ret (Some r'), s') /\
    says_same_chunked r (flat_map snd cs) r'.
Proof.
  intros Hp Hs Hz Hcs Hlst Hc Hbs Hin Hr Hn Hcome Hf HF.
  destruct (response_loop_ok buffer_size junk fuel (chunked_head r) (chunked_parsed r) _ tail s n b s1 Hc Hbs Hin
    (chunked_head_accepted junk r Hp Hz) Hr Hn) as (p & E & Hd & He & (q & cs0 & Hch0 & Hq) & _).
  assert (rs_chunked (rs_parser p) = 1) as Hch by (by rewrite Hq).
  assert (plain_encoding r = true) as Hpe by (unfold rs_printable in Hp; by apply andb_true_iff in Hp as [_ Hp]).
  rewrite fmap_app in Hcome.
  destruct (chunk_loop_comes buffer_size F fuel (chunked_parsed r) (chunk_of lst) (good_chunk_ok _ _ _ Hlst) HF
    (chunk_of <$> cs) _ _ _ _ Hcome (S fuel) p [] Hd He) as (p' & E2 & Hd2).
  { apply Forall_fmap. eapply Forall_impl; [exact Hcs|]. intros c. apply good_chunk_ok. }
  { rewrite length_fmap. lia. }
  destruct (chunked_delivered (S fuel) r (flat_map snd (chunk_of <$> cs) ++ (chunk_of lst).2) Hs Hpe) as (r' & Hdel & Hsay).
  exists r'. split.
  - unfold recv_response. rewrite (bind_ret _ _ _ _ _ E), Hch. cbn [negb Z.eqb].
    rewrite (bind_ret _ _ _ _ _ E2), Hd2. by apply finish_ok.
  - destruct Hlst as (_ & _ & _ & Hnil). apply bool_decide_eq_true in Hnil. unfold chunk_of at 2 in Hsay. cbn [snd] in Hsay.
    rewrite Hnil, app_nil_r, flat_map_fmap in Hsay. exact Hsay.
Qed.
End Received.

(** ** One response in three chunks *)

Definition response3 : HTTPResponse.t :=
  HTTPResponse.set_header (str "Content-Type") (str "a/b") (HTTPResponse.new_response 17 true).
Definition chunk_a : bytes * bytes := (str "3", str "abc").
Definition chunk_b : bytes * bytes := (str "a", str "0123456789").
Definition chunk_z : bytes * bytes := (str "0", []).
Definition text3 : bytes := chunked_head response3 ++ chunks_text [chunk_a; chunk_b; chunk_z].

(** The first read ends within the data of the second chunk. *)
Definition first3 : Z := zlen (chunked_head response3) + 14.
Definition conn3 (b : bytes) : SocketStream (K := pipe) := stream1 (Z.to_nat (first3 - 1)) b.

Lemma chunks3_come :
  chunks_come 4096 20 (chunk_of <$> ([chunk_a; chunk_b] ++ [chunk_z]))
    (ztake 14 (chunks_text [chunk_a; chunk_b; chunk_z])) (conn3 (zdrop first3 text3)) [] (conn3 []).
Proof.
  cbn [app fmap list_fmap]. eapply chunks_next.
  { apply chunk_here; [discriminate|].
    change (ztake 14 (chunks_text [chunk_a; chunk_b; chunk_z])) with (chunk_text (chunk_of chunk_a) ++ (str "a" ++ crlf ++ str "012")).
    apply chunk_whole. vm_compute. discriminate. }
  eapply chunks_next.
  { apply chunk_here; [discriminate|].
    change (str "a" ++ crlf ++ str "012") with ((chunk_of chunk_b).1 ++ str "012").
    eapply (chunk_cut _ _ _ (str "012") (str "3456789" ++ crlf)); [reflexivity|discriminate|vm_compute; discriminate| |cbn; lia].
    rewrite <- (app_nil_r (str "3456789" ++ crlf)). eapply reads_some; [discriminate|vm_compute; reflexivity|].
    apply reads_all. }
  eapply chunks_next; [|apply chunks_over].
  eapply chunk_fetched; [vm_compute; reflexivity|reflexivity|].
  change [48; 13; 10; 13; 10] with (chunk_text (chunk_of chunk_z) ++ []). apply chunk_whole. vm_compute. discriminate.
Qed.

Lemma chunked_response_received_witness : exists r',
  recv_response (ZS := copy_state) 4096 number 1000 7 20 (conn3 text3) = (Ret (Some r'), conn3 []) /\
  says_same_chunked response3 (str "abc0123456789") r'.
Proof.
  apply (chunked_response_received (ZS := copy_state) 4096 number 1000 7 19 20 response3 [chunk_a; chunk_b] chunk_z
    (chunks_text [chunk_a; chunk_b; chunk_z]) (conn3 text3) first3 (ztake first3 text3) (conn3 (zdrop first3 text3)) [] (conn3 [])).
  - vm_compute. reflexivity.
  - repeat constructor.
  - vm_compute. reflexivity.
  - repeat constructor.
  - repeat constructor.
  - reflexivity.
  - reflexivity.
  - reflexivity.
  - vm_compute. reflexivity.
  - vm_compute. discriminate.
  - exact chunks3_come.
  - cbn. lia.
  - lia.
Defined.
