(* ===== verification/HttpExchange.v ===== *)
(** * One exchange over HTTP

    The client's side, the server's side and the parsers between them: a request that is
    sent, served and answered, and what the client gets. *)

From stdpp Require Import base list numbers strings.
From Stdlib Require Import Lia ZArith.
From S2P Require Import Prelude Endian OrdSet OrdMap Http HttpProps HttpParser HttpGrammar Servlet Stream StreamProps Zlib ZlibProps.
From S2P Require Import HttpSession HttpSessionProps HttpGrammarProps HttpStages HttpRoundtrip HttpConnection HttpConnectionProps HttpResponseStages HttpResponseRoundtrip.

(** The request as the server has it. *)
Definition received (r : HTTPRequest.t) : HTTPRequest.t :=
  HTTPRequest.init (HTTPRequest.set_body (HTTPRequest.m_body r) (parsed r)).

Section Exchange.
Context (lexical_cast : bytes -> option Z).
(** [boost::lexical_cast<uint64_t>] reads what was printed. *)
Hypothesis cast_dec : forall n, 0 <= n < 2 ^ 64 -> lexical_cast (dec n) = Some n.
Context {K : Type} {conn : Conn K} {ZS : Type} {zlib : Zlib ZS}.
Context (buff_size buffer_size max_size junk1 junk2 junk : Z).
Context (fnmatch : bytes -> bytes -> bool).
Context (callback other : Z -> HTTPRequest.t -> HTTPResponse.t -> HTTPResponse.t).

Lemma send_request_ok req text (c : SocketStream (K := K)) : HTTPRequest.dump req = Ret text -> zlen text < 2 ^ 31 ->
  is_connected c = true ->
  exists c1, send_request req c = (Ret (zlen text), c1) /\ s_out c1 = s_out c ++ text /\ is_connected c1 = true.
Proof.
  intros Hd Hz Hc. destruct (write_fixed_size_ok text c Hc Hz) as (c1 & E & Ho & _ & Hc1).
  exists c1. unfold send_request. by rewrite Hd, E.
Qed.

(** The server's side. *)
Lemma serve_ok fuel rounds srv req text rsp k n b s1 :
  printable false req = true -> headers_sorted (HTTPRequest.m_headers req) -> HTTPRequest.dump req = Ret text ->
  zlen text < 2 ^ 31 -> zlen (HTTPRequest.m_body req) <= max_size -> 0 < buff_size ->
  m_keepalive srv = false \/ HTTPRequest.m_close req = true ->
  dispatch_handle fnmatch callback other (S rounds) (m_dispatch srv) (received req)
    (HTTPResponse.new_response (HTTPRequest.m_version req) true) = Ret rsp -> zlen (HTTPResponse.dump rsp) < 2 ^ 31 ->
  conn_up k = true -> inbox k = text -> socket_read buff_size (MkStream (Some k) true) = (n, b, s1) ->
  zlen text - zlen (HTTPRequest.m_body req) <= n ->
  exists s2, handle_client buff_size lexical_cast max_size junk1 junk2 fnmatch callback other
      (S fuel) (S rounds) srv k = (Ret tt, stream_close s2) /\
    s_out s2 = outbox k ++ HTTPResponse.dump rsp /\ is_connected (stream_close s2) = false.
Proof.
  intros Hp Hs Hd Hz Hmax Hbs Hcl Hdisp Hzr Hup Hin Hr Hn. destruct (printed_head req text Hp Hd) as (Hnl & mt & Em & ->).
  pose proof (zlen_nonneg (HTTPRequest.m_body req)). pose proof (zlen_nonneg (head_of mt req)). rewrite zlen_app in Hz, Hn.
  pose proof (parsed_announced lexical_cast cast_dec req Hs Hnl ltac:(lia)) as Ha.
  pose proof (with_body_eq lexical_cast req [] Ha) as Hwb. rewrite app_nil_r in Hwb. fold (received req) in Hwb.
  destruct (parsed_says req Hs Hnl) as (_ & Hv & Hclose & _). fold (received req) in Hv, Hclose.
  eapply (one_request_served buff_size lexical_cast max_size junk1 junk2 fnmatch callback other fuel rounds srv k
    (head_of mt req) (parsed req) (HTTPRequest.m_body req) n b s1 rsp); rewrite ?Ha, ?Hwb, ?Hv, ?Hclose; try done; try lia.
  apply head_accepted; [by apply printable_relaxed|done|lia|lia].
Qed.

(** C11: One exchange, end to end: a client sends a request; the server receives what says the
    same, lets the matching servlet answer it, sends the answer and closes the connection;
    and the client receives a response that says the same as the servlet's, with its body,
    and nothing else.  This holds for requests and responses that HTTP can write and whose
    headers come with one read, however the bodies are cut. *)
Theorem http_exchange fuel rounds srv req text rsp (c : SocketStream (K := K)) :
  printable false req = true -> headers_sorted (HTTPRequest.m_headers req) -> HTTPRequest.dump req = Ret text ->
  zlen text < 2 ^ 31 -> zlen (HTTPRequest.m_body req) <= max_size ->
  m_keepalive srv = false \/ HTTPRequest.m_close req = true ->
  dispatch_handle fnmatch callback other (S rounds) (m_dispatch srv) (received req)
    (HTTPResponse.new_response (HTTPRequest.m_version req) true) = Ret rsp ->
  rs_printable rsp = true -> headers_sorted (HTTPResponse.m_headers rsp) ->
  zlen (HTTPResponse.dump rsp) < 2 ^ 31 -> zlen (HTTPResponse.m_body rsp) <= max_size ->
  0 < buff_size -> 0 < buffer_size -> is_connected c = true ->
  says_same req (received req) /\
  exists c1, send_request req c = (Ret (zlen text), c1) /\ s_out c1 = s_out c ++ text /\
  forall k n b s1, conn_up k = true -> inbox k = text -> outbox k = [] ->
    socket_read buff_size (MkStream (Some k) true) = (n, b, s1) -> zlen text - zlen (HTTPRequest.m_body req) <= n ->
  exists s2, handle_client buff_size lexical_cast max_size junk1 junk2 fnmatch callback other
      (S fuel) (S rounds) srv k = (Ret tt, stream_close s2) /\ is_connected (stream_close s2) = false /\
    s_out s2 = HTTPResponse.dump rsp /\
  forall c2 n2 b2 c3, is_connected c2 = true -> s_in c2 = s_out s2 -> socket_read buffer_size c2 = (n2, b2, c3) ->
    zlen (HTTPResponse.dump rsp) - zlen (HTTPResponse.m_body rsp) <= n2 ->
  exists rsp' c4, recv_response (ZS := ZS) buffer_size lexical_cast max_size junk (S fuel) c2 = (Ret (Some rsp'), c4) /\
    says_same_response rsp rsp' /\ s_in c4 = [].
Proof.
  intros Hp Hs Hd Hz Hmax Hcl Hdisp Hrp Hrs Hzr Hmaxr Hbs Hbs2 Hc.
  destruct (printed_head req text Hp Hd) as (Hnl & _). split; [by apply parsed_says|].
  destruct (send_request_ok req text c Hd Hz Hc) as (c1 & E1 & Ho1 & _). exists c1. split; [done|]. split; [done|].
  intros k n b s1 Hup Hin Hout Hr Hn.
  destruct (serve_ok fuel rounds srv req text rsp k n b s1) as (s2 & E2 & Ho2 & Hdown); try done.
  rewrite Hout, app_nil_l in Ho2. exists s2. split; [done|]. split; [done|]. split; [done|]. intros c2 n2 b2 c3 Hc2 Hi2 Hr2 Hn2.
  rewrite Ho2 in Hi2. assert (s_in c2 <> []) as Hne.
  { rewrite Hi2. unfold HTTPResponse.dump, HTTPResponse.status_line. cbn. discriminate. }
  destruct (read_some_eq _ _ _ _ _ Hc2 Hbs2 Hne Hr2) as (_ & Hb2 & _). rewrite Hi2 in Hb2.
  destruct (response_travels_ok lexical_cast cast_dec buffer_size max_size junk fuel rsp [] c2 n2 b2 c3)
    as (rsp' & c4 & E3 & Hsame & Hi4 & _); rewrite ?app_nil_r; try done; [lia|].
  by exists rsp', c4.
Qed.
End Exchange.

(** ** One exchange *)

(** No servlet matches: the answer is the page that says so. *)
Definition answer1 : HTTPResponse.t := not_found (HTTPResponse.new_response 17 true).

Lemma http_exchange_witness :
  says_same request1 (received request1) /\
  exists s2, handle_client 4096 number 1000 7 9 (fun _ _ => false) (fun _ _ r => r) (fun _ _ r => r) 1 1
    (new_HTTPServer false) (client0 83 text1) = (Ret tt, stream_close s2) /\
  exists rsp' c4, recv_response (ZS := copy_state) 4096 number 1000 5 1 (stream1 999 (s_out s2)) = (Ret (Some rsp'), c4) /\
    says_same_response answer1 rsp' /\ s_in c4 = [].
Proof.
  destruct (http_exchange (ZS := copy_state) number number_dec 4096 4096 1000 7 9 5 (fun _ _ => false) (fun _ _ r => r) (fun _ _ r => r)
    0 0 (new_HTTPServer false) request1 text1 answer1 (stream1 99 [])) as (Hs & c1 & _ & _ & H).
  - vm_compute. reflexivity.
  - repeat constructor.
  - vm_compute. reflexivity.
  - vm_compute. reflexivity.
  - vm_compute. discriminate.
  - by left.
  - vm_compute. reflexivity.
  - vm_compute. reflexivity.
  - repeat constructor.
  - vm_compute. reflexivity.
  - vm_compute. discriminate.
  - reflexivity.
  - reflexivity.
  - reflexivity.
  - split; [exact Hs|].
    destruct (H (client0 83 text1) 84 (ztake 84 text1) (stream1 83 (zdrop 84 text1))) as (s2 & E & _ & Ho & H2).
    + reflexivity.
    + reflexivity.
    + reflexivity.
    + vm_compute. reflexivity.
    + vm_compute. discriminate.
    + exists s2. split; [exact E|].
      apply (H2 (stream1 999 (s_out s2)) (zlen (HTTPResponse.dump answer1)) (HTTPResponse.dump answer1) (stream1 999 [])).
      * reflexivity.
      * reflexivity.
      * rewrite Ho. vm_compute. reflexivity.
      * vm_compute. discriminate.
Defined.
