(* ===== verification/HttpPool.v ===== *)
(** * The pool of HTTP connections ([servers/http/http_connection.h], [http_connection.cc])

    Connections are objects in a store; a caller gets one with a deleter that gives it back
    to the pool.  [get_connection] is its three sections: the scan under the lock, the
    deletion of what the scan found unusable, and the opening of a new connection. *)

From stdpp Require Import base list numbers strings gmap.
From Stdlib Require Import Lia ZArith.
From S2P Require Import Prelude Endian OrdMap Http HttpParser ByteArray Stream Zlib HttpSession Address Uri UriParser HttpConnection.

(** ** State *)

Record HTTPConnection (K : Type) := MkConnection {
  c_stream : @SocketStream K;
  m_create_time : Z;
  m_request : Z }.
Arguments MkConnection {K}.
Arguments c_stream {K}.
Arguments m_create_time {K}.
Arguments m_request {K}.

Record HTTPConnectionPool := MkConnPool {
  p_host : bytes;
  p_vhost : bytes;
  p_is_https : bool;
  p_port : Z;
  p_max_size : Z;
  p_max_alive_time : Z;
  p_max_request : Z;
  m_conns : list Z;
  m_total : Z }.

Definition new_HTTPConnectionPool (host vhost : bytes) (is_https : bool)
    (port max_size max_alive_time max_request : Z) : HTTPConnectionPool :=
  MkConnPool host vhost is_https port max_size max_alive_time max_request [] 0.

Definition set_pool_conns (l : list Z) (p : HTTPConnectionPool) : HTTPConnectionPool :=
  MkConnPool (p_host p) (p_vhost p) (p_is_https p) (p_port p) (p_max_size p) (p_max_alive_time p)
    (p_max_request p) l (m_total p).
Definition add_total (n : Z) (p : HTTPConnectionPool) : HTTPConnectionPool :=
  MkConnPool (p_host p) (p_vhost p) (p_is_https p) (p_port p) (p_max_size p) (p_max_alive_time p)
    (p_max_request p) (m_conns p) (to_signed 32 (m_total p + n)).

(** The pool with the connections, the next address, the clock and the outside. *)
Record PoolState (K W : Type) := MkPoolState {
  pool : HTTPConnectionPool;
  store : gmap Z (HTTPConnection K);
  next_addr : Z;
  now : Z;
  outside : W }.
Arguments MkPoolState {K W}.
Arguments pool {K W}.
Arguments store {K W}.
Arguments next_addr {K W}.
Arguments now {K W}.
Arguments outside {K W}.

Section Pool.
Context {K : Type} {conn : Conn K} {W : Type}.
(** The resolver, and connecting a new socket. *)
Context (host : endian) (getaddrinfo : bytes -> option bytes -> option (list sockaddr)).
Context (dial : bool -> Address -> W -> option K * W).

Abbreviation state := (PoolState K W).

Definition set_pool (f : HTTPConnectionPool -> HTTPConnectionPool) (st : state) : state :=
  MkPoolState (f (pool st)) (store st) (next_addr st) (now st) (outside st).
Definition set_store (f : gmap Z (HTTPConnection K) -> gmap Z (HTTPConnection K)) (st : state) : state :=
  MkPoolState (pool st) (f (store st)) (next_addr st) (now st) (outside st).

Definition deref_conn (p : Z) : meth state (HTTPConnection K) :=
  fun st => match store st !! p with Some c => (Ret c, st) | None => (Undef UseAfterFree, st) end.

(** [m_create_time + m_max_alive_time] in [uint64_t]. *)
Definition dies_at (c : HTTPConnection K) (p : HTTPConnectionPool) : Z :=
  wrap 64 (m_create_time c + p_max_alive_time p).

(** ** [get_connection] *)

(** The scan: the first usable connection, what is left, and the unusable ones before it. *)
Fixpoint scan (heap : gmap Z (HTTPConnection K)) (p : HTTPConnectionPool) (now : Z) (l invalid : list Z)
    : res (option Z * list Z * list Z) :=
  match l with
  | [] => Ret (None, [], invalid)
  | c :: l =>
      match heap !! c with
      | None => Undef UseAfterFree
      | Some x =>
          if negb (is_connected (c_stream x)) then scan heap p now l (invalid ++ [c])
          else if dies_at x p <? now then scan heap p now l (invalid ++ [c])
          else Ret (Some c, l, invalid)
      end
  end.

Definition take_idle : meth state (option Z * list Z) :=
  fun st =>
    match scan (store st) (pool st) (now st) (m_conns (pool st)) [] with
    | Ret (ptr, l, invalid) => (Ret (ptr, invalid), set_pool (set_pool_conns l) st)
    | Throw e => (Throw e, st)
    | Undef u => (Undef u, st)
    end.

(** [delete]; the destructor closes the socket. *)
Fixpoint delete_all (l : list Z) : meth state unit :=
  match l with
  | [] => ret tt
  | p :: l => let! _ := deref_conn p in
              let! _ := (fun st => (Ret tt, set_store (delete p) st)) in delete_all l
  end.

Definition drop_invalid (invalid : list Z) : meth state unit :=
  let! _ := delete_all invalid in
  fun st => (Ret tt, set_pool (add_total (- zlen invalid)) st).

Definition open_connection (ptr : option Z) : meth state (option Z) :=
  fun st =>
    match ptr with
    | Some p => (Ret (Some p), st)
    | None =>
        match lookup_with_port host getaddrinfo (p_host (pool st)) (p_port (pool st)) with
        | None => (Ret None, st)
        | Some addr =>
            let (k, w) := dial (p_is_https (pool st)) addr (outside st) in
            let st := MkPoolState (pool st) (store st) (next_addr st) (now st) w in
            match k with
            | None => (Ret None, st)
            | Some k =>
                let p := next_addr st in
                let c := MkConnection (MkStream (Some k) true) (now st) 0 in
                (Ret (Some p),
                 MkPoolState (add_total 1 (pool st)) (<[p := c]> (store st)) (p + 1) (now st) w)
            end
        end
    end.

Definition get_connection : meth state (option Z) :=
  let! (ptr, invalid) := take_idle in
  let! _ := drop_invalid invalid in
  open_connection ptr.

(** The deleter of the pointer. *)
Definition ReleasePtr (p : Z) : meth state unit :=
  let! c := deref_conn p in
  let c := MkConnection (c_stream c) (m_create_time c) (wrap 64 (m_request c + 1)) in
  fun st =>
    let st := set_store (<[p := c]>) st in
    if negb (is_connected (c_stream c)) || (dies_at c (pool st) <=? now st) ||
       (p_max_request (pool st) <=? m_request c)
    then (Ret tt, set_pool (add_total (-1)) (set_store (delete p) st))
    else (Ret tt, set_pool (fun x => set_pool_conns (m_conns x ++ [p]) x) st).

(** ** Requests *)

Context {machine : ResponseMachine} {ZS : Type} {zlib : Zlib ZS}.
Context (buffer_size : Z) (lexical_cast : bytes -> option Z) (max_size : Z) (junk : Z).
Context (set_recv_timeout : Z -> K -> K).

(** A method of the stream of a connection. *)
Definition on_stream {A} (p : Z) (m : meth (@SocketStream K) A) : meth state A :=
  let! c := deref_conn p in
  fun st =>
    let (r, s) := m (c_stream c) in
    (r, set_store (<[p := MkConnection s (m_create_time c) (m_request c)]>) st).

(** A scope that holds a connection: its deleter runs at the end, also for an exception. *)
Definition holding {A} (p : Z) (m : meth state A) : meth state A :=
  fun st =>
    match m st with
    | (Ret a, st) => (let! _ := ReleasePtr p in ret a) st
    | (Throw e, st) => (let! _ := ReleasePtr p in fun st => (Throw e, st)) st
    | (Undef u, st) => (Undef u, st)
    end.

(** [request(req, timeout)]: the connection is given back at the end. *)
Definition pool_request_on (fuel : nat) (req : HTTPRequest.t) (timeout : Z) : meth state HTTPResult :=
  let! p := get_connection in
  match p with
  | None => ret (MkResult None POOL_GET_CONNECTION_FAIL)
  | Some p =>
      holding p (
        let! c := deref_conn p in
        match m_socket (c_stream c) with
        | None => ret (MkResult None POOL_INVALID_CONNECTION)
        | Some k =>
            let! _ := on_stream p (fun s => (Ret tt, set_socket (set_recv_timeout timeout k) s)) in
            on_stream p (exchange (ZS := ZS) buffer_size lexical_cast max_size junk fuel req)
        end)
  end.

(** [request(method, path, ...)] up to the request it makes. *)
Definition make_pool_request (x : HTTPConnectionPool) (method : HTTPMethod) (path : bytes) (headers : header_map)
    (body : bytes) : HTTPRequest.t :=
  let req := HTTPRequest.set_path path (HTTPRequest.new_request 17 true) in
  let req := HTTPRequest.set_method method req in
  let req := HTTPRequest.set_close false req in
  let (has_host, req) := put_headers true headers false req in
  let req := if has_host then req
             else HTTPRequest.set_header (str "Host")
                    (if bool_decide (p_vhost x = []) then p_host x else p_vhost x) req in
  HTTPRequest.set_body body req.

Definition pool_request (fuel : nat) (method : HTTPMethod) (path : bytes) (timeout : Z) (headers : header_map)
    (body : bytes) : meth state HTTPResult :=
  fun st => pool_request_on fuel (make_pool_request (pool st) method path headers body) timeout st.

(** The path with the query and the fragment of a URI. *)
Definition uri_text (u : URI) : bytes :=
  get_path u ++ (if bool_decide (m_query u = []) then [] else str "?") ++ m_query u
  ++ (if bool_decide (m_fragment u = []) then [] else str "#") ++ m_fragment u.

Definition pool_request_uri (fuel : nat) (method : HTTPMethod) (u : URI) : Z -> header_map -> bytes -> meth state HTTPResult :=
  pool_request fuel method (uri_text u).

Definition pool_get (fuel : nat) := pool_request fuel GET.
Definition pool_get_uri (fuel : nat) (u : URI) := pool_get fuel (uri_text u).
Definition pool_post (fuel : nat) := pool_request fuel POST.
Definition pool_post_uri (fuel : nat) (u : URI) := pool_post fuel (uri_text u).

(** [Create]. *)
Definition pool_Create (uri_str vhost : bytes)
    (max_size max_alive_time max_request : Z) : res (option HTTPConnectionPool) :=
  let? u := URI_Create uri_str in
  Ret match u with
  | None => None
  | Some u => Some (new_HTTPConnectionPool (m_host u) vhost (bool_decide (m_scheme u = str "https"))
                      (wrap 32 (get_port u)) max_size max_alive_time max_request)
  end.
End Pool.
