(* ===== verification/HttpPoolProps.v ===== *)
(** * The pool of HTTP connections: every connection is in one place

    The sections of [get_connection] of several threads, the uses of the connections that
    were handed out and their release, in any order. *)

From stdpp Require Import base list numbers strings gmap sets.
From Stdlib Require Import Lia ZArith.
From S2P Require Import Prelude Endian Http Stream StreamProps HttpSession Address Uri HttpConnection HttpPool.

Section Pool.
Context {K : Type} {conn : Conn K} {W : Type}.
Context (host : endian) (getaddrinfo : bytes -> option bytes -> option (list sockaddr)).
Context (dial : bool -> Address -> W -> option K * W).

Abbreviation state := (PoolState K W).
Abbreviation opening := (open_connection host getaddrinfo dial).

(** A thread in the middle of [get_connection]. *)
Inductive getting :=
| Scanned (ptr : option Z) (invalid : list Z)
| Cleaned (ptr : option Z).

Definition held (g : getting) : list Z :=
  match g with
  | Scanned ptr invalid => invalid ++ option_list ptr
  | Cleaned ptr => option_list ptr
  end.

(** The pool, the threads inside [get_connection], and the connections handed out. *)
Record system := MkSystem { st : state; threads : list getting; lent : list Z }.

Inductive pstep : system -> system -> Prop :=
| p_tick x t ts l : now x <= t ->
    pstep (MkSystem x ts l) (MkSystem (MkPoolState (pool x) (store x) (next_addr x) t (outside x)) ts l)
| p_scan x ts l ptr invalid x' : take_idle x = (Ret (ptr, invalid), x') ->
    pstep (MkSystem x ts l) (MkSystem x' (ts ++ [Scanned ptr invalid]) l)
| p_clean x ts ts' l ptr invalid x' : drop_invalid invalid x = (Ret tt, x') ->
    pstep (MkSystem x (ts ++ Scanned ptr invalid :: ts') l) (MkSystem x' (ts ++ Cleaned ptr :: ts') l)
| p_open x ts ts' l ptr r x' : opening ptr x = (Ret r, x') ->
    pstep (MkSystem x (ts ++ Cleaned ptr :: ts') l) (MkSystem x' (ts ++ ts') (l ++ option_list r))
| p_use x ts l l' p c s : store x !! p = Some c ->
    pstep (MkSystem x ts (l ++ p :: l'))
          (MkSystem (set_store (<[p := MkConnection s (m_create_time c) (m_request c)]>) x) ts (l ++ p :: l'))
| p_release x ts l l' p x' : ReleasePtr p x = (Ret tt, x') ->
    pstep (MkSystem x ts (l ++ p :: l')) (MkSystem x' ts (l ++ l')).

(** Everyone's connections. *)
Definition everyone (y : system) : list Z := m_conns (pool (st y)) ++ lent y ++ flat_map held (threads y).

Record pool_ok (y : system) : Prop := {
  po_nodup : NoDup (everyone y);
  po_store p : p ∈ everyone y <-> is_Some (store (st y) !! p);
  po_next p : is_Some (store (st y) !! p) -> p < next_addr (st y);
  po_total : m_total (pool (st y)) = to_signed 32 (Z.of_nat (size (store (st y)))) }.

(** ** The sections *)

Lemma scan_ok heap x now : forall l inv, (forall p, p ∈ l -> is_Some (heap !! p)) ->
  exists ptr rest inv', scan (K := K) heap x now l inv = Ret (ptr, rest, inv ++ inv') /\
    l = inv' ++ option_list ptr ++ rest /\
    (forall p, ptr = Some p -> exists c, heap !! p = Some c /\ is_connected (c_stream c) = true /\ now <= dies_at c x) /\
    (ptr = None -> rest = []) /\
    Forall (fun p => exists c, heap !! p = Some c /\ (is_connected (c_stream c) = false \/ dies_at c x < now)) inv'.
Proof.
  induction l as [|c l IH]; intros inv Hl; cbn [scan].
  { exists None, [], []. by rewrite app_nil_r. }
  destruct (Hl c ltac:(by left)) as [y Hy]. rewrite Hy.
  assert (forall p, p ∈ l -> is_Some (heap !! p)) as Hl' by (intros p Hp; apply Hl; by right).
  assert (is_connected (c_stream y) = false \/ dies_at y x < now ->
    exists ptr rest inv', scan heap x now l (inv ++ [c]) = Ret (ptr, rest, inv ++ inv') /\
    c :: l = inv' ++ option_list ptr ++ rest /\
    (forall p, ptr = Some p -> exists c, heap !! p = Some c /\ is_connected (c_stream c) = true /\ now <= dies_at c x) /\
    (ptr = None -> rest = []) /\
    Forall (fun p => exists c, heap !! p = Some c /\ (is_connected (c_stream c) = false \/ dies_at c x < now)) inv')
    as Hskip.
  { intros Hbad. destruct (IH (inv ++ [c]) Hl') as (ptr & rest & inv' & E & -> & Hp & Hn & Hall).
    exists ptr, rest, (c :: inv'). rewrite E, <- app_assoc. split_and!; try done. constructor; [by exists y|done]. }
  destruct (is_connected (c_stream y)) eqn:Ec; cbn [negb]; [|by apply Hskip; left].
  destruct (Z.ltb_spec (dies_at y x) now) as [Hd|Hd]; [by apply Hskip; right|].
  exists (Some c), l, []. rewrite app_nil_r. split_and!; try done.
  intros p [= <-]. exists y. split_and!; [done|done|lia].
Qed.

Lemma take_idle_ok (x : state) : (forall p, p ∈ m_conns (pool x) -> is_Some (store x !! p)) ->
  exists ptr inv rest, take_idle x = (Ret (ptr, inv), set_pool (set_pool_conns rest) x) /\
    m_conns (pool x) = inv ++ option_list ptr ++ rest.
Proof.
  intros Hl. destruct (scan_ok (store x) (pool x) (now x) _ [] Hl) as (ptr & rest & inv & E & Hs & _).
  exists ptr, inv, rest. unfold take_idle. by rewrite E.
Qed.

Lemma delete_all_ok l : forall x : state, NoDup l -> (forall p, p ∈ l -> is_Some (store x !! p)) ->
  exists m, delete_all l x = (Ret tt, set_store (fun _ => m) x) /\
    (forall p, m !! p = if decide (p ∈ l) then None else store x !! p) /\
    size m = (size (store x) - length l)%nat /\ (length l <= size (store x))%nat.
Proof.
  induction l as [|p l IH]; intros x Hnd Hl; cbn [delete_all].
  { exists (store x). split; [by destruct x|]. split; [|cbn; lia]. intros q. by rewrite decide_False by set_solver. }
  apply NoDup_cons in Hnd as [Hp Hnd]. destruct (Hl p ltac:(by left)) as [c Hc].
  unfold bind, deref_conn. rewrite Hc.
  destruct (IH (set_store (delete p) x) Hnd) as (m & E & Hm & Hsz & Hle).
  { intros q Hq. cbn. rewrite lookup_delete_ne by (intros ->; done). apply Hl. by right. }
  cbn [set_store store] in *. exists m. split; [exact E|].
  rewrite map_size_delete_Some in * by done.
  assert (size (store x) <> 0)%nat as Hne by (intros Hz; apply map_size_empty_inv in Hz; by rewrite Hz in Hc).
  split; [|cbn; lia]. intros q. rewrite Hm. destruct (decide (q ∈ l)) as [Hq|Hq].
  - by rewrite decide_True by (by right).
  - destruct (decide (q = p)) as [->|Hqp].
    + rewrite lookup_delete_eq. by rewrite decide_True by (by left).
    + rewrite lookup_delete_ne by done. by rewrite decide_False by set_solver.
Qed.

Lemma to_signed_add w n k : 0 <= w -> to_signed w (to_signed w n + k) = to_signed w (n + k).
Proof.
  intros Hw. apply to_signed_congr. pose proof (wrap_to_signed w n Hw) as E. unfold wrap in *.
  rewrite <- (Zplus_mod_idemp_l (to_signed w n)), E. apply Zplus_mod_idemp_l.
Qed.

(** ** The invariant *)

(** Nothing but the owners of the connections changed. *)
Lemma ok_same y y' : pool_ok y -> everyone y' ≡ₚ everyone y ->
  (forall p, is_Some (store (st y') !! p) <-> is_Some (store (st y) !! p)) ->
  size (store (st y')) = size (store (st y)) -> next_addr (st y') = next_addr (st y) ->
  m_total (pool (st y')) = m_total (pool (st y)) -> pool_ok y'.
Proof.
  intros [H1 H2 H3 H4] Hp Hs Hz Hn Ht. split.
  - by rewrite Hp.
  - intros p. by rewrite Hp, Hs.
  - intros p. rewrite Hs, Hn. apply H3.
  - by rewrite Ht, Hz.
Qed.

(** The connections [l] were deleted. *)
Lemma ok_less y y' l : pool_ok y -> everyone y ≡ₚ l ++ everyone y' ->
  (forall p, store (st y') !! p = if decide (p ∈ l) then None else store (st y) !! p) ->
  (Z.of_nat (size (store (st y'))) = Z.of_nat (size (store (st y))) - zlen l) ->
  next_addr (st y') = next_addr (st y) ->
  m_total (pool (st y')) = to_signed 32 (m_total (pool (st y)) - zlen l) -> pool_ok y'.
Proof.
  intros [H1 H2 H3 H4] Hp Hs Hz Hn Ht. rewrite Hp in H1. apply NoDup_app in H1 as (Hl & Hd & Hnd). split.
  - done.
  - intros p. rewrite Hs. specialize (H2 p). rewrite Hp, elem_of_app in H2. destruct (decide (p ∈ l)) as [Hin|Hin].
    + split; [intros Hin'; by destruct (Hd p Hin Hin')|by intros []].
    + rewrite <- H2. set_solver.
  - intros p. rewrite Hs, Hn. destruct (decide (p ∈ l)); [by intros []|]. apply H3.
  - rewrite Ht, H4, Hz. unfold Z.sub. by rewrite to_signed_add by lia.
Qed.

Lemma everyone_threads x ts g ts' l :
  everyone (MkSystem x (ts ++ g :: ts') l) ≡ₚ held g ++ everyone (MkSystem x (ts ++ ts') l).
Proof.
  unfold everyone. cbn [st threads lent]. rewrite !flat_map_app. cbn [flat_map]. solve_Permutation.
Qed.

Lemma everyone_lent x ts l p l' :
  everyone (MkSystem x ts (l ++ p :: l')) ≡ₚ p :: everyone (MkSystem x ts (l ++ l')).
Proof. unfold everyone. cbn [st threads lent]. solve_Permutation. Qed.

Lemma step_clean x ts ts' l ptr invalid x' : pool_ok (MkSystem x (ts ++ Scanned ptr invalid :: ts') l) ->
  drop_invalid invalid x = (Ret tt, x') -> pool_ok (MkSystem x' (ts ++ Cleaned ptr :: ts') l).
Proof.
  intros Hok E. pose proof Hok as [H1 H2 _ _]. rewrite everyone_threads in H1.
  cbn [held] in H1. rewrite <- app_assoc in H1. apply NoDup_app in H1 as (Hnd & _).
  destruct (delete_all_ok invalid x Hnd) as (m & Ed & Hm & Hz & Hle).
  { intros p Hp. apply (H2 p). rewrite everyone_threads. cbn [held]. set_solver. }
  unfold drop_invalid in E. rewrite (bind_ret _ _ _ _ _ Ed) in E. injection E as <-.
  eapply (ok_less _ _ invalid Hok); cbn [st set_pool set_store store next_addr pool].
  - rewrite !everyone_threads. cbn [held]. unfold everyone. cbn [st threads lent pool set_pool set_store add_total m_conns].
    solve_Permutation.
  - done.
  - rewrite Hz. unfold zlen. lia.
  - done.
  - done.
Qed.

Lemma step_open x ts ts' l ptr r x' : pool_ok (MkSystem x (ts ++ Cleaned ptr :: ts') l) ->
  opening ptr x = (Ret r, x') -> pool_ok (MkSystem x' (ts ++ ts') (l ++ option_list r)).
Proof.
  intros Hok E. unfold open_connection in E. destruct ptr as [p|].
  { injection E as <- <-. eapply ok_same; [exact Hok| |done..]. rewrite everyone_threads. cbn [held option_list].
    unfold everyone. cbn [st threads lent]. solve_Permutation. }
  assert (forall w, pool_ok (MkSystem (MkPoolState (pool x) (store x) (next_addr x) (now x) w) (ts ++ ts') l)) as Hnone.
  { intros w. eapply ok_same; [exact Hok| |done..]. rewrite everyone_threads. done. }
  destruct (lookup_with_port _ _ _ _) as [a|].
  2: { injection E as <- <-. rewrite app_nil_r. specialize (Hnone (outside x)). by destruct x. }
  destruct (dial _ a (outside x)) as [[k|] w]; injection E as <- <-; cbn [option_list].
  2: { by rewrite app_nil_r. }
  destruct (Hnone w) as [H1 H2 H3 H4]. cbn [st pool store next_addr] in H1, H2, H3, H4.
  assert (store x !! next_addr x = None) as Hfresh.
  { destruct (store x !! next_addr x) as [c|] eqn:Ec; [|done].
    specialize (H3 (next_addr x) ltac:(by rewrite Ec)). lia. }
  assert (next_addr x ∉ everyone (MkSystem (MkPoolState (pool x) (store x) (next_addr x) (now x) w) (ts ++ ts') l)) as Hout.
  { rewrite H2. cbn. rewrite Hfresh. by intros []. }
  match goal with |- pool_ok ?z => set (y := z) end.
  assert (everyone y ≡ₚ next_addr x ::
    everyone (MkSystem (MkPoolState (pool x) (store x) (next_addr x) (now x) w) (ts ++ ts') l)) as Hperm.
  { unfold everyone, y. cbn [st threads lent pool add_total m_conns]. solve_Permutation. }
  split; unfold y in *; cbn [st store next_addr pool].
  - rewrite Hperm. by constructor.
  - intros p. rewrite Hperm, elem_of_cons, lookup_insert_is_Some, H2. cbn [st store].
    destruct (decide (p = next_addr x)) as [->|]; naive_solver.
  - intros p. rewrite lookup_insert_is_Some. intros [<-|[_ Hp]]; [lia|]. specialize (H3 p Hp). lia.
  - cbn [add_total m_total]. rewrite H4, to_signed_add, map_size_insert_None by (done || lia). f_equal. lia.
Qed.

Lemma insert_is_Some_same (m : gmap Z (HTTPConnection K)) p c c' q :
  m !! p = Some c -> is_Some (<[p := c']> m !! q) <-> is_Some (m !! q).
Proof. intros Hc. rewrite lookup_insert_is_Some. destruct (decide (p = q)) as [<-|]; naive_solver. Qed.

Lemma insert_size_same (m : gmap Z (HTTPConnection K)) p c c' : m !! p = Some c -> size (<[p := c']> m) = size m.
Proof. intros Hc. rewrite map_size_insert, Hc. done. Qed.

Lemma step_use x ts l l' p c s : pool_ok (MkSystem x ts (l ++ p :: l')) -> store x !! p = Some c ->
  pool_ok (MkSystem (set_store (<[p := MkConnection s (m_create_time c) (m_request c)]>) x) ts (l ++ p :: l')).
Proof.
  intros Hok Hc. eapply ok_same; [exact Hok|done| | |done|done]; cbn [st set_store store].
  - intros q. by eapply insert_is_Some_same.
  - by eapply insert_size_same.
Qed.

(** What the release of a connection does. *)
Lemma release_cases (x : state) p c : store x !! p = Some c ->
  exists c', ReleasePtr p x =
    (Ret tt, set_pool (add_total (-1)) (set_store (delete p) (set_store (<[p := c']>) x))) \/
    ReleasePtr p x =
    (Ret tt, set_pool (fun z => set_pool_conns (m_conns z ++ [p]) z) (set_store (<[p := c']>) x)).
Proof.
  intros Hc. unfold ReleasePtr, bind, deref_conn. rewrite Hc.
  exists (MkConnection (c_stream c) (m_create_time c) (wrap 64 (m_request c + 1))).
  destruct (negb _ || _ || _); [by left|by right].
Qed.

Lemma step_release x ts l l' p x' : pool_ok (MkSystem x ts (l ++ p :: l')) ->
  ReleasePtr p x = (Ret tt, x') -> pool_ok (MkSystem x' ts (l ++ l')).
Proof.
  intros Hok E. pose proof Hok as [_ H2 _ _]. destruct (proj1 (H2 p)) as [c Hc].
  { rewrite everyone_lent. by left. }
  cbn [st] in Hc. destruct (release_cases x p c Hc) as [c' [E'|E']]; rewrite E' in E; injection E as <-.
  - eapply (ok_less _ _ [p] Hok); cbn [st set_pool set_store store next_addr pool].
    + rewrite everyone_lent. done.
    + intros q. destruct (decide (q = p)) as [->|Hq].
      * rewrite lookup_delete_eq. by rewrite decide_True by (by left).
      * rewrite lookup_delete_ne, lookup_insert_ne by done. by rewrite decide_False by set_solver.
    + rewrite map_size_delete_Some, (insert_size_same _ _ c) by (done || apply lookup_insert_is_Some; by left).
      assert (size (store x) <> 0)%nat by (intros Hz; apply map_size_empty_inv in Hz; by rewrite Hz in Hc).
      unfold zlen. cbn [length]. lia.
    + done.
    + done.
  - eapply ok_same; [exact Hok| | | |done|done]; cbn [st set_pool set_store store].
    + rewrite everyone_lent. unfold everyone. cbn [st threads lent pool set_pool set_store set_pool_conns m_conns].
      solve_Permutation.
    + intros q. by eapply insert_is_Some_same.
    + by eapply insert_size_same.
Qed.

Lemma step_ok y y' : pstep y y' -> pool_ok y -> pool_ok y'.
Proof.
  intros [x t ts l Ht|x ts l ptr invalid x' E|x ts ts' l ptr invalid x' E|x ts ts' l ptr r x' E|x ts l l' p c s E
         |x ts l l' p x' E] Hok.
  - by eapply ok_same; [exact Hok|done..].
  - destruct (take_idle_ok x) as (ptr' & inv & rest & E' & Hs).
    { intros p Hp. apply (po_store _ Hok). unfold everyone. cbn [st]. set_solver. }
    rewrite E' in E. injection E as <- <- <-. eapply ok_same; [exact Hok| |done..].
    unfold everyone. cbn [st threads lent pool set_pool set_pool_conns m_conns]. rewrite Hs, flat_map_app.
    cbn [flat_map held]. solve_Permutation.
  - by eapply step_clean.
  - by eapply step_open.
  - by eapply step_use.
  - by eapply step_release.
Qed.

(** The pool when it is made. *)
Definition start (x : HTTPConnectionPool) (t : Z) (w : W) : system := MkSystem (MkPoolState x ∅ 0 t w) [] [].

Lemma start_ok x t w : m_conns x = [] -> m_total x = 0 -> pool_ok (start x t w).
Proof.
  intros Hc Ht. split; unfold start, everyone; cbn [st threads lent pool store next_addr flat_map]; rewrite ?Hc.
  - constructor.
  - intros p. rewrite lookup_empty. cbn. split; [set_solver|by intros []].
  - intros p. rewrite lookup_empty. by intros [].
  - rewrite Ht, map_size_empty. done.
Qed.

Lemma steps_ok y y' : rtc pstep y y' -> pool_ok y -> pool_ok y'.
Proof. induction 1 as [|y1 y2 y3 Hs Hr IH]; [done|]. intros Hok. by eapply IH, step_ok. Qed.

Lemma ok_size y : pool_ok y -> size (store (st y)) = length (everyone y).
Proof.
  intros [H1 H2 _ _]. rewrite <- size_dom. replace (dom (store (st y))) with (list_to_set (everyone y) : gset Z).
  - by apply size_list_to_set.
  - apply set_eq. intros p. rewrite elem_of_list_to_set, H2, elem_of_dom. done.
Qed.

(** C7: Whatever the threads that use the pool do, in any order: a connection is in one place,
    with the pool, with a thread that is getting one or with the caller it was handed to, and
    exists as long as it is there; [m_total] is the number of connections.  So no connection
    is handed out twice, and every scan, deletion and release finds its connections. *)
Theorem pool_accounted x t w y : m_conns x = [] -> m_total x = 0 -> rtc pstep (start x t w) y ->
  NoDup (everyone y) /\ (forall p, p ∈ everyone y <-> is_Some (store (st y) !! p)) /\
  m_total (pool (st y)) = to_signed 32 (zlen (everyone y)) /\
  (exists ptr inv x', take_idle (st y) = (Ret (ptr, inv), x')) /\
  (forall ptr inv, Scanned ptr inv ∈ threads y -> exists x', drop_invalid inv (st y) = (Ret tt, x')) /\
  (forall p, p ∈ lent y -> exists x', ReleasePtr p (st y) = (Ret tt, x')).
Proof.
  intros Hc Ht Hr. pose proof (steps_ok _ _ Hr (start_ok x t w Hc Ht)) as Hok. pose proof Hok as [H1 H2 H3 H4].
  split; [done|]. split; [done|]. split.
  { rewrite H4, (ok_size y Hok). done. }
  split; [|split].
  - destruct (take_idle_ok (st y)) as (ptr & inv & rest & E & _); [|eauto].
    intros p Hp. apply H2. unfold everyone. set_solver.
  - intros ptr inv (ts & ts' & Hts)%list_elem_of_split.
    destruct y as [x' ts0 l]. cbn [st threads lent] in *. subst ts0.
    destruct (delete_all_ok inv x') as (m & E & _).
    + rewrite everyone_threads in H1. cbn [held] in H1. rewrite <- app_assoc in H1.
      apply NoDup_app in H1 as [H1 _]. exact H1.
    + intros p Hp. apply H2. rewrite everyone_threads. cbn [held]. set_solver.
    + unfold drop_invalid. rewrite (bind_ret _ _ _ _ _ E). eauto.
  - intros p Hp. destruct (proj1 (H2 p)) as [c Hcc]; [unfold everyone; set_solver|].
    destruct (release_cases (st y) p c Hcc) as [c' [E|E]]; eauto.
Qed.

(** [m_max_size] limits nothing: when connecting works, any number of connections is out. *)
Lemma pool_unbounded x t w a : lookup_with_port host getaddrinfo (p_host x) (p_port x) = Some a ->
  (forall w, exists k w', dial (p_is_https x) a w = (Some k, w')) -> m_conns x = [] ->
  forall n, exists y, rtc pstep (start x t w) y /\ length (lent y) = n /\ threads y = [] /\
    m_conns (pool (st y)) = [] /\ p_host (pool (st y)) = p_host x /\ p_port (pool (st y)) = p_port x /\
    p_is_https (pool (st y)) = p_is_https x /\ p_max_size (pool (st y)) = p_max_size x.
Proof.
  intros Ha Hd Hc. induction n as [|n (y & Hr & Hn & Ht & Hm & H1 & H2 & H3 & H4)].
  { exists (start x t w). by split_and!; [apply rtc_refl|..]. }
  destruct y as [[p s na nw o] ts l]. cbn [st threads lent pool] in *. subst ts.
  destruct (Hd o) as (k & w' & Ek). eexists. split.
  - eapply rtc_r; [eapply rtc_r; [eapply rtc_r; [exact Hr|]|]|].
    + apply (p_scan _ _ _ None []). unfold take_idle. cbn [store pool now]. rewrite Hm. reflexivity.
    + apply (p_clean _ [] [] _ None []). reflexivity.
    + apply (p_open _ [] [] _ None (Some na)). unfold open_connection.
      cbn [set_pool set_store pool add_total set_pool_conns p_host p_port p_is_https outside store next_addr now].
      rewrite H1, H2, Ha, H3, Ek. reflexivity.
  - cbn. rewrite length_app, Hn. cbn. by split_and!; [lia|..].
Qed.
End Pool.

(** ** A run *)

Definition pool0 : HTTPConnectionPool := new_HTTPConnectionPool (str "host") [] false 80 1 1000 10.
Definition dial0 (https : bool) (a : Address) (w : Z) : option pipe * Z := (Some (MkPipe true 9 [] []), w).
Definition resolve0 (node : bytes) (service : option bytes) : option (list sockaddr) := Some [SaIn (MkIn 0 7 [])].

(** Two connections are out of a pool for one; the first one is given back. *)
Lemma pool_run : exists y, rtc (pstep LITTLE_ENDIAN resolve0 dial0) (start pool0 0 0) y /\ lent y = [1] /\ m_conns (pool (st y)) = [0].
Proof.
  eexists. split.
  - eapply rtc_l; [apply (p_scan _ _ _ _ _ _ None []); reflexivity|].
    eapply rtc_l; [apply (p_scan _ _ _ _ _ _ None []); reflexivity|].
    eapply rtc_l; [apply (p_clean _ _ _ _ [] [Scanned None []] _ None []); reflexivity|].
    eapply rtc_l; [apply (p_clean _ _ _ _ [Cleaned None] [] _ None []); reflexivity|].
    eapply rtc_l; [apply (p_open _ _ _ _ [] [Cleaned None] _ None (Some 0)); vm_compute; reflexivity|].
    eapply rtc_l; [apply (p_open _ _ _ _ [] [] _ None (Some 1)); vm_compute; reflexivity|].
    eapply rtc_l; [apply (p_release _ _ _ _ [] [] [1] 0); vm_compute; reflexivity|].
    apply rtc_refl.
  - split; reflexivity.
Qed.

Lemma pool_accounted_witness : exists y, rtc (pstep LITTLE_ENDIAN resolve0 dial0) (start pool0 0 0) y /\
  NoDup (everyone y) /\ m_total (pool (st y)) = to_signed 32 (zlen (everyone y)).
Proof.
  destruct pool_run as (y & Hr & _). exists y. split; [exact Hr|].
  destruct (pool_accounted LITTLE_ENDIAN resolve0 dial0 pool0 0 0 y eq_refl eq_refl Hr) as (H1 & _ & H2 & _).
  split; [exact H1|exact H2].
Defined.
