(* ===== verification/WebSocket.v ===== *)
(** * WebSocket messages ([servers/http/ws_session.h], [ws_session.cc], [ws_connection.cc])

    The frames of RFC 6455 as both ends read and write them over a stream.  The session of
    the server and the connection of the client differ in the masking only.  The layout of
    the bit fields of [WSFrameHead] is that of a little-endian host. *)

From stdpp Require Import base list numbers strings.
From Stdlib Require Import Lia ZArith.
From S2P Require Import Prelude Endian ByteArray Hash OrdMap Http Stream.

(** ** Data *)

Definition CONTINUE : Z := 0.
Definition TEXT_FRAME : Z := 1.
Definition BIN_FRAME : Z := 2.
Definition CLOSE : Z := 8.
Definition PING : Z := 9.
Definition PONG : Z := 10.

Record WSFrameHead := MkHead {
  h_opcode : Z;
  h_rsv3 : bool;
  h_rsv2 : bool;
  h_rsv1 : bool;
  h_fin : bool;
  h_payload : Z;
  h_mask : bool }.

Record WSFrameMessage := MkMessage { m_opcode : Z; m_data : bytes }.

Definition ws_host : endian := LITTLE_ENDIAN.

(** The two bytes of a head, and the head in two bytes. *)
Definition head_bytes (h : WSFrameHead) : bytes :=
  [h_opcode h + 16 * Z.b2z (h_rsv3 h) + 32 * Z.b2z (h_rsv2 h) + 64 * Z.b2z (h_rsv1 h)
     + 128 * Z.b2z (h_fin h);
   h_payload h + 128 * Z.b2z (h_mask h)].

Definition head_of (bs : bytes) : WSFrameHead :=
  let b0 := nth 0 bs 0 in
  let b1 := nth 1 bs 0 in
  MkHead (b0 mod 16) (Z.testbit b0 4) (Z.testbit b0 5) (Z.testbit b0 6) (Z.testbit b0 7)
    (b1 mod 128) (Z.testbit b1 7).

(** [WSFrameHead::to_string]. *)
Definition head_to_string (h : WSFrameHead) : bytes :=
  str "[WSFrameHead opcode:" ++ dec (h_opcode h) ++ str " rsv3:" ++ dec (Z.b2z (h_rsv3 h))
  ++ str " rsv2:" ++ dec (Z.b2z (h_rsv2 h)) ++ str " rsv1:" ++ dec (Z.b2z (h_rsv1 h))
  ++ str " fin:" ++ dec (Z.b2z (h_fin h)) ++ str " playload:" ++ dec (h_payload h)
  ++ str " mask:" ++ dec (Z.b2z (h_mask h)) ++ str "]".

(** [data[i] ^= mask[i % 4]] from index [i] on. *)
Fixpoint xor_mask (mask : bytes) (i : nat) (data : bytes) : bytes :=
  match data with
  | [] => []
  | x :: data' => Z.lxor x (nth (i mod 4) mask 0) :: xor_mask mask (S i) data'
  end.

(** [std::string::resize]. *)
Definition resize (n : Z) (data : bytes) : bytes := ztake n data ++ zrepeat (n - zlen data) 0.

Section WebSocket.
Context {K : Type} `{!Conn K}.

Abbreviation stream := (@SocketStream K).

(** [read_fixed_size(...) <= 0] and [write_fixed_size(...) <= 0]: no bytes, respectively
    false. *)
Definition read_n (len : Z) (s : stream) : res (option bytes * stream) :=
  let? (n, b, s) := read_fixed_size socket_read len s in
  Ret (if n <=? 0 then None else Some b, s).

Definition write_n (b : bytes) (s : stream) : res (bool * stream) :=
  let? (n, s) := write_fixed_size socket_write b s in
  Ret (negb (n <=? 0), s).

(** ** Control frames *)

Definition control_head (opcode : Z) : WSFrameHead := MkHead opcode false false false true 0 false.

Definition ping (s : stream) : res (Z * stream) :=
  let? (v, s) := write_fixed_size socket_write (head_bytes (control_head PING)) s in
  Ret (v, if v <? 0 then stream_close s else s).

Definition pong (s : stream) : res (Z * stream) :=
  let? (v, s) := write_fixed_size socket_write (head_bytes (control_head PONG)) s in
  Ret (v, if v <=? 0 then stream_close s else s).

(** ** Receiving *)

(** The length that follows the head; none after a failed read. *)
Definition read_length (h : WSFrameHead) (s : stream) : res (option Z * stream) :=
  if h_payload h =? 126 then
    let? (b, s) := read_n 2 s in
    Ret ((fun b => bswap_on_little_endian ws_host 2 (of_mem ws_host b)) <$> b, s)
  else if h_payload h =? 127 then
    let? (b, s) := read_n 8 s in
    Ret ((fun b => bswap_on_little_endian ws_host 8 (of_mem ws_host b)) <$> b, s)
  else Ret (Some (h_payload h), s).

Definition read_mask (h : WSFrameHead) (s : stream) : res (option bytes * stream) :=
  if h_mask h then read_n 4 s else Ret (Some (zrepeat 4 0), s).

(** Leaving the loop: the stream is closed and there is no message. *)
Definition close_frames (s : stream) : res (option WSFrameMessage * stream) :=
  Ret (None, stream_close s).

Definition is_data (opcode : Z) : bool :=
  (opcode =? CONTINUE) || (opcode =? TEXT_FRAME) || (opcode =? BIN_FRAME).

(** The payload of a data frame: the message so far with the unmasked bytes added. *)
Definition read_payload (h : WSFrameHead) (max_size : Z) (data : bytes) (cur_len : Z) (s : stream)
    : res (option (bytes * Z) * stream) :=
  let? (length, s) := read_length h s in
  match length with
  | None => Ret (None, s)
  | Some length =>
      let total := wrap 64 (cur_len + length) in
      if max_size <=? total then Ret (None, s)
      else
        let? (mask, s) := read_mask h s in
        match mask with
        | None => Ret (None, s)
        | Some mask =>
            let data := resize total data in
            if cur_len <? 0 then Undef BufferOverflow
            else
              let? (b, s) := read_n length s in
              match b with
              | None => Ret (None, s)
              | Some b =>
                  let n := to_signed 32 length in
                  let b := if h_mask h then xor_mask mask 0 (ztake n b) ++ zdrop n b else b in
                  Ret (Some (splice cur_len b data, to_signed 32 (cur_len + length)), s)
              end
        end
  end.

(** The loop of [recv_message]; [server] says whether frames have to be masked. *)
Fixpoint recv_loop (server : bool) (max_size : Z) (fuel : nat) (opcode : Z) (data : bytes)
    (cur_len : Z) (s : stream) : res (option WSFrameMessage * stream) :=
  match fuel with
  | O => Undef Diverges
  | S fuel' =>
      let? (b, s) := read_n 2 s in
      match b with
      | None => close_frames s
      | Some b =>
          let h := head_of b in
          if h_opcode h =? PING then
            let? (v, s) := pong s in
            if v <=? 0 then close_frames s
            else recv_loop server max_size fuel' opcode data cur_len s
          else if h_opcode h =? PONG then recv_loop server max_size fuel' opcode data cur_len s
          else if is_data (h_opcode h) then
            if server && negb (h_mask h) then close_frames s
            else
              let? (r, s) := read_payload h max_size data cur_len s in
              match r with
              | None => close_frames s
              | Some (data, cur_len) =>
                  let opcode :=
                    if (opcode =? 0) && negb (h_opcode h =? CONTINUE) then h_opcode h else opcode in
                  if h_fin h then Ret (Some (MkMessage opcode data), s)
                  else recv_loop server max_size fuel' opcode data cur_len s
              end
          else if h_opcode h =? CLOSE then close_frames s
          else recv_loop server max_size fuel' opcode data cur_len s
      end
  end.

Definition session_recv_message (max_size : Z) (fuel : nat) (s : stream)
    : res (option WSFrameMessage * stream) := recv_loop true max_size fuel 0 [] 0 s.

Definition connection_recv_message (max_size : Z) (fuel : nat) (s : stream)
    : res (option WSFrameMessage * stream) := recv_loop false max_size fuel 0 [] 0 s.

(** ** Sending *)

Definition payload_of (size : Z) : Z :=
  if size <? 126 then size else if size <? 65536 then 126 else 127.

(** The length after the head; the longer one is converted with [bswap_on_big_endian]. *)
Definition length_bytes (size : Z) : bytes :=
  if payload_of size =? 126
  then mem_of ws_host 2 (bswap_on_little_endian ws_host 2 (wrap 16 size))
  else if payload_of size =? 127 then mem_of ws_host 8 (bswap_on_big_endian ws_host 8 size)
  else [].

Definition send_head (mask fin : bool) (msg : WSFrameMessage) : WSFrameHead :=
  MkHead (wrap 4 (m_opcode msg)) false false false fin (payload_of (zlen (m_data msg))) mask.

(** The writes of [send_message], of which the first that fails closes the stream. *)
Fixpoint write_all (bs : list bytes) (s : stream) : res (bool * stream) :=
  match bs with
  | [] => Ret (true, s)
  | b :: bs' =>
      let? (ok, s) := write_n b s in
      if ok then write_all bs' s else Ret (false, stream_close s)
  end.

(** The head and, when there is one, the length. *)
Definition head_writes (mask fin : bool) (msg : WSFrameMessage) : list bytes :=
  head_bytes (send_head mask fin msg)
  :: (if payload_of (zlen (m_data msg)) <? 126 then [] else [length_bytes (zlen (m_data msg))]).

Definition session_send_message (msg : WSFrameMessage) (fin : bool) (s : stream)
    : res (Z * stream) :=
  let? (ok, s) := write_all (head_writes false fin msg ++ [m_data msg]) s in
  Ret (if ok then to_signed 32 (zlen (m_data msg) + 2) else -1, s).

(** The client masks the data in place with the bytes of [rand()]; the result has the
    message as it is left. *)
Definition connection_send_message (rand : Z) (msg : WSFrameMessage) (fin : bool) (s : stream)
    : res (Z * WSFrameMessage * stream) :=
  let? (ok, s) := write_all (head_writes true fin msg) s in
  if negb ok then Ret (-1, msg, s)
  else
    let mask := mem_of ws_host 4 rand in
    let data := xor_mask mask 0 (m_data msg) in
    let? (ok, s) := write_all [mask; data] s in
    Ret (if ok then to_signed 32 (zlen data + 2) else -1, MkMessage (m_opcode msg) data, s).

(** ** The handshake *)

(** [handle_shake] on the request that [recv_request] returned: the upgraded request and
    the response that is sent, or none; [out] is what the buffer of [SHA1] held before. *)
Definition handle_shake (evp_sha1 : bytes -> bytes) (out : bytes)
    (lexical_cast : bytes -> option Z) (req : option HTTPRequest.t) : res (option (HTTPRequest.t * HTTPResponse.t)) :=
  match req with
  | None => Ret None
  | Some req =>
      if negb (strcasecmp_eq (HTTPRequest.get_header (str "Upgrade") [] req) (str "websocket"))
      then Ret None
      else if negb (strcasecmp_eq (HTTPRequest.get_header (str "Connection") [] req) (str "Upgrade"))
      then Ret None
      else if negb (GetAs lexical_cast (HTTPRequest.m_headers req) (str "Sec-WebSocket-Version") 0 =? 13)
      then Ret None
      else
        let key := HTTPRequest.get_header (str "Sec-WebSocket-Key") [] req in
        if bool_decide (key = []) then Ret None
        else
          let? v := SHA1 evp_sha1 out (key ++ str "258EAFA5-E914-47DA-95CA-C5AB0DC85B11") in
          let? v := Base64Encode v in
          let req := HTTPRequest.set_websocket true req in
          let rsp := HTTPResponse.new_response (HTTPRequest.m_version req) (HTTPRequest.m_close req) in
          let rsp := HTTPResponse.set_status 101 rsp in
          let rsp := HTTPResponse.set_websocket true rsp in
          let rsp := HTTPResponse.set_reason (str "Websocket Protocol Handshake") rsp in
          let rsp := HTTPResponse.set_header (str "Upgrade") (str "WebSocket") rsp in
          let rsp := HTTPResponse.set_header (str "Connection") (str "Upgrade") rsp in
          let rsp := HTTPResponse.set_header (str "Sec-WebSocket-Accept") v rsp in
          Ret (Some (req, rsp))
  end.
End WebSocket.
