(* ===== verification/WebSocketProps.v ===== *)
(** * Properties of the WebSocket messages

    What one end sends, the other receives: messages in fragments, masked or not, with
    pings in between; and the messages for which that fails. *)

From stdpp Require Import base list numbers strings.
From Stdlib Require Import Lia ZArith.
From S2P Require Import Prelude Endian ByteArray Hash OrdMap Http.
From S2P Require Import Stream StreamProps WebSocket.

(** ** Masks, heads, lengths *)

Lemma xor_mask_involutive m i d : xor_mask m i (xor_mask m i d) = d.
Proof.
  revert i. induction d as [|x d IH]; intros i; [done|]. cbn [xor_mask].
  by rewrite Z.lxor_assoc, Z.lxor_nilpotent, Z.lxor_0_r, IH.
Qed.

Lemma zlen_xor_mask m i d : zlen (xor_mask m i d) = zlen d.
Proof.
  revert i. induction d as [|x d IH]; intros i; [done|]. cbn [xor_mask]. by rewrite !zlen_cons, IH.
Qed.

Lemma xor_mask_nonempty m i d : d <> [] -> xor_mask m i d <> [].
Proof. by destruct d. Qed.

Lemma testbit_by_div a n q : 0 <= n -> a / 2 ^ n = q -> Z.testbit a n = Z.odd q.
Proof. intros Hn <-. rewrite Z.testbit_odd, Z.shiftr_div_pow2 by done. done. Qed.

Lemma head_roundtrip op fin pl mask : 0 <= op < 16 -> 0 <= pl < 128 ->
  head_of (head_bytes (MkHead op false false false fin pl mask)) =
  MkHead op false false false fin pl mask.
Proof.
  intros Hop Hpl. unfold head_of, head_bytes. cbn [nth h_opcode h_rsv3 h_rsv2 h_rsv1 h_fin h_payload h_mask].
  set (b0 := op + _ + _ + _ + _). set (b1 := pl + _).
  assert (b0 = op + 128 * Z.b2z fin) as Hb0 by (unfold b0; cbn; lia). clearbody b0.
  assert (b1 = pl + 128 * Z.b2z mask) as Hb1 by done. clearbody b1.
  rewrite (testbit_by_div b0 4 (8 * Z.b2z fin)), (testbit_by_div b0 5 (4 * Z.b2z fin)),
    (testbit_by_div b0 6 (2 * Z.b2z fin)), (testbit_by_div b0 7 (Z.b2z fin)),
    (testbit_by_div b1 7 (Z.b2z mask));
    [|lia|destruct fin, mask; cbn [Z.b2z] in *; subst; Z.to_euclidean_division_equations; lia..].
  f_equal; destruct fin, mask; cbn [Z.b2z] in *; try done; subst;
    Z.to_euclidean_division_equations; lia.
Qed.

Lemma short_length size : 126 <= size < 65536 ->
  bswap_on_little_endian ws_host 2 (of_mem ws_host (length_bytes size)) = size.
Proof.
  intros Hs. unfold length_bytes, payload_of. destruct (Z.ltb_spec size 126); [lia|].
  destruct (Z.ltb_spec size 65536); [|lia]. change (126 =? 126) with true. cbn match.
  rewrite of_mem_mem_of, (wrap_small 16 size) by (unfold fits; lia).
  change (bswap 2 (wrap 16 (bswap 2 size)) = size).
  rewrite (wrap_small 16) by apply (bswap_fits 2). rewrite bswap_bswap. apply wrap_small. unfold fits. lia.
Qed.

(** The long form is swapped by neither writer nor, so, undone by the reader. *)
Lemma long_length size : 65536 <= size < 2 ^ 32 ->
  exists n, bswap_on_little_endian ws_host 8 (of_mem ws_host (length_bytes size)) = n /\
    2 ^ 32 <= n < 2 ^ 64.
Proof.
  intros Hs. eexists. split; [done|]. unfold length_bytes, payload_of.
  destruct (Z.ltb_spec size 126); [lia|]. destruct (Z.ltb_spec size 65536); [lia|].
  change (127 =? 126) with false. change (127 =? 127) with true. cbn match.
  change (bswap_on_big_endian ws_host 8 size) with size.
  rewrite of_mem_mem_of, wrap_small by (unfold fits; lia).
  change (bswap_on_little_endian ws_host 8 size) with (bswap 8 size).
  split; [|apply (bswap_fits 8)].
  change (bswap 8 size) with (le_val (reverse (le_bytes 8 size))). cbn [le_bytes].
  set (q4 := size / 256 / 256 / 256 / 256).
  assert (q4 = 0) as -> by (unfold q4; Z.to_euclidean_division_equations; lia).
  change (0 / 256) with 0. change (0 mod 256) with 0.
  cbn -[Z.mul Z.add Z.div Z.modulo].
  assert (size = size mod 256 + 256 * ((size / 256) mod 256) + 65536 * ((size / 256 / 256) mod 256)
    + 16777216 * ((size / 256 / 256 / 256) mod 256)) by (Z.to_euclidean_division_equations; lia).
  pose proof (Z.mod_pos_bound size 256). pose proof (Z.mod_pos_bound (size / 256) 256).
  pose proof (Z.mod_pos_bound (size / 256 / 256) 256). pose proof (Z.mod_pos_bound (size / 256 / 256 / 256) 256).
  change ((0 / 256 / 256) mod 256) with 0. change ((0 / 256) mod 256) with 0. lia.
Qed.

Lemma zlen_length_bytes size : 0 <= size ->
  zlen (length_bytes size) =
  if payload_of size =? 126 then 2 else if payload_of size =? 127 then 8 else 0.
Proof.
  intros Hs. unfold length_bytes.
  destruct (payload_of size =? 126); [apply zlen_mem_of|].
  destruct (payload_of size =? 127); [apply zlen_mem_of|done].
Qed.

(** ** Frames over a connection *)

Section Frames.
Context {K : Type} `{!Conn K}.

Abbreviation stream := (@SocketStream K).

(** A connected stream with [i] to be received and [o] sent. *)
Definition conn_at (s : stream) (i o : bytes) : Prop :=
  is_connected s = true /\ s_in s = i /\ s_out s = o.

Lemma read_n_at b rest o s : conn_at s (b ++ rest) o -> b <> [] -> zlen b < 2 ^ 31 ->
  exists s', read_n (zlen b) s = Ret (Some b, s') /\ conn_at s' rest o.
Proof.
  intros (Hc & Hi & Ho) Hb Hl. pose proof (zlen_nonneg b). unfold read_n.
  destruct (read_fixed_size_ok (zlen b) s Hc) as (s' & -> & Hi' & Ho' & Hc').
  { rewrite Hi, zlen_app. pose proof (zlen_nonneg rest). lia. }
  { done. }
  exists s'. cbn [res_bind]. rewrite Hi in *. rewrite ztake_app_l, ztake_all by lia.
  rewrite zdrop_app_r, Z.sub_diag in Hi' by lia. split.
  - destruct (Z.leb_spec (zlen b) 0); [|done]. destruct b; [done|]. rewrite zlen_cons in *.
    pose proof (zlen_nonneg b). lia.
  - split; [done|]. split; [done|congruence].
Qed.

Lemma write_n_at b i o s : conn_at s i o -> b <> [] -> zlen b < 2 ^ 31 ->
  exists s', write_n b s = Ret (true, s') /\ conn_at s' i (o ++ b).
Proof.
  intros (Hc & Hi & Ho) Hb Hl. unfold write_n.
  destruct (write_fixed_size_ok b s Hc Hl) as (s' & -> & Ho' & Hi' & Hc').
  exists s'. cbn [res_bind]. split.
  - destruct (Z.leb_spec (zlen b) 0); [|done]. destruct b; [done|]. rewrite zlen_cons in *.
    pose proof (zlen_nonneg b). lia.
  - split; [done|]. split; congruence.
Qed.

Lemma write_all_at bs : forall i o s,
  conn_at s i o -> Forall (fun b => b <> [] /\ zlen b < 2 ^ 31) bs ->
  exists s', write_all bs s = Ret (true, s') /\ conn_at s' i (o ++ concat bs).
Proof.
  induction bs as [|b bs IH]; intros i o s Hs Hf.
  { exists s. cbn. by rewrite app_nil_r. }
  inversion Hf as [|?? [Hb Hl] Hf']; subst. cbn [write_all concat].
  destruct (write_n_at b i o s Hs Hb Hl) as (s1 & -> & Hs1). cbn [res_bind].
  destruct (IH i (o ++ b) s1 Hs1 Hf') as (s2 & -> & Hs2). exists s2. by rewrite app_assoc.
Qed.

(** A frame on the wire, masked by a client. *)
Definition wire (client : bool) (op : Z) (fin : bool) (rnd : Z) (d : bytes) : bytes :=
  head_bytes (MkHead op false false false fin (payload_of (zlen d)) client)
  ++ length_bytes (zlen d)
  ++ (if client then mem_of ws_host 4 rnd ++ xor_mask (mem_of ws_host 4 rnd) 0 d else d).

Lemma payload_range size : 0 <= size -> 0 <= payload_of size < 128.
Proof.
  intros Hs. unfold payload_of. destruct (Z.ltb_spec size 126); [lia|].
  destruct (size <? 65536); lia.
Qed.

Lemma head_writes_concat mask fin msg :
  0 <= m_opcode msg < 16 -> 
  concat (head_writes mask fin msg) =
  head_bytes (MkHead (m_opcode msg) false false false fin (payload_of (zlen (m_data msg))) mask)
  ++ length_bytes (zlen (m_data msg)).
Proof.
  intros Hop. unfold head_writes, send_head. rewrite wrap_small by (unfold fits; lia). cbn [concat].
  f_equal. destruct (Z.ltb_spec (payload_of (zlen (m_data msg))) 126); cbn [concat]; rewrite ?app_nil_r; [|done].
  unfold length_bytes. destruct (Z.eqb_spec (payload_of (zlen (m_data msg))) 126); [lia|].
  destruct (Z.eqb_spec (payload_of (zlen (m_data msg))) 127); [lia|done].
Qed.

Lemma head_writes_ok mask fin msg :
  Forall (fun b => b <> [] /\ zlen b < 2 ^ 31) (head_writes mask fin msg).
Proof.
  unfold head_writes. constructor; [done|]. pose proof (zlen_nonneg (m_data msg)) as Hz.
  pose proof (zlen_length_bytes _ Hz) as Hl. unfold payload_of in *.
  destruct (Z.ltb_spec (zlen (m_data msg)) 126) as [H|H].
  - destruct (Z.ltb_spec (zlen (m_data msg)) 126); [constructor|lia].
  - destruct (zlen (m_data msg) <? 65536); cbn in Hl |- *; repeat constructor; try lia;
      intros E; rewrite E in Hl; discriminate Hl.
Qed.

(** Sending writes the frame. *)
Lemma connection_send_at rnd msg fin i o s :
  conn_at s i o -> 0 <= m_opcode msg < 16 -> m_data msg <> [] -> zlen (m_data msg) < 2 ^ 31 - 2 ->
  exists s', connection_send_message rnd msg fin s =
    Ret (zlen (m_data msg) + 2,
         MkMessage (m_opcode msg) (xor_mask (mem_of ws_host 4 rnd) 0 (m_data msg)), s') /\
    conn_at s' i (o ++ wire true (m_opcode msg) fin rnd (m_data msg)).
Proof.
  intros Hs Hop Hd Hl. unfold connection_send_message. pose proof (zlen_nonneg (m_data msg)).
  destruct (write_all_at _ i o s Hs (head_writes_ok true fin msg)) as (s1 & -> & Hs1).
  cbn [res_bind negb]. cbn match.
  destruct (write_all_at [mem_of ws_host 4 rnd; xor_mask (mem_of ws_host 4 rnd) 0 (m_data msg)]
    i _ s1 Hs1) as (s2 & -> & Hs2).
  { constructor; [split; [done|by rewrite zlen_mem_of]|]. constructor; [|constructor].
    split; [by apply xor_mask_nonempty|]. rewrite zlen_xor_mask. lia. }
  exists s2. cbn [res_bind]. rewrite zlen_xor_mask, to_signed_small by (unfold sfits; lia).
  split; [done|]. rewrite head_writes_concat in Hs2 by done. unfold wire.
  cbn [concat] in Hs2. by rewrite app_nil_r, <- !app_assoc in Hs2.
Qed.

Lemma session_send_at msg fin rnd i o s :
  conn_at s i o -> 0 <= m_opcode msg < 16 -> m_data msg <> [] -> zlen (m_data msg) < 2 ^ 31 - 2 ->
  exists s', session_send_message msg fin s = Ret (zlen (m_data msg) + 2, s') /\
    conn_at s' i (o ++ wire false (m_opcode msg) fin rnd (m_data msg)).
Proof.
  intros Hs Hop Hd Hl. unfold session_send_message. pose proof (zlen_nonneg (m_data msg)).
  destruct (write_all_at (head_writes false fin msg ++ [m_data msg]) i o s Hs) as (s1 & -> & Hs1).
  { apply Forall_app. split; [apply head_writes_ok|]. constructor; [|constructor]. split; [done|lia]. }
  exists s1. cbn [res_bind]. rewrite to_signed_small by (unfold sfits; lia). split; [done|].
  rewrite concat_app, head_writes_concat in Hs1 by done. cbn [concat] in Hs1.
  unfold wire. by rewrite app_nil_r, <- !app_assoc in Hs1.
Qed.

Lemma ping_at i o s : conn_at s i o ->
  exists s', ping s = Ret (2, s') /\ conn_at s' i (o ++ head_bytes (control_head PING)).
Proof.
  intros (Hc & Hi & Ho). unfold ping.
  destruct (write_fixed_size_ok (head_bytes (control_head PING)) s Hc) as (s' & -> & Ho' & Hi' & Hc'); [done|].
  exists s'. split; [done|]. split; [done|]. split; congruence.
Qed.

Lemma pong_at i o s : conn_at s i o ->
  exists s', pong s = Ret (2, s') /\ conn_at s' i (o ++ head_bytes (control_head PONG)).
Proof.
  intros (Hc & Hi & Ho). unfold pong.
  destruct (write_fixed_size_ok (head_bytes (control_head PONG)) s Hc) as (s' & -> & Ho' & Hi' & Hc'); [done|].
  exists s'. split; [done|]. split; [done|]. split; congruence.
Qed.

Lemma read_length_at op fin mask size rest o s :
  conn_at s (length_bytes size ++ rest) o -> 0 <= size < 65536 ->
  exists s', read_length (MkHead op false false false fin (payload_of size) mask) s = Ret (Some size, s') /\
    conn_at s' rest o.
Proof.
  intros Hs Hz. pose proof (zlen_length_bytes size ltac:(lia)) as Hl. unfold read_length. cbn [h_payload].
  pose proof (short_length size) as Hshort. unfold payload_of in *.
  destruct (Z.ltb_spec size 126) as [H|H].
  - destruct (Z.eqb_spec size 126); [lia|]. destruct (Z.eqb_spec size 127); [lia|].
    exists s. apply zlen_zero in Hl. by rewrite Hl in Hs.
  - destruct (Z.ltb_spec size 65536); [|lia]. cbn in Hl. change (126 =? 126) with true. cbn match.
    destruct (read_n_at (length_bytes size) rest o s Hs) as (s' & Hr & Hs').
    { intros E. by rewrite E in Hl. }
    { lia. }
    rewrite Hl in Hr. rewrite Hr. exists s'. cbn [res_bind fmap option_fmap option_map].
    by rewrite Hshort by lia.
Qed.

Lemma resize_splice (data b : bytes) :
  splice (zlen data) b (resize (zlen data + zlen b) data) = data ++ b.
Proof.
  pose proof (zlen_nonneg b). unfold resize. rewrite ztake_all by lia. unfold splice.
  rewrite ztake_app_l, ztake_all by lia. rewrite zdrop_all; [by rewrite app_nil_r|]. zlen_lia.
Qed.

(** The part of a frame after its head. *)
Definition wire_tail (client : bool) (rnd : Z) (d : bytes) : bytes :=
  length_bytes (zlen d)
  ++ (if client then mem_of ws_host 4 rnd ++ xor_mask (mem_of ws_host 4 rnd) 0 d else d).

Lemma read_payload_at client op fin rnd d max_size data rest o s :
  conn_at s (wire_tail client rnd d ++ rest) o -> d <> [] -> zlen d < 65536 ->
  zlen data + zlen d < max_size -> max_size <= 2 ^ 31 ->
  exists s', read_payload (MkHead op false false false fin (payload_of (zlen d)) client) max_size data
      (zlen data) s = Ret (Some (data ++ d, zlen data + zlen d), s') /\
    conn_at s' rest o.
Proof.
  intros Hs Hd Hz Hmax H31. pose proof (zlen_nonneg data). pose proof (zlen_nonneg d).
  unfold wire_tail in Hs. rewrite <- app_assoc in Hs. unfold read_payload.
  destruct (read_length_at op fin client (zlen d) _ o s Hs) as (s1 & -> & Hs1); [lia|].
  cbn [res_bind]. rewrite wrap_small by (unfold fits; lia).
  destruct (Z.leb_spec max_size (zlen data + zlen d)); [lia|].
  unfold read_mask. cbn [h_mask]. destruct (Z.ltb_spec (zlen data) 0); [lia|].
  rewrite !to_signed_small by (unfold sfits; lia).
  destruct client.
  - rewrite <- app_assoc in Hs1.
    destruct (read_n_at (mem_of ws_host 4 rnd) _ o s1 Hs1) as (s2 & Hr2 & Hs2); [done|by rewrite zlen_mem_of|].
    rewrite zlen_mem_of in Hr2. change (Z.of_nat 4) with 4 in Hr2. rewrite Hr2. cbn [res_bind].
    destruct (read_n_at (xor_mask (mem_of ws_host 4 rnd) 0 d) rest o s2 Hs2) as (s3 & Hr3 & Hs3);
      [by apply xor_mask_nonempty|rewrite zlen_xor_mask; lia|].
    rewrite zlen_xor_mask in Hr3. rewrite Hr3. cbn [res_bind]. exists s3.
    rewrite ztake_all, zdrop_all, app_nil_r, xor_mask_involutive by (rewrite zlen_xor_mask; lia).
    by rewrite resize_splice.
  - cbn [res_bind]. destruct (read_n_at d rest o s1 Hs1) as (s2 & -> & Hs2); [done|lia|].
    cbn [res_bind]. exists s2. by rewrite resize_splice.
Qed.

(** One round of the receiver on a data frame, and on a ping. *)
Lemma recv_frame server client op fin rnd d max_size fuel opc data rest o s :
  conn_at s (wire client op fin rnd d ++ rest) o -> (server = true -> client = true) ->
  is_data op = true -> d <> [] -> zlen d < 65536 ->
  zlen data + zlen d < max_size -> max_size <= 2 ^ 31 ->
  exists s', conn_at s' rest o /\
    recv_loop server max_size (S fuel) opc data (zlen data) s =
    let opc := if (opc =? 0) && negb (op =? CONTINUE) then op else opc in
    if fin then Ret (Some (MkMessage opc (data ++ d)), s')
    else recv_loop server max_size fuel opc (data ++ d) (zlen (data ++ d)) s'.
Proof.
  intros Hs Hsc Hop Hd Hz Hmax H31. pose proof (zlen_nonneg d).
  assert (op = 0 \/ op = 1 \/ op = 2) as Hops.
  { unfold is_data, CONTINUE, TEXT_FRAME, BIN_FRAME in Hop. lia. }
  unfold wire in Hs. rewrite <- app_assoc in Hs. cbn [recv_loop].
  destruct (read_n_at _ _ o s Hs) as (s1 & Hr & Hs1); [done|done|].
  change (read_n 2 s) with (read_n (zlen (head_bytes
    (MkHead op false false false fin (payload_of (zlen d)) client))) s). rewrite Hr. cbn [res_bind].
  rewrite head_roundtrip by (lia || by apply payload_range). cbn [h_opcode h_mask h_fin].
  destruct (Z.eqb_spec op PING) as [->|]; [unfold PING in *; lia|].
  destruct (Z.eqb_spec op PONG) as [->|]; [unfold PONG in *; lia|]. rewrite Hop.
  assert (server && negb client = false) as -> by (destruct server; [by rewrite Hsc|done]).
  destruct (read_payload_at client op fin rnd d max_size data rest o s1) as (s2 & -> & Hs2); try done.
  exists s2. split; [done|]. cbn [res_bind]. by rewrite zlen_app.
Qed.

Lemma recv_ping server max_size fuel opc data cur rest o s :
  conn_at s (head_bytes (control_head PING) ++ rest) o ->
  exists s', conn_at s' rest (o ++ head_bytes (control_head PONG)) /\
    recv_loop server max_size (S fuel) opc data cur s = recv_loop server max_size fuel opc data cur s'.
Proof.
  intros Hs. cbn [recv_loop]. destruct (read_n_at _ _ o s Hs) as (s1 & Hr & Hs1); [done|done|].
  change (read_n 2 s) with (read_n (zlen (head_bytes (control_head PING))) s). rewrite Hr. cbn [res_bind].
  change (head_of (head_bytes (control_head PING))) with (control_head PING).
  cbn [control_head h_opcode]. change (PING =? PING) with true. cbn match.
  destruct (pong_at rest o s1 Hs1) as (s2 & -> & Hs2). by exists s2.
Qed.

(** ** Messages in fragments *)

(** A fragment: the pings sent before it, the value of [rand()], the data. *)
Record frag := MkFrag { f_pings : nat; f_rnd : Z; f_part : bytes }.

Fixpoint send_pings (n : nat) (s : stream) : res stream :=
  match n with
  | O => Ret s
  | S n' => let? (_, s) := ping s in send_pings n' s
  end.

(** Sending a message in fragments: the first carries the opcode, the last ends it. *)
Fixpoint send_frags (client : bool) (op : Z) (fs : list frag) (s : stream) : res stream :=
  match fs with
  | [] => Ret s
  | f :: fs' =>
      let? s := send_pings (f_pings f) s in
      let msg := MkMessage op (f_part f) in
      let fin := match fs' with [] => true | _ :: _ => false end in
      let? s :=
        (if client
         then let? (_, _, s) := connection_send_message (f_rnd f) msg fin s in Ret s
         else let? (_, s) := session_send_message msg fin s in Ret s) in
      send_frags client CONTINUE fs' s
  end.

Definition pings (n : nat) (opcode : Z) : bytes :=
  concat (replicate n (head_bytes (control_head opcode))).

Fixpoint wires (client : bool) (op : Z) (fs : list frag) : bytes :=
  match fs with
  | [] => []
  | f :: fs' =>
      pings (f_pings f) PING
      ++ wire client op (match fs' with [] => true | _ :: _ => false end) (f_rnd f) (f_part f)
      ++ wires client CONTINUE fs'
  end.

Definition frag_ok (f : frag) : Prop := f_part f <> [] /\ zlen (f_part f) < 65536.
Definition all_parts (fs : list frag) : bytes := concat (map f_part fs).
Definition all_pings (fs : list frag) : nat := sum_list (map f_pings fs).

Lemma send_pings_at n : forall i o s, conn_at s i o ->
  exists s', send_pings n s = Ret s' /\ conn_at s' i (o ++ pings n PING).
Proof.
  induction n as [|n IH]; intros i o s Hs; cbn [send_pings].
  { exists s. by rewrite app_nil_r. }
  destruct (ping_at i o s Hs) as (s1 & -> & Hs1). cbn [res_bind].
  destruct (IH i _ s1 Hs1) as (s2 & -> & Hs2). exists s2. by rewrite <- app_assoc in Hs2.
Qed.

Lemma send_frags_at client fs : forall op i o s,
  conn_at s i o -> 0 <= op < 16 -> Forall frag_ok fs ->
  exists s', send_frags client op fs s = Ret s' /\ conn_at s' i (o ++ wires client op fs).
Proof.
  induction fs as [|f fs IH]; intros op i o s Hs Hop Hf.
  { exists s. cbn. by rewrite app_nil_r. }
  inversion Hf as [|?? [Hd Hz] Hf']; subst. cbn [send_frags wires].
  destruct (send_pings_at (f_pings f) i o s Hs) as (s1 & -> & Hs1). cbn [res_bind].
  set (fin := match fs with [] => true | _ :: _ => false end).
  set (msg := MkMessage op (f_part f)).
  assert (exists s2, (if client
      then let? (_, _, s) := connection_send_message (f_rnd f) msg fin s1 in Ret s
      else let? (_, s) := session_send_message msg fin s1 in Ret s) = Ret s2 /\
    conn_at s2 i ((o ++ pings (f_pings f) PING) ++ wire client op fin (f_rnd f) (f_part f)))
    as (s2 & -> & Hs2).
  { destruct client.
    - destruct (connection_send_at (f_rnd f) msg fin i _ s1 Hs1) as (s2 & -> & Hs2);
        [done|done|cbn; lia|]. by exists s2.
    - destruct (session_send_at msg fin (f_rnd f) i _ s1 Hs1) as (s2 & -> & Hs2);
        [done|done|cbn; lia|]. by exists s2. }
  cbn [res_bind]. destruct (IH CONTINUE i _ s2 Hs2) as (s3 & -> & Hs3); [done|done|].
  exists s3. by rewrite <- !app_assoc in Hs3.
Qed.

Lemma recv_pings server max_size n : forall fuel opc data cur rest o s,
  conn_at s (pings n PING ++ rest) o ->
  exists s', conn_at s' rest (o ++ pings n PONG) /\
    recv_loop server max_size (n + fuel) opc data cur s = recv_loop server max_size fuel opc data cur s'.
Proof.
  induction n as [|n IH]; intros fuel opc data cur rest o s Hs.
  { exists s. by rewrite app_nil_r. }
  unfold pings in Hs. cbn [replicate concat] in Hs. rewrite <- app_assoc in Hs.
  destruct (recv_ping server max_size (n + fuel) opc data cur _ o s Hs) as (s1 & Hs1 & E).
  destruct (IH fuel opc data cur rest _ s1 Hs1) as (s2 & Hs2 & E2). exists s2.
  rewrite <- app_assoc in Hs2. split; [done|]. cbn [Nat.add]. congruence.
Qed.

Lemma recv_frags server client max_size fs : forall op opc data rest o s extra,
  conn_at s (wires client op fs ++ rest) o -> (server = true -> client = true) ->
  is_data op = true -> fs <> [] -> Forall frag_ok fs ->
  zlen data + zlen (all_parts fs) < max_size -> max_size <= 2 ^ 31 ->
  exists s', conn_at s' rest (o ++ pings (all_pings fs) PONG) /\
    recv_loop server max_size (length fs + all_pings fs + extra) opc data (zlen data) s =
    Ret (Some (MkMessage (if (opc =? 0) && negb (op =? CONTINUE) then op else opc)
                 (data ++ all_parts fs)), s').
Proof.
  induction fs as [|f fs IH]; intros op opc data rest o s extra Hs Hsc Hop Hne Hf Hmax H31; [done|].
  inversion Hf as [|?? [Hd Hz] Hf']; subst. cbn [wires] in Hs. rewrite <- !app_assoc in Hs.
  change (all_parts (f :: fs)) with (f_part f ++ all_parts fs) in *.
  change (all_pings (f :: fs)) with (f_pings f + all_pings fs)%nat in *.
  rewrite zlen_app in Hmax. pose proof (zlen_nonneg (all_parts fs)).
  replace (length (f :: fs) + (f_pings f + all_pings fs) + extra)%nat
    with (f_pings f + S (length fs + all_pings fs + extra))%nat by (cbn; lia).
  destruct (recv_pings server max_size (f_pings f) (S (length fs + all_pings fs + extra)) opc data
    (zlen data) _ o s Hs) as (s1 & Hs1 & ->).
  destruct (recv_frame server client op _ (f_rnd f) (f_part f) max_size
    (length fs + all_pings fs + extra) opc data _ _ s1 Hs1) as (s2 & Hs2 & ->); try done; [lia|].
  set (opc' := if (opc =? 0) && negb (op =? CONTINUE) then op else opc).
  destruct fs as [|f2 fs].
  - exists s2. cbn. rewrite app_nil_r, Nat.add_0_r. by split.
  - destruct (IH CONTINUE opc' (data ++ f_part f) rest _ s2 extra Hs2) as (s3 & Hs3 & E); try done.
    { rewrite zlen_app. lia. }
    exists s3. split.
    { unfold pings in *. by rewrite <- app_assoc, <- concat_app, <- replicate_add in Hs3. }
    cbn zeta. rewrite E, <- app_assoc. change (CONTINUE =? CONTINUE) with true.
    by rewrite andb_false_r.
Qed.

(** The receiver at the other end of a client, respectively of a server. *)
Definition peer_recv (client : bool) : Z -> nat -> stream -> res (option WSFrameMessage * stream) :=
  if client then session_recv_message else connection_recv_message.

(** C9: Round trip of messages: a message sent in fragments, each of 1 to 65535 bytes, by
    either end, with pings in between, is received by the other end as one message with the
    opcode of the first fragment and the data of all, provided it is shorter than the
    maximal size; each ping was answered, what follows the message is left unread, and the
    receiver needs one round per frame.  The connection may move the bytes in any pieces. *)
Theorem ws_roundtrip (client : bool) (op : Z) (fs : list frag) (ss : stream) (rest : bytes)
    (max_size : Z) (extra : nat) :
  is_connected ss = true -> op = TEXT_FRAME \/ op = BIN_FRAME ->
  fs <> [] -> Forall frag_ok fs -> zlen (all_parts fs) < max_size <= 2 ^ 31 ->
  exists ss' w, send_frags client op fs ss = Ret ss' /\ s_out ss' = s_out ss ++ w /\
    forall sr, is_connected sr = true -> s_in sr = w ++ rest ->
    exists sr',
      peer_recv client max_size (length fs + all_pings fs + extra) sr =
        Ret (Some (MkMessage op (all_parts fs)), sr') /\
      s_in sr' = rest /\ s_out sr' = s_out sr ++ pings (all_pings fs) PONG.
Proof.
  intros Hc Hop Hne Hf [Hmax H31].
  destruct (send_frags_at client fs op (s_in ss) (s_out ss) ss) as (ss' & Hsend & Hs'); [done| |done|].
  { unfold TEXT_FRAME, BIN_FRAME in Hop. lia. }
  exists ss', (wires client op fs). split; [done|]. split; [apply Hs'|].
  intros sr Hcr Hir.
  destruct (recv_frags client client max_size fs op 0 [] rest (s_out sr) sr extra) as (sr' & Hs & E);
    try done; [destruct Hop as [-> | ->]; done|].
  exists sr'. split; [|destruct Hs as (_ & -> & ->); done].
  destruct client; unfold peer_recv, session_recv_message, connection_recv_message;
    change 0 with (zlen (@nil Z)) at 2; rewrite E; destruct Hop as [-> | ->]; reflexivity.
Qed.

Lemma nonempty_long (d : bytes) : 65536 <= zlen d -> d <> [].
Proof. intros Hd ->. by vm_compute in Hd. Qed.

Lemma write_n_empty s : write_n [] s = Ret (false, s).
Proof. reflexivity. Qed.

Lemma close_disconnects s : is_connected (stream_close s) = false.
Proof.
  unfold stream_close, is_connected. destruct (m_socket s) as [k|] eqn:E; [|by rewrite E].
  apply close_down.
Qed.

Lemma recv_too_long server client op fin rnd d max_size fuel rest o s :
  conn_at s (wire client op fin rnd d ++ rest) o -> (server = true -> client = true) ->
  is_data op = true -> 65536 <= zlen d < 2 ^ 32 -> max_size < 2 ^ 32 ->
  exists s', recv_loop server max_size (S fuel) 0 [] 0 s = Ret (None, s') /\ is_connected s' = false.
Proof.
  intros Hs Hsc Hop Hz Hmax.
  assert (op = 0 \/ op = 1 \/ op = 2) as Hops.
  { unfold is_data, CONTINUE, TEXT_FRAME, BIN_FRAME in Hop. lia. }
  unfold wire in Hs. rewrite <- app_assoc in Hs. cbn [recv_loop].
  destruct (read_n_at _ _ o s Hs) as (s1 & Hr & Hs1); [done|done|].
  change (read_n 2 s) with (read_n (zlen (head_bytes
    (MkHead op false false false fin (payload_of (zlen d)) client))) s). rewrite Hr. cbn [res_bind].
  rewrite head_roundtrip by (lia || apply payload_range; lia). cbn [h_opcode h_mask h_fin].
  destruct (Z.eqb_spec op PING) as [->|]; [unfold PING in *; lia|].
  destruct (Z.eqb_spec op PONG) as [->|]; [unfold PONG in *; lia|]. rewrite Hop.
  assert (server && negb client = false) as -> by (destruct server; [by rewrite Hsc|done]).
  unfold read_payload, read_length. cbn [h_payload].
  pose proof (zlen_length_bytes (zlen d) ltac:(lia)) as Hl.
  destruct (long_length (zlen d) Hz) as (big & Hn & Hb).
  assert (payload_of (zlen d) = 127) as Hp.
  { unfold payload_of. destruct (Z.ltb_spec (zlen d) 126); [lia|]. by destruct (Z.ltb_spec (zlen d) 65536); [lia|]. }
  rewrite Hp in *. cbn in Hl. change (127 =? 126) with false. change (127 =? 127) with true. cbn match.
  rewrite <- app_assoc in Hs1.
  destruct (read_n_at (length_bytes (zlen d)) _ o s1 Hs1) as (s2 & Hr2 & Hs2).
  { intros E. by rewrite E in Hl. }
  { lia. }
  rewrite Hl in Hr2. rewrite Hr2. cbn [res_bind fmap option_fmap option_map]. rewrite Hn, Z.add_0_l.
  rewrite wrap_small by (unfold fits; lia). destruct (Z.leb_spec max_size big); [|lia].
  exists (stream_close s2). split; [done|]. apply close_disconnects.
Qed.

(** The messages that do not get through: an empty message is never sent, [send_message]
    returns -1 and closes the connection; a message of 65536 bytes or more is sent with its
    length in the wrong byte order, so that the other end, whatever its maximal size, takes
    it for one of at least four gigabytes and closes the connection. *)
Theorem ws_refused (client : bool) (op : Z) (rnd : Z) (d : bytes) (ss : stream) (rest : bytes)
    (max_size : Z) (fuel : nat) :
  is_connected ss = true -> op = TEXT_FRAME \/ op = BIN_FRAME -> max_size < 2 ^ 32 ->
  (exists ss', session_send_message (MkMessage op []) true ss = Ret (-1, ss') /\
     is_connected ss' = false) /\
  (exists msg ss', connection_send_message rnd (MkMessage op []) true ss = Ret (-1, msg, ss') /\
     is_connected ss' = false) /\
  (65536 <= zlen d < 2 ^ 31 - 2 ->
   exists ss' w, send_frags client op [MkFrag 0 rnd d] ss = Ret ss' /\ s_out ss' = s_out ss ++ w /\
     forall sr, is_connected sr = true -> s_in sr = w ++ rest ->
     exists sr', peer_recv client max_size (S fuel) sr = Ret (None, sr') /\ is_connected sr' = false).
Proof.
  intros Hc Hop Hmax.
  assert (conn_at ss (s_in ss) (s_out ss)) as Hs by done.
  assert (0 <= op < 16) as Hr by (unfold TEXT_FRAME, BIN_FRAME in Hop; lia).
  assert (is_data op = true) as Hd by (destruct Hop as [-> | ->]; done).
  split; [|split].
  - unfold session_send_message, head_writes. cbn [m_data app]. change (zlen []) with 0.
    change (payload_of 0 <? 126) with true. cbn match. cbn [app write_all].
    destruct (write_n_at (head_bytes (send_head false true (MkMessage op []))) _ _ ss Hs)
      as (s1 & -> & Hs1); [done|done|]. cbn [res_bind]. rewrite write_n_empty. cbn [res_bind].
    eexists. split; [reflexivity|]. apply close_disconnects.
  - unfold connection_send_message, head_writes. cbn [m_data]. change (zlen []) with 0.
    change (payload_of 0 <? 126) with true. cbn match. cbn [write_all].
    destruct (write_n_at (head_bytes (send_head true true (MkMessage op []))) _ _ ss Hs)
      as (s1 & -> & Hs1); [done|done|]. cbn [res_bind negb].
    destruct (write_n_at (mem_of ws_host 4 rnd) _ _ s1 Hs1) as (s2 & -> & Hs2); [done|done|].
    cbn [res_bind xor_mask]. rewrite write_n_empty. cbn [res_bind].
    eexists _, _. split; [reflexivity|]. apply close_disconnects.
  - intros Hz. assert (exists ss', send_frags client op [MkFrag 0 rnd d] ss = Ret ss' /\
      conn_at ss' (s_in ss) (s_out ss ++ wire client op true rnd d)) as (ss' & Hsend & Hs').
    { cbn [send_frags f_pings send_pings res_bind f_rnd f_part]. destruct client.
      - destruct (connection_send_at rnd (MkMessage op d) true _ _ ss Hs) as (s1 & -> & Hs1);
          [done|apply (nonempty_long d); lia|cbn; lia|]. by exists s1.
      - destruct (session_send_at (MkMessage op d) true rnd _ _ ss Hs) as (s1 & -> & Hs1);
          [done|apply (nonempty_long d); lia|cbn; lia|]. by exists s1. }
    exists ss', (wire client op true rnd d). split; [done|]. split; [apply Hs'|].
    intros sr Hcr Hir.
    destruct (recv_too_long client client op true rnd d max_size fuel rest (s_out sr) sr)
      as (sr' & E & Hdown); try done; [lia|].
    exists sr'. split; [|done]. by destruct client.
Qed.
End Frames.

Lemma ws_roundtrip_witness :
  let up := MkStream (Some (MkPipe true 4 [] [])) true in
  exists ss' w,
    send_frags true TEXT_FRAME [MkFrag 0 305419896 (str "hello, "); MkFrag 1 7 (str "tiger")] up = Ret ss' /\
    s_out ss' = w /\
    exists sr', peer_recv true 1024 5 (MkStream (Some (MkPipe true 1 (w ++ [255]) [])) true) =
        Ret (Some (MkMessage TEXT_FRAME (str "hello, tiger")), sr') /\
      s_in sr' = [255] /\ s_out sr' = [138; 0].
Proof.
  intros up.
  destruct (ws_roundtrip true TEXT_FRAME
    [MkFrag 0 305419896 (str "hello, "); MkFrag 1 7 (str "tiger")] up [255] 1024 2)
    as (ss' & w & H1 & H2 & H3).
  { reflexivity. }
  { by left. }
  { discriminate. }
  { repeat constructor; discriminate. }
  { split; [reflexivity|discriminate]. }
  exists ss', w. split; [exact H1|]. split; [exact H2|].
  destruct (H3 (MkStream (Some (MkPipe true 1 (w ++ [255]) [])) true)) as (sr' & H4 & H5 & H6);
    [reflexivity|reflexivity|].
  exists sr'. split; [exact H4|]. split; [exact H5|exact H6].
Defined.

Lemma ws_refused_witness :
  let up := MkStream (Some (MkPipe true 4 [] [])) true in
  exists ss', session_send_message (MkMessage TEXT_FRAME []) true up = Ret (-1, ss') /\
    is_connected ss' = false.
Proof.
  intros up. apply (ws_refused true TEXT_FRAME 7 [] up [] 1024 3);
    [reflexivity|by left|reflexivity].
Defined.
