(* ===== verification/WsServer.v ===== *)
(** * WebSocket servlets, server and client ([servers/http/ws_servlet.h], [ws_servlet.cc],
      [ws_server.cc], [ws_connection.cc])

    The dispatch of WebSocket servlets, the whole handshake of a session, the loop of the
    server over the messages of a client, and the connecting of a client.  The callbacks are
    the user's and are parameters. *)

From stdpp Require Import base list numbers strings gmap.
From Stdlib Require Import Lia ZArith.
From S2P Require Import Prelude Endian Hash OrdMap Http HttpParser Servlet Stream Zlib.
From S2P Require Import Address HttpSession Uri UriParser HttpConnection WebSocket.

(** ** The dispatch *)

Definition new_WSServletDispatch : ServletDispatch := new_ServletDispatch.

Definition ws_add_servlet (url : bytes) (servlet : option Servlet) : ServletDispatch -> ServletDispatch :=
  add_servlet url servlet.

Definition ws_add_servlet_fn (url : bytes) (cb connect_cb close_cb : option Z) : ServletDispatch -> ServletDispatch :=
  add_servlet url (Some (FunctionWSServlet cb connect_cb close_cb)).

Definition ws_add_glob_servlet (fuel : nat) (url : bytes) (servlet : option Servlet)
    : ServletDispatch -> res ServletDispatch := add_glob_servlet fuel url servlet.

Definition ws_add_glob_servlet_fn (fuel : nat) (url : bytes) (cb connect_cb close_cb : option Z)
    : ServletDispatch -> res ServletDispatch :=
  add_glob_servlet fuel url (Some (FunctionWSServlet cb connect_cb close_cb)).

(** [dynamic_pointer_cast<WSServlet>]. *)
Definition as_ws_servlet (slt : option Servlet) : option Servlet :=
  match slt with
  | Some (FunctionWSServlet _ _ _) | Some (OtherWSServlet _) => slt
  | _ => None
  end.

Definition get_ws_servlet (fnmatch : bytes -> bytes -> bool) (fuel : nat) (url : bytes) (d : ServletDispatch)
    : res (option Servlet) :=
  let? slt := get_matched_servlet fnmatch fuel url d in
  Ret (as_ws_servlet slt).

(** ** The servlets *)

(** What the code of the user does when it is called: on the callbacks of a
    [FunctionWSServlet] and on the methods of a subclass of its own.  It has a state of its
    own and may change the request and use the session. *)
Class WSUser (K U : Type) := {
  connect_cb : Z -> meth (U * HTTPRequest.t * @SocketStream K) Z;
  close_cb : Z -> meth (U * HTTPRequest.t * @SocketStream K) Z;
  handle_cb : Z -> WSFrameMessage -> meth (U * HTTPRequest.t * @SocketStream K) Z;
  user_connect : Z -> meth (U * HTTPRequest.t * @SocketStream K) Z;
  user_close : Z -> meth (U * HTTPRequest.t * @SocketStream K) Z;
  user_handle : Z -> WSFrameMessage -> meth (U * HTTPRequest.t * @SocketStream K) Z }.

Section Server.
Context {K U : Type} {conn : Conn K} {user : WSUser K U} {machine : RequestMachine}.

Abbreviation session := (@SocketStream K).
Abbreviation call := (meth (U * HTTPRequest.t * session)).

(** A callback that may not be set; its result is dropped. *)
Definition call_if (cb : option Z) (f : Z -> call Z) : call Z :=
  match cb with
  | Some cb => let! _ := f cb in ret 0
  | None => ret 0
  end.

Definition on_connect (slt : Servlet) : call Z :=
  match slt with
  | FunctionWSServlet _ m_connect _ => call_if m_connect connect_cb
  | OtherWSServlet id => user_connect id
  | _ => fun x => (Undef NullDeref, x)
  end.

Definition on_close (slt : Servlet) : call Z :=
  match slt with
  | FunctionWSServlet _ _ m_close => call_if m_close close_cb
  | OtherWSServlet id => user_close id
  | _ => fun x => (Undef NullDeref, x)
  end.

Definition ws_handle (slt : Servlet) (msg : WSFrameMessage) : call Z :=
  match slt with
  | FunctionWSServlet m_handle _ _ => call_if m_handle (fun cb => handle_cb cb msg)
  | OtherWSServlet id => user_handle id msg
  | _ => fun x => (Undef NullDeref, x)
  end.

(** ** The handshake of a session *)

Context (buff_size : Z) (lexical_cast : bytes -> option Z) (max_size : Z) (junk1 junk2 : Z).
(** SHA-1, and what its buffer held before. *)
Context (evp_sha1 : bytes -> bytes) (out : bytes).

Definition session_handle_shake (rounds : nat) : meth session (option HTTPRequest.t) :=
  let! req := recv_request buff_size lexical_cast max_size junk1 junk2 rounds in
  match handle_shake evp_sha1 out lexical_cast req with
  | Ret (Some (req, rsp)) => let! _ := send_response rsp in ret (Some req)
  | Ret None => ret None
  | Throw e => fun s => (Throw e, s)
  | Undef u => fun s => (Undef u, s)
  end.

(** ** The server *)

Context (fnmatch : bytes -> bytes -> bool) (msg_max_size : Z).

Record WSServer := MkWSServer { ws_dispatch : ServletDispatch }.

Definition new_WSServer : WSServer := MkWSServer new_WSServletDispatch.

(** [recv_message] of the session, with the request at hand. *)
Definition next_message (rounds : nat) : call (option WSFrameMessage) :=
  fun '(u, req, s) =>
    match session_recv_message msg_max_size rounds s with
    | Ret (m, s) => (Ret m, (u, req, s))
    | Throw e => (Throw e, (u, req, s))
    | Undef b => (Undef b, (u, req, s))
    end.

(** The messages of one client; [fuel] bounds their number, [rounds] the frames of one. *)
Fixpoint message_loop (fuel rounds : nat) (slt : Servlet) : call unit :=
  match fuel with
  | O => fun x => (Undef Diverges, x)
  | S fuel' =>
      let! msg := next_message rounds in
      match msg with
      | None => ret tt
      | Some msg =>
          let! rt := ws_handle slt msg in
          if rt =? 0 then message_loop fuel' rounds slt else ret tt
      end
  end.

(** The part of [handle_client] with a servlet. *)
Definition ws_serve (fuel rounds : nat) (slt : Servlet) : call unit :=
  let! rt := on_connect slt in
  if negb (rt =? 0) then ret tt
  else
    let! _ := message_loop fuel rounds slt in
    let! _ := on_close slt in
    ret tt.

(** [handle_client]: the session owns the socket and is closed at the end. *)
Definition ws_handle_client (fuel rounds : nat) (srv : WSServer) (client : K) (u : U) : res unit * (U * session) :=
  match session_handle_shake rounds (MkStream (Some client) true) with
  | (Ret None, s) => (Ret tt, (u, stream_close s))
  | (Ret (Some header), s) =>
      match get_ws_servlet fnmatch rounds (HTTPRequest.m_path header) (ws_dispatch srv) with
      | Ret None => (Ret tt, (u, stream_close s))
      | Ret (Some slt) =>
          match ws_serve fuel rounds slt (u, header, s) with
          | (Ret _, (u, _, s)) => (Ret tt, (u, stream_close s))
          | (Throw e, (u, _, s)) => (Throw e, (u, s))
          | (Undef b, (u, _, s)) => (Undef b, (u, s))
          end
      | Throw e => (Throw e, (u, s))
      | Undef b => (Undef b, (u, s))
      end
  | (Throw e, s) => (Throw e, (u, s))
  | (Undef b, s) => (Undef b, (u, s))
  end.
End Server.

(** ** The client *)

Section Client.
Context {K : Type} {conn : Conn K} {machine : ResponseMachine} {ZS : Type} {zlib : Zlib ZS}.
Context (buffer_size : Z) (lexical_cast : bytes -> option Z) (max_size : Z) (junk : Z).
Context {W : Type}.
Context (host : endian) (getaddrinfo : bytes -> option bytes -> option (list sockaddr)).
Context (dial : bool -> Address -> W -> option K * W) (set_recv_timeout : Z -> K -> K).
(** The configured key. *)
Context (sec_key : bytes).

(** The headers of the caller: whether a connection header and a host that is not empty are
    among them. *)
Fixpoint put_ws_headers (headers : header_map) (has_host has_conn : bool) (req : HTTPRequest.t)
    : bool * bool * HTTPRequest.t :=
  match headers with
  | [] => (has_host, has_conn, req)
  | (k, v) :: headers =>
      let is_conn := strcasecmp_eq k (str "Connection") in
      let has_host' :=
        if negb is_conn && negb has_host && strcasecmp_eq k (str "Host")
        then negb (bool_decide (v = [])) else has_host in
      put_ws_headers headers has_host' (has_conn || is_conn) (HTTPRequest.set_header k v req)
  end.

(** The request for the upgrade. *)
Definition make_ws_request (uri : URI) (headers : header_map) : res HTTPRequest.t :=
  let req := HTTPRequest.new_request 17 true in
  let req := HTTPRequest.set_path (get_path uri) req in
  let req := HTTPRequest.set_query (m_query uri) req in
  let req := HTTPRequest.set_fragment (m_fragment uri) req in
  let req := HTTPRequest.set_method GET req in
  let '(has_host, has_conn, req) := put_ws_headers headers false false req in
  let req := HTTPRequest.set_websocket true req in
  let req := if has_conn then req else HTTPRequest.set_header (str "Connection") (str "Upgrade") req in
  let req := HTTPRequest.set_header (str "Upgrade") (str "websocket") req in
  let req := HTTPRequest.set_header (str "Sec-WebSocket-Version") (str "13") req in
  let? key := Base64Decode sec_key in
  let req := HTTPRequest.set_header (str "Sec-WebSocket-Key") key req in
  Ret (if has_host then req else HTTPRequest.set_header (str "Host") (m_host uri) req).

(** The exchange on the new connection, and whether it may be used. *)
Definition upgrade (fuel : nat) (req : HTTPRequest.t) : meth (@SocketStream K) (HTTPResult * bool) :=
  let! rt := send_request req in
  if rt =? 0 then ret (MkResult None SEND_CLOSE_BY_PEER, false)
  else if rt <? 0 then ret (MkResult None SEND_SOCKET_ERROR, false)
  else
    let! r := recv_response (ZS := ZS) buffer_size lexical_cast max_size junk fuel in
    match r with
    | None => ret (MkResult None TIMEOUT, false)
    | Some r =>
        if negb (HTTPResponse.m_status r =? 101) then ret (MkResult None INVALID_PROTOCOLS, false)
        else ret (MkResult (Some r) RESULT_OK, true)
    end.

(** [Create(uri, timeout_ms, headers)]: the result with the connection, or without one when
    the connection that was made is destroyed again. *)
Definition ws_Create (fuel : nat) (uri : URI) (timeout_ms : Z) (headers : header_map) (w : W)
    : res (HTTPResult * option (@SocketStream K)) * W :=
  match create_address host getaddrinfo uri with
  | None => (Ret (MkResult None INVALID_HOST, None), w)
  | Some addr =>
      match dial false addr w with
      | (None, w) => (Ret (MkResult None CONNECT_FAIL, None), w)
      | (Some k, w) =>
          match make_ws_request uri headers with
          | Ret req =>
              match upgrade fuel req (MkStream (Some (set_recv_timeout timeout_ms k)) true) with
              | (Ret (r, kept), s) => (Ret (r, if kept then Some s else None), w)
              | (Throw e, _) => (Throw e, w)
              | (Undef u, _) => (Undef u, w)
              end
          | Throw e => (Throw e, w)
          | Undef u => (Undef u, w)
          end
      end
  end.

Definition ws_Create_url (fuel : nat) (url : bytes) (timeout_ms : Z) (headers : header_map) (w : W)
    : res (HTTPResult * option (@SocketStream K)) * W :=
  match URI_Create url with
  | Ret None => (Ret (MkResult None INVALID_URL, None), w)
  | Ret (Some uri) => ws_Create fuel uri timeout_ms headers w
  | Throw e => (Throw e, w)
  | Undef u => (Undef u, w)
  end.
End Client.
