(* ===== verification/WsServerProps.v ===== *)
(** * What the WebSocket server does for a client, and what a client gets

    The composition of the handshake, the messages and the servlets, for headers that the
    machine of the HTTP parser accepts. *)

From stdpp Require Import base list numbers strings gmap.
From Stdlib Require Import Lia ZArith.
From S2P Require Import Prelude Endian Hash OrdMap Http HttpParser HttpGrammar Servlet Stream StreamProps Zlib.
From S2P Require Import Address HttpSession HttpSessionProps Uri HttpConnection HttpConnectionProps.
From S2P Require Import WebSocket WebSocketProps WsServer.

Section Server.
Context {K U : Type} {conn : Conn K} {user : WSUser K U} {machine : RequestMachine}.
Context (buff_size : Z) (lexical_cast : bytes -> option Z) (max_size : Z) (junk1 junk2 : Z).
Context (evp_sha1 : bytes -> bytes) (out : bytes).
Context (fnmatch : bytes -> bytes -> bool) (msg_max_size : Z).

Abbreviation session := (@SocketStream K).
Abbreviation call := (meth (U * HTTPRequest.t * session)).

(** ** The end of the messages *)

(** The client is gone, or says that it goes. *)
Definition goodbye (i : bytes) : Prop :=
  i = [] \/ exists rest, i = head_bytes (control_head CLOSE) ++ rest.

Lemma recv_goodbye i o s rounds : conn_at s i o -> goodbye i ->
  exists s', session_recv_message msg_max_size (S rounds) s = Ret (None, s') /\
    is_connected s' = false /\ s_out s' = o.
Proof.
  intros Hs [->|[rest ->]]; unfold session_recv_message; cbn [recv_loop].
  - destruct Hs as (Hc & Hi & Ho). unfold read_n, read_fixed_size.
    destruct (read_fixed_loop_short (Z.to_nat 2) (to_signed 64 2) [] s Hc) as (n & s' & -> & Hn & _ & Ho').
    { by rewrite Hi. }
    { done. }
    cbn [res_bind default from_option id]. rewrite (to_signed_small 32 n) by (unfold sfits; lia).
    destruct (Z.leb_spec n 0); [|lia]. exists (stream_close s'). split; [done|].
    split; [apply close_disconnects|]. by rewrite close_keeps_sent, Ho', Ho.
  - destruct (read_n_at _ _ o s Hs) as (s1 & Hr & Hs1); [done|done|].
    change (read_n 2 s) with (read_n (zlen (head_bytes (control_head CLOSE))) s). rewrite Hr. cbn [res_bind].
    change (head_of (head_bytes (control_head CLOSE))) with (control_head CLOSE).
    exists (stream_close s1). split; [done|]. split; [apply close_disconnects|].
    rewrite close_keeps_sent. apply Hs1.
Qed.

(** ** What a servlet does *)

(** A call that ends with zero, changes the state of the user by [step] and sends [says]. *)
Definition does (f : call Z) (step : U -> U) (says : U -> bytes) : Prop :=
  forall u req s i o, conn_at s i o ->
    exists req' s', f (u, req, s) = (Ret 0, (step u, req', s')) /\ conn_at s' i (o ++ says u).

(** The same for a call on a session that is closed: it sends nothing. *)
Definition does_closed (f : call Z) (step : U -> U) : Prop :=
  forall u req s, is_connected s = false ->
    exists rt req' s', f (u, req, s) = (Ret rt, (step u, req', s')) /\ s_out s' = s_out s.

(** The result of a callback is dropped: whatever [m_connect] returns, the client is served,
    and whatever [m_handle] returns, the next message is. *)
Lemma call_if_does cb (f : Z -> call Z) rt step says :
  (forall u req s i o, conn_at s i o ->
     exists req' s', f cb (u, req, s) = (Ret (rt u), (step u, req', s')) /\ conn_at s' i (o ++ says u)) ->
  does (call_if (Some cb) f) step says.
Proof.
  intros Hf u req s i o Hs. destruct (Hf u req s i o Hs) as (req' & s' & E & Hs').
  exists req', s'. split; [|done]. unfold call_if. by rewrite (bind_ret _ _ _ _ _ E).
Qed.

Lemma call_none_does (f : Z -> call Z) : does (call_if None f) id (fun _ => []).
Proof. intros u req s i o Hs. exists req, s. by rewrite app_nil_r. Qed.

(** ** The loop over the messages *)

(** A message as the client sends it: the opcode and the fragments. *)
Definition message_of (m : Z * list frag) : WSFrameMessage := MkMessage m.1 (all_parts m.2).

Definition sendable (rounds : nat) (m : Z * list frag) : Prop :=
  (m.1 = TEXT_FRAME \/ m.1 = BIN_FRAME) /\ m.2 <> [] /\ Forall frag_ok m.2 /\
  zlen (all_parts m.2) < msg_max_size /\ (length m.2 + all_pings m.2 <= rounds)%nat.

(** The servlet does that for the messages at hand. *)
Definition handles (slt : Servlet) (step : WSFrameMessage -> U -> U) (says : WSFrameMessage -> U -> bytes)
    (m : Z * list frag) : Prop :=
  does (ws_handle slt (message_of m)) (step (message_of m)) (says (message_of m)).

Definition on_wire (ms : list (Z * list frag)) : bytes := flat_map (fun m => wires true m.1 m.2) ms.

(** The state of the user after the messages, and what is sent meanwhile: the pongs and
    then what the servlet says, message by message. *)
Definition after (step : WSFrameMessage -> U -> U) (u : U) (ms : list (Z * list frag)) : U :=
  foldl (fun u m => step (message_of m) u) u ms.

Fixpoint said (step : WSFrameMessage -> U -> U) (says : WSFrameMessage -> U -> bytes) (u : U)
    (ms : list (Z * list frag)) : bytes :=
  match ms with
  | [] => []
  | m :: ms => pings (all_pings m.2) PONG ++ says (message_of m) u ++ said step says (step (message_of m) u) ms
  end.

Lemma next_message_ok rounds (u : U) req m rest o s : conn_at s (wires true m.1 m.2 ++ rest) o -> sendable rounds m ->
  msg_max_size <= 2 ^ 31 ->
  exists s', next_message msg_max_size rounds (u, req, s) = (Ret (Some (message_of m)), (u, req, s')) /\
    conn_at s' rest (o ++ pings (all_pings m.2) PONG).
Proof.
  intros Hs (Hop & Hne & Hf & Hmax & Hr) H31. destruct m as [op fs]. cbn [fst snd] in *.
  destruct (recv_frags true true msg_max_size fs op 0 [] rest o s (rounds - (length fs + all_pings fs)) Hs)
    as (s' & Hs' & E); try done; [by destruct Hop as [->| ->]|].
  replace (length fs + all_pings fs + (rounds - (length fs + all_pings fs)))%nat with rounds in E by lia.
  exists s'. split; [|done]. unfold next_message, session_recv_message.
  change (recv_loop true msg_max_size rounds 0 [] 0 s)
    with (recv_loop true msg_max_size rounds 0 [] (zlen (@nil Z)) s).
  rewrite E. by destruct Hop as [->| ->].
Qed.

Lemma message_loop_step fuel rounds slt (x y z : U * HTTPRequest.t * session) m :
  next_message msg_max_size rounds x = (Ret (Some m), y) -> ws_handle slt m y = (Ret 0, z) ->
  message_loop msg_max_size (S fuel) rounds slt x = message_loop msg_max_size fuel rounds slt z.
Proof.
  intros E1 E2. cbn [message_loop]. by rewrite (bind_ret _ _ _ _ _ E1), (bind_ret _ _ _ _ _ E2).
Qed.

Lemma message_loop_ok slt step says rounds bye : msg_max_size <= 2 ^ 31 -> goodbye bye ->
  forall ms extra u req s o, Forall (handles slt step says) ms -> Forall (sendable (S rounds)) ms -> conn_at s (on_wire ms ++ bye) o ->
  exists req' s',
    message_loop msg_max_size (S (length ms + extra)) (S rounds) slt (u, req, s) =
      (Ret tt, (after step u ms, req', s')) /\
    is_connected s' = false /\ s_out s' = o ++ said step says u ms.
Proof.
  intros H31 Hbye. induction ms as [|m ms IH]; intros extra u req s o Hh Hms Hs.
  - destruct (recv_goodbye bye o s rounds Hs Hbye) as (s' & E & Hc & Ho). exists req, s'.
    cbn [message_loop length Nat.add]. unfold bind, next_message. rewrite E. by rewrite app_nil_r.
  - apply Forall_cons in Hms as [Hm Hms]. apply Forall_cons in Hh as [Hhm Hh]. cbn [on_wire flat_map] in Hs. rewrite <- app_assoc in Hs.
    destruct (next_message_ok (S rounds) u req m _ o s Hs Hm H31) as (s1 & E1 & Hs1).
    destruct (Hhm u req s1 _ _ Hs1) as (req2 & s2 & E2 & Hs2).
    destruct (IH extra (step (message_of m) u) req2 s2 _ Hh Hms Hs2) as (req3 & s3 & E3 & Hc & Ho).
    exists req3, s3. split; [exact (eq_trans (message_loop_step _ _ _ _ _ _ _ E1 E2) E3)|]. split; [done|]. rewrite Ho. cbn [said]. by rewrite <- !app_assoc.
Qed.

(** ** A client of the server *)

Abbreviation serve := (ws_handle_client buff_size lexical_cast max_size junk1 junk2 evp_sha1 out fnmatch msg_max_size).

Lemma session_shake_ok rounds h r req rsp tail client s1 :
  conn_up client = true -> 0 < buff_size <= max_size -> accepts junk1 junk2 h r -> inbox client = h ++ tail ->
  socket_read buff_size (MkStream (Some client) true) = (zlen h, h, s1) -> announced lexical_cast r <= 0 ->
  handle_shake evp_sha1 out lexical_cast (Some (HTTPRequest.init r)) = Ret (Some (req, rsp)) ->
  zlen (HTTPResponse.dump rsp) < 2 ^ 31 ->
  exists s, session_handle_shake buff_size lexical_cast max_size junk1 junk2 evp_sha1 out (S rounds)
      (MkStream (Some client) true) = (Ret (Some req), s) /\
    conn_at s tail (outbox client ++ HTTPResponse.dump rsp).
Proof.
  intros Hup Hb Ha Hin Hr Hann Hsh Hz. pose proof (zlen_nonneg tail).
  destruct (recv_request_ok buff_size lexical_cast max_size junk1 junk2 rounds h r tail
    (MkStream (Some client) true) (zlen h) h s1) as (s' & E & Hi & Ho & Hc); try done; try lia.
  assert (with_body lexical_cast r tail = HTTPRequest.init r) as Hwb.
  { unfold with_body. by destruct (Z.ltb_spec 0 (announced lexical_cast r)); [lia|]. }
  rewrite Hwb in E. rewrite Z.sub_diag, zdrop_neg in Hi by lia.
  destruct (write_fixed_size_ok (HTTPResponse.dump rsp) s' Hc Hz) as (s2 & Ew & Ho2 & Hi2 & Hc2).
  exists s2. unfold session_handle_shake. rewrite (bind_ret _ _ _ _ _ E), Hsh. unfold bind, send_response.
  rewrite Ew. split; [done|]. split; [done|]. split; [by rewrite Hi2|]. by rewrite Ho2, Ho.
Qed.

Lemma ws_serve_ok slt hello greet step says bye_step fuel rounds ms bye u req s o :
  does (on_connect slt) hello greet -> Forall (handles slt step says) ms -> does_closed (on_close slt) bye_step -> msg_max_size <= 2 ^ 31 -> goodbye bye ->
  Forall (sendable (S rounds)) ms -> (length ms < fuel)%nat -> conn_at s (on_wire ms ++ bye) o ->
  exists req' s', ws_serve msg_max_size fuel (S rounds) slt (u, req, s) =
      (Ret tt, (bye_step (after step (hello u) ms), req', s')) /\
    s_out s' = o ++ greet u ++ said step says (hello u) ms.
Proof.
  intros Hcon Hh Hcl H31 Hbye Hms Hf Hs. unfold ws_serve.
  destruct (Hcon u req s _ _ Hs) as (req1 & s1 & E1 & Hs1). rewrite (bind_ret _ _ _ _ _ E1). cbn [Z.eqb negb].
  replace fuel with (S (length ms + (fuel - S (length ms))))%nat by lia.
  destruct (message_loop_ok slt step says rounds bye H31 Hbye ms (fuel - S (length ms)) (hello u) req1 s1 _ Hh Hms Hs1)
    as (req2 & s2 & E2 & Hc2 & Ho2).
  rewrite (bind_ret _ _ _ _ _ E2).
  destruct (Hcl (after step (hello u) ms) req2 s2 Hc2) as (rt & req3 & s3 & E3 & Ho3).
  rewrite (bind_ret _ _ _ _ _ E3). exists req3, s3. split; [done|]. by rewrite Ho3, Ho2, app_assoc.
Qed.

(** C10: A client of the WebSocket server is served from the handshake to the end: the server
    answers the upgrade, calls the matching servlet's [on_connect] once, its [handle] once for
    every message, in their order and with the message put together from its fragments, and
    [on_close] once, on a session that is closed already; every ping is answered before the
    message it belongs to is handled, what the servlet says is sent in between, and the
    connection is closed.  A path without a WebSocket servlet gets the handshake and is then
    closed. *)
Theorem ws_client_served fuel rounds srv client u h r req rsp ms bye s1 slt hello greet step says bye_step :
  conn_up client = true -> 0 < buff_size <= max_size -> accepts junk1 junk2 h r ->
  inbox client = h ++ on_wire ms ++ bye ->
  socket_read buff_size (MkStream (Some client) true) = (zlen h, h, s1) -> announced lexical_cast r <= 0 ->
  handle_shake evp_sha1 out lexical_cast (Some (HTTPRequest.init r)) = Ret (Some (req, rsp)) ->
  zlen (HTTPResponse.dump rsp) < 2 ^ 31 ->
  get_ws_servlet fnmatch (S rounds) (HTTPRequest.m_path req) (ws_dispatch srv) = Ret slt ->
  (forall x, slt = Some x -> does (on_connect x) hello greet /\ Forall (handles x step says) ms /\
     does_closed (on_close x) bye_step) ->
  msg_max_size <= 2 ^ 31 -> goodbye bye -> Forall (sendable (S rounds)) ms -> (length ms < fuel)%nat ->
  exists u' s', serve fuel (S rounds) srv client u = (Ret tt, (u', s')) /\ is_connected s' = false /\
    match slt with
    | Some _ => u' = bye_step (after step (hello u) ms) /\
        s_out s' = outbox client ++ HTTPResponse.dump rsp ++ greet u ++ said step says (hello u) ms
    | None => u' = u /\ s_out s' = outbox client ++ HTTPResponse.dump rsp
    end.
Proof.
  intros Hup Hb Ha Hin Hr Hann Hsh Hz Hslt Hdoes H31 Hbye Hms Hf. unfold ws_handle_client.
  destruct (session_shake_ok rounds h r req rsp _ client s1 Hup Hb Ha Hin Hr Hann Hsh Hz) as (s & E & Hs).
  rewrite E, Hslt. destruct slt as [slt|].
  - destruct (Hdoes slt eq_refl) as (Hcon & Hh & Hcl).
    destruct (ws_serve_ok slt hello greet step says bye_step fuel rounds ms bye u req s _ Hcon Hh Hcl H31 Hbye Hms Hf Hs)
      as (req' & s' & E' & Ho).
    rewrite E'. exists (bye_step (after step (hello u) ms)), (stream_close s').
    split; [done|]. split; [apply close_disconnects|]. split; [done|].
    by rewrite close_keeps_sent, Ho, <- app_assoc.
  - exists u, (stream_close s). split; [done|]. split; [apply close_disconnects|]. split; [done|].
    rewrite close_keeps_sent. apply Hs.
Qed.
End Server.

(** ** A client that connects *)

Section Client.
Context {K : Type} {conn : Conn K} {machine : ResponseMachine} {ZS : Type} {zlib : Zlib ZS}.
Context (buffer_size : Z) (lexical_cast : bytes -> option Z) (max_size : Z) (junk : Z).
Context {W : Type}.
Context (host : endian) (getaddrinfo : bytes -> option bytes -> option (list sockaddr)).
Context (dial : bool -> Address -> W -> option K * W) (set_recv_timeout : Z -> K -> K).
Context (sec_key : bytes).

Abbreviation create := (ws_Create (ZS := ZS) buffer_size lexical_cast max_size junk host getaddrinfo dial
  set_recv_timeout sec_key).

(** A response without a body. *)
Lemma recv_head_only fuel h r tail s n b s1 :
  is_connected s = true -> 0 < buffer_size -> s_in s = h ++ tail ->
  ends_at (http_response_parser_init junk) h (HTTPResponse.new_response 17 true) r (fun q => rs_chunked q = 0) ->
  socket_read buffer_size s = (n, b, s1) -> zlen h <= n -> rs_announced lexical_cast r <= 0 ->
  recv_response (ZS := ZS) buffer_size lexical_cast max_size junk (S fuel) s = (Ret (Some r), s1) /\
  s_in s1 = zdrop (n - zlen h) tail /\ s_out s1 = s_out s /\ is_connected s1 = true.
Proof.
  intros Hc Hb Hin Ha Hr Hn Hz.
  destruct (response_loop_ok buffer_size junk fuel h r _ tail s n b s1 Hc Hb Hin Ha Hr Hn)
    as (p & E & Hd & _ & (q & cs & Hq & Hp) & Hi & Ho & Hc1 & _).
  unfold recv_response. rewrite (bind_ret _ _ _ _ _ E), Hp. cbn [ran rs_chunked]. rewrite Hq. cbn [Z.eqb negb].
  unfold response_content_length. rewrite Hd. fold (rs_announced lexical_cast r).
  by destruct (Z.ltb_spec 0 (rs_announced lexical_cast r)); [lia|].
Qed.

(** The connecting of a client, on each branch: without an address or a connection it fails
    and nothing is sent; otherwise the request for the upgrade is sent, and the status of the
    response alone decides.  With 101 the connection is returned, and what came with the
    header beyond it is lost; the value of [Sec-WebSocket-Accept] is not looked at. *)
Theorem ws_connects fuel uri timeout headers w :
  (create_address host getaddrinfo uri = None -> create fuel uri timeout headers w = (Ret (MkResult None INVALID_HOST, None), w)) /\
  forall addr, create_address host getaddrinfo uri = Some addr ->
    (forall w', dial false addr w = (None, w') ->
       create fuel uri timeout headers w = (Ret (MkResult None CONNECT_FAIL, None), w')) /\
    (forall k w' req data h r tail,
       dial false addr w = (Some k, w') -> make_ws_request sec_key uri headers = Ret req ->
       HTTPRequest.dump req = Ret data -> 0 < zlen data < 2 ^ 31 ->
       let k' := set_recv_timeout timeout k in
       conn_up k' = true -> 0 < buffer_size -> inbox k' = h ++ tail ->
       ends_at (http_response_parser_init junk) h (HTTPResponse.new_response 17 true) r (fun q => rs_chunked q = 0) ->
       rs_announced lexical_cast r <= 0 ->
       (forall s n b s1, is_connected s = true -> s_in s = h ++ tail -> socket_read buffer_size s = (n, b, s1) ->
          zlen h <= n) ->
       exists s', s_out s' = outbox k' ++ data /\
         create (S fuel) uri timeout headers w =
           (Ret (if HTTPResponse.m_status r =? 101 then (MkResult (Some r) RESULT_OK, Some s')
                 else (MkResult None INVALID_PROTOCOLS, None)), w')).
Proof.
  unfold ws_Create. split; [by intros ->|]. intros addr ->. split; [by intros w' ->|].
  intros k w' req data h r tail -> -> Hdump Hz. set (k' := set_recv_timeout timeout k). intros Hup Hb Hin Ha Hann Hone.
  destruct (write_fixed_size_ok data (MkStream (Some k') true) Hup ltac:(lia)) as (s2 & Ew & Ho2 & Hi2 & Hc2).
  destruct (socket_read buffer_size s2) as [[n b] s1] eqn:Hr.
  assert (s_in s2 = h ++ tail) as Hin2 by (by rewrite Hi2).
  destruct (recv_head_only fuel h r tail s2 n b s1 Hc2 Hb Hin2 Ha Hr (Hone _ _ _ _ Hc2 Hin2 Hr) Hann)
    as (E & _ & Ho & _).
  exists s1. split; [by rewrite Ho, Ho2|]. unfold upgrade, send_request. unfold bind at 1. rewrite Hdump.
  rewrite Ew. destruct (Z.eqb_spec (zlen data) 0); [lia|]. destruct (Z.ltb_spec (zlen data) 0); [lia|].
  rewrite (bind_ret _ _ _ _ _ E). by destruct (HTTPResponse.m_status r =? 101).
Qed.
End Client.

(** ** A servlet that sends every message back *)

(** The user's state counts the clients that came, lists the messages, and counts the clients
    that went. *)
Definition seen : Type := Z * list WSFrameMessage * Z.

#[local] Instance echo_user {K} {conn : Conn K} : WSUser K seen := {|
  connect_cb _ := fun '(c, l, d, req, s) => (Ret 7, (c + 1, l, d, req, s));
  close_cb _ := fun '(c, l, d, req, s) => (Ret 7, (c, l, d + 1, req, s));
  handle_cb _ msg := fun '(c, l, d, req, s) =>
    match session_send_message msg true s with
    | Ret (r, s) => (Ret r, (c, l ++ [msg], d, req, s))
    | Throw e => (Throw e, (c, l, d, req, s))
    | Undef b => (Undef b, (c, l, d, req, s))
    end;
  user_connect _ := ret 0; user_close _ := ret 0; user_handle _ _ := ret 0 |}.

Definition echo_servlet : Servlet := FunctionWSServlet (Some 0) (Some 0) (Some 0).

Definition echo_step (msg : WSFrameMessage) (u : seen) : seen := let '(c, l, d) := u in (c, l ++ [msg], d).

Definition echo_says (msg : WSFrameMessage) (u : seen) : bytes := wire false (m_opcode msg) true 0 (m_data msg).

Section Echo.
Context {K : Type} {conn : Conn K}.

Lemma echo_connects : does (K := K) (on_connect echo_servlet) (fun '(c, l, d) => (c + 1, l, d)) (fun _ => []).
Proof.
  apply (call_if_does 0 _ (fun _ => 7)). intros [[c l] d] req s i o Hs. exists req, s. by rewrite app_nil_r.
Qed.

Lemma echo_closes : does_closed (K := K) (on_close echo_servlet) (fun '(c, l, d) => (c, l, d + 1)).
Proof. intros [[c l] d] req s Hs. by exists 0, req, s. Qed.

Lemma echo_handles max rounds m : sendable max rounds m -> max < 2 ^ 31 - 2 ->
  handles (K := K) echo_servlet echo_step echo_says m.
Proof.
  intros (Hop & Hne & Hf & Hz & _) Hmax.
  apply (call_if_does 0 (fun cb => handle_cb cb (message_of m)) (fun _ => zlen (all_parts m.2) + 2)).
  intros [[c l] d] req s i o Hs. destruct m as [op [|f fs]]; [done|]. cbn [fst snd] in *.
  destruct (session_send_at (message_of (op, f :: fs)) true 0 i o s Hs) as (s' & E & Hs').
  - cbn. unfold TEXT_FRAME, BIN_FRAME in Hop. lia.
  - apply Forall_cons in Hf as [[Hf _] _]. cbn. unfold all_parts. cbn. by destruct (f_part f).
  - cbn [m_data message_of snd]. lia.
  - exists req, s'. cbn [handle_cb echo_user]. rewrite E. by split.
Qed.
End Echo.

Definition upgrade_header : bytes :=
  str "GET /chat HTTP/1.1" ++ crlf ++ str "Upgrade: websocket" ++ crlf ++ str "Connection: Upgrade" ++ crlf
  ++ str "Sec-WebSocket-Version: 13" ++ crlf ++ str "Sec-WebSocket-Key: k" ++ crlf ++ crlf.

Definition upgrade_events (rest : bytes) : list event :=
  [Element request_method 0 3; Element request_path 4 5; Element request_uri 4 5; Element http_version 10 8;
   Field 20 7 29 9; Field 40 10 52 7; Field 61 21 84 2; Field 88 17 107 1;
   Element header_done 112 (zlen (upgrade_header ++ rest) - 111 - 1)].

(** The machine of the parser on the header. *)
Definition upgrade_exec : http_request_parser * request_state * Z * list event :=
  request_exec (http_request_parser_init 0 0) upgrade_header.

Definition upgrade_request : HTTPRequest.t :=
  HTTPRequest.set_header (str "Sec-WebSocket-Key") (str "k")
    (HTTPRequest.set_header (str "Sec-WebSocket-Version") (str "13")
      (HTTPRequest.set_header (str "Connection") (str "Upgrade")
        (HTTPRequest.set_header (str "Upgrade") (str "websocket")
          (HTTPRequest.set_version 17 (HTTPRequest.set_path (str "/chat")
             (HTTPRequest.set_method GET (HTTPRequest.new_request 17 true))))))).

Lemma accepts_upgrade : accepts 0 0 upgrade_header upgrade_request.
Proof.
  split; [done|]. split; [discriminate|]. intros rest.
  exists upgrade_exec.1.1.1, upgrade_exec.1.1.2, (upgrade_events rest).
  split; [split; vm_compute; reflexivity|].
  split; [vm_compute; split_and!; discriminate || reflexivity|]. split; [vm_compute; reflexivity|].
  eexists (MkRequestParser (http_request_parser_init 0 0) upgrade_request 0). split; [|done].
  unfold upgrade_events. cbn [run_events on_request_event].
  rewrite !cut_app by (vm_compute; discriminate). reflexivity.
Qed.

Definition chat : Z * list frag := (TEXT_FRAME, [MkFrag 1 12345 (str "h"); MkFrag 0 7 (str "i")]).
Definition chat_client : pipe := MkPipe true 111 (upgrade_header ++ on_wire [chat]) [].
Definition chat_server : WSServer :=
  MkWSServer (ws_add_servlet_fn (str "/chat") (Some 0) (Some 0) (Some 0) new_WSServletDispatch).

Definition shaken : HTTPRequest.t * HTTPResponse.t :=
  match handle_shake (fun _ => str "digest") (zrepeat 21 0) number (Some (HTTPRequest.init upgrade_request)) with
  | Ret (Some x) => x
  | _ => (upgrade_request, HTTPResponse.new_response 17 true)
  end.

(** The client says hi in two fragments, with a ping before, and goes. *)
Lemma ws_client_served_witness : exists s',
  ws_handle_client 4096 number 8192 0 0 (fun _ => str "digest") (zrepeat 21 0) (fun _ _ => false) 1000 2 3
    chat_server chat_client ((0, [], 0) : seen) = (Ret tt, ((1, [MkMessage TEXT_FRAME (str "hi")], 1), s')) /\
  s_out s' = HTTPResponse.dump shaken.2 ++ pings 1 PONG ++ wire false TEXT_FRAME true 0 (str "hi").
Proof.
  assert (Forall (sendable 1000 3) [chat]) as Hms.
  { repeat constructor; cbn; try done; try lia; try discriminate; by left. }
  destruct (ws_client_served 4096 number 8192 0 0 (fun _ => str "digest") (zrepeat 21 0) (fun _ _ => false) 1000 2 2
    chat_server chat_client (0, [], 0) upgrade_header upgrade_request shaken.1 shaken.2 [chat] []
    (MkStream (Some (MkPipe true 111 (on_wire [chat]) [])) true) (Some echo_servlet)
    (fun '(c, l, d) => (c + 1, l, d)) (fun _ => []) echo_step echo_says (fun '(c, l, d) => (c, l, d + 1)))
    as (u' & s' & E & _ & Hu & Ho).
  - reflexivity.
  - split; [reflexivity|discriminate].
  - exact accepts_upgrade.
  - reflexivity.
  - vm_compute. reflexivity.
  - vm_compute. discriminate.
  - vm_compute. reflexivity.
  - vm_compute. reflexivity.
  - vm_compute. reflexivity.
  - intros x [= <-]. split; [exact echo_connects|]. split; [|exact echo_closes].
    eapply Forall_impl; [exact Hms|]. intros m Hm. exact (echo_handles _ _ _ Hm eq_refl).
  - discriminate.
  - by left.
  - exact Hms.
  - cbn. lia.
  - subst u'. exists s'. split; [exact E|]. rewrite Ho. vm_compute. reflexivity.
Defined.
